(** * Simulated-clock advancement and retry/reconciliation engine

    A shallow embedding of the test-clock scripts
    ([scripts/generate_date.py], [scripts/generate_upgrade.py],
    [scripts/generate_past_due_new.py]) and the properties of their
    clock-advance, cycle-scheduling, dunning and reconciliation code.

    The remote billing platform is an arbitrary environment [Env]: every
    endpoint answers as a function of the history of effects so far, with
    a reply or an exception.  The scripts run in a state-and-exception
    monad [M] over a [World] that holds the wall clock ([time.time()]),
    the trace of effects (remote calls, sleeps, draws, printed lines) and the
    [summary] counters of [generate_date.main].

    The cleanups and the upgrade of a subscription talk to other
    endpoints and keep no clock: they run in a smaller monad [K] over a
    [Desk] that holds the book of their steps.  [_load_dotenv] and the
    names the scripts give and look for are functions on text. *)

From Stdlib Require Import ZArith QArith Qpower List String Ascii DecimalString Bool
  Lia Lqa.
Import ListNotations.
Local Open Scope string_scope.
Local Open Scope Z_scope.

Set Implicit Arguments.

(* ------------------------------------------------------------------ *)
(** ** Python values *)

(** Exceptions the scripts raise or let through. *)
Inductive exn : Type :=
| RateLimitError                                  (* stripe.error.RateLimitError *)
| StripeError                                     (* any other error of the client library *)
| RuntimeError (clock_id : string) (attempts : Z) (* 'Failed to advance test clock {id} after {n} attempts' *)
| RuntimeErrorText (msg : string)                 (* the other RuntimeErrors of the scripts *)
| ValueError
| TimeoutError (clock_id : string) (budget : Z) (requested : option Z) (status : option string)
| KeyError (key : string)
| AttributeError (name : string)
| TypeError
| ZeroDivisionError
| OverflowError
| OSError.

(** Result of a pure computation that may raise. *)
Inductive result (A : Type) : Type :=
| Val (a : A)
| Exc (e : exn).
Arguments Exc {A} e.

(** Truthiness of the values that go through [x or y] and [if x:]. *)
Definition truthy_int (n : Z) : bool := negb (n =? 0).
Definition truthy_str (s : string) : bool := negb (String.eqb s "").

(** [a or b] on values that may be [None]. *)
Definition py_or {A : Type} (truthy : A -> bool) (a b : option A) : option A :=
  match a with
  | Some v => if truthy v then a else b
  | None => b
  end.

(** [getattr(o, f, None) or (o.get(f) if hasattr(o, 'get') else None)]:
    a response object stores one value per field, read alike as attribute
    and as key; [has_get] says whether the object offers [.get]. *)
Definition attr_or_get {A : Type} (truthy : A -> bool) (has_get : bool)
    (field : option A) : option A :=
  py_or truthy field (if has_get then field else None).

(** [x in ('open', 'draft')]. *)
Definition open_or_draft (st : option string) : bool :=
  match st with
  | Some s => String.eqb s "open" || String.eqb s "draft"
  | None => false
  end.

Definition status_is (st : option string) (s : string) : bool :=
  match st with
  | Some s' => String.eqb s' s
  | None => false
  end.

(** [min(a, b)] of Python: the first argument unless the second is smaller. *)
Definition Qltb (a b : Q) : bool := negb (Qle_bool b a).
Definition py_min (a b : Q) : Q := if Qltb b a then b else a.

(* ------------------------------------------------------------------ *)
(** ** Response objects of the remote platform *)

Record ClockObj : Type := mkClock {
  clk_id : string;
  clk_has_get : bool;
  clk_frozen_time : option Z;
  clk_status : option string
}.

Record PaymentIntent : Type := mkPI {
  pi_has_get : bool;
  pi_id : option string;
  pi_status : option string;
  pi_last_payment_error : bool
}.

Record InvoiceObj : Type := mkInvoice {
  inv_has_get : bool;
  inv_id : string;
  inv_status : option string;
  inv_created : option Z;
  inv_attempt_count : option Z;
  inv_next_payment_attempt : option Z;
  inv_payment_intent : option PaymentIntent
}.

Record SubscriptionObj : Type := mkSub {
  sub_id : string;
  sub_has_get : bool;
  sub_status : option string;
  sub_latest_invoice : option InvoiceObj;
  sub_current_period_start : option Z;
  sub_current_period_end : option Z;
  sub_billing_cycle_anchor : option Z
}.

Record PaymentMethodObj : Type := mkPM {
  pm_id : option string;
  pm_customer : option string
}.

(* ------------------------------------------------------------------ *)
(** ** Effects *)

Inductive Request : Type :=
| ClockCreate (frozen_time : Z) (name : string)
| ClockRetrieve (id : string)
| ClockAdvance (id : string) (frozen_time : Z)
| CustomerCreate (email : string) (clock : string)
| CustomerModify (customer : string) (default_pm : string)
| PaymentMethodCreate (token : string)
| PaymentMethodRetrieve (id : string)
| PaymentMethodAttach (id : string) (customer : string)
| SubscriptionCreate (customer : string) (price : string) (anchor : Z)
| SubscriptionRetrieve (id : string)
| SubscriptionDelete (id : string)
| SubscriptionCancelAtPeriodEnd (id : string)
| InvoiceList (customer : string)
| InvoiceRetrieve (id : string)
| InvoiceFinalize (id : string)
| InvoicePay (id : string).

Inductive Msg : Type :=
| WarnNotIncreasing (requested cur adj : Z)
| MsgAdvance (id : string) (from to : Z)
| MsgAdvanceDone (frozen_time : Z) (status : string)
| WarnAdvanceFailed (target : Z) (e : exn)
| MsgAutoAdvanced (id : string) (extra : Z)
| WarnAutoAdvance (id : string) (e : exn)
| MsgNoLatestInvoice (sub : string)
| MsgRound (round_idx : Z) (status : option string) (next_attempt : option Z)
| MsgAlreadyPaid
| MsgAdvancingToAttempt (id : string) (target : Z)
| MsgFallbackOneDay
| MsgRetriesFinished
| MsgRetrieved (sub : string)
| MsgPaidInvoice (id : string)
| WarnCouldNotPay (id : string) (e : exn)
| MsgText (s : string).

Inductive Event : Type :=
| Called (r : Request) (ok : bool)     (* ok: the call returned, it did not raise *)
| Slept (d : Q)
| Drew (lo hi v : Z)
| Printed (m : Msg).

Definition History := list Event.   (* newest first *)

Inductive reply (A : Type) : Type :=
| Reply (a : A)
| Error (e : exn).
Arguments Error {A} e.

(** The remote platform and the random source: each answer may depend on
    everything that happened before. *)
Record Env : Type := mkEnv {
  clock_create : History -> Z -> string -> reply ClockObj;
  clock_retrieve : History -> string -> reply ClockObj;
  clock_advance : History -> string -> Z -> reply unit;
  customer_create : History -> string -> string -> reply string;
  customer_modify : History -> string -> string -> reply unit;
  payment_method_create : History -> string -> reply PaymentMethodObj;
  payment_method_retrieve : History -> string -> reply PaymentMethodObj;
  payment_method_attach : History -> string -> string -> reply PaymentMethodObj;
  subscription_create : History -> string -> string -> Z -> reply SubscriptionObj;
  subscription_retrieve : History -> string -> reply SubscriptionObj;
  subscription_delete : History -> string -> reply unit;
  subscription_cancel_at_period_end : History -> string -> reply unit;
  invoice_list : History -> string -> reply (list InvoiceObj);
  invoice_retrieve : History -> string -> reply InvoiceObj;
  invoice_finalize : History -> string -> reply unit;
  invoice_pay : History -> string -> reply unit;
  randint : History -> Z -> Z -> Z
}.

(** The [summary] dict of [generate_date.main]. *)
Record Summary : Type := mkSummary {
  invoices_paid : Z;
  invoices_unpaid : Z
}.

Record World : Type := mkWorld {
  now : Q;
  trace : History;
  summary : Summary
}.

(** How a run of a piece of script ends.  [Diverged] is the loop model
    running out of its iteration budget; the budgets are chosen so that
    it is never reached (see [poll_ready_total] and the like). *)
Inductive outcome (A : Type) : Type :=
| Ok (a : A)
| Raise (e : exn)
| Diverged.
Arguments Raise {A} e.
Arguments Diverged {A}.

Definition M (A : Type) : Type := World -> outcome A * World.

Definition ret {A : Type} (a : A) : M A := fun w => (Ok a, w).

Definition bind {A B : Type} (c : M A) (k : A -> M B) : M B :=
  fun w =>
    match c w with
    | (Ok a, w') => k a w'
    | (Raise e, w') => (Raise e, w')
    | (Diverged, w') => (Diverged, w')
    end.

Declare Scope py_scope.
Delimit Scope py_scope with py.
Notation "x <- c ;; k" := (bind c (fun x => k))
  (at level 61, c at next level, right associativity) : py_scope.
Notation "c ;; k" := (bind c (fun _ => k))
  (at level 61, right associativity) : py_scope.
Local Open Scope py_scope.

Definition raise {A : Type} (e : exn) : M A := fun w => (Raise e, w).

Definition diverge {A : Type} : M A := fun w => (Diverged, w).

(** [try: c  except Exception as e: h e]. *)
Definition try_except {A : Type} (c : M A) (h : exn -> M A) : M A :=
  fun w =>
    match c w with
    | (Raise e, w') => h e w'
    | r => r
    end.

(** [try: c] with the exception, if any, handed back as a value. *)
Definition attempt {A : Type} (c : M A) : M (result A) :=
  try_except (a <- c ;; ret (Val a)) (fun e => ret (Exc e)).

Definition lift {A : Type} (r : result A) : M A :=
  match r with
  | Val a => ret a
  | Exc e => raise e
  end.

Definition emit (ev : Event) : M unit :=
  fun w => (Ok tt, mkWorld (now w) (ev :: trace w) (summary w)).

Definition print (m : Msg) : M unit := emit (Printed m).

(** [time.time()] and [time.sleep(d)]: the wall clock moves by sleeping;
    remote calls take no time in the model, so every wait loop runs its
    largest number of rounds. *)
Definition time_time : M Q := fun w => (Ok (now w), w).

Definition sleep (d : Q) : M unit :=
  fun w => (Ok tt, mkWorld (now w + d)%Q (Slept d :: trace w) (summary w)).

(** A remote call: the environment answers from the history before the
    call, and the call is recorded whether it succeeds or raises. *)
Definition remote {A : Type} (req : Request) (answer : History -> reply A) : M A :=
  fun w =>
    match answer (trace w) with
    | Reply a => (Ok a, mkWorld (now w) (Called req true :: trace w) (summary w))
    | Error e => (Raise e, mkWorld (now w) (Called req false :: trace w) (summary w))
    end.

Definition paid_incr : M unit :=
  fun w => (Ok tt, mkWorld (now w) (trace w)
                     (mkSummary (invoices_paid (summary w) + 1) (invoices_unpaid (summary w)))).

Definition unpaid_incr : M unit :=
  fun w => (Ok tt, mkWorld (now w) (trace w)
                     (mkSummary (invoices_paid (summary w)) (invoices_unpaid (summary w) + 1))).

(** [o[key]] and [o.attr] on a field that may be missing. *)
Definition subscript {A : Type} (key : string) (field : option A) : result A :=
  match field with
  | Some v => Val v
  | None => Exc (KeyError key)
  end.

Definition attribute {A : Type} (name : string) (field : option A) : result A :=
  match field with
  | Some v => Val v
  | None => Exc (AttributeError name)
  end.

(** [o.get(key)]: needs the method. *)
Definition dict_get {A : Type} (has_get : bool) (field : option A) : result (option A) :=
  if has_get then Val field else Exc (AttributeError "get").

(** [dt(ts)] of [generate_past_due_new.py] (lines 42-43):
    [datetime.fromtimestamp(ts, tz=timezone.utc).strftime(...)].  The
    years 1 to 9999 have a text; outside them the call raises, ValueError
    first and further out the OSError and the OverflowError of the
    platform's [time_t] (CPython 3.11 on 64-bit Linux).  The text itself
    is not kept: a print keeps the fixed part of its line. *)
Definition dt_min : Z := -62135596800.    (* 0001-01-01 00:00:00 UTC *)
Definition dt_max : Z := 253402300799.    (* 9999-12-31 23:59:59 UTC *)

Definition has_date (ts : Z) : bool := (dt_min <=? ts) && (ts <=? dt_max).

Definition dt (ts : Z) : result unit :=
  if has_date ts then Val tt
  else if (-67768040609740800 <=? ts) && (ts <=? 67768036191676799) then Exc ValueError
  else if (-9223372036854775808 <=? ts) && (ts <=? 9223372036854775807) then Exc OSError
  else Exc OverflowError.

(* ------------------------------------------------------------------ *)
(** ** The scripts *)

Section Scripts.

Variable env : Env.

(** *** Remote endpoints *)

Definition TestClock_create (frozen_time : Z) (name : string) : M ClockObj :=
  remote (ClockCreate frozen_time name) (fun h => clock_create env h frozen_time name).

Definition TestClock_retrieve (id : string) : M ClockObj :=
  remote (ClockRetrieve id) (fun h => clock_retrieve env h id).

Definition TestClock_advance (id : string) (frozen_time : Z) : M unit :=
  remote (ClockAdvance id frozen_time) (fun h => clock_advance env h id frozen_time).

Definition Subscription_retrieve (id : string) : M SubscriptionObj :=
  remote (SubscriptionRetrieve id) (fun h => subscription_retrieve env h id).

Definition Subscription_delete (id : string) : M unit :=
  remote (SubscriptionDelete id) (fun h => subscription_delete env h id).

Definition Subscription_cancel_at_period_end (id : string) : M unit :=
  remote (SubscriptionCancelAtPeriodEnd id)
         (fun h => subscription_cancel_at_period_end env h id).

Definition Invoice_list (customer : string) : M (list InvoiceObj) :=
  remote (InvoiceList customer) (fun h => invoice_list env h customer).

Definition Invoice_retrieve (id : string) : M InvoiceObj :=
  remote (InvoiceRetrieve id) (fun h => invoice_retrieve env h id).

Definition Invoice_finalize_invoice (id : string) : M unit :=
  remote (InvoiceFinalize id) (fun h => invoice_finalize env h id).

Definition Invoice_pay (id : string) : M unit :=
  remote (InvoicePay id) (fun h => invoice_pay env h id).

(** *** [generate_date.py] / [generate_upgrade.py]: [advance_test_clock] *)

(** Lines 69-73: the current frozen time as the script sees it. *)
Definition observed_frozen_time (tc : ClockObj) : option Z :=
  attr_or_get truthy_int (clk_has_get tc) (clk_frozen_time tc).

Definition observed_status (tc : ClockObj) : option string :=
  attr_or_get truthy_str (clk_has_get tc) (clk_status tc).

Definition read_current (clock_id : string) : M (option Z) :=
  try_except (tc <- TestClock_retrieve clock_id ;; ret (observed_frozen_time tc))
             (fun _ => ret None).

(** Lines 75-76: the monotonicity bump. *)
Definition effective_target (cur : option Z) (frozen_time : Z) : Z :=
  match cur with
  | Some c => if frozen_time <=? c then c + 1 else frozen_time
  | None => frozen_time
  end.

Definition max_advance_attempts : Z := 8.
Definition initial_backoff : Q := 1 # 2.
Definition next_backoff (backoff : Q) : Q := py_min (backoff * (3 # 2)) 5.

(** Lines 82-94: [for attempt in range(max_advance_attempts)]; the result
    is the flag [advanced]. *)
Fixpoint advance_attempts (clock_id : string) (frozen_time : Z)
    (attempts : nat) (backoff : Q) : M bool :=
  match attempts with
  | O => ret false
  | S n =>
      r <- attempt (TestClock_advance clock_id frozen_time) ;;
      match r with
      | Val _ => ret true
      | Exc _ =>
          sleep backoff ;;
          advance_attempts clock_id frozen_time n (next_backoff backoff)
      end
  end.

(** Line 107: the exit test of the poll. *)
Definition poll_accepts (tc2 : ClockObj) (frozen_time : Z) : bool :=
  status_is (observed_status tc2) "ready"
  && match observed_frozen_time tc2 with
     | None => true
     | Some new_frozen => new_frozen >=? frozen_time
     end.

Definition poll_timeout : Z := 60.

(** Lines 102-113: [while True]. *)
Fixpoint poll_ready (budget : nat) (clock_id : string) (frozen_time : Z)
    (start : Q) : M ClockObj :=
  match budget with
  | O => diverge
  | S n =>
      r <- attempt (TestClock_retrieve clock_id) ;;
      let again :=
        t <- time_time ;;
        if Qltb (inject_Z poll_timeout) (t - start)
        then raise (TimeoutError clock_id poll_timeout (Some frozen_time) None)
        else sleep 1 ;; poll_ready n clock_id frozen_time start in
      match r with
      | Val tc2 => if poll_accepts tc2 frozen_time then ret tc2 else again
      | Exc _ => again
      end
  end.

Definition poll_budget (timeout : Z) : nat := Z.to_nat timeout + 2.

(** Lines 78-113: the request, then the poll. *)
Definition advance_and_poll (clock_id : string) (frozen_time : Z) : M ClockObj :=
  advanced <- advance_attempts clock_id frozen_time
                (Z.to_nat max_advance_attempts) initial_backoff ;;
  if negb advanced
  then raise (RuntimeError clock_id max_advance_attempts)
  else
    start <- time_time ;;
    poll_ready (poll_budget poll_timeout) clock_id frozen_time start.

Definition advance_test_clock (clock_id : string) (frozen_time : Z) : M ClockObj :=
  cur <- read_current clock_id ;;
  advance_and_poll clock_id (effective_target cur frozen_time).

(** *** [generate_past_due_new.py]: [wait_until_testclock_ready], [advance_clock] *)

Fixpoint wait_loop (budget : nat) (test_clock_id : string) (timeout_sec : Z)
    (start : Q) : M ClockObj :=
  match budget with
  | O => diverge
  | S n =>
      tc <- TestClock_retrieve test_clock_id ;;
      status <- lift (dict_get (clk_has_get tc) (clk_status tc)) ;;
      if status_is status "ready" then ret tc
      else
        t <- time_time ;;
        if Qltb (inject_Z timeout_sec) (t - start)
        then raise (TimeoutError test_clock_id timeout_sec None status)
        else sleep 1 ;; wait_loop n test_clock_id timeout_sec start
  end.

Definition wait_until_testclock_ready (test_clock_id : string) (timeout_sec : Z)
    : M ClockObj :=
  start <- time_time ;;
  wait_loop (poll_budget timeout_sec) test_clock_id timeout_sec start.

Definition default_wait_timeout : Z := 240.

(** Lines 64-69 of [advance_clock]. *)
Definition adjusted_target (cur new_frozen_time : Z) : Z :=
  if new_frozen_time <=? cur then cur + 1 else new_frozen_time.

(** Lines 71-73: the three lines printed before the request; [dt] runs
    when its line is formatted, before the line is printed. *)
Definition announce_advance (test_clock_id : string) (cur new_frozen_time : Z)
    : M unit :=
  print (MsgText "[Advance TestClock]") ;;
  _ <- lift (dt cur) ;;
  print (MsgText "  from") ;;
  _ <- lift (dt new_frozen_time) ;;
  print (MsgAdvance test_clock_id cur new_frozen_time).

(** Lines 75-77: the wait, the last look at the clock. *)
Definition confirm_advance (test_clock_id : string) : M unit :=
  wait_until_testclock_ready test_clock_id default_wait_timeout ;;
  tc2 <- TestClock_retrieve test_clock_id ;;
  f2 <- lift (subscript "frozen_time" (clk_frozen_time tc2)) ;;
  _ <- lift (dt f2) ;;
  s2 <- lift (subscript "status" (clk_status tc2)) ;;
  print (MsgAdvanceDone f2 s2).

(** Lines 71-77. *)
Definition request_and_wait (test_clock_id : string) (cur new_frozen_time : Z)
    : M unit :=
  announce_advance test_clock_id cur new_frozen_time ;;
  TestClock_advance test_clock_id new_frozen_time ;;
  confirm_advance test_clock_id.

Definition advance_clock (test_clock_id : string) (new_frozen_time : Z) : M unit :=
  tc <- TestClock_retrieve test_clock_id ;;
  cur <- lift (subscript "frozen_time" (clk_frozen_time tc)) ;;
  (if new_frozen_time <=? cur
   then print (WarnNotIncreasing new_frozen_time cur (cur + 1))
   else ret tt) ;;
  request_and_wait test_clock_id cur (adjusted_target cur new_frozen_time).

(** *** [generate_past_due_new.py]: [next_cycle_after] *)

Definition MONTH : Z := 30 * 24 * 3600.
Definition epsilon : Z := 60.

(** [a // b] *)
Definition floordiv (a b : Z) : result Z :=
  if b =? 0 then Exc ZeroDivisionError else Val (a / b).

Definition next_cycle_after (billing_anchor cycle_index cur_frozen month : Z) : result Z :=
  let desired := billing_anchor + cycle_index * month + 60 in
  if desired >? cur_frozen then Val desired
  else
    let elapsed := cur_frozen - billing_anchor - 60 in
    match (if elapsed <? 0 then Val cycle_index
           else match floordiv elapsed month with
                | Val q => Val (q + 1)
                | Exc e => Exc e
                end) with
    | Exc e => Exc e
    | Val k =>
        let k := if k <? cycle_index then cycle_index else k in
        Val (billing_anchor + k * month + 60)
    end.


(** *** Loops *)

Inductive loop_ctl : Type := Continue | Break.

(** [for i in range(first, first + count): body(i)], the body saying
    whether it ran to its end (or [continue]d) or hit [break].  The value
    is the number of rounds that were started. *)
Fixpoint for_range (body : Z -> M loop_ctl) (first : Z) (count : nat) : M nat :=
  match count with
  | O => ret O
  | S n =>
      c <- body first ;;
      match c with
      | Break => ret 1%nat
      | Continue => k <- for_range body (first + 1) n ;; ret (S k)
      end
  end.

(** [for x in xs: acc = body(x, acc)]. *)
Fixpoint for_each {A S : Type} (body : A -> S -> M S) (xs : list A) (acc : S) : M S :=
  match xs with
  | [] => ret acc
  | x :: rest => acc' <- body x acc ;; for_each body rest acc'
  end.

(** *** [generate_past_due_new.py]: [retrieve_triplet], [advance_through_retries] *)

(** Line 253: the fields the print of an invoice line reads, with
    [li[...]], [dt] and [li.get]. *)
Definition print_invoice_line (li : InvoiceObj) : M unit :=
  _ <- lift (subscript "status" (inv_status li)) ;;
  created <- lift (subscript "created" (inv_created li)) ;;
  _ <- lift (dt created) ;;
  _ <- lift (dict_get (inv_has_get li) (inv_attempt_count li)) ;;
  print (MsgText "  inv").

(** Line 257: [pi['id']], [pi['status']], [pi.get('last_payment_error')]. *)
Definition print_intent_line (pi : PaymentIntent) : M unit :=
  _ <- lift (subscript "id" (pi_id pi)) ;;
  _ <- lift (subscript "status" (pi_status pi)) ;;
  _ <- lift (dict_get (pi_has_get pi) (Some (pi_last_payment_error pi))) ;;
  print (MsgText "  pi").

(** [dt(x) if x else 'None']. *)
Definition dt_if_set (x : option Z) : result unit :=
  match x with
  | Some v => if truthy_int v then dt v else Val tt
  | None => Val tt
  end.

(** Lines 238-261. *)
Definition retrieve_triplet (sub_id : string) : M SubscriptionObj :=
  sub <- Subscription_retrieve sub_id ;;
  let li := sub_latest_invoice sub in
  pi <- match li with
        | Some i => lift (dict_get (inv_has_get i) (inv_payment_intent i))
        | None => ret None
        end ;;
  print (MsgRetrieved sub_id) ;;
  cpe <- lift (dict_get (sub_has_get sub) (sub_current_period_end sub)) ;;
  cps <- lift (dict_get (sub_has_get sub) (sub_current_period_start sub)) ;;
  _ <- lift (attribute "status" (sub_status sub)) ;;
  _ <- lift (dt_if_set cps) ;;
  _ <- lift (dt_if_set cpe) ;;
  print (MsgText "  sub") ;;
  match li with
  | Some i => print_invoice_line i
  | None => print (MsgText "  inv: None")
  end ;;
  match pi with
  | Some p => print_intent_line p
  | None => print (MsgText "  pi : None")
  end ;;
  ret sub.

Definition current_frozen_time (tc_id : string) : M Z :=
  tc <- TestClock_retrieve tc_id ;;
  lift (attribute "frozen_time" (clk_frozen_time tc)).

Definition option_truthy (n : option Z) : bool :=
  match n with
  | Some v => truthy_int v
  | None => false
  end.

(** One round of the loop of [advance_through_retries] (lines 332-371). *)
Definition retry_round (tc_id sub_id : string) (buffer_seconds : Z) (round_idx : Z)
    : M loop_ctl :=
  sub <- Subscription_retrieve sub_id ;;
  match sub_latest_invoice sub with
  | None => print (MsgNoLatestInvoice sub_id) ;; ret Break
  | Some li =>
      let inv_status := inv_status li in
      let next_attempt := inv_next_payment_attempt li in
      print (MsgRound round_idx inv_status next_attempt) ;;
      if status_is inv_status "paid"
      then print MsgAlreadyPaid ;; ret Break
      else if option_truthy next_attempt
      then
        cur <- current_frozen_time tc_id ;;
        let target :=
          adjusted_target cur (match next_attempt with Some na => na | None => 0 end
                               + buffer_seconds) in
        _ <- lift (dt target) ;;
        print (MsgAdvancingToAttempt tc_id target) ;;
        advance_clock tc_id target ;;
        retrieve_triplet sub_id ;;
        ret Continue
      else
        print MsgFallbackOneDay ;;
        cur <- current_frozen_time tc_id ;;
        advance_clock tc_id (cur + 24 * 3600) ;;
        retrieve_triplet sub_id ;;
        ret Continue
  end.

(** The loop itself, with the number of rounds it started. *)
Definition retry_rounds (tc_id sub_id : string) (buffer_seconds max_rounds : Z) : M nat :=
  for_range (retry_round tc_id sub_id buffer_seconds) 0 (Z.to_nat max_rounds).

Definition advance_through_retries (tc_id sub_id : string)
    (buffer_seconds max_rounds : Z) : M unit :=
  retry_rounds tc_id sub_id buffer_seconds max_rounds ;;
  print MsgRetriesFinished.

Definition default_buffer_seconds : Z := 60.
Definition default_max_rounds : Z := 10.

(** *** [generate_date.py]: reconciliation *)

(** Lines 411-421, the monthly pass of the canceled flow. *)
Definition pay_if_open_canceled (inv : InvoiceObj) (_ : unit) : M unit :=
  st <- lift (attribute "status" (inv_status inv)) ;;
  if open_or_draft (Some st)
  then try_except (Invoice_pay (inv_id inv) ;; paid_incr) (fun _ => ret tt)
  else ret tt.

Definition monthly_reconcile_canceled (customer : string) : M unit :=
  try_except (invoices <- Invoice_list customer ;;
              for_each pay_if_open_canceled invoices tt)
             (fun _ => ret tt).

(** Lines 514-524, the monthly pass of the active flow. *)
Definition pay_if_open_active (inv : InvoiceObj) (_ : unit) : M unit :=
  st <- lift (attribute "status" (inv_status inv)) ;;
  if open_or_draft (Some st)
  then try_except (Invoice_pay (inv_id inv) ;; paid_incr) (fun _ => unpaid_incr)
  else ret tt.

Definition monthly_reconcile_active (customer : string) : M unit :=
  try_except (invoices <- Invoice_list customer ;;
              for_each pay_if_open_active invoices tt)
             (fun _ => ret tt).

(** Lines 444-478 and 538-573 (the same text in both flows): finalize and
    pay what is still draft or open, up to three passes. *)
Definition observed_invoice_status (inv : InvoiceObj) : option string :=
  attr_or_get truthy_str (inv_has_get inv) (inv_status inv).

Definition finalize_if_draft (inv : InvoiceObj) (st : option string) (anything : bool)
    : M bool :=
  if status_is st "draft"
  then try_except (Invoice_finalize_invoice (inv_id inv) ;;
                   sleep (1 # 5) ;; ret true)
                  (fun _ => ret anything)
  else ret anything.

Definition recheck_status (inv : InvoiceObj) (st : option string) : M (option string) :=
  try_except (inv2 <- Invoice_retrieve (inv_id inv) ;;
              ret (observed_invoice_status inv2))
             (fun _ => ret st).

Definition pay_if_still_open (inv : InvoiceObj) (st2 : option string) (anything : bool)
    : M bool :=
  if open_or_draft st2
  then try_except (Invoice_pay (inv_id inv) ;; paid_incr ;; ret true)
                  (fun _ => ret anything)
  else ret anything.

(** The body of [for inv in invoices.auto_paging_iter()], with the flag
    [anything] passed through. *)
Definition settle_invoice (inv : InvoiceObj) (anything : bool) : M bool :=
  let st := observed_invoice_status inv in
  anything <- finalize_if_draft inv st anything ;;
  st2 <- recheck_status inv st ;;
  pay_if_still_open inv st2 anything.

Fixpoint settle_passes (passes : nat) (customer : string) : M unit :=
  match passes with
  | O => ret tt
  | S n =>
      r <- attempt (Invoice_list customer) ;;
      match r with
      | Exc _ => raise (AttributeError "auto_paging_iter")   (* invoices = [] *)
      | Val invoices =>
          anything <- for_each settle_invoice invoices false ;;
          if negb anything then ret tt
          else sleep (1 # 2) ;; settle_passes n customer
      end
  end.

Definition finalize_and_pay_pending (customer : string) : M unit :=
  try_except (settle_passes 3 customer) (fun _ => ret tt).

(** *** [generate_date.py]: the month loops of [main] *)

Definition start_ts : Z := 1735689600.       (* 2025-01-01 00:00:00 UTC *)
Definition SLEEP_BETWEEN_CALLS : Q := 12 # 100.

Definition month_ts (k : Z) : Z := start_ts + 30 * 86400 * k.

(** Lines 402-405 and 506-509. *)
Definition advance_or_warn (tc_id : string) (current_ts : Z) : M unit :=
  try_except (advance_test_clock tc_id current_ts ;; ret tt)
             (fun e => print (WarnAdvanceFailed current_ts e)).

(** Lines 432-441 and 527-536. *)
Definition auto_advance (tc_id : string) : M unit :=
  try_except
    (cur <- current_frozen_time tc_id ;;
     let extra := 2 * 24 * 3600 in
     try_except (advance_test_clock tc_id (cur + extra) ;;
                 print (MsgAutoAdvanced tc_id extra))
                (fun e => print (WarnAutoAdvance tc_id e)))
    (fun _ => ret tt).

(** Lines 503-524: one month of an active customer. *)
Definition active_month (tc_id customer : string) (month : Z) (m2 : Z) : M loop_ctl :=
  let current_ts := month_ts (month + m2) in
  advance_or_warn tc_id current_ts ;;
  sleep SLEEP_BETWEEN_CALLS ;;
  sleep (2 # 10) ;;
  monthly_reconcile_active customer ;;
  ret Continue.

(** Lines 502-573: an active customer from its first simulated month on. *)
Definition simulate_active (tc_id customer : string) (months month : Z) : M unit :=
  let months_remaining := months - month in
  for_range (active_month tc_id customer month) 0 (Z.to_nat months_remaining) ;;
  auto_advance tc_id ;;
  finalize_and_pay_pending customer.

(** [cancel_subscription_retry], lines 116-135. *)
Fixpoint cancel_attempts (sub_id : string) (retries : nat) (backoff : Q) : M bool :=
  match retries with
  | O => ret false
  | S n =>
      r <- attempt (Subscription_delete sub_id) ;;
      let retry :=
        sleep backoff ;;
        cancel_attempts sub_id n (py_min (backoff * (3 # 2)) 2) in
      match r with
      | Val _ => ret true
      | Exc RateLimitError => retry
      | Exc _ =>
          r2 <- attempt (Subscription_cancel_at_period_end sub_id) ;;
          match r2 with
          | Val _ => ret true
          | Exc _ => retry
          end
      end
  end.

Definition cancel_subscription_retry (sub_id : string) (max_retries : Z) : M bool :=
  cancel_attempts sub_id (Z.to_nat max_retries) (1 # 2).

(** Lines 399-427: one month of a customer that will cancel. *)
Definition canceled_month (tc_id customer sub_id : string) (month cancel_after : Z)
    (m2 : Z) : M loop_ctl :=
  let current_ts := month_ts (month + m2) in
  advance_or_warn tc_id current_ts ;;
  sleep SLEEP_BETWEEN_CALLS ;;
  sleep (25 # 100) ;;
  monthly_reconcile_canceled customer ;;
  if m2 + 1 >=? cancel_after
  then cancel_subscription_retry sub_id 20 ;; ret Break
  else ret Continue.

Definition random_randint (lo hi : Z) : M Z :=
  if hi <? lo then raise ValueError
  else fun w =>
    let v := randint env (trace w) lo hi in
    (Ok v, mkWorld (now w) (Drew lo hi v :: trace w) (summary w)).

(** Lines 396-478. *)
Definition simulate_canceled (tc_id customer sub_id : string) (months month : Z) : M unit :=
  let months_remaining := months - month in
  cancel_after <- random_randint 1 (Z.max 1 months_remaining) ;;
  for_range (canceled_month tc_id customer sub_id month cancel_after) 0
            (Z.to_nat months_remaining) ;;
  print (MsgText "Created canceled customer") ;;
  auto_advance tc_id ;;
  finalize_and_pay_pending customer.

(** *** [generate_past_due_new.py]: the scenarios and the batch loop *)

Definition SUCCESS_CARD : string := "tok_visa".
Definition FAIL_CARD_DECLINE : string := "tok_chargeCustomerFail".

Definition create_testclock (start_time : Z) : M ClockObj :=
  let name := "learn_tc_" ++ NilZero.string_of_int (Z.to_int start_time) in
  tc <- TestClock_create start_time name ;;
  frozen <- lift (attribute "frozen_time" (clk_frozen_time tc)) ;;
  _ <- lift (dt frozen) ;;
  print (MsgText "[Create TestClock]") ;;
  ret tc.

Definition create_customer (email test_clock_id : string) : M string :=
  c <- remote (CustomerCreate email test_clock_id)
              (fun h => customer_create env h email test_clock_id) ;;
  print (MsgText "[Create Customer]") ;;
  ret c.

Definition PaymentMethod_attach (id customer : string) : M PaymentMethodObj :=
  remote (PaymentMethodAttach id customer)
         (fun h => payment_method_attach env h id customer).

Definition PaymentMethod_retrieve (id : string) : M PaymentMethodObj :=
  remote (PaymentMethodRetrieve id) (fun h => payment_method_retrieve env h id).

Definition Customer_modify (customer default_pm : string) : M unit :=
  remote (CustomerModify customer default_pm)
         (fun h => customer_modify env h customer default_pm).

Definition create_payment_method (card : string) : M PaymentMethodObj :=
  if String.prefix "tok_" card then
    pm <- remote (PaymentMethodCreate card) (fun h => payment_method_create env h card) ;;
    _ <- lift (attribute "id" (pm_id pm)) ;;
    print (MsgText "[Create PM from token]") ;;
    ret pm
  else if String.prefix "pm_" card then
    pm <- PaymentMethod_retrieve card ;;
    _ <- lift (attribute "id" (pm_id pm)) ;;
    print (MsgText "[Use Existing PM]") ;;
    ret pm
  else raise (RuntimeErrorText "Unsupported card. Use tok_* or pm_*").

Definition same_customer (pm_customer : option string) (customer_id : string) : bool :=
  status_is pm_customer customer_id.

Definition or_default (o : option string) (d : string) : string :=
  match o with
  | Some v => v
  | None => d
  end.

(** Lines 156-211.  Every failure is caught inside. *)
Definition attach_and_set_default_pm (customer_id pm_id0 : string) : M unit :=
  pm_to_use <-
    try_except
      (attached <- PaymentMethod_attach pm_id0 customer_id ;;
       let attached_id :=
         or_default (py_or truthy_str (pm_id attached) (Some pm_id0)) pm_id0 in
       pm_obj <- try_except (PaymentMethod_retrieve attached_id)
                            (fun _ => ret attached) ;;
       let owner := pm_customer pm_obj in
       r <- (if same_customer owner customer_id
             then ret (attached_id, owner)
             else
               try_except
                 (attached2 <- PaymentMethod_attach attached_id customer_id ;;
                  let attached_id2 := or_default (pm_id attached2) attached_id in
                  pm_obj2 <- try_except (PaymentMethod_retrieve attached_id2)
                                        (fun _ => ret pm_obj) ;;
                  ret (attached_id2, pm_customer pm_obj2))
                 (fun _ => ret (attached_id, None))) ;;
       if same_customer (snd r) customer_id then ret (fst r) else ret pm_id0)
      (fun _ => ret pm_id0) ;;
  try_except
    (Customer_modify customer_id pm_to_use ;;
     print (MsgText "[Set Default PM]"))
    (fun _ =>
       try_except
         (PaymentMethod_attach pm_to_use customer_id ;;
          Customer_modify customer_id pm_to_use ;;
          print (MsgText "[Set Default PM after attach]"))
         (fun _ => print (MsgText "[Error] Could not set default payment method"))).

Definition create_subscription_monthly (customer_id price_id : string)
    (billing_anchor_ts : Z) : M SubscriptionObj :=
  sub <- remote (SubscriptionCreate customer_id price_id billing_anchor_ts)
                (fun h => subscription_create env h customer_id price_id billing_anchor_ts) ;;
  _ <- lift (attribute "status" (sub_status sub)) ;;
  print (MsgText "[Create Subscription]") ;;
  anchor <- lift (attribute "billing_cycle_anchor" (sub_billing_cycle_anchor sub)) ;;
  _ <- lift (dt anchor) ;;
  print (MsgText "  billing_cycle_anchor") ;;
  match sub_latest_invoice sub with
  | Some li =>
      _ <- lift (subscript "status" (inv_status li)) ;;
      print (MsgText "  latest_invoice") ;;
      pi <- lift (dict_get (inv_has_get li) (inv_payment_intent li)) ;;
      match pi with
      | Some p =>
          _ <- lift (subscript "id" (pi_id p)) ;;
          _ <- lift (subscript "status" (pi_status p)) ;;
          print (MsgText "  payment_intent")
      | None => ret tt
      end
  | None => ret tt
  end ;;
  ret sub.

(** The start of a paid or lingering month: the next cycle, then the
    advance to it. *)
Definition advance_to_cycle (tc_id : string) (billing_anchor cycle_index : Z) : M unit :=
  cur <- current_frozen_time tc_id ;;
  next_cycle <- lift (next_cycle_after billing_anchor cycle_index cur MONTH) ;;
  advance_clock tc_id next_cycle.

Definition paid_month (tc_id sub_id : string) (billing_anchor : Z) (i : Z) : M loop_ctl :=
  advance_to_cycle tc_id billing_anchor i ;;
  retrieve_triplet sub_id ;;
  ret Continue.

Definition lingering_month (tc_id sub_id : string) (billing_anchor : Z) (cycle_index : Z)
    : M loop_ctl :=
  advance_to_cycle tc_id billing_anchor cycle_index ;;
  advance_through_retries tc_id sub_id default_buffer_seconds default_max_rounds ;;
  ret Continue.

(** Lines 579-586 and 657-664. *)
Definition scenario_auto_advance (tc_id : string) : M unit :=
  try_except
    (cur <- current_frozen_time tc_id ;;
     let extra := 2 * 24 * 3600 in
     print (MsgText "[Auto Advance]") ;;
     advance_clock tc_id (cur + extra))
    (fun e => print (WarnAutoAdvance tc_id e)).

Record ScenarioResult : Type := mkResult {
  res_customer : string;
  res_subscription : string;
  res_test_clock : string
}.

(** Lines 453-470 and 598-614: what both scenarios do first. *)
Record Setup : Type := mkSetup {
  setup_clock : string;
  setup_customer : string;
  setup_success_pm : string;
  setup_subscription : string;
  setup_anchor : Z
}.

(** Up to the subscription: nothing of this advances the clock. *)
Definition scenario_create (email price_id : string) : M Setup :=
  tc <- create_testclock start_ts ;;
  cust <- create_customer email (clk_id tc) ;;
  pm_success <- create_payment_method SUCCESS_CARD ;;
  pm_success_id <- lift (attribute "id" (pm_id pm_success)) ;;
  attach_and_set_default_pm cust pm_success_id ;;
  frozen <- lift (attribute "frozen_time" (clk_frozen_time tc)) ;;
  sub <- create_subscription_monthly cust price_id (frozen + 5 * 60) ;;
  let billing_anchor :=
    match sub_billing_cycle_anchor sub with
    | Some a => a
    | None => frozen + 5 * 60
    end in
  ret (mkSetup (clk_id tc) cust pm_success_id (sub_id sub) billing_anchor).

(** Then the first billing date. *)
Definition scenario_setup (email price_id : string) : M Setup :=
  s <- scenario_create email price_id ;;
  advance_clock (setup_clock s) (setup_anchor s + 60) ;;
  retrieve_triplet (setup_subscription s) ;;
  ret s.

Definition switch_to_failing (cust : string) : M unit :=
  pm_fail <- create_payment_method FAIL_CARD_DECLINE ;;
  pm_fail_id <- lift (attribute "id" (pm_id pm_fail)) ;;
  attach_and_set_default_pm cust pm_fail_id ;;
  print (MsgText "[Action] Switched to FAIL card.").

Definition run_linger (email price_id : string) (paid_months total_months : Z)
    (auto_adv : bool) : M ScenarioResult :=
  print (MsgText "SCENARIO: LINGER") ;;
  s <- scenario_setup email price_id ;;
  let tc_id := setup_clock s in
  let cust := setup_customer s in
  let sub_id := setup_subscription s in
  let billing_anchor := setup_anchor s in
  for_range (paid_month tc_id sub_id billing_anchor) 1 (Z.to_nat (paid_months - 1)) ;;
  switch_to_failing cust ;;
  advance_to_cycle tc_id billing_anchor paid_months ;;
  retrieve_triplet sub_id ;;
  advance_through_retries tc_id sub_id default_buffer_seconds default_max_rounds ;;
  (* while months_done < total_months, with months_done = paid_months + 1 at
     first and cycle_index one more in every round *)
  for_range (lingering_month tc_id sub_id billing_anchor) (paid_months + 1)
            (Z.to_nat (total_months - (paid_months + 1))) ;;
  print (MsgText "[Done] LINGER scenario created.") ;;
  (if auto_adv then scenario_auto_advance tc_id else ret tt) ;;
  ret (mkResult cust sub_id tc_id).

(** Lines 525-553 of [run_recover]. *)
Definition pay_historical_invoice (inv : InvoiceObj) (_ : unit) : M unit :=
  let st := inv_status inv in
  (if status_is st "draft"
   then try_except (Invoice_finalize_invoice (inv_id inv) ;; sleep (1 # 5)) (fun _ => ret tt)
   else ret tt) ;;
  st2 <- try_except (inv2 <- Invoice_retrieve (inv_id inv) ;; ret (inv_status inv2))
                    (fun _ => ret st) ;;
  if open_or_draft st2
  then try_except (Invoice_pay (inv_id inv) ;; print (MsgPaidInvoice (inv_id inv)))
                  (fun e => print (WarnCouldNotPay (inv_id inv) e))
  else ret tt.

Definition pay_historical_invoices (cust : string) : M unit :=
  try_except
    (print (MsgText "[Action] Finalizing and paying historical open/draft invoices") ;;
     r <- attempt (Invoice_list cust) ;;
     match r with
     | Exc _ => raise (AttributeError "auto_paging_iter")   (* invoices = [] *)
     | Val invoices => for_each pay_historical_invoice invoices tt
     end)
    (fun _ => ret tt).

Definition run_recover (email price_id : string)
    (paid_months past_due_months total_months : Z) (auto_adv : bool) : M ScenarioResult :=
  print (MsgText "SCENARIO: RECOVER") ;;
  s <- scenario_setup email price_id ;;
  let tc_id := setup_clock s in
  let cust := setup_customer s in
  let sub_id := setup_subscription s in
  let billing_anchor := setup_anchor s in
  for_range (paid_month tc_id sub_id billing_anchor) 1 (Z.to_nat (paid_months - 1)) ;;
  let past_due_months := if past_due_months <=? 0 then 1 else past_due_months in
  switch_to_failing cust ;;
  advance_to_cycle tc_id billing_anchor paid_months ;;
  retrieve_triplet sub_id ;;
  advance_through_retries tc_id sub_id default_buffer_seconds default_max_rounds ;;
  for_range (lingering_month tc_id sub_id billing_anchor) (paid_months + 1)
            (Z.to_nat (past_due_months - 1)) ;;
  print (MsgText "[Info] Leaving subscription past_due for this cycle") ;;
  (* cycle_index: paid_months, one more per lingering month, one more here *)
  let cycle_index := paid_months + past_due_months in
  cur <- current_frozen_time tc_id ;;
  next_cycle <- lift (next_cycle_after billing_anchor cycle_index cur MONTH) ;;
  attach_and_set_default_pm cust (setup_success_pm s) ;;
  print (MsgText "[Action] Switched back to SUCCESS card.") ;;
  pay_historical_invoices cust ;;
  advance_clock tc_id next_cycle ;;
  retrieve_triplet sub_id ;;
  (* while months_done < total_months, with
     months_done = paid_months + past_due_months + 1 at first *)
  for_range (paid_month tc_id sub_id billing_anchor) (cycle_index + 1)
            (Z.to_nat (total_months - (paid_months + past_due_months + 1))) ;;
  print (MsgText "[Done] RECOVER scenario created.") ;;
  (if auto_adv then scenario_auto_advance tc_id else ret tt) ;;
  ret (mkResult cust sub_id tc_id).

(** [main], lines 701-744: batch mode and single mode (what comes
    before, the environment variables and the optional cleanup, touches
    no clock). *)
Inductive Scenario : Type := Recover | Linger.

Record Args : Type := mkArgs {
  arg_scenario : Scenario;
  arg_email : string;
  arg_paid_months : Z;
  arg_past_due_months : Z;
  arg_count : Z;
  arg_email_prefix : string;
  arg_min_paid : Z;
  arg_max_paid : Z;
  arg_min_past_due : Z;
  arg_max_past_due : Z;
  arg_total_months : Z
}.

Definition batch_email (prefix : string) (i : Z) : string :=
  prefix ++ NilZero.string_of_int (Z.to_int i) ++ "@actual.com".

(** One round of [for i in range(1, args.count + 1)] (lines 710-726). *)
Definition batch_entity (args : Args) (price_id : string) (i : Z) : M loop_ctl :=
  paid <- random_randint (arg_min_paid args) (arg_max_paid args) ;;
  let email_i := batch_email (arg_email_prefix args) i in
  match arg_scenario args with
  | Recover =>
      let max_pd := Z.max 1 (arg_max_past_due args) in
      let min_pd := Z.max 1 (arg_min_past_due args) in
      past_due <- random_randint min_pd max_pd ;;
      print (MsgText "[Batch]") ;;
      run_recover email_i price_id paid past_due (arg_total_months args) true ;;
      ret tt
  | Linger =>
      print (MsgText "[Batch]") ;;
      run_linger email_i price_id paid (arg_total_months args) true ;;
      ret tt
  end ;;
  sleep (2 # 10) ;;
  ret Continue.

Definition main_batch (args : Args) (price_id : string) : M nat :=
  print (MsgText "Batch mode") ;;
  for_range (batch_entity args price_id) 1 (Z.to_nat (arg_count args)).

Definition main_scenarios (args : Args) (price_id : string) : M unit :=
  if (0 <? arg_count args)
  then main_batch args price_id ;; ret tt
  else
    match arg_scenario args with
    | Recover =>
        let pd := if 0 <? arg_past_due_months args then arg_past_due_months args else 1 in
        run_recover (arg_email args) price_id (arg_paid_months args) pd
                    (arg_total_months args) true ;;
        ret tt
    | Linger =>
        run_linger (arg_email args) price_id (arg_paid_months args)
                   (arg_total_months args) true ;;
        ret tt
    end.

End Scripts.

(** ** Text: the [str] methods the scripts use *)

(** Text is a sequence of code points below 256; [s.startswith(p)],
    [s.endswith(p)], [c in s]. *)
Definition startswith (s p : string) : bool := String.prefix p s.

Definition reversed (s : string) : string :=
  string_of_list_ascii (rev (list_ascii_of_string s)).

Definition endswith (s suffix : string) : bool :=
  String.prefix (reversed suffix) (reversed s).

Fixpoint contains_char (c : ascii) (s : string) : bool :=
  match s with
  | EmptyString => false
  | String c' rest => Ascii.eqb c' c || contains_char c rest
  end.

(** The code points below 256 that [str.isspace] accepts: tab to carriage
    return, the four separators 28-31, the space, NEL and the no-break
    space. *)
Definition is_space (c : ascii) : bool :=
  let n := nat_of_ascii c in
  ((9 <=? n) && (n <=? 13) || (28 <=? n) && (n <=? 31)
   || (n =? 32) || (n =? 133) || (n =? 160))%nat.

Definition is_char (c c' : ascii) : bool := Ascii.eqb c' c.

Definition double_quote : ascii := "034"%char.
Definition single_quote : ascii := "'"%char.

(** [s.lstrip], [s.rstrip], [s.strip]: drop the characters of a set at
    the left end, at the right end, at both. *)
Fixpoint lstrip (drop : ascii -> bool) (s : string) : string :=
  match s with
  | EmptyString => EmptyString
  | String c rest => if drop c then lstrip drop rest else s
  end.

Fixpoint rstrip (drop : ascii -> bool) (s : string) : string :=
  match s with
  | EmptyString => EmptyString
  | String c rest =>
      match rstrip drop rest with
      | EmptyString => if drop c then EmptyString else String c EmptyString
      | kept => String c kept
      end
  end.

Definition strip (drop : ascii -> bool) (s : string) : string :=
  rstrip drop (lstrip drop s).

(** [s.split(sep, 1)] for a one-character [sep]: the text before the
    first [sep] and the text after it, [None] when [sep] is not in [s]
    (the split then has one part). *)
Fixpoint split_once (sep : ascii) (s : string) : option (string * string) :=
  match s with
  | EmptyString => None
  | String c rest =>
      if Ascii.eqb c sep then Some (EmptyString, rest)
      else match split_once sep rest with
           | Some (before, after) => Some (String c before, after)
           | None => None
           end
  end.

Definition newline : string := String "010"%char EmptyString.

(** [f'{n}'] for an int. *)
Definition str_of_int (n : Z) : string := NilZero.string_of_int (Z.to_int n).

(** ** [generate_date.py] / [generate_upgrade.py]: [_load_dotenv] *)

(** [os.environ], on a POSIX system. *)
Definition Environ : Type := string -> option string.

Definition in_environ (environ : Environ) (k : string) : bool :=
  match environ k with Some _ => true | None => false end.

(** [os.environ[k] = v]: the interpreter refuses a name or a value with a
    null character ([ValueError: embedded null byte]); a name that is
    empty or holds [=] never gets here. *)
Definition setenv (environ : Environ) (k v : string) : result Environ :=
  if contains_char zero k || contains_char zero v then Exc ValueError
  else Val (fun name => if String.eqb name k then Some v else environ name).

(** Lines 158-163: what a line of the file assigns, if anything. *)
Definition dotenv_entry (ln : string) : option (string * string) :=
  let ln := strip is_space ln in
  if negb (truthy_str ln) || startswith ln "#" then None
  else match split_once "=" ln with
       | None => None                              (* "=" not in ln *)
       | Some (k, v) =>
           let k := strip is_space k in
           let v := strip (is_char single_quote)
                          (strip (is_char double_quote) (strip is_space v)) in
           Some (k, v)
       end.

(** One round of [for ln in fh] (lines 157-165). *)
Definition dotenv_line (environ : Environ) (ln : string) : result Environ :=
  match dotenv_entry ln with
  | None => Val environ                            (* continue *)
  | Some (k, v) =>
      if truthy_str k && negb (in_environ environ k)
      then setenv environ k v
      else Val environ
  end.

(** The loop; [except Exception: pass] keeps what was assigned before a
    line raised. *)
Fixpoint dotenv_lines (environ : Environ) (lines : list string) : Environ :=
  match lines with
  | [] => environ
  | ln :: rest =>
      match dotenv_line environ ln with
      | Val environ' => dotenv_lines environ' rest
      | Exc _ => environ
      end
  end.

(** [_load_dotenv]: [file] is [None] when the path does not exist or
    cannot be opened, and else the lines the file object yields, each with
    its line end, up to the end of the file or to a read error. *)
Definition _load_dotenv (file : option (list string)) (environ : Environ) : Environ :=
  match file with
  | None => environ
  | Some lines => dotenv_lines environ lines
  end.

(** ** Names the scripts give, and the names their cleanups look for *)

(** [generate_date.py], lines 358-366. *)
Definition customer_email (canceled : bool) (i : Z) : string :=
  (if canceled then "cancel" else "active") ++ str_of_int (i + 1) ++ "@actual.com".

Definition clock_name (i now_ts : Z) : string :=
  "clock_" ++ str_of_int (i + 1) ++ "_" ++ str_of_int now_ts.

(** [generate_upgrade.py], lines 155-158; its clocks are named as those
    of [generate_date.py]. *)
Definition upgrade_email (i : Z) : string :=
  "upgrade" ++ str_of_int (i + 1) ++ "@actual.com".

(** [x and p(x)] for a text that may be [None]. *)
Definition and_then (x : option string) (p : string -> bool) : bool :=
  match x with
  | Some s => truthy_str s && p s
  | None => false
  end.

(** [generate_past_due_new.do_cleanup], lines 383-384 and 409-410. *)
Definition cleanup_wants_customer (email : option string) : bool :=
  and_then email (fun e => endswith e "@example.com" && startswith e "test").

Definition cleanup_wants_clock (name : option string) : bool :=
  and_then name (fun n => startswith n "learn_tc_" || startswith n "clock_").

(** [do_cleanup] of [generate_date.main], lines 191, 213 and 228. *)
Definition main_cleanup_wants_customer (email : option string) : bool :=
  and_then email (fun e => endswith e "@actual.com"
                           && (startswith e "active" || startswith e "cancel")).

Definition main_cleanup_wants_clock (name : option string) : bool :=
  and_then name (fun n => startswith n "clock_").

Definition main_cleanup_wants_product (name : option string) : bool :=
  and_then name (fun n => startswith n "Test Product - Billing Historical").

(** ** Housekeeping: [do_cleanup] and the upgrade of a subscription *)

(** These parts of the scripts talk to other endpoints than the flows
    above, and keep no clock: they get a ledger of their own. *)
Inductive Call : Type :=
| ListCustomers
| ListSubscriptions (customer : string)
| DeleteSubscription (id : string)
| DeleteCustomer (id : string)
| ListClocks
| DeleteClock (id : string)
| ListProducts
| ListPrices (product : string)
| DeletePrice (id : string)
| DeleteProduct (id : string)
| SetItemPrice (sub item price : string)
| ReplaceItem (sub item price : string)
| CancelAtPeriodEnd (sub : string)
| CreateSubscription (customer price : string).

Inductive Step : Type :=
| Did (c : Call) (ok : bool)       (* ok: the call, or the whole listing, went through *)
| Napped (d : Q)                     (* time.sleep(d) *)
| Said (text : string).             (* print: the fixed text in front of the line *)

Definition Book := list Step.       (* newest first *)

(** What [X.list(...).auto_paging_iter()] gives to a [for] loop: the
    objects it yields, and the exception that ends the iteration if the
    first request or a later page fails. *)
Record Listing (A : Type) : Type := mkListing {
  yielded : list A;
  broke : option exn
}.

Record CustomerRow : Type := mkCustomerRow {
  row_id : string;
  row_email : option string          (* None: no email, or no such attribute *)
}.

Record NamedRow : Type := mkNamedRow { (* a test clock or a product *)
  named_id : string;
  named_name : option string
}.

Record Office : Type := mkOffice {
  list_customers : Book -> Listing CustomerRow;
  list_subscriptions : Book -> string -> Listing string;
  delete_subscription : Book -> string -> reply unit;
  delete_customer : Book -> string -> reply unit;
  list_clocks : Book -> Listing NamedRow;
  delete_clock : Book -> string -> reply unit;
  list_products : Book -> Listing NamedRow;
  list_prices : Book -> string -> Listing string;
  delete_price : Book -> string -> reply unit;
  delete_product : Book -> string -> reply unit;
  set_item_price : Book -> string -> string -> string -> reply unit;
  replace_item : Book -> string -> string -> string -> reply unit;
  cancel_at_period_end : Book -> string -> reply unit;
  create_subscription : Book -> string -> string -> reply unit
}.

(** The steps taken so far, and [summary['upgrades']]. *)
Record Desk : Type := mkDesk {
  book : Book;
  upgrades : Z
}.

Definition K (A : Type) : Type := Desk -> result A * Desk.

Definition kret {A : Type} (a : A) : K A := fun d => (Val a, d).

Definition kraise {A : Type} (e : exn) : K A := fun d => (Exc e, d).

Definition kbind {A B : Type} (c : K A) (k : A -> K B) : K B :=
  fun d =>
    match c d with
    | (Val a, d') => k a d'
    | (Exc e, d') => (Exc e, d')
    end.

Declare Scope hk_scope.
Delimit Scope hk_scope with hk.
Notation "x <- c ;; k" := (kbind c (fun x => k))
  (at level 61, c at next level, right associativity) : hk_scope.
Notation "c ;; k" := (kbind c (fun _ => k))
  (at level 61, right associativity) : hk_scope.
Local Open Scope hk_scope.

(** [try: c  except Exception: h]. *)
Definition ktry {A : Type} (c : K A) (h : exn -> K A) : K A :=
  fun d =>
    match c d with
    | (Val a, d') => (Val a, d')
    | (Exc e, d') => h e d'
    end.

Definition noted (s : Step) (d : Desk) : Desk :=
  mkDesk (s :: book d) (upgrades d).

Definition call {A : Type} (c : Call) (answer : Book -> reply A) : K A :=
  fun d =>
    match answer (book d) with
    | Reply a => (Val a, noted (Did c true) d)
    | Error e => (Exc e, noted (Did c false) d)
    end.

Definition nap (d : Q) : K unit := fun desk => (Val tt, noted (Napped d) desk).

Definition say (text : string) : K unit := fun d => (Val tt, noted (Said text) d).

Definition pass : exn -> K unit := fun _ => kret tt.

Fixpoint for_items {A : Type} (body : A -> K unit) (xs : list A) : K unit :=
  match xs with
  | [] => kret tt
  | x :: rest => body x ;; for_items body rest
  end.

(** [for x in X.list(...).auto_paging_iter(): body(x)]. *)
Definition for_listing {A : Type} (c : Call) (answer : Book -> Listing A)
    (body : A -> K unit) : K unit :=
  fun d =>
    let page := answer (book d) in
    (for_items body (yielded page) ;;
     match broke page with
     | None => kret tt
     | Some e => kraise e
     end) (noted (Did c (match broke page with None => true | Some _ => false end)) d).

Section Housekeeping.

Variable office : Office.

Definition SLEEP : Q := 12 # 100.

(** *** [generate_past_due_new.py]: [do_cleanup] *)

(** Lines 387-393. *)
Definition cleanup_subscription (delete : bool) (sub : string) : K unit :=
  ktry (if delete
        then call (DeleteSubscription sub) (fun h => delete_subscription office h sub) ;;
             nap SLEEP ;;
             say "    deleted subscription"
        else kret tt)
       pass.

(** Lines 382-402. *)
Definition cleanup_customer (delete : bool) (cust : CustomerRow) : K unit :=
  ktry (if cleanup_wants_customer (row_email cust)
        then say "  Found customer" ;;
             for_listing (ListSubscriptions (row_id cust))
                         (fun h => list_subscriptions office h (row_id cust))
                         (cleanup_subscription delete) ;;
             if delete
             then ktry (call (DeleteCustomer (row_id cust))
                             (fun h => delete_customer office h (row_id cust)) ;;
                        nap SLEEP ;;
                        say "    deleted customer")
                       pass
             else kret tt
        else kret tt)
       pass.

(** Lines 408-419. *)
Definition cleanup_clock (delete : bool) (tc : NamedRow) : K unit :=
  ktry (if cleanup_wants_clock (named_name tc)
        then say "  Deleting test clock" ;;
             if delete
             then ktry (call (DeleteClock (named_id tc))
                             (fun h => delete_clock office h (named_id tc)) ;;
                        nap SLEEP)
                       pass
             else kret tt
        else kret tt)
       pass.

(** Lines 376-423. *)
Definition do_cleanup (delete : bool) : K unit :=
  say (newline ++ "[Cleanup] Removing previous test customers and test clocks...") ;;
  ktry (for_listing ListCustomers (list_customers office) (cleanup_customer delete)) pass ;;
  ktry (for_listing ListClocks (list_clocks office) (cleanup_clock delete)) pass ;;
  say "[Cleanup] Done.".

(** *** [generate_date.py]: [do_cleanup] of [main] *)

(** Lines 194-198. *)
Definition main_cleanup_subscription (sub : string) : K unit :=
  ktry (call (DeleteSubscription sub) (fun h => delete_subscription office h sub) ;;
        nap SLEEP)
       pass.

(** Lines 190-205. *)
Definition main_cleanup_customer (cust : CustomerRow) : K unit :=
  ktry (if main_cleanup_wants_customer (row_email cust)
        then for_listing (ListSubscriptions (row_id cust))
                         (fun h => list_subscriptions office h (row_id cust))
                         main_cleanup_subscription ;;
             ktry (call (DeleteCustomer (row_id cust))
                        (fun h => delete_customer office h (row_id cust)) ;;
                   nap SLEEP)
                  pass
        else kret tt)
       pass.

(** Lines 212-220. *)
Definition main_cleanup_clock (tc : NamedRow) : K unit :=
  ktry (if main_cleanup_wants_clock (named_name tc)
        then ktry (call (DeleteClock (named_id tc))
                        (fun h => delete_clock office h (named_id tc)) ;;
                   nap SLEEP)
                  pass
        else kret tt)
       pass.

(** Lines 231-235. *)
Definition main_cleanup_price (pr : string) : K unit :=
  ktry (call (DeletePrice pr) (fun h => delete_price office h pr) ;;
        nap SLEEP)
       pass.

(** Lines 227-242. *)
Definition main_cleanup_product (prod : NamedRow) : K unit :=
  ktry (if main_cleanup_wants_product (named_name prod)
        then for_listing (ListPrices (named_id prod))
                         (fun h => list_prices office h (named_id prod))
                         main_cleanup_price ;;
             ktry (call (DeleteProduct (named_id prod))
                        (fun h => delete_product office h (named_id prod)) ;;
                   nap SLEEP)
                  pass
        else kret tt)
       pass.

(** Lines 185-246. *)
Definition main_do_cleanup : K unit :=
  say ("Cleanup: listing and removing previous test customers, "
       ++ "subscriptions, test clocks, and products...") ;;
  ktry (for_listing ListCustomers (list_customers office) main_cleanup_customer) pass ;;
  ktry (for_listing ListClocks (list_clocks office) main_cleanup_clock) pass ;;
  ktry (for_listing ListProducts (list_products office) main_cleanup_product) pass ;;
  say "Cleanup complete.".

(** *** [generate_upgrade.py]: the upgrade of a subscription *)

(** An entry of [created] (lines 199-206). *)
Record UpgradeRec : Type := mkUpgradeRec {
  rec_email : string;
  rec_customer_id : string;
  rec_tc_id : string;
  rec_sub_id : string;
  rec_sub_item_id : option string;
  rec_upgrade_after : Z
}.

Variable UPGRADE_PRICE_ID : string.

(** Lines 256-262 and 271-277: delete the subscription, or else set it to
    end with its period, or else leave it. *)
Definition retire_subscription (sub_id : string) : K unit :=
  ktry (call (DeleteSubscription sub_id) (fun h => delete_subscription office h sub_id))
       (fun _ => ktry (call (CancelAtPeriodEnd sub_id)
                            (fun h => cancel_at_period_end office h sub_id))
                      pass).

Definition create_upgraded (customer_id : string) : K unit :=
  call (CreateSubscription customer_id UPGRADE_PRICE_ID)
       (fun h => create_subscription office h customer_id UPGRADE_PRICE_ID).

Definition count_upgrade : K unit :=
  fun d => (Val tt, mkDesk (book d) (upgrades d + 1)).

(** Lines 234-285, the body of [if month == rec['upgrade_after']]. *)
Definition upgrade_subscription (rec : UpgradeRec) : K unit :=
  ktry
    ((match rec_sub_item_id rec with
      | Some item =>
          if truthy_str item
          then ktry (call (SetItemPrice (rec_sub_id rec) item UPGRADE_PRICE_ID)
                          (fun h => set_item_price office h (rec_sub_id rec) item
                                                   UPGRADE_PRICE_ID))
                    (fun _ =>
                       ktry (call (ReplaceItem (rec_sub_id rec) item UPGRADE_PRICE_ID)
                                  (fun h => replace_item office h (rec_sub_id rec) item
                                                         UPGRADE_PRICE_ID))
                            (fun _ =>
                               retire_subscription (rec_sub_id rec) ;;
                               ktry (create_upgraded (rec_customer_id rec)) pass))
          else ktry (retire_subscription (rec_sub_id rec) ;;
                     create_upgraded (rec_customer_id rec))
                    pass
      | None => ktry (retire_subscription (rec_sub_id rec) ;;
                      create_upgraded (rec_customer_id rec))
                     pass
      end) ;;
     count_upgrade ;;
     say "  Upgraded")
    (fun _ => say "  Warning: failed to upgrade").

End Housekeeping.

Close Scope hk_scope.

(* ------------------------------------------------------------------ *)
(** ** Specification vocabulary *)

Local Open Scope list_scope.
Local Open Scope Z_scope.

(** *** The scheduler *)

(** The cycle index a timestamp [r] stands for: [r = anchor + k * interval
    + epsilon]. *)
Definition implied_index (anchor interval r : Z) : Z :=
  (r - anchor - epsilon) / interval.

(** The closed form of the scheduler. *)
Definition cycle_formula (anchor index current interval : Z) : Z :=
  let desired := anchor + index * interval + epsilon in
  if desired >? current then desired
  else anchor
       + Z.max index ((current - anchor - epsilon) / interval + 1) * interval
       + epsilon.

(** *** What a piece of script does *)

(** A piece of script always comes to an end. *)
Definition never_diverges {A : Type} (c : M A) : Prop :=
  forall w, fst (c w) <> Diverged.

(** A piece of script always returns: no exception leaves it. *)
Definition never_raises {A : Type} (c : M A) : Prop :=
  forall w, exists a, fst (c w) = Ok a.

(** A piece of script always returns, with a value that satisfies [Q]. *)
Definition returns {A : Type} (Q : A -> Prop) (c : M A) : Prop :=
  forall w, exists a w', c w = (Ok a, w') /\ Q a.

(** Every effect a piece of script adds to the trace satisfies [P]. *)
Definition emits {A : Type} (P : Event -> Prop) (c : M A) : Prop :=
  forall w, exists l, trace (snd (c w)) = l ++ trace w /\ Forall P l.

(** The history [h] continues [h0]. *)
Definition extends (h h0 : History) : Prop := exists l, h = l ++ h0.

(** Started after [h0], a piece of script adds only effects that
    satisfy [P] and returns, if it returns, a value that satisfies [Q]. *)
Definition yields {A : Type} (h0 : History) (P : Event -> Prop) (Q : A -> Prop)
    (c : M A) : Prop :=
  forall w, extends (trace w) h0 ->
    exists l,
      trace (snd (c w)) = l ++ trace w /\ Forall P l
      /\ forall a, fst (c w) = Ok a -> Q a.

(** A piece of script adds at most [n] effects of the kind [p]. *)
Definition count_events (p : Event -> bool) (h : History) : nat :=
  List.length (filter p h).

Definition costs {A : Type} (p : Event -> bool) (n : nat) (c : M A) : Prop :=
  forall w, (count_events p (trace (snd (c w))) <= count_events p (trace w) + n)%nat.

(** A counter of [summary] set against the calls it is meant to count. *)
Definition ledger (counter : Summary -> Z) (p : Event -> bool) (w : World) : Z :=
  counter (summary w) - Z.of_nat (count_events p (trace w)).

Definition preserves {A : Type} (f : World -> Z) (c : M A) : Prop :=
  forall w, f (snd (c w)) = f w.

(** What is left of the iteration budget covers what is left of the
    wall-clock budget. *)
Definition within_budget (n : nat) (timeout : Z) (start : Q) (w : World) : Prop :=
  (inject_Z timeout + 1 < inject_Z (Z.of_nat n) + (now w - start))%Q.

(** *** Worlds and events *)

(** What a remote call leaves in the monad and in the trace. *)
Definition reply_result {A : Type} (r : reply A) : result A :=
  match r with
  | Reply a => Val a
  | Error e => Exc e
  end.

Definition replied {A : Type} (r : reply A) : bool :=
  match r with
  | Reply _ => true
  | Error _ => false
  end.

Definition called (req : Request) (ok : bool) (w : World) : World :=
  mkWorld (now w) (Called req ok :: trace w) (summary w).

Definition printed (m : Msg) (w : World) : World :=
  mkWorld (now w) (Printed m :: trace w) (summary w).

Definition drew (lo hi v : Z) (w : World) : World :=
  mkWorld (now w) (Drew lo hi v :: trace w) (summary w).

(** The world after the three lines that [advance_clock] prints before
    its request (lines 71-73). *)
Definition announced (id : string) (cur target : Z) (w : World) : World :=
  printed (MsgAdvance id cur target)
    (printed (MsgText "  from") (printed (MsgText "[Advance TestClock]") w)).

(** The world after lines 62-69 of [advance_clock]: the look at the
    clock, and the warning when the request is not after [cur]. *)
Definition looked_at (id : string) (requested cur : Z) (w : World) : World :=
  let w1 := called (ClockRetrieve id) true w in
  if requested <=? cur
  then printed (WarnNotIncreasing requested cur (cur + 1)) w1
  else w1.

Definition is_advance_call (ev : Event) : bool :=
  match ev with
  | Called (ClockAdvance _ _) _ => true
  | _ => false
  end.

(** An effect that is no advance request. *)
Definition no_advance (ev : Event) : Prop := is_advance_call ev = false.

Definition is_round_print (ev : Event) : bool :=
  match ev with
  | Printed (MsgRound _ _ _) => true
  | Printed (MsgNoLatestInvoice _) => true
  | _ => false
  end.

Definition is_sleep (ev : Event) : bool :=
  match ev with
  | Slept _ => true
  | _ => false
  end.

Definition is_paid_call (ev : Event) : bool :=
  match ev with
  | Called (InvoicePay _) true => true
  | _ => false
  end.

Definition is_failed_pay (ev : Event) : bool :=
  match ev with
  | Called (InvoicePay _) false => true
  | _ => false
  end.

Definition no_event (_ : Event) : bool := false.

Definition is_customer_create (ev : Event) : bool :=
  match ev with
  | Called (CustomerCreate _ _) _ => true
  | _ => false
  end.

Definition is_advance_warning (ev : Event) : bool :=
  match ev with
  | Printed (WarnAdvanceFailed _ _) => true
  | _ => false
  end.

Definition is_invoice_list (ev : Event) : bool :=
  match ev with
  | Called (InvoiceList _) _ => true
  | _ => false
  end.

(** The advance requests among the effects go to [clock_id] with the
    target [target]. *)
Definition requests_only (clock_id : string) (target : Z) (ev : Event) : Prop :=
  match ev with
  | Called (ClockAdvance i t) _ => i = clock_id /\ t = target
  | _ => True
  end.

(** No effect finalizes or pays the invoice [id]. *)
Definition leaves_alone (id : string) (ev : Event) : Prop :=
  match ev with
  | Called (InvoicePay i) _ => i <> id
  | Called (InvoiceFinalize i) _ => i <> id
  | _ => True
  end.

(** *** The retry loop of [advance_test_clock] *)

(** The backoff slept after the failed attempt number [n] (from 0), as
    the loop computes it and in closed form. *)
Fixpoint backoff_at (n : nat) : Q :=
  match n with
  | O => initial_backoff
  | S k => next_backoff (backoff_at k)
  end.

Definition backoff_formula (n : nat) : Q :=
  py_min ((1 # 2) * (3 # 2) ^ Z.of_nat n) 5.

(** The trace (newest first) of [k] refused requests, the first of them
    being attempt number [i]: each is followed by its backoff. *)
Fixpoint failed_attempts (clock_id : string) (frozen_time : Z) (i k : nat) : History :=
  match k with
  | O => []
  | S j =>
      failed_attempts clock_id frozen_time (S i) j
      ++ [Slept (backoff_at i); Called (ClockAdvance clock_id frozen_time) false]
  end.

(** *** Platforms for the dunning loop *)

(** Replies that carry what the printing code of
    [generate_past_due_new.py] reads. *)
Definition is_some {A : Type} (o : option A) : bool :=
  match o with
  | Some _ => true
  | None => false
  end.

(** A frozen time that has a date, and a day later still has one (the
    fallback of the dunning loop moves the clock by a day). *)
Definition in_window (f : Z) : bool := (dt_min <=? f) && (f + 24 * 3600 <=? dt_max).

Definition sound_clock (tc : ClockObj) : bool :=
  clk_has_get tc && status_is (clk_status tc) "ready"
  && match clk_frozen_time tc with
     | Some f => in_window f
     | None => false
     end.

Definition sound_intent (pi : PaymentIntent) : bool :=
  pi_has_get pi && is_some (pi_id pi) && is_some (pi_status pi).

(** The field is there and [dt] has a text for it. *)
Definition dated (x : option Z) : bool :=
  match x with
  | Some v => has_date v
  | None => false
  end.

(** [dt(x) if x else 'None'] has a text. *)
Definition dated_if_set (x : option Z) : bool :=
  match dt_if_set x with
  | Val _ => true
  | Exc _ => false
  end.

(** The next attempt, when the invoice shows one, is not past the last
    date once the buffer is added. *)
Definition sound_invoice (buffer_seconds : Z) (li : InvoiceObj) : bool :=
  inv_has_get li && is_some (inv_status li) && dated (inv_created li)
  && match inv_next_payment_attempt li with
     | Some na => negb (truthy_int na) || (na + buffer_seconds <=? dt_max)
     | None => true
     end
  && match inv_payment_intent li with
     | Some pi => sound_intent pi
     | None => true
     end.

Definition sound_subscription (buffer_seconds : Z) (s : SubscriptionObj) : bool :=
  sub_has_get s && is_some (sub_status s)
  && dated_if_set (sub_current_period_start s)
  && dated_if_set (sub_current_period_end s)
  && match sub_latest_invoice s with
     | Some li => sound_invoice buffer_seconds li
     | None => true
     end.

(** The latest invoice is there and is not paid. *)
Definition owing (s : SubscriptionObj) : bool :=
  match sub_latest_invoice s with
  | Some li => negb (status_is (inv_status li) "paid")
  | None => false
  end.

(** A platform that answers every call of the dunning loop, with replies
    that carry what the loop reads and times that have a date. *)
Definition cooperative (env : Env) (tc_id sub_id : string) (buffer_seconds : Z) : Prop :=
  (forall h, exists tc, clock_retrieve env h tc_id = Reply tc /\ sound_clock tc = true)
  /\ (forall h t, exists u, clock_advance env h tc_id t = Reply u)
  /\ (forall h, exists s, subscription_retrieve env h sub_id = Reply s
                          /\ sound_subscription buffer_seconds s = true).

(** [j] rounds of a loop have run to their end (none of them hit
    [break], none raised) from [w0], and have left [w]. *)
Fixpoint after_rounds (body : Z -> M loop_ctl) (first : Z) (j : nat) (w0 w : World)
    : Prop :=
  match j with
  | O => w = w0
  | S j' => exists w1, body first w0 = (Ok Continue, w1)
                       /\ after_rounds body (first + 1) j' w1 w
  end.

(** The same, with an invoice that stays unpaid. *)
Definition never_recovers (env : Env) (sub_id : string) : Prop :=
  forall h s, subscription_retrieve env h sub_id = Reply s -> owing s = true.

(** *** Counters and paid invoices *)

(** [invoices_paid] minus the payments that went through;
    [invoices_unpaid] minus the payments that raised. *)
Definition paid_ledger : World -> Z := ledger invoices_paid is_paid_call.
Definition unpaid_ledger : World -> Z := ledger invoices_unpaid is_failed_pay.
Definition unpaid_counter : World -> Z := ledger invoices_unpaid no_event.

(** From the history [h0] on the platform shows the invoice [id] as paid
    wherever it shows it. *)
Definition reported_paid (env : Env) (id : string) (h0 : History) : Prop :=
  (forall h customer invoices inv,
      extends h h0 ->
      invoice_list env h customer = Reply invoices ->
      In inv invoices -> inv_id inv = id ->
      observed_invoice_status inv = Some "paid")
  /\ (forall h inv2,
        extends h h0 ->
        invoice_retrieve env h id = Reply inv2 ->
        observed_invoice_status inv2 = Some "paid").

(** *** Failures and waiting time *)

(** Only exceptions that satisfy [E] leave a piece of script. *)
Definition raises_only {A : Type} (E : exn -> Prop) (c : M A) : Prop :=
  forall w e w', c w = (Raise e, w') -> E e.

(** A piece of script sleeps for at most [d] seconds in all (the wall
    clock of the model moves by sleeping only). *)
Definition takes {A : Type} (d : Q) (c : M A) : Prop :=
  forall w, (now w <= now (snd (c w)) /\ now (snd (c w)) <= now w + d)%Q.

(** The backoffs slept after the refused attempts [i], ..., [i + n - 1] of
    [advance_test_clock]. *)
Fixpoint backoff_sum (i n : nat) : Q :=
  match n with
  | O => 0
  | S m => backoff_at i + backoff_sum (S i) m
  end.

(** *** Cancelling a subscription *)

Definition is_delete_request (ev : Event) : bool :=
  match ev with
  | Called (SubscriptionDelete _) _ => true
  | _ => false
  end.

Definition is_period_end_request (ev : Event) : bool :=
  match ev with
  | Called (SubscriptionCancelAtPeriodEnd _) _ => true
  | _ => false
  end.

(** No request that the platform accepted. *)
Definition refused (ev : Event) : Prop :=
  match ev with
  | Called _ ok => ok = false
  | _ => True
  end.

(** The two requests that cancel the subscription [sub_id]. *)
Definition cancels (sub_id : string) (r : Request) : Prop :=
  r = SubscriptionDelete sub_id \/ r = SubscriptionCancelAtPeriodEnd sub_id.

(** *** Reconciliation passes *)

(** The invoices of the [Invoice.pay] requests of a history, oldest
    first. *)
Fixpoint pay_requests (h : History) : list string :=
  match h with
  | [] => []
  | Called (InvoicePay id) _ :: rest => pay_requests rest ++ [id]
  | _ :: rest => pay_requests rest
  end.

(** An invoice that a monthly pass tries to pay. *)
Definition due (inv : InvoiceObj) : bool := open_or_draft (inv_status inv).

(** *** Month loops *)

(** The rounds a loop over [first, first + count) starts when the round
    [i] ends in [break] exactly if [stop i]. *)
Fixpoint rounds_until (stop : Z -> bool) (first : Z) (count : nat) : nat :=
  match count with
  | O => O
  | S n => if stop first then 1%nat else S (rounds_until stop (first + 1) n)
  end.

(** The month [m2] (from 0) in which a customer of the canceled flow is
    canceled (line 423). *)
Definition cancels_in (cancel_after : Z) (m2 : Z) : bool := m2 + 1 >=? cancel_after.

(** *** Payment methods *)

Definition is_attach_request (ev : Event) : bool :=
  match ev with
  | Called (PaymentMethodAttach _ _) _ => true
  | _ => false
  end.

Definition is_modify_request (ev : Event) : bool :=
  match ev with
  | Called (CustomerModify _ _) _ => true
  | _ => false
  end.

Definition is_lookup_request (ev : Event) : bool :=
  match ev with
  | Called (PaymentMethodRetrieve _) _ => true
  | _ => false
  end.

(** The requests that set a customer's default payment method: attach to
    that customer, modify that customer, look a payment method up. *)
Definition serves (customer : string) (ev : Event) : Prop :=
  match ev with
  | Called (PaymentMethodAttach _ c) _ => c = customer
  | Called (CustomerModify c _) _ => c = customer
  | Called (PaymentMethodRetrieve _) _ => True
  | Called _ _ => False
  | _ => True
  end.

(** *** What becomes of an advance request *)

(** Where the latest advance request of [generate_past_due_new.py]
    stands. *)
Inductive Standing : Type :=
| Settled      (* none is under way: the last one was confirmed, or caught *)
| Waiting      (* accepted, and the line that confirms it is not printed yet *)
| Refused.     (* refused by the platform *)

(** The next effect.  After an accepted request come the looks at the
    clock and the sleeps of the wait, then the line [done:] of line 77.
    A request that was refused, or accepted and not confirmed, is followed
    by nothing, unless [catching]: then the warning of the closing
    auto-advance (lines 585-586 and 663-664) may come next.  [None]: the
    effect cannot come next. *)
Definition standing_after (catching : bool) (p : Standing) (ev : Event)
    : option Standing :=
  match p with
  | Settled =>
      match ev with
      | Called (ClockAdvance _ _) true => Some Waiting
      | Called (ClockAdvance _ _) false => Some Refused
      | _ => Some Settled
      end
  | Waiting =>
      match ev with
      | Called (ClockRetrieve _) _ => Some Waiting
      | Slept _ => Some Waiting
      | Printed (MsgAdvanceDone _ _) => Some Settled
      | Printed (WarnAutoAdvance _ _) => if catching then Some Settled else None
      | _ => None
      end
  | Refused =>
      match ev with
      | Printed (WarnAutoAdvance _ _) => if catching then Some Settled else None
      | _ => None
      end
  end.

(** The standing after the effects [l] (newest first), from [p]. *)
Fixpoint standing_from (catching : bool) (p : Standing) (l : History)
    : option Standing :=
  match l with
  | [] => Some p
  | ev :: older =>
      match standing_from catching p older with
      | Some q => standing_after catching q ev
      | None => None
      end
  end.

(** Started when the standing is [p], a piece of script adds its effects
    in that order, and the standing is [q] when it returns. *)
Definition keeps_order {A : Type} (catching : bool) (p q : Standing) (c : M A) : Prop :=
  forall w, exists l r,
    trace (snd (c w)) = l ++ trace w
    /\ standing_from catching p l = Some r
    /\ forall a, fst (c w) = Ok a -> r = q.

(** Every advance request of a piece of script is confirmed, or caught
    by the closing auto-advance (when [catching]), or else it is the last
    thing the script does about the clock but wait, and an exception
    leaves the script. *)
Definition accounts_for_advances {A : Type} (catching : bool) (c : M A) : Prop :=
  forall w, exists l r,
    trace (snd (c w)) = l ++ trace w
    /\ standing_from catching Settled l = Some r
    /\ (r = Settled \/ exists e, fst (c w) = Raise e).

(** How a scenario ends with its closing auto-advance, from how it ends
    without: a scenario that returns goes through the auto-advance, on
    the clock it reports, and returns the same; one that raises is left
    as it is. *)
Definition with_closing (env : Env) (o : outcome ScenarioResult * World)
    : outcome ScenarioResult * World :=
  match o with
  | (Ok r, w) => (Ok r, snd (scenario_auto_advance env (res_test_clock r) w))
  | _ => o
  end.

(** The effects of a wait. *)
Definition is_wait (ev : Event) : Prop :=
  match ev with
  | Called (ClockRetrieve _) _ => True
  | Slept _ => True
  | _ => False
  end.

Definition is_refused_advance (ev : Event) : bool :=
  match ev with
  | Called (ClockAdvance _ _) false => true
  | _ => false
  end.

Definition is_auto_advance_warning (ev : Event) : bool :=
  match ev with
  | Printed (WarnAutoAdvance _ _) => true
  | _ => false
  end.

(** *** What a scenario asks of the platform *)

(** No cancellation of a subscription. *)
Definition keeps_subscription (ev : Event) : Prop :=
  match ev with
  | Called (SubscriptionDelete _) _ => False
  | Called (SubscriptionCancelAtPeriodEnd _) _ => False
  | _ => True
  end.

(** No cancellation, and no invoice request either. *)
Definition hands_off (ev : Event) : Prop :=
  match ev with
  | Called (InvoiceList _) _ => False
  | Called (InvoiceRetrieve _) _ => False
  | Called (InvoiceFinalize _) _ => False
  | Called (InvoicePay _) _ => False
  | _ => keeps_subscription ev
  end.

Definition is_clock_create (ev : Event) : bool :=
  match ev with
  | Called (ClockCreate _ _) _ => true
  | _ => false
  end.

Definition is_subscription_create (ev : Event) : bool :=
  match ev with
  | Called (SubscriptionCreate _ _ _) _ => true
  | _ => false
  end.

(* ------------------------------------------------------------------ *)
(** *** Lines of a [.env] file *)

Fixpoint all_of (p : ascii -> bool) (s : string) : bool :=
  match s with
  | EmptyString => true
  | String c rest => p c && all_of p rest
  end.

(** White space only. *)
Definition blank (s : string) : bool := all_of is_space s.

(** A text that [strip] leaves as it is. *)
Definition trimmed (drop : ascii -> bool) (s : string) : Prop := strip drop s = s.

(** A name a line can assign: not empty, no white space at its ends, no
    [=], no [#] in front. *)
Definition plain_name (k : string) : Prop :=
  truthy_str k = true /\ trimmed is_space k
  /\ contains_char "="%char k = false /\ startswith k "#" = false.

(** A value with neither white space nor a quote at its ends. *)
Definition plain_value (v : string) : Prop :=
  trimmed is_space v /\ trimmed (is_char double_quote) v
  /\ trimmed (is_char single_quote) v.

(** No quote, a pair of double quotes or a pair of single quotes. *)
Definition quote_mark (q : string) : Prop :=
  q = EmptyString \/ q = String double_quote EmptyString
  \/ q = String single_quote EmptyString.

Definition no_null (s : string) : bool := negb (contains_char zero s).

(** *** Names given and names looked for *)

(** The test clock an event creates has a name that [do_cleanup] of
    [generate_past_due_new.py] looks for. *)
Definition names_clock_for_cleanup (ev : Event) : Prop :=
  match ev with
  | Called (ClockCreate _ name) _ => cleanup_wants_clock (Some name) = true
  | _ => True
  end.

(** The customer an event creates has an email that this cleanup does
    not look for. *)
Definition names_customer_past_cleanup (ev : Event) : Prop :=
  match ev with
  | Called (CustomerCreate email _) _ => cleanup_wants_customer (Some email) = false
  | _ => True
  end.

(** *** Housekeeping *)

(** No exception leaves a piece of housekeeping. *)
Definition contained {A : Type} (c : K A) : Prop :=
  forall d, exists a, fst (c d) = Val a.

(** Every step a piece of housekeeping adds to the book satisfies [P]. *)
Definition records {A : Type} (P : Step -> Prop) (c : K A) : Prop :=
  forall d, exists steps, book (snd (c d)) = steps ++ book d /\ Forall P steps.

(** The customer was yielded by a listing, with an email the cleanup
    wants; the subscription was yielded by the listing of such a
    customer; likewise for test clocks, products and prices. *)
Definition listed_customer (office : Office) (wants : option string -> bool)
    (c : CustomerRow) : Prop :=
  (exists h, In c (yielded (list_customers office h))) /\ wants (row_email c) = true.

Definition listed_named (rows : Book -> Listing NamedRow) (wants : option string -> bool)
    (r : NamedRow) : Prop :=
  (exists h, In r (yielded (rows h))) /\ wants (named_name r) = true.

Definition deletes_only_wanted (office : Office)
    (wants_customer wants_clock wants_product : option string -> bool)
    (s : Step) : Prop :=
  match s with
  | Did (DeleteCustomer id) _ =>
      exists c, listed_customer office wants_customer c /\ row_id c = id
  | Did (DeleteSubscription id) _ =>
      exists c h, listed_customer office wants_customer c
                  /\ In id (yielded (list_subscriptions office h (row_id c)))
  | Did (DeleteClock id) _ =>
      exists r, listed_named (list_clocks office) wants_clock r /\ named_id r = id
  | Did (DeleteProduct id) _ =>
      exists r, listed_named (list_products office) wants_product r /\ named_id r = id
  | Did (DeletePrice id) _ =>
      exists r h, listed_named (list_products office) wants_product r
                  /\ In id (yielded (list_prices office h (named_id r)))
  | Did (SetItemPrice _ _ _) _ | Did (ReplaceItem _ _ _) _
  | Did (CancelAtPeriodEnd _) _ | Did (CreateSubscription _ _) _ => False
  | _ => True
  end.

Definition is_deletion (s : Step) : bool :=
  match s with
  | Did (DeleteCustomer _) _ | Did (DeleteSubscription _) _ | Did (DeleteClock _) _
  | Did (DeleteProduct _) _ | Did (DeletePrice _) _ => true
  | _ => false
  end.

Definition deletes_customer (id : string) (s : Step) : bool :=
  match s with
  | Did (DeleteCustomer id') _ => String.eqb id' id
  | _ => false
  end.

Definition keeps_customer (id : string) (s : Step) : Prop :=
  deletes_customer id s = false.

(** A piece of housekeeping always gets to the call [c]. *)
Definition reaches {A : Type} (c : Call) (k : K A) : Prop :=
  forall d, exists steps ok,
    book (snd (k d)) = steps ++ book d /\ In (Did c ok) steps.

(** The steps of an upgrade. *)
Definition updates_item (s : Step) : bool :=
  match s with
  | Did (SetItemPrice _ _ _) true | Did (ReplaceItem _ _ _) true => true
  | _ => false
  end.

Definition retires (s : Step) : bool :=
  match s with
  | Did (DeleteSubscription _) _ | Did (CancelAtPeriodEnd _) _ => true
  | _ => false
  end.

Definition subscribes (customer price : string) (s : Step) : bool :=
  match s with
  | Did (CreateSubscription c p) _ => String.eqb c customer && String.eqb p price
  | _ => false
  end.

Definition is_call (s : Step) : bool :=
  match s with
  | Did _ _ => true
  | _ => false
  end.

(** ** Sample platforms *)

Definition world0 : World := mkWorld 0 [] (mkSummary 0 0).

(** Counters and trace at the start of a reconciliation. *)
Definition world_with (paid unpaid : Z) : World := mkWorld 0 [] (mkSummary paid unpaid).

Definition ready_clock (id : string) (frozen_time : Z) : ClockObj :=
  mkClock id true (Some frozen_time) (Some "ready").

(** The target of the last accepted advance. *)
Fixpoint frozen_after (h : History) (init : Z) : Z :=
  match h with
  | [] => init
  | Called (ClockAdvance _ t) true :: _ => t
  | _ :: rest => frozen_after rest init
  end.

Definition open_invoice (id : string) (next_attempt : option Z) : InvoiceObj :=
  mkInvoice true id (Some "open") (Some start_ts) (Some 1) next_attempt None.

Definition paid_invoice (id : string) : InvoiceObj :=
  mkInvoice true id (Some "paid") (Some start_ts) (Some 1) None None.

Definition past_due_subscription (id : string) (next_attempt : option Z) : SubscriptionObj :=
  mkSub id true (Some "past_due") (Some (open_invoice "in_1" next_attempt)) None None
        (Some start_ts).

Definition silent : Env :=
  mkEnv (fun _ _ _ => Error StripeError) (fun _ _ => Error StripeError)
        (fun _ _ _ => Error StripeError) (fun _ _ _ => Error StripeError)
        (fun _ _ _ => Error StripeError) (fun _ _ => Error StripeError)
        (fun _ _ => Error StripeError) (fun _ _ _ => Error StripeError)
        (fun _ _ _ _ => Error StripeError) (fun _ _ => Error StripeError)
        (fun _ _ => Error StripeError) (fun _ _ => Error StripeError)
        (fun _ _ => Error StripeError) (fun _ _ => Error StripeError)
        (fun _ _ => Error StripeError) (fun _ _ => Error StripeError)
        (fun _ lo _ => lo).

Definition with_clock (retrieve : History -> string -> reply ClockObj)
    (advance : History -> string -> Z -> reply unit) (e : Env) : Env :=
  mkEnv (clock_create e) retrieve advance (customer_create e) (customer_modify e)
        (payment_method_create e) (payment_method_retrieve e) (payment_method_attach e)
        (subscription_create e) (subscription_retrieve e) (subscription_delete e)
        (subscription_cancel_at_period_end e) (invoice_list e) (invoice_retrieve e)
        (invoice_finalize e) (invoice_pay e) (randint e).

Definition with_subscription (retrieve : History -> string -> reply SubscriptionObj)
    (e : Env) : Env :=
  mkEnv (clock_create e) (clock_retrieve e) (clock_advance e) (customer_create e)
        (customer_modify e) (payment_method_create e) (payment_method_retrieve e)
        (payment_method_attach e) (subscription_create e) retrieve
        (subscription_delete e) (subscription_cancel_at_period_end e) (invoice_list e)
        (invoice_retrieve e) (invoice_finalize e) (invoice_pay e) (randint e).

Definition with_invoices (list : History -> string -> reply (list InvoiceObj))
    (retrieve : History -> string -> reply InvoiceObj)
    (finalize pay : History -> string -> reply unit) (e : Env) : Env :=
  mkEnv (clock_create e) (clock_retrieve e) (clock_advance e) (customer_create e)
        (customer_modify e) (payment_method_create e) (payment_method_retrieve e)
        (payment_method_attach e) (subscription_create e) (subscription_retrieve e)
        (subscription_delete e) (subscription_cancel_at_period_end e)
        list retrieve finalize pay (randint e).

(** A platform that creates what the scenarios ask for, on top of the
    clock and invoices of [e]. *)
Definition with_creation (e : Env) : Env :=
  mkEnv (fun _ frozen_time _ => Reply (ready_clock "clock_1" frozen_time))
        (clock_retrieve e) (clock_advance e)
        (fun _ _ _ => Reply "cus_1")
        (fun _ _ _ => Reply tt)
        (fun _ _ => Reply (mkPM (Some "pm_1") None))
        (fun _ id => Reply (mkPM (Some id) (Some "cus_1")))
        (fun _ id customer => Reply (mkPM (Some id) (Some customer)))
        (fun _ _ _ anchor =>
           Reply (mkSub "sub_1" true (Some "active") None None None (Some anchor)))
        (subscription_retrieve e) (subscription_delete e)
        (subscription_cancel_at_period_end e) (invoice_list e) (invoice_retrieve e)
        (invoice_finalize e) (invoice_pay e) (randint e).

(** A platform that does what it is asked at once. *)
Definition obedient (init : Z) : Env :=
  with_clock (fun h id => Reply (ready_clock id (frozen_after h init)))
             (fun _ _ _ => Reply tt) silent.

(** A platform that accepts every advance and reports the clock ready
    where it was. *)
Definition stale (frozen_time : Z) : Env :=
  with_clock (fun _ id => Reply (ready_clock id frozen_time))
             (fun _ _ _ => Reply tt) silent.

(** A clock reply that is a plain object: attributes and no [.get]. *)
Definition plain_clock (id : string) (frozen_time : Z) : ClockObj :=
  mkClock id false (Some frozen_time) (Some "ready").

(** A platform that takes every advance and whose clock, shown as a plain
    object, starts at [init] and is back at the epoch once an advance was
    requested. *)
Definition resetting (init : Z) : Env :=
  with_clock (fun h id => Reply (plain_clock id (if existsb is_advance_call h
                                                 then 0 else init)))
             (fun _ _ _ => Reply tt) silent.

(** A platform that throttles every advance. *)
Definition throttled (frozen_time : Z) : Env :=
  with_clock (fun _ id => Reply (ready_clock id frozen_time))
             (fun _ _ _ => Error RateLimitError) silent.

(** A platform whose clock replies carry a status and no frozen time. *)
Definition timeless : Env :=
  with_clock (fun _ id => Reply (mkClock id true None (Some "ready")))
             (fun _ _ _ => Reply tt) silent.

(** A clock that follows the accepted advances for ten years from the
    start. *)
Definition within_ten_years (t : Z) : Z :=
  Z.max start_ts (Z.min t (start_ts + 3650 * 86400)).

(** A platform whose invoice is retried one day after the clock and
    never paid. *)
Definition dunning_forever : Env :=
  with_subscription
    (fun h id => Reply (past_due_subscription id
                          (Some (within_ten_years (frozen_after h start_ts) + 86400))))
    (with_clock
       (fun h id => Reply (ready_clock id (within_ten_years (frozen_after h start_ts))))
       (fun _ _ _ => Reply tt) silent).

(** Platforms whose subscription has no invoice, or a paid one. *)
Definition nothing_to_dun : Env :=
  with_subscription (fun _ id => Reply (mkSub id true (Some "active") None None None None))
                    (obedient start_ts).

Definition already_paid : Env :=
  with_subscription
    (fun _ id => Reply (mkSub id true (Some "active") (Some (paid_invoice "in_1"))
                              None None None))
    (obedient start_ts).

(** A platform whose invoice is paid once two advances were requested. *)
Definition recovering : Env :=
  with_subscription
    (fun h id => Reply (if (2 <=? count_events is_advance_call h)%nat
                        then mkSub id true (Some "active") (Some (paid_invoice "in_1"))
                                   None None None
                        else past_due_subscription id (Some (start_ts + 86400))))
    (obedient start_ts).

(** A customer with one open invoice and a card that is declined. *)
Definition declining : Env :=
  with_invoices (fun _ _ => Reply [open_invoice "in_1" None])
                (fun _ id => Reply (open_invoice id None))
                (fun _ _ => Reply tt)
                (fun _ _ => Error StripeError)
                (obedient start_ts).

(** A customer with a paid invoice and an open one; the platform takes
    one payment for an invoice and shows it as paid from then on. *)
Definition was_paid (id : string) (h : History) : bool :=
  existsb (fun ev => match ev with
                     | Called (InvoicePay i) true => String.eqb i id
                     | _ => false
                     end) h.

Definition invoice_now (h : History) (id : string) : InvoiceObj :=
  if String.eqb id "in_1" || was_paid id h
  then paid_invoice id
  else open_invoice id None.

Definition settling : Env :=
  with_invoices (fun h _ => Reply [invoice_now h "in_1"; invoice_now h "in_2"])
                (fun h id => Reply (invoice_now h id))
                (fun _ _ => Reply tt)
                (fun h id => if String.eqb id "in_1" || was_paid id h
                             then Error StripeError
                             else Reply tt)
                (obedient start_ts).

Definition after_first_pass : World :=
  snd (finalize_and_pay_pending settling "cus_1" (world_with 0 0)).

Definition after_second_pass : World :=
  snd (finalize_and_pay_pending settling "cus_1" after_first_pass).

Definition throttled_platform : Env := with_creation (throttled start_ts).

(** A platform that does all the scenarios ask for and whose clock,
    once created, never comes ready. *)
Definition never_ready : Env :=
  with_creation
    (with_clock (fun _ id => Reply (mkClock id true (Some start_ts) (Some "advancing")))
                (fun _ _ _ => Reply tt)
                nothing_to_dun).

(** The closing auto-advance of an entity has begun: its line is the
    latest of the lines [Auto Advance] and [Batch]. *)
Fixpoint auto_advancing (h : History) : bool :=
  match h with
  | [] => false
  | Printed (MsgText s) :: older =>
      if String.eqb s "[Auto Advance]" then true
      else if String.eqb s "[Batch]" then false
      else auto_advancing older
  | _ :: older => auto_advancing older
  end.

(** A platform that does all the scenarios ask for, on a subscription
    without invoice, and refuses the advance of every closing
    auto-advance. *)
Definition closing_refused : Env :=
  with_creation
    (with_clock (fun h id => Reply (ready_clock id (frozen_after h start_ts)))
                (fun h _ _ => if auto_advancing h then Error RateLimitError else Reply tt)
                nothing_to_dun).

Definition batch_of_three : Args :=
  mkArgs Linger "test1@example.com" 2 1 3 "test" 1 3 0 2 6.

(** The world in which the first entity of a linger batch starts to
    create its clock. *)
Definition first_entity_start (env : Env) (args : Args) (w : World) : World :=
  let w1 := printed (MsgText "Batch mode") w in
  let paid := randint env (trace w1) (arg_min_paid args) (arg_max_paid args) in
  printed (MsgText "SCENARIO: LINGER")
    (printed (MsgText "[Batch]")
       (drew (arg_min_paid args) (arg_max_paid args) paid w1)).

Definition with_cancellation (delete cancel : History -> string -> reply unit)
    (e : Env) : Env :=
  mkEnv (clock_create e) (clock_retrieve e) (clock_advance e) (customer_create e)
        (customer_modify e) (payment_method_create e) (payment_method_retrieve e)
        (payment_method_attach e) (subscription_create e) (subscription_retrieve e)
        delete cancel (invoice_list e) (invoice_retrieve e) (invoice_finalize e)
        (invoice_pay e) (randint e).

(** A platform that throttles every delete of a subscription and would
    take a cancellation at the end of the period. *)
Definition rate_limited : Env :=
  with_cancellation (fun _ _ => Error RateLimitError) (fun _ _ => Reply tt) silent.

(** A platform that refuses the delete and takes the cancellation at the
    end of the period. *)
Definition undeletable : Env :=
  with_cancellation (fun _ _ => Error StripeError) (fun _ _ => Reply tt) silent.

Definition draft_invoice (id : string) : InvoiceObj :=
  mkInvoice true id (Some "draft") (Some start_ts) (Some 0) None None.

(** A customer with a draft and an open invoice on a platform that
    refuses to finalize and to pay. *)
Definition refusing : Env :=
  with_invoices (fun _ _ => Reply [draft_invoice "in_1"; open_invoice "in_2" None])
                (fun _ id => Reply (if String.eqb id "in_1" then draft_invoice id
                                    else open_invoice id None))
                (fun _ _ => Error StripeError)
                (fun _ _ => Error StripeError)
                (obedient start_ts).

(** Batches whose bounds for the draws are the wrong way round. *)
Definition batch_paid_reversed : Args :=
  mkArgs Linger "test1@example.com" 2 1 3 "test" 3 1 0 2 6.

Definition batch_past_due_reversed : Args :=
  mkArgs Recover "test1@example.com" 2 1 3 "test" 1 3 4 2 6.

(* ------------------------------------------------------------------ *)
(** *** A [.env] file, an office *)

Definition empty_environ : Environ := fun _ => None.

Definition key_in_environ : Environ :=
  fun name => if String.eqb name "STRIPE_SECRET_KEY" then Some "sk_test_shell" else None.

Definition dotenv_file : list string :=
  [ ("# keys" ++ newline)%string;
    ("PRICE_ID = price_1" ++ newline)%string;
    ("STRIPE_SECRET_KEY=sk_test_1" ++ newline)%string;
    ("STRIPE_SECRET_KEY=sk_test_2" ++ newline)%string ].

Definition null_line : string :=
  ("BAD=" ++ String zero EmptyString ++ newline)%string.

Definition desk0 : Desk := mkDesk [] 0.

(** Two customers, of which the cleanup of [generate_past_due_new.py]
    wants the first; one subscription each; one clock; every call goes
    through. *)
Definition tidy_office : Office := {|
  list_customers := fun _ =>
    mkListing [mkCustomerRow "cus_1" (Some "test1@example.com");
               mkCustomerRow "cus_2" (Some "test2@actual.com")] None;
  list_subscriptions := fun _ c => mkListing [("sub_of_" ++ c)%string] None;
  delete_subscription := fun _ _ => Reply tt;
  delete_customer := fun _ _ => Reply tt;
  list_clocks := fun _ => mkListing [mkNamedRow "clock_1" (Some "learn_tc_1735689600")] None;
  delete_clock := fun _ _ => Reply tt;
  list_products := fun _ => mkListing [] None;
  list_prices := fun _ _ => mkListing [] None;
  delete_price := fun _ _ => Reply tt;
  delete_product := fun _ _ => Reply tt;
  set_item_price := fun _ _ _ _ => Reply tt;
  replace_item := fun _ _ _ _ => Reply tt;
  cancel_at_period_end := fun _ _ => Reply tt;
  create_subscription := fun _ _ _ => Reply tt
|}.

(** The same customers, but no listing of subscriptions comes to its
    end and no call goes through. *)
Definition deaf_office : Office := {|
  list_customers := list_customers tidy_office;
  list_subscriptions := fun _ c => mkListing [("sub_of_" ++ c)%string] (Some StripeError);
  delete_subscription := fun _ _ => Error StripeError;
  delete_customer := fun _ _ => Error StripeError;
  list_clocks := fun _ => mkListing [] (Some StripeError);
  delete_clock := fun _ _ => Error StripeError;
  list_products := fun _ => mkListing [] (Some StripeError);
  list_prices := fun _ _ => mkListing [] (Some StripeError);
  delete_price := fun _ _ => Error StripeError;
  delete_product := fun _ _ => Error StripeError;
  set_item_price := fun _ _ _ _ => Error StripeError;
  replace_item := fun _ _ _ _ => Error StripeError;
  cancel_at_period_end := fun _ _ => Error StripeError;
  create_subscription := fun _ _ _ => Error StripeError
|}.

Definition upgrade_rec : UpgradeRec :=
  mkUpgradeRec "upgrade1@actual.com" "cus_1" "clock_1" "sub_1" (Some "si_1") 2.

(** ** Reasoning about scripts *)

Create HintDb script discriminated.

Section Combinators.

Context {A B : Type}.

Lemma bind_ok (c : M A) (k : A -> M B) (w w' : World) (a : A) :
  c w = (Ok a, w') -> bind c k w = k a w'.
Proof. intros H. unfold bind. now rewrite H. Qed.

Lemma bind_raise (c : M A) (k : A -> M B) (w w' : World) (e : exn) :
  c w = (Raise e, w') -> bind c k w = (Raise e, w').
Proof. intros H. unfold bind. now rewrite H. Qed.

(** *** [never_diverges] *)

Lemma nd_ret (a : A) : never_diverges (ret a).
Proof. intros w. discriminate. Qed.

Lemma nd_raise (e : exn) : never_diverges (@raise A e).
Proof. intros w. discriminate. Qed.

Lemma nd_bind (c : M A) (k : A -> M B) :
  never_diverges c -> (forall a, never_diverges (k a)) -> never_diverges (bind c k).
Proof.
  intros Hc Hk w. unfold bind. specialize (Hc w).
  destruct (c w) as [[a | e |] w']; simpl in *;
    [apply Hk | discriminate | congruence].
Qed.

Lemma nd_try_except (c : M A) (h : exn -> M A) :
  never_diverges c -> (forall e, never_diverges (h e)) -> never_diverges (try_except c h).
Proof.
  intros Hc Hh w. unfold try_except. specialize (Hc w).
  destruct (c w) as [[a | e |] w']; simpl in *;
    [discriminate | apply Hh | congruence].
Qed.

Lemma nd_attempt (c : M A) : never_diverges c -> never_diverges (attempt c).
Proof.
  intros Hc w. unfold attempt, try_except, bind, ret. specialize (Hc w).
  destruct (c w) as [[a | e |] w']; simpl in *; congruence.
Qed.

Lemma nd_lift (r : result A) : never_diverges (lift r).
Proof. destruct r; intros w; discriminate. Qed.

Lemma nd_remote (req : Request) (answer : History -> reply A) :
  never_diverges (remote req answer).
Proof. intros w. unfold remote. destruct (answer (trace w)); discriminate. Qed.

(** *** [never_raises] *)

Lemma nr_ret (a : A) : never_raises (ret a).
Proof. intros w. now exists a. Qed.

Lemma nr_bind (c : M A) (k : A -> M B) :
  never_raises c -> (forall a, never_raises (k a)) -> never_raises (bind c k).
Proof.
  intros Hc Hk w. unfold bind. destruct (Hc w) as [a Ha].
  destruct (c w) as [o w']. simpl in Ha. subst o. apply Hk.
Qed.

Lemma nr_try_except (c : M A) (h : exn -> M A) :
  never_diverges c -> (forall e, never_raises (h e)) -> never_raises (try_except c h).
Proof.
  intros Hc Hh w. unfold try_except. specialize (Hc w).
  destruct (c w) as [[a | e |] w']; simpl in *;
    [now exists a | apply Hh | congruence].
Qed.

Lemma nr_attempt (c : M A) : never_diverges c -> never_raises (attempt c).
Proof.
  intros Hc w. unfold attempt, try_except, bind, ret. specialize (Hc w).
  destruct (c w) as [[a | e |] w']; simpl in *;
    [now exists (Val a) | now exists (Exc e) | congruence].
Qed.

(** *** [emits] *)

Variable P : Event -> Prop.

Lemma em_ret (a : A) : emits P (ret a).
Proof. intros w. now exists []. Qed.

Lemma em_raise (e : exn) : emits P (@raise A e).
Proof. intros w. now exists []. Qed.

Lemma em_bind (c : M A) (k : A -> M B) :
  emits P c -> (forall a, emits P (k a)) -> emits P (bind c k).
Proof.
  intros Hc Hk w. unfold bind. destruct (Hc w) as (l & Hl & Pl).
  destruct (c w) as [[a | e |] w']; simpl in *; try (now exists l).
  destruct (Hk a w') as (l' & Hl' & Pl').
  exists (l' ++ l). split.
  - now rewrite Hl', Hl, app_assoc.
  - apply Forall_app. now split.
Qed.

Lemma em_try_except (c : M A) (h : exn -> M A) :
  emits P c -> (forall e, emits P (h e)) -> emits P (try_except c h).
Proof.
  intros Hc Hh w. unfold try_except. destruct (Hc w) as (l & Hl & Pl).
  destruct (c w) as [[a | e |] w']; simpl in *; try (now exists l).
  destruct (Hh e w') as (l' & Hl' & Pl').
  exists (l' ++ l). split.
  - now rewrite Hl', Hl, app_assoc.
  - apply Forall_app. now split.
Qed.

Lemma em_lift (r : result A) : emits P (lift r).
Proof. destruct r; intros w; now exists []. Qed.

Lemma em_remote (req : Request) (answer : History -> reply A) :
  P (Called req true) -> P (Called req false) -> emits P (remote req answer).
Proof.
  intros Ht Hf w. unfold remote.
  destruct (answer (trace w)); simpl.
  - exists [Called req true]. split; [reflexivity | now constructor].
  - exists [Called req false]. split; [reflexivity | now constructor].
Qed.

(** *** [costs] *)

Variable p : Event -> bool.

Lemma costs_weaken (n m : nat) (c : M A) :
  (n <= m)%nat -> costs p n c -> costs p m c.
Proof. intros Hnm Hc w. specialize (Hc w). lia. Qed.

Lemma costs_ret (a : A) : costs p 0 (ret a).
Proof. intros w. simpl. lia. Qed.

Lemma costs_raise (e : exn) : costs p 0 (@raise A e).
Proof. intros w. simpl. lia. Qed.

Lemma costs_bind (n m : nat) (c : M A) (k : A -> M B) :
  costs p n c -> (forall a, costs p m (k a)) -> costs p (n + m) (bind c k).
Proof.
  intros Hc Hk w. unfold bind. specialize (Hc w).
  destruct (c w) as [[a | e |] w']; simpl in *; try lia.
  specialize (Hk a w'). lia.
Qed.

Lemma costs_try_except (n m : nat) (c : M A) (h : exn -> M A) :
  costs p n c -> (forall e, costs p m (h e)) -> costs p (n + m) (try_except c h).
Proof.
  intros Hc Hh w. unfold try_except. specialize (Hc w).
  destruct (c w) as [[a | e |] w']; simpl in *; try lia.
  specialize (Hh e w'). lia.
Qed.

Lemma costs_lift (r : result A) : costs p 0 (lift r).
Proof. destruct r; intros w; simpl; lia. Qed.

Lemma costs_remote_one (req : Request) (answer : History -> reply A) :
  costs p 1 (remote req answer).
Proof.
  intros w. unfold remote, count_events.
  destruct (answer (trace w)); simpl;
    match goal with |- context [p ?ev] => destruct (p ev) end; simpl; lia.
Qed.

Lemma costs_remote_zero (req : Request) (answer : History -> reply A) :
  (forall ok, p (Called req ok) = false) -> costs p 0 (remote req answer).
Proof.
  intros H w. unfold remote, count_events.
  destruct (answer (trace w)); simpl; rewrite H; lia.
Qed.

End Combinators.

Lemma nd_emit (ev : Event) : never_diverges (emit ev).
Proof. intros w. discriminate. Qed.

Lemma nd_sleep (d : Q) : never_diverges (sleep d).
Proof. intros w. discriminate. Qed.

Lemma nd_time_time : never_diverges time_time.
Proof. intros w. discriminate. Qed.

Lemma nd_paid_incr : never_diverges paid_incr.
Proof. intros w. discriminate. Qed.

Lemma nd_unpaid_incr : never_diverges unpaid_incr.
Proof. intros w. discriminate. Qed.

Lemma nr_emit (ev : Event) : never_raises (emit ev).
Proof. intros w. now exists tt. Qed.

Lemma nr_sleep (d : Q) : never_raises (sleep d).
Proof. intros w. now exists tt. Qed.

Lemma nr_paid_incr : never_raises paid_incr.
Proof. intros w. now exists tt. Qed.

Lemma nr_unpaid_incr : never_raises unpaid_incr.
Proof. intros w. now exists tt. Qed.

Lemma em_emit (P : Event -> Prop) (ev : Event) : P ev -> emits P (emit ev).
Proof. intros H w. exists [ev]. split; [reflexivity | now constructor]. Qed.

Lemma em_sleep (P : Event -> Prop) (d : Q) : P (Slept d) -> emits P (sleep d).
Proof. intros H w. exists [Slept d]. split; [reflexivity | now constructor]. Qed.

Lemma em_time_time (P : Event -> Prop) : emits P time_time.
Proof. intros w. now exists []. Qed.

Lemma em_paid_incr (P : Event -> Prop) : emits P paid_incr.
Proof. intros w. now exists []. Qed.

Lemma em_unpaid_incr (P : Event -> Prop) : emits P unpaid_incr.
Proof. intros w. now exists []. Qed.

Lemma costs_emit (p : Event -> bool) (ev : Event) :
  p ev = false -> costs p 0 (emit ev).
Proof. intros H w. unfold count_events. simpl. rewrite H. lia. Qed.

Lemma costs_sleep (p : Event -> bool) (d : Q) :
  p (Slept d) = false -> costs p 0 (sleep d).
Proof. intros H w. unfold count_events. simpl. rewrite H. lia. Qed.

Lemma costs_time_time (p : Event -> bool) : costs p 0 time_time.
Proof. intros w. simpl. lia. Qed.

Lemma costs_paid_incr (p : Event -> bool) : costs p 0 paid_incr.
Proof. intros w. simpl. lia. Qed.

Lemma costs_unpaid_incr (p : Event -> bool) : costs p 0 unpaid_incr.
Proof. intros w. simpl. lia. Qed.



Lemma em_attempt {A : Type} (P : Event -> Prop) (c : M A) :
  emits P c -> emits P (attempt c).
Proof.
  intros Hc. unfold attempt. apply em_try_except.
  - apply em_bind; [exact Hc | intros a; apply em_ret].
  - intros e. apply em_ret.
Qed.

Lemma costs_attempt {A : Type} (p : Event -> bool) (n : nat) (c : M A) :
  costs p n c -> costs p n (attempt c).
Proof.
  intros Hc. unfold attempt.
  apply costs_weaken with (n := (n + 0 + 0)%nat); [lia|].
  apply costs_try_except.
  - apply costs_bind; [exact Hc | intros a; apply costs_ret].
  - intros e. apply costs_ret.
Qed.

(** *** Loops *)

Lemma nd_for_range (body : Z -> M loop_ctl) (count : nat) :
  (forall i, never_diverges (body i)) ->
  forall first, never_diverges (for_range body first count).
Proof.
  intros Hb. induction count as [|n IH]; intros first; cbn [for_range].
  - apply nd_ret.
  - apply nd_bind; [apply Hb|]. intros [|].
    + apply nd_bind; [apply IH | intros k; apply nd_ret].
    + apply nd_ret.
Qed.

Lemma nr_for_range (body : Z -> M loop_ctl) (count : nat) :
  (forall i, never_raises (body i)) ->
  forall first, never_raises (for_range body first count).
Proof.
  intros Hb. induction count as [|n IH]; intros first; cbn [for_range].
  - apply nr_ret.
  - apply nr_bind; [apply Hb|]. intros [|].
    + apply nr_bind; [apply IH | intros k; apply nr_ret].
    + apply nr_ret.
Qed.

Lemma costs_for_range (p : Event -> bool) (n : nat) (body : Z -> M loop_ctl)
    (count : nat) :
  (forall i, costs p n (body i)) ->
  forall first, costs p (count * n) (for_range body first count).
Proof.
  intros Hb. induction count as [|m IH]; intros first; cbn [for_range].
  - apply costs_ret.
  - apply costs_weaken with (n := (n + (m * n + 0))%nat); [lia|].
    apply costs_bind; [apply Hb|]. intros [|].
    + apply costs_bind; [apply IH | intros k; apply costs_ret].
    + apply costs_weaken with (n := 0%nat); [lia | apply costs_ret].
Qed.

(** The loop never starts more rounds than its range has. *)
Lemma for_range_rounds (body : Z -> M loop_ctl) (count : nat) :
  forall first w k w',
    for_range body first count w = (Ok k, w') -> (k <= count)%nat.
Proof.
  induction count as [|n IH]; intros first w k w'; cbn [for_range].
  - unfold ret. intros [= <- _]. lia.
  - unfold bind at 1. destruct (body first w) as [[[|] | e |] w1]; try discriminate.
    + unfold bind. destruct (for_range body (first + 1) n w1) as [[k1 | e |] w2] eqn:E;
        try discriminate.
      unfold ret. intros [= <- _]. apply IH in E. lia.
    + unfold ret. intros [= <- _]. lia.
Qed.

Section ForEach.

Context {A S : Type}.
Variable body : A -> S -> M S.

Lemma nd_for_each :
  (forall x acc, never_diverges (body x acc)) ->
  forall xs acc, never_diverges (for_each body xs acc).
Proof.
  intros Hb xs. induction xs as [|x rest IH]; intros acc; cbn [for_each].
  - apply nd_ret.
  - apply nd_bind; [apply Hb | intros acc'; apply IH].
Qed.

End ForEach.

Lemma costs_zero {A : Type} (p : Event -> bool) (n : nat) (c : M A) :
  costs p 0 c -> costs p n c.
Proof. apply costs_weaken. lia. Qed.

Lemma costs_bind_l {A B : Type} (p : Event -> bool) (n : nat) (c : M A) (k : A -> M B) :
  costs p 0 c -> (forall a, costs p n (k a)) -> costs p n (bind c k).
Proof. intros Hc Hk. change n with (0 + n)%nat. now apply costs_bind. Qed.

Lemma costs_bind_r {A B : Type} (p : Event -> bool) (n : nat) (c : M A) (k : A -> M B) :
  costs p n c -> (forall a, costs p 0 (k a)) -> costs p n (bind c k).
Proof.
  intros Hc Hk. apply costs_weaken with (n := (n + 0)%nat); [lia|].
  now apply costs_bind.
Qed.

Lemma costs_try_l {A : Type} (p : Event -> bool) (n : nat) (c : M A) (h : exn -> M A) :
  costs p 0 c -> (forall e, costs p n (h e)) -> costs p n (try_except c h).
Proof. intros Hc Hh. change n with (0 + n)%nat. now apply costs_try_except. Qed.

Lemma costs_try_r {A : Type} (p : Event -> bool) (n : nat) (c : M A) (h : exn -> M A) :
  costs p n c -> (forall e, costs p 0 (h e)) -> costs p n (try_except c h).
Proof.
  intros Hc Hh. apply costs_weaken with (n := (n + 0)%nat); [lia|].
  now apply costs_try_except.
Qed.

#[local] Hint Resolve nd_ret nd_raise nd_lift nd_remote nd_emit nd_sleep nd_time_time
  nd_paid_incr nd_unpaid_incr nd_attempt : script.
#[local] Hint Resolve nr_ret nr_emit nr_sleep nr_paid_incr nr_unpaid_incr nr_attempt : script.
#[local] Hint Resolve em_ret em_raise em_lift em_time_time em_paid_incr em_unpaid_incr
  em_attempt : script.
#[local] Hint Resolve costs_ret costs_raise costs_lift costs_time_time costs_paid_incr
  costs_unpaid_incr costs_attempt : script.

(** Structural proofs over a script in [bind] form. *)
Ltac nd_script :=
  lazymatch goal with
  | |- never_diverges (bind _ _) => apply nd_bind; [nd_script | intros ?; nd_script]
  | |- never_diverges (try_except _ _) =>
      apply nd_try_except; [nd_script | intros ?; nd_script]
  | |- never_diverges (attempt _) => apply nd_attempt; nd_script
  | |- never_diverges (if ?b then _ else _) => destruct b; nd_script
  | |- never_diverges (match ?x with _ => _ end) => destruct x; nd_script
  | |- never_diverges (print _) => apply nd_emit
  | |- never_diverges (for_range _ _ _) => apply nd_for_range; intros ?; nd_script
  | |- never_diverges (for_each _ _ _) => apply nd_for_each; intros ? ?; nd_script
  | |- _ => solve [auto with script]
  end.

Ltac nr_script :=
  lazymatch goal with
  | |- never_raises (bind _ _) => apply nr_bind; [nr_script | intros ?; nr_script]
  | |- never_raises (try_except _ _) =>
      apply nr_try_except; [nd_script | intros ?; nr_script]
  | |- never_raises (attempt _) => apply nr_attempt; nd_script
  | |- never_raises (if ?b then _ else _) => destruct b; nr_script
  | |- never_raises (match ?x with _ => _ end) => destruct x; nr_script
  | |- never_raises (print _) => apply nr_emit
  | |- _ => solve [auto with script]
  end.

Ltac em_script side :=
  lazymatch goal with
  | |- emits _ (bind _ _) => apply em_bind; [em_script side | intros ?; em_script side]
  | |- emits _ (try_except _ _) =>
      apply em_try_except; [em_script side | intros ?; em_script side]
  | |- emits _ (attempt _) => apply em_attempt; em_script side
  | |- emits _ (if ?b then _ else _) => destruct b; em_script side
  | |- emits _ (match ?x with _ => _ end) => destruct x; em_script side
  | |- emits _ (print _) => apply em_emit; side
  | |- emits _ (emit _) => apply em_emit; side
  | |- emits _ (sleep _) => apply em_sleep; side
  | |- emits _ (remote _ _) => apply em_remote; side
  | |- _ => solve [auto with script]
  end.

Ltac costs_leaf :=
  first [ solve [auto with script]
        | apply costs_emit; reflexivity
        | apply costs_sleep; reflexivity
        | apply costs_remote_zero; intros ?; reflexivity ].

Ltac costs_script :=
  lazymatch goal with
  | |- costs _ _ (bind _ _) =>
      first [ apply costs_bind_l; [solve [costs_script] | intros ?; costs_script]
            | apply costs_bind_r; [costs_script | intros ?; solve [costs_script]] ]
  | |- costs _ _ (try_except _ _) =>
      first [ apply costs_try_l; [solve [costs_script] | intros ?; costs_script]
            | apply costs_try_r; [costs_script | intros ?; solve [costs_script]] ]
  | |- costs _ _ (attempt _) => apply costs_attempt; costs_script
  | |- costs _ _ (if ?b then _ else _) => destruct b; costs_script
  | |- costs _ _ (match ?x with _ => _ end) => destruct x; costs_script
  | |- costs _ O _ => costs_leaf
  | |- _ => first [ solve [auto with script] | apply costs_zero; costs_leaf ]
  end.

(** *** The wait loops end *)

Lemma inject_Z_succ (n : nat) :
  (inject_Z (Z.of_nat (S n)) == inject_Z (Z.of_nat n) + 1)%Q.
Proof.
  rewrite Nat2Z.inj_succ. unfold Z.succ. rewrite inject_Z_plus. reflexivity.
Qed.

Lemma Qltb_false (a b : Q) : Qltb a b = false -> (b <= a)%Q.
Proof.
  unfold Qltb. intros H. apply negb_false_iff in H. now apply Qle_bool_iff.
Qed.

Lemma Qltb_true (a b : Q) : Qltb a b = true -> (a < b)%Q.
Proof.
  unfold Qltb. intros H. apply negb_true_iff in H.
  apply Qnot_le_lt. intros Hle. apply Qle_bool_iff in Hle. congruence.
Qed.

Lemma budget_after_sleep (n : nat) (timeout : Z) (start : Q) (w : World) (tr : History) :
  within_budget (S n) timeout start w ->
  Qltb (inject_Z timeout) (now w - start) = false ->
  within_budget n timeout start (mkWorld (now w + 1) tr (summary w))
  /\ n <> O.
Proof.
  unfold within_budget. intros Hb Ht. apply Qltb_false in Ht.
  rewrite inject_Z_succ in Hb. cbn [now]. split; [lra|].
  intros ->. change (inject_Z (Z.of_nat 0)) with 0%Q in Hb. lra.
Qed.

Lemma initial_budget (timeout : Z) (w : World) :
  within_budget (poll_budget timeout) timeout (now w) w.
Proof.
  unfold within_budget, poll_budget.
  assert (H : (inject_Z (timeout + 2) <= inject_Z (Z.of_nat (Z.to_nat timeout + 2)))%Q).
  { rewrite <- Zle_Qle. lia. }
  rewrite inject_Z_plus in H. change (inject_Z 2) with 2%Q in H.
  lra.
Qed.

(** *** Running a script step by step *)

Lemma remote_reply {A : Type} (req : Request) (answer : History -> reply A)
    (w : World) (a : A) :
  answer (trace w) = Reply a -> remote req answer w = (Ok a, called req true w).
Proof. intros H. unfold remote. now rewrite H. Qed.

Lemma remote_error {A : Type} (req : Request) (answer : History -> reply A)
    (w : World) (e : exn) :
  answer (trace w) = Error e -> remote req answer w = (Raise e, called req false w).
Proof. intros H. unfold remote. now rewrite H. Qed.

Lemma attempt_remote {A : Type} (req : Request) (answer : History -> reply A)
    (w : World) :
  attempt (remote req answer) w
  = (Ok (reply_result (answer (trace w))),
     called req (replied (answer (trace w))) w).
Proof.
  unfold attempt, try_except, bind, remote.
  destruct (answer (trace w)); reflexivity.
Qed.

(** One step of a [bind] whose first part runs by computation. *)
Ltac step := erewrite bind_ok by reflexivity.

(* ------------------------------------------------------------------ *)
(** ** CycleScheduler: [next_cycle_after] *)

Section CycleScheduler.

Variables anchor index current interval : Z.
Hypothesis index_nonneg : 0 <= index.
Hypothesis interval_pos : 0 < interval.

Let desired := anchor + index * interval + 60.
Let elapsed := current - anchor - 60.

Lemma stale_cycle_elapsed : desired <= current -> index * interval <= elapsed.
Proof. unfold desired, elapsed. lia. Qed.

Lemma stale_cycle_quotient : desired <= current -> index <= elapsed / interval.
Proof.
  intros H. apply Z.div_le_lower_bound; [exact interval_pos|].
  rewrite Z.mul_comm. now apply stale_cycle_elapsed.
Qed.

Lemma next_multiple_after : elapsed < (elapsed / interval + 1) * interval.
Proof.
  pose proof (Z.div_mod elapsed interval ltac:(lia)) as E.
  pose proof (Z.mod_pos_bound elapsed interval interval_pos) as B.
  nia.
Qed.

Lemma next_cycle_after_fresh :
  current < desired -> next_cycle_after anchor index current interval = Val desired.
Proof.
  intros H. unfold next_cycle_after. fold desired.
  destruct (desired >? current) eqn:E; [reflexivity|]. lia.
Qed.

Lemma next_cycle_after_stale :
  desired <= current ->
  next_cycle_after anchor index current interval
  = Val (anchor + (elapsed / interval + 1) * interval + 60).
Proof.
  intros H. unfold next_cycle_after. fold desired. fold elapsed.
  pose proof (stale_cycle_elapsed H) as He.
  pose proof (stale_cycle_quotient H) as Hq.
  destruct (desired >? current) eqn:E; [lia|].
  destruct (elapsed <? 0) eqn:E0; [nia|].
  unfold floordiv. destruct (interval =? 0) eqn:Ez; [lia|].
  destruct (elapsed / interval + 1 <? index) eqn:Ek; [lia|reflexivity].
Qed.

Lemma implied_index_of_cycle (k : Z) :
  implied_index anchor interval (anchor + k * interval + 60) = k.
Proof.
  unfold implied_index, epsilon.
  replace (anchor + k * interval + 60 - anchor - 60) with (k * interval) by lia.
  apply Z.div_mul. lia.
Qed.

(** C3: for [index >= 0] and [interval > 0] the scheduler returns a
    timestamp strictly after [current], and the cycle index it stands for
    ([result = anchor + k * interval + epsilon]) is never below the
    requested [index]. *)
Theorem next_cycle_after_monotonic :
  exists r : Z,
    next_cycle_after anchor index current interval = Val r
    /\ current < r
    /\ r = anchor + implied_index anchor interval r * interval + epsilon
    /\ index <= implied_index anchor interval r.
Proof.
  destruct (Z_lt_le_dec current desired) as [Hfresh | Hstale].
  - exists desired. rewrite (next_cycle_after_fresh Hfresh).
    unfold desired. rewrite implied_index_of_cycle. unfold epsilon.
    unfold desired in Hfresh. repeat split; lia.
  - exists (anchor + (elapsed / interval + 1) * interval + 60).
    rewrite (next_cycle_after_stale Hstale), implied_index_of_cycle.
    pose proof next_multiple_after as Hn.
    pose proof (stale_cycle_quotient Hstale) as Hq.
    unfold epsilon. repeat split; lia.
Qed.

(** C4: for [index >= 0] and [interval > 0], the domain of C3, the
    scheduler is [anchor + index * interval + 60] when that exceeds
    [current], and otherwise [anchor + k * interval + 60] with
    [k = max(index, floor((current - anchor - 60) / interval) + 1)]; for
    anchor 1735689600, interval 2592000, index 3 and current 1735689600 it
    is [1735689600 + 3 * 2592000 + 60]. *)
Theorem next_cycle_after_closed_form :
  next_cycle_after anchor index current interval
  = Val (cycle_formula anchor index current interval)
  /\ next_cycle_after 1735689600 3 1735689600 2592000
     = Val (1735689600 + 3 * 2592000 + 60).
Proof.
  split; [|reflexivity].
  unfold cycle_formula, epsilon. fold desired. fold elapsed.
  destruct (Z_lt_le_dec current desired) as [Hfresh | Hstale].
  - rewrite (next_cycle_after_fresh Hfresh).
    destruct (desired >? current) eqn:E; [reflexivity|lia].
  - rewrite (next_cycle_after_stale Hstale).
    destruct (desired >? current) eqn:E; [lia|].
    pose proof (stale_cycle_quotient Hstale) as Hq.
    rewrite Z.max_r by lia. reflexivity.
Qed.

End CycleScheduler.

(** A run of C3 and C4 past the nominal cycle: ten days after cycle 3 the
    scheduler moves to cycle 4. *)
Lemma next_cycle_after_monotonic_witness :
  exists r : Z,
    next_cycle_after 1735689600 3 (1735689600 + 3 * 2592000 + 60 + 864000) 2592000 = Val r
    /\ 1735689600 + 3 * 2592000 + 60 + 864000 < r
    /\ r = 1735689600 + implied_index 1735689600 2592000 r * 2592000 + epsilon
    /\ 3 <= implied_index 1735689600 2592000 r.
Proof.
  apply (@next_cycle_after_monotonic 1735689600 3 _ 2592000); lia.
Defined.

Lemma next_cycle_after_closed_form_witness :
  next_cycle_after 1735689600 3 (1735689600 + 3 * 2592000 + 60 + 864000) 2592000
  = Val (cycle_formula 1735689600 3 (1735689600 + 3 * 2592000 + 60 + 864000) 2592000)
  /\ next_cycle_after 1735689600 3 1735689600 2592000
     = Val (1735689600 + 3 * 2592000 + 60).
Proof.
  apply (@next_cycle_after_closed_form 1735689600 3 _ 2592000); lia.
Defined.

(* ------------------------------------------------------------------ *)
(** ** ClockAdvancer *)

Section ClockAdvancer.

Variable env : Env.

Lemma poll_ready_total (clock_id : string) (frozen_time : Z) (start : Q) :
  forall n w,
    n <> O -> within_budget n poll_timeout start w ->
    fst (poll_ready env n clock_id frozen_time start w) <> Diverged.
Proof.
  induction n as [|n IH]; intros w Hn Hb; [congruence|].
  cbn [poll_ready]. unfold TestClock_retrieve.
  erewrite bind_ok by apply attempt_remote.
  assert (Hagain : forall ok,
    fst ((t <- time_time ;;
          if Qltb (inject_Z poll_timeout) (t - start)
          then raise (TimeoutError clock_id poll_timeout (Some frozen_time) None)
          else sleep 1 ;; poll_ready env n clock_id frozen_time start)
           (called (ClockRetrieve clock_id) ok w)) <> Diverged).
  { intros ok. step. cbn [now called].
    destruct (Qltb (inject_Z poll_timeout) (now w - start)) eqn:Et; [discriminate|].
    step.
    destruct (budget_after_sleep (Slept 1 :: trace (called (ClockRetrieve clock_id) ok w))
                Hb Et) as [Hb' Hn'].
    now apply IH. }
  destruct (clock_retrieve env (trace w) clock_id) as [tc2 | e]; cbn [reply_result replied].
  - destruct (poll_accepts tc2 frozen_time); [discriminate | apply Hagain].
  - apply Hagain.
Qed.

Lemma poll_ready_accepts (clock_id : string) (frozen_time : Z) (start : Q) :
  forall n w tc2 w',
    poll_ready env n clock_id frozen_time start w = (Ok tc2, w') ->
    poll_accepts tc2 frozen_time = true
    /\ exists h, trace w' = Called (ClockRetrieve clock_id) true :: h
                 /\ clock_retrieve env h clock_id = Reply tc2.
Proof.
  induction n as [|n IH]; intros w tc2 w'; [discriminate|].
  cbn [poll_ready]. unfold TestClock_retrieve.
  erewrite bind_ok by apply attempt_remote.
  assert (Hagain : forall ok,
    (t <- time_time ;;
     if Qltb (inject_Z poll_timeout) (t - start)
     then raise (TimeoutError clock_id poll_timeout (Some frozen_time) None)
     else sleep 1 ;; poll_ready env n clock_id frozen_time start)
      (called (ClockRetrieve clock_id) ok w) = (Ok tc2, w') ->
    poll_accepts tc2 frozen_time = true
    /\ exists h, trace w' = Called (ClockRetrieve clock_id) true :: h
                 /\ clock_retrieve env h clock_id = Reply tc2).
  { intros ok. step.
    destruct (Qltb _ _); [discriminate|]. step. apply IH. }
  destruct (clock_retrieve env (trace w) clock_id) as [tc | e] eqn:Er;
    cbn [reply_result replied].
  - destruct (poll_accepts tc frozen_time) eqn:Ea; [|apply Hagain].
    intros [= <- <-]. split; [exact Ea|]. now exists (trace w).
  - apply Hagain.
Qed.

Lemma nd_poll (clock_id : string) (frozen_time : Z) :
  never_diverges (start <- time_time ;;
                  poll_ready env (poll_budget poll_timeout) clock_id frozen_time start).
Proof.
  intros w. step. apply poll_ready_total; [discriminate | apply initial_budget].
Qed.

Lemma nd_advance_attempts (clock_id : string) (frozen_time : Z) :
  forall n backoff, never_diverges (advance_attempts env clock_id frozen_time n backoff).
Proof.
  induction n as [|n IH]; intros backoff; cbn [advance_attempts].
  - apply nd_ret.
  - apply nd_bind; [apply nd_attempt, nd_remote|].
    intros [u | e]; [apply nd_ret|].
    apply nd_bind; [apply nd_sleep | intros _; apply IH].
Qed.

Lemma nd_advance_and_poll (clock_id : string) (frozen_time : Z) :
  never_diverges (advance_and_poll env clock_id frozen_time).
Proof.
  unfold advance_and_poll. apply nd_bind; [apply nd_advance_attempts|].
  intros [|]; cbn [negb]; [apply nd_poll | apply nd_raise].
Qed.

Lemma nd_read_current (clock_id : string) : never_diverges (read_current env clock_id).
Proof.
  unfold read_current. apply nd_try_except.
  - apply nd_bind; [apply nd_remote | intros tc; apply nd_ret].
  - intros e. apply nd_ret.
Qed.

Lemma nd_advance_test_clock (clock_id : string) (frozen_time : Z) :
  never_diverges (advance_test_clock env clock_id frozen_time).
Proof.
  unfold advance_test_clock.
  apply nd_bind; [apply nd_read_current | intros cur; apply nd_advance_and_poll].
Qed.

(** The requests of the retry loop: [k] refusals, each followed by its
    backoff, then an accepted request unless the attempts ran out. *)
Lemma advance_attempts_shape (clock_id : string) (frozen_time : Z) :
  forall n i w,
  exists k : nat,
    (k <= n)%nat
    /\ fst (advance_attempts env clock_id frozen_time n (backoff_at i) w)
       = Ok (k <? n)%nat
    /\ trace (snd (advance_attempts env clock_id frozen_time n (backoff_at i) w))
       = (if (k <? n)%nat then [Called (ClockAdvance clock_id frozen_time) true] else [])
         ++ failed_attempts clock_id frozen_time i k ++ trace w.
Proof.
  induction n as [|n IH]; intros i w.
  - exists O. split; [lia|]. split; reflexivity.
  - cbn [advance_attempts]. unfold TestClock_advance.
    erewrite bind_ok by apply attempt_remote.
    destruct (clock_advance env (trace w) clock_id frozen_time) as [u | e];
      cbn [reply_result replied].
    + exists O. split; [lia|]. split; reflexivity.
    + step.
      set (w1 := mkWorld _ _ _).
      destruct (IH (S i) w1) as (k & Hk & Ho & Ht).
      exists (S k). split; [lia|].
      change (next_backoff (backoff_at i)) with (backoff_at (S i)).
      change (S k <? S n)%nat with (k <? n)%nat.
      split; [exact Ho|]. rewrite Ht. cbn [failed_attempts].
      subst w1. cbn [trace called]. now rewrite <- !app_assoc.
Qed.

Lemma failed_attempts_count (clock_id : string) (frozen_time : Z) :
  forall k i, count_events is_advance_call (failed_attempts clock_id frozen_time i k) = k.
Proof.
  unfold count_events.
  induction k as [|k IH]; intros i; cbn [failed_attempts]; [reflexivity|].
  rewrite filter_app, length_app, IH. simpl. lia.
Qed.

Lemma costs_advance_attempts (clock_id : string) (frozen_time : Z) (n : nat) :
  costs is_advance_call n (advance_attempts env clock_id frozen_time n initial_backoff).
Proof.
  intros w0.
  destruct (advance_attempts_shape clock_id frozen_time n O w0) as (k & Hk & _ & Ht).
  change (backoff_at 0) with initial_backoff in Ht. rewrite Ht.
  unfold count_events in *. rewrite !filter_app, !length_app.
  fold (count_events is_advance_call (failed_attempts clock_id frozen_time 0 k)).
  rewrite failed_attempts_count.
  destruct (k <? n)%nat eqn:E; simpl; [apply Nat.ltb_lt in E|]; lia.
Qed.

Lemma costs_poll_ready (p : Event -> bool) (clock_id : string) (frozen_time : Z) (start : Q) :
  (forall ok, p (Called (ClockRetrieve clock_id) ok) = false) ->
  (forall d, p (Slept d) = false) ->
  forall n, costs p 0 (poll_ready env n clock_id frozen_time start).
Proof.
  intros Hr Hs. induction n as [|n IH]; cbn [poll_ready]; [intros w; simpl; lia|].
  unfold TestClock_retrieve.
  apply costs_bind_l; [apply costs_attempt, costs_remote_zero, Hr|].
  assert (Hagain : costs p 0
    (t <- time_time ;;
     if Qltb (inject_Z poll_timeout) (t - start)
     then raise (TimeoutError clock_id poll_timeout (Some frozen_time) None)
     else sleep 1 ;; poll_ready env n clock_id frozen_time start)).
  { apply costs_bind_l; [apply costs_time_time|]. intros t.
    destruct (Qltb _ _); [apply costs_raise|].
    apply costs_bind_l; [apply costs_sleep, Hs | intros _; apply IH]. }
  intros [tc2 | e]; [|exact Hagain].
  destruct (poll_accepts tc2 frozen_time); [apply costs_ret | exact Hagain].
Qed.

Lemma em_poll_ready (P : Event -> Prop) (clock_id : string) (frozen_time : Z) (start : Q) :
  (forall ok, P (Called (ClockRetrieve clock_id) ok)) ->
  P (Slept 1) ->
  forall n, emits P (poll_ready env n clock_id frozen_time start).
Proof.
  intros Hr Hs. induction n as [|n IH]; cbn [poll_ready]; [intros w; now exists []|].
  unfold TestClock_retrieve.
  apply em_bind; [apply em_attempt, em_remote; apply Hr|].
  assert (Hagain : emits P
    (t <- time_time ;;
     if Qltb (inject_Z poll_timeout) (t - start)
     then raise (TimeoutError clock_id poll_timeout (Some frozen_time) None)
     else sleep 1 ;; poll_ready env n clock_id frozen_time start)).
  { apply em_bind; [apply em_time_time|]. intros t.
    destruct (Qltb _ _); [apply em_raise|].
    apply em_bind; [apply em_sleep, Hs | intros _; apply IH]. }
  intros [tc2 | e]; [|exact Hagain].
  destruct (poll_accepts tc2 frozen_time); [apply em_ret | exact Hagain].
Qed.

Lemma em_advance_attempts (P : Event -> Prop) (clock_id : string) (frozen_time : Z) :
  (forall ok, P (Called (ClockAdvance clock_id frozen_time) ok)) ->
  (forall d, P (Slept d)) ->
  forall n backoff, emits P (advance_attempts env clock_id frozen_time n backoff).
Proof.
  intros Ha Hs. induction n as [|n IH]; intros backoff; cbn [advance_attempts].
  - apply em_ret.
  - unfold TestClock_advance.
    apply em_bind; [apply em_attempt, em_remote; apply Ha|].
    intros [u | e]; [apply em_ret|].
    apply em_bind; [apply em_sleep, Hs | intros _; apply IH].
Qed.

Lemma em_advance_and_poll (clock_id : string) (frozen_time : Z) :
  emits (requests_only clock_id frozen_time) (advance_and_poll env clock_id frozen_time).
Proof.
  unfold advance_and_poll.
  apply em_bind; [apply em_advance_attempts; cbn; auto|].
  intros [|]; cbn [negb]; [|apply em_raise].
  apply em_bind; [apply em_time_time|]. intros start.
  apply em_poll_ready; cbn; auto.
Qed.

Lemma costs_advance_test_clock (clock_id : string) (frozen_time : Z) :
  costs is_advance_call 8 (advance_test_clock env clock_id frozen_time).
Proof.
  unfold advance_test_clock, read_current, TestClock_retrieve.
  apply costs_bind_l; [costs_script|]. intros cur. unfold advance_and_poll.
  apply costs_bind_r; [apply (costs_advance_attempts clock_id _ 8)|].
  intros [|]; cbn [negb]; [|apply costs_raise].
  apply costs_bind_l; [apply costs_time_time|]. intros start.
  apply costs_poll_ready; reflexivity.
Qed.

(** *** The wait of [generate_past_due_new.py] *)

Lemma wait_loop_total (test_clock_id : string) (timeout_sec : Z) (start : Q) :
  forall n w,
    n <> O -> within_budget n timeout_sec start w ->
    fst (wait_loop env n test_clock_id timeout_sec start w) <> Diverged.
Proof.
  induction n as [|n IH]; intros w Hn Hb; [congruence|].
  cbn [wait_loop]. unfold TestClock_retrieve, bind at 1, remote.
  destruct (clock_retrieve env (trace w) test_clock_id) as [tc | e]; [|discriminate].
  fold (called (ClockRetrieve test_clock_id) true w).
  unfold bind at 1, dict_get.
  destruct (clk_has_get tc); [|discriminate]. cbn [lift ret].
  destruct (status_is (clk_status tc) "ready"); [discriminate|].
  step. cbn [now called].
  destruct (Qltb (inject_Z timeout_sec) (now w - start)) eqn:Et; [discriminate|].
  step.
  destruct (budget_after_sleep (Slept 1 :: trace (called (ClockRetrieve test_clock_id) true w))
              Hb Et) as [Hb' Hn'].
  now apply IH.
Qed.

Lemma wait_loop_ready (test_clock_id : string) (timeout_sec : Z) (start : Q) :
  forall n w tc w',
    wait_loop env n test_clock_id timeout_sec start w = (Ok tc, w') ->
    status_is (clk_status tc) "ready" = true
    /\ clock_retrieve env (tl (trace w')) test_clock_id = Reply tc.
Proof.
  induction n as [|n IH]; intros w tc w'; [discriminate|].
  cbn [wait_loop]. unfold TestClock_retrieve, bind at 1, remote.
  destruct (clock_retrieve env (trace w) test_clock_id) as [tc0 | e] eqn:Er; [|discriminate].
  unfold bind at 1, dict_get.
  destruct (clk_has_get tc0); [|discriminate]. cbn [lift ret].
  destruct (status_is (clk_status tc0) "ready") eqn:Es.
  - intros [= <- <-]. now split.
  - step. destruct (Qltb _ _); [discriminate|]. step. apply IH.
Qed.

Lemma nd_wait_until (test_clock_id : string) (timeout_sec : Z) :
  never_diverges (wait_until_testclock_ready env test_clock_id timeout_sec).
Proof.
  intros w. unfold wait_until_testclock_ready. step.
  apply wait_loop_total; [unfold poll_budget; lia | apply initial_budget].
Qed.

Lemma costs_wait_loop (p : Event -> bool) (test_clock_id : string) (timeout_sec : Z)
    (start : Q) :
  (forall ok, p (Called (ClockRetrieve test_clock_id) ok) = false) ->
  (forall d, p (Slept d) = false) ->
  forall n, costs p 0 (wait_loop env n test_clock_id timeout_sec start).
Proof.
  intros Hr Hs. induction n as [|n IH]; cbn [wait_loop]; [intros w; simpl; lia|].
  unfold TestClock_retrieve.
  apply costs_bind_l; [apply costs_remote_zero, Hr|]. intros tc.
  apply costs_bind_l; [apply costs_lift|]. intros status.
  destruct (status_is status "ready"); [apply costs_ret|].
  apply costs_bind_l; [apply costs_time_time|]. intros t.
  destruct (Qltb _ _); [apply costs_raise|].
  apply costs_bind_l; [apply costs_sleep, Hs | intros _; apply IH].
Qed.

Lemma em_wait_loop (P : Event -> Prop) (test_clock_id : string) (timeout_sec : Z)
    (start : Q) :
  (forall ok, P (Called (ClockRetrieve test_clock_id) ok)) ->
  P (Slept 1) ->
  forall n, emits P (wait_loop env n test_clock_id timeout_sec start).
Proof.
  intros Hr Hs. induction n as [|n IH]; cbn [wait_loop]; [intros w; now exists []|].
  unfold TestClock_retrieve.
  apply em_bind; [apply em_remote; apply Hr|]. intros tc.
  apply em_bind; [apply em_lift|]. intros status.
  destruct (status_is status "ready"); [apply em_ret|].
  apply em_bind; [apply em_time_time|]. intros t.
  destruct (Qltb _ _); [apply em_raise|].
  apply em_bind; [apply em_sleep, Hs | intros _; apply IH].
Qed.

Lemma nd_request_and_wait (test_clock_id : string) (cur new_frozen_time : Z) :
  never_diverges (request_and_wait env test_clock_id cur new_frozen_time).
Proof.
  pose proof nd_wait_until as Hw.
  unfold request_and_wait, announce_advance, confirm_advance,
    TestClock_advance, TestClock_retrieve. nd_script.
Qed.

Lemma nd_advance_clock (test_clock_id : string) (new_frozen_time : Z) :
  never_diverges (advance_clock env test_clock_id new_frozen_time).
Proof.
  pose proof nd_request_and_wait as Hw.
  unfold advance_clock, TestClock_retrieve. nd_script.
Qed.

Lemma costs_request_and_wait (test_clock_id : string) (cur new_frozen_time : Z) :
  costs is_advance_call 1 (request_and_wait env test_clock_id cur new_frozen_time).
Proof.
  assert (Hw : forall t, costs is_advance_call 0
                 (wait_until_testclock_ready env test_clock_id t)).
  { intros t. unfold wait_until_testclock_ready.
    apply costs_bind_l; [apply costs_time_time|]. intros start.
    apply costs_wait_loop; reflexivity. }
  unfold request_and_wait, announce_advance, confirm_advance,
    TestClock_advance, TestClock_retrieve.
  apply costs_bind_l; [costs_script|]. intros _.
  apply costs_bind_r; [apply costs_remote_one|]. intros _.
  apply costs_bind_l; [apply Hw|]. intros _. costs_script.
Qed.

Lemma costs_advance_clock (test_clock_id : string) (new_frozen_time : Z) :
  costs is_advance_call 1 (advance_clock env test_clock_id new_frozen_time).
Proof.
  pose proof costs_request_and_wait as Hw.
  unfold advance_clock, TestClock_retrieve.
  apply costs_bind_l; [costs_script|]. intros tc.
  apply costs_bind_l; [costs_script|]. intros cur.
  apply costs_bind_l; [costs_script|]. intros _. apply Hw.
Qed.

Lemma em_request_and_wait (test_clock_id : string) (cur new_frozen_time : Z) :
  emits (requests_only test_clock_id new_frozen_time)
        (request_and_wait env test_clock_id cur new_frozen_time).
Proof.
  assert (Hw : forall t, emits (requests_only test_clock_id new_frozen_time)
                 (wait_until_testclock_ready env test_clock_id t)).
  { intros t. unfold wait_until_testclock_ready.
    apply em_bind; [apply em_time_time|]. intros start.
    apply em_wait_loop; cbn; auto. }
  unfold request_and_wait, announce_advance, confirm_advance,
    TestClock_advance, TestClock_retrieve.
  em_script ltac:(cbn; auto).
Qed.

(** *** The request of [advance_clock] *)

Lemma dt_dated (ts : Z) : dt ts = Val tt <-> dt_min <= ts <= dt_max.
Proof.
  unfold dt, has_date. split.
  - destruct (dt_min <=? ts) eqn:E1; destruct (ts <=? dt_max) eqn:E2; cbn [andb];
      try lia;
      repeat match goal with |- context [if ?b then _ else _] => destruct b end;
      discriminate.
  - intros [H1 H2].
    apply Z.leb_le in H1. apply Z.leb_le in H2. now rewrite H1, H2.
Qed.

Lemma announce_advance_run (id : string) (cur target : Z) (w : World) :
  dt cur = Val tt -> dt target = Val tt ->
  announce_advance id cur target w = (Ok tt, announced id cur target w).
Proof.
  intros Hc Ht. unfold announce_advance. step. rewrite Hc. cbn [lift]. step. step.
  rewrite Ht. cbn [lift]. step. reflexivity.
Qed.

(** A time without a date ends the announcement, and nothing is
    requested. *)
Lemma announce_advance_undated (id : string) (cur target : Z) (w : World) (e : exn) :
  (dt cur = Exc e ->
   announce_advance id cur target w
   = (Raise e, printed (MsgText "[Advance TestClock]") w))
  /\ (dt cur = Val tt -> dt target = Exc e ->
      announce_advance id cur target w
      = (Raise e, printed (MsgText "  from") (printed (MsgText "[Advance TestClock]") w))).
Proof.
  split.
  - intros Hc. unfold announce_advance. step. now rewrite Hc.
  - intros Hc Ht. unfold announce_advance. step. rewrite Hc. cbn [lift]. step. step.
    now rewrite Ht.
Qed.

Lemma request_and_wait_run (id : string) (cur target : Z) (w : World) :
  dt cur = Val tt -> dt target = Val tt ->
  request_and_wait env id cur target w
  = (TestClock_advance env id target ;; confirm_advance env id)
      (announced id cur target w).
Proof.
  intros Hc Ht. unfold request_and_wait.
  erewrite bind_ok by (now apply announce_advance_run). reflexivity.
Qed.

Lemma request_and_wait_undated (id : string) (cur target : Z) (w : World) (e : exn) :
  dt cur = Exc e \/ (dt cur = Val tt /\ dt target = Exc e) ->
  fst (request_and_wait env id cur target w) = Raise e
  /\ exists l, trace (snd (request_and_wait env id cur target w)) = l ++ trace w
               /\ Forall no_advance l.
Proof.
  destruct (announce_advance_undated id cur target w e) as [H1 H2].
  intros [Hc | [Hc Ht]]; unfold request_and_wait.
  - erewrite bind_raise by (now apply H1). split; [reflexivity|].
    exists [Printed (MsgText "[Advance TestClock]")].
    split; [reflexivity | repeat constructor].
  - erewrite bind_raise by (now apply H2). split; [reflexivity|].
    exists [Printed (MsgText "  from"); Printed (MsgText "[Advance TestClock]")].
    split; [reflexivity | repeat constructor].
Qed.

Lemma em_confirm_advance (P : Event -> Prop) (id : string) :
  (forall ok, P (Called (ClockRetrieve id) ok)) ->
  P (Slept 1) ->
  (forall f s, P (Printed (MsgAdvanceDone f s))) ->
  emits P (confirm_advance env id).
Proof.
  intros Hr Hs Hd.
  assert (Hw : forall t, emits P (wait_until_testclock_ready env id t)).
  { intros t. unfold wait_until_testclock_ready.
    apply em_bind; [apply em_time_time|]. intros start.
    now apply em_wait_loop. }
  unfold confirm_advance, TestClock_retrieve. em_script ltac:(auto).
Qed.

Lemma request_and_wait_sends (id : string) (cur target : Z) (w : World) :
  dt cur = Val tt -> dt target = Val tt ->
  exists l,
    trace (snd (request_and_wait env id cur target w))
    = l ++ Called (ClockAdvance id target)
                  (replied (clock_advance env (trace (announced id cur target w)) id target))
           :: trace (announced id cur target w)
    /\ Forall no_advance l
    /\ forall e,
         clock_advance env (trace (announced id cur target w)) id target = Error e ->
         request_and_wait env id cur target w
         = (Raise e, called (ClockAdvance id target) false (announced id cur target w)).
Proof.
  intros Hc Ht. rewrite (@request_and_wait_run id cur target w Hc Ht).
  set (wa := announced id cur target w). unfold TestClock_advance.
  destruct (clock_advance env (trace wa) id target) as [u | e0] eqn:Er; cbn [replied].
  - erewrite bind_ok by (apply remote_reply; exact Er).
    destruct (@em_confirm_advance no_advance id) with
      (w := called (ClockAdvance id target) true wa) as (l & Hl & Pl);
      try (intros; reflexivity).
    exists l. split; [exact Hl|]. split; [exact Pl | discriminate].
  - erewrite bind_raise by (apply remote_error; exact Er).
    exists []. split; [reflexivity|]. split; [constructor|].
    now intros e [= <-].
Qed.

Lemma advance_clock_run (id : string) (requested cur : Z) (tc : ClockObj) (w : World) :
  clock_retrieve env (trace w) id = Reply tc ->
  clk_frozen_time tc = Some cur ->
  advance_clock env id requested w
  = request_and_wait env id cur (adjusted_target cur requested)
      (looked_at id requested cur w).
Proof.
  intros Hr Hf. unfold advance_clock, TestClock_retrieve, looked_at.
  erewrite bind_ok by (apply remote_reply; exact Hr).
  rewrite Hf. cbn [subscript lift]. step.
  destruct (requested <=? cur); step; reflexivity.
Qed.

(** *** What the poll of [advance_test_clock] lets through, on the fields
    of the reply *)

Lemma observed_status_ready (tc : ClockObj) :
  status_is (observed_status tc) "ready" = status_is (clk_status tc) "ready".
Proof.
  unfold observed_status, attr_or_get, py_or.
  destruct (clk_status tc) as [s |]; [|now destruct (clk_has_get tc)].
  destruct (truthy_str s) eqn:E; [reflexivity|].
  destruct (clk_has_get tc); [reflexivity|]. cbn [status_is].
  unfold truthy_str in E. apply negb_false_iff, String.eqb_eq in E. now subst s.
Qed.

Lemma observed_frozen_time_field (tc : ClockObj) (f : Z) :
  clk_frozen_time tc = Some f ->
  observed_frozen_time tc = (if (f =? 0) && negb (clk_has_get tc) then None else Some f).
Proof.
  intros Hf. unfold observed_frozen_time, attr_or_get, py_or, truthy_int. rewrite Hf.
  destruct (f =? 0); destruct (clk_has_get tc); reflexivity.
Qed.

Lemma observed_frozen_time_missing (tc : ClockObj) :
  clk_frozen_time tc = None -> observed_frozen_time tc = None.
Proof.
  intros Hf. unfold observed_frozen_time, attr_or_get, py_or. rewrite Hf.
  now destruct (clk_has_get tc).
Qed.

Lemma poll_accepts_fields (tc2 : ClockObj) (target : Z) :
  poll_accepts tc2 target = true <->
  status_is (clk_status tc2) "ready" = true
  /\ forall f, clk_frozen_time tc2 = Some f ->
               target <= f \/ (f = 0 /\ clk_has_get tc2 = false).
Proof.
  unfold poll_accepts. rewrite andb_true_iff, observed_status_ready.
  destruct (clk_frozen_time tc2) as [f |] eqn:Ef.
  - rewrite (observed_frozen_time_field tc2 Ef).
    destruct (Z.eqb_spec f 0) as [-> | Hf]; destruct (clk_has_get tc2); cbn [andb negb];
      (split; intros [Hs Ht]; (split; [exact Hs|]));
      try (intros f' [= <-]); try specialize (Ht _ eq_refl); try lia; auto.
  - rewrite (observed_frozen_time_missing tc2 Ef).
    split; intros [Hs _]; (split; [exact Hs|]); [discriminate | reflexivity].
Qed.

Lemma failed_attempts_oldest (clock_id : string) (frozen_time : Z) (i k : nat) :
  exists l,
    failed_attempts clock_id frozen_time i (S k)
    = l ++ [Called (ClockAdvance clock_id frozen_time) false].
Proof.
  cbn [failed_attempts].
  exists (failed_attempts clock_id frozen_time (S i) k ++ [Slept (backoff_at i)]).
  now rewrite <- app_assoc.
Qed.

(** The first thing [advance_and_poll] does is send the request; a clock
    comes back only after a request that was accepted. *)
Lemma advance_and_poll_requests (clock_id : string) (frozen_time : Z) (w : World) :
  (exists l ok,
      trace (snd (advance_and_poll env clock_id frozen_time w))
      = l ++ Called (ClockAdvance clock_id frozen_time) ok :: trace w)
  /\ forall tc2 w',
       advance_and_poll env clock_id frozen_time w = (Ok tc2, w') ->
       In (Called (ClockAdvance clock_id frozen_time) true) (trace w').
Proof.
  destruct (advance_attempts_shape clock_id frozen_time 8 O w) as (k & Hk & Ho & Ht).
  change (backoff_at 0) with initial_backoff in Ho, Ht.
  unfold advance_and_poll.
  change (Z.to_nat max_advance_attempts) with 8%nat.
  unfold bind at 1 3.
  destruct (advance_attempts env clock_id frozen_time 8 initial_backoff w) as [o w1].
  cbn [fst snd] in Ho, Ht. subst o.
  assert (Hpoll : forall w0, exists l,
            trace (snd ((start <- time_time ;;
                         poll_ready env (poll_budget poll_timeout) clock_id frozen_time
                                    start) w0))
            = l ++ trace w0).
  { intros w0.
    destruct (@em_bind _ _ (fun _ => True) time_time
                (fun start => poll_ready env (poll_budget poll_timeout) clock_id
                                frozen_time start)
                (em_time_time _)
                (fun start => @em_poll_ready (fun _ => True) clock_id frozen_time start
                                (fun _ => I) I _) w0) as (l & Hl & _).
    now exists l. }
  destruct (k <? 8)%nat eqn:E; cbn [negb].
  - destruct (Hpoll w1) as (l & Hl). split.
    + destruct k as [|j].
      * exists l, true. rewrite Hl, Ht. reflexivity.
      * destruct (failed_attempts_oldest clock_id frozen_time 0 j) as (l0 & Hl0).
        exists (l ++ [Called (ClockAdvance clock_id frozen_time) true] ++ l0), false.
        rewrite Hl, Ht, Hl0. now rewrite <- !app_assoc.
    + intros tc2 w' Hrun. rewrite Hrun in Hl. cbn [snd] in Hl.
      rewrite Hl, Ht. apply in_or_app. right. now left.
  - split; [|discriminate].
    destruct k as [|j]; [discriminate|].
    destruct (failed_attempts_oldest clock_id frozen_time 0 j) as (l0 & Hl0).
    exists l0, false. cbn [snd raise]. rewrite Ht, Hl0. cbn [app].
    now rewrite <- app_assoc.
Qed.

Lemma read_current_run (clock_id : string) (w : World) :
  read_current env clock_id w
  = (Ok match clock_retrieve env (trace w) clock_id with
        | Reply tc => observed_frozen_time tc
        | Error _ => None
        end,
     called (ClockRetrieve clock_id) (replied (clock_retrieve env (trace w) clock_id)) w).
Proof.
  unfold read_current, try_except, bind, TestClock_retrieve, remote.
  destruct (clock_retrieve env (trace w) clock_id); reflexivity.
Qed.

Lemma advance_test_clock_run (clock_id : string) (frozen_time : Z) (w : World) :
  advance_test_clock env clock_id frozen_time w
  = advance_and_poll env clock_id
      (effective_target match clock_retrieve env (trace w) clock_id with
                        | Reply tc => observed_frozen_time tc
                        | Error _ => None
                        end frozen_time)
      (called (ClockRetrieve clock_id) (replied (clock_retrieve env (trace w) clock_id)) w).
Proof.
  unfold advance_test_clock. erewrite bind_ok by apply read_current_run. reflexivity.
Qed.

Lemma advance_and_poll_accepts (clock_id : string) (frozen_time : Z) (w w' : World)
    (tc2 : ClockObj) :
  advance_and_poll env clock_id frozen_time w = (Ok tc2, w') ->
  poll_accepts tc2 frozen_time = true.
Proof.
  unfold advance_and_poll, bind at 1.
  destruct (advance_attempts env clock_id frozen_time _ _ w) as [[[|] | e |] w1];
    try discriminate.
  cbn [negb]. step. intros H. now apply poll_ready_accepts in H.
Qed.

Lemma poll_ready_raises (clock_id : string) (frozen_time : Z) (start : Q) :
  forall n w e w',
    poll_ready env n clock_id frozen_time start w = (Raise e, w') ->
    e = TimeoutError clock_id poll_timeout (Some frozen_time) None.
Proof.
  induction n as [|n IH]; intros w e w'; [discriminate|].
  cbn [poll_ready]. unfold TestClock_retrieve.
  erewrite bind_ok by apply attempt_remote.
  assert (Hagain : forall ok,
    (t <- time_time ;;
     if Qltb (inject_Z poll_timeout) (t - start)
     then raise (TimeoutError clock_id poll_timeout (Some frozen_time) None)
     else sleep 1 ;; poll_ready env n clock_id frozen_time start)
      (called (ClockRetrieve clock_id) ok w) = (Raise e, w') ->
    e = TimeoutError clock_id poll_timeout (Some frozen_time) None).
  { intros ok. step. destruct (Qltb _ _).
    - now intros [= <- _].
    - step. apply IH. }
  destruct (clock_retrieve env (trace w) clock_id) as [tc | e0];
    cbn [reply_result replied]; [|apply Hagain].
  destruct (poll_accepts tc frozen_time); [discriminate | apply Hagain].
Qed.

Lemma advance_attempts_returns (clock_id : string) (frozen_time : Z) :
  forall n backoff, never_raises (advance_attempts env clock_id frozen_time n backoff).
Proof.
  induction n as [|n IH]; intros backoff; cbn [advance_attempts]; [apply nr_ret|].
  apply nr_bind; [apply nr_attempt, nd_remote|].
  intros [u | e]; [apply nr_ret|].
  apply nr_bind; [apply nr_sleep | intros _; apply IH].
Qed.

(** The advance fails only when the platform refuses every attempt or
    the clock does not come ready in time. *)
Lemma advance_and_poll_raises (clock_id : string) (frozen_time : Z)
    (w w' : World) (e : exn) :
  advance_and_poll env clock_id frozen_time w = (Raise e, w') ->
  e = RuntimeError clock_id max_advance_attempts
  \/ e = TimeoutError clock_id poll_timeout (Some frozen_time) None.
Proof.
  unfold advance_and_poll, bind at 1.
  destruct (advance_attempts_returns clock_id frozen_time
              (Z.to_nat max_advance_attempts) initial_backoff w) as [a Ha].
  destruct (advance_attempts env clock_id frozen_time _ _ w) as [o w1].
  cbn [fst] in Ha. subst o. destruct a; cbn [negb].
  - step. intros H. right. now apply poll_ready_raises in H.
  - intros [= <- _]. now left.
Qed.

Lemma advance_and_poll_exhausted (clock_id : string) (frozen_time : Z) (w : World) :
  fst (advance_attempts env clock_id frozen_time
         (Z.to_nat max_advance_attempts) initial_backoff w) = Ok false ->
  fst (advance_and_poll env clock_id frozen_time w)
  = Raise (RuntimeError clock_id max_advance_attempts).
Proof.
  unfold advance_and_poll, bind.
  destruct (advance_attempts env clock_id frozen_time _ _ w) as [o w1].
  cbn [fst]. now intros ->.
Qed.

End ClockAdvancer.

(** *** The backoff in closed form *)

Lemma py_min_le (a b : Q) : (a <= b)%Q -> py_min a b = a.
Proof.
  intros H. unfold py_min. destruct (Qltb b a) eqn:E; [|reflexivity].
  apply Qltb_true in E. lra.
Qed.

Lemma py_min_gt (a b : Q) : (b < a)%Q -> py_min a b = b.
Proof.
  intros H. unfold py_min. destruct (Qltb b a) eqn:E; [reflexivity|].
  apply Qltb_false in E. lra.
Qed.

Lemma growth_step (n : nat) :
  ((1 # 2) * (3 # 2) ^ Z.of_nat (S n) == (1 # 2) * (3 # 2) ^ Z.of_nat n * (3 # 2))%Q.
Proof.
  rewrite Nat2Z.inj_succ. unfold Z.succ.
  rewrite Qpower_plus by (intros H; discriminate H).
  change ((3 # 2) ^ 1)%Q with (3 # 2)%Q. ring.
Qed.

Lemma growth_positive (n : nat) : (0 < (1 # 2) * (3 # 2) ^ Z.of_nat n)%Q.
Proof.
  pose proof (Qpower_0_lt (3 # 2) (Z.of_nat n) ltac:(reflexivity)) as H. lra.
Qed.

Lemma backoff_closed_form (n : nat) : (backoff_at n == backoff_formula n)%Q.
Proof.
  unfold backoff_formula. induction n as [|n IH].
  - reflexivity.
  - cbn [backoff_at]. unfold next_backoff.
    pose proof (growth_step n) as Hs. pose proof (growth_positive n) as Hp.
    set (x := ((1 # 2) * (3 # 2) ^ Z.of_nat n)%Q) in *.
    set (x' := ((1 # 2) * (3 # 2) ^ Z.of_nat (S n))%Q) in *.
    destruct (Qlt_le_dec 5 x) as [Hbig | Hsmall].
    + rewrite (py_min_gt Hbig) in IH.
      rewrite (py_min_gt (a := x') (b := 5)) by lra.
      rewrite py_min_gt by lra. reflexivity.
    + rewrite (py_min_le Hsmall) in IH.
      destruct (Qlt_le_dec 5 x') as [Hbig' | Hsmall'].
      * rewrite (py_min_gt Hbig'). rewrite py_min_gt by lra. reflexivity.
      * rewrite (py_min_le Hsmall'). rewrite py_min_le by lra. lra.
Qed.

#[local] Hint Resolve nd_advance_test_clock nd_advance_clock nd_wait_until
  nd_request_and_wait nd_advance_and_poll nd_read_current : script.

(* ------------------------------------------------------------------ *)
(** ** ClockAdvancer: the claims *)

Lemma poll_accepts_spec (tc2 : ClockObj) (target : Z) :
  poll_accepts tc2 target = true <->
  status_is (observed_status tc2) "ready" = true
  /\ forall f, observed_frozen_time tc2 = Some f -> target <= f.
Proof.
  unfold poll_accepts. rewrite andb_true_iff.
  destruct (observed_frozen_time tc2) as [f |].
  - split; intros [Hs Hf]; (split; [exact Hs|]).
    + intros f' [= <-]. lia.
    + specialize (Hf f eq_refl). lia.
  - split; intros [Hs _]; (split; [exact Hs|]); [discriminate | reflexivity].
Qed.

(** C1 as stated fails in its last part: the clock that comes back after
    the bump need not be past the frozen time observed before.  Line 107
    lets a ready clock through when the script observes no frozen time,
    and a reply without [.get] that shows the frozen time 0 is observed
    as none: after a request at or before 100 was bumped to 101,
    [advance_test_clock] returns a clock whose frozen time is 0.
    [advance_clock] of [generate_past_due_new.py] returns no clock, and
    its wait compares no frozen time: it ends normally on a clock that is
    still at 100. *)
Lemma bumped_advance_returns_earlier_clock :
  clock_retrieve (resetting 100) (trace world0) "clock_1" = Reply (plain_clock "clock_1" 100)
  /\ observed_frozen_time (plain_clock "clock_1" 100) = Some 100
  /\ 50 <= 100
  /\ (exists w',
        advance_test_clock (resetting 100) "clock_1" 50 world0
        = (Ok (plain_clock "clock_1" 0), w')
        /\ In (Called (ClockAdvance "clock_1" 101) true) (trace w'))
  /\ clk_frozen_time (plain_clock "clock_1" 0) = Some 0
  /\ ~ 100 < 0
  /\ fst (advance_clock (stale 100) "clock_1" 50 world0) = Ok tt
  /\ In (Printed (MsgAdvanceDone 100 "ready"))
        (trace (snd (advance_clock (stale 100) "clock_1" 50 world0))).
Proof.
  split; [reflexivity|]. split; [reflexivity|]. split; [lia|].
  split; [eexists; split; [vm_compute; reflexivity | vm_compute; auto 10]|].
  split; [reflexivity|]. split; [lia|].
  split; [reflexivity|]. vm_compute. auto.
Qed.

(** C1, amended: when the requested time is not after the frozen time
    the script observes, the advance goes on with [current + 1] in its
    place.  [advance_test_clock] runs as its request-and-poll part does
    with the target [current + 1]: the first thing it does after its look
    at the clock is to send the request for [current + 1], every request
    it sends carries [current + 1], it raises only when the platform
    refuses all its attempts or the clock does not come ready in time,
    and the clock it returns, after a request that was accepted, is ready
    with a frozen time after [current] whenever the script observes one:
    the field is there, and it is not 0 on a reply without [.get].
    [advance_clock] of [generate_past_due_new.py] makes the same
    substitution after a warning line and returns no clock: when
    [current] and [current + 1] have a date it sends one request, for
    [current + 1], and a refusal of that request leaves the function;
    when one of them has no date, [dt] raises before anything is
    requested. *)
Theorem non_increasing_request_bumped (env : Env) (clock_id : string)
    (requested current : Z) (tc : ClockObj) (w : World) :
  clock_retrieve env (trace w) clock_id = Reply tc ->
  requested <= current ->
  (observed_frozen_time tc = Some current ->
     advance_test_clock env clock_id requested w
     = advance_and_poll env clock_id (current + 1)
         (called (ClockRetrieve clock_id) true w)
     /\ emits (requests_only clock_id (current + 1))
              (advance_and_poll env clock_id (current + 1))
     /\ (exists l ok,
           trace (snd (advance_test_clock env clock_id requested w))
           = l ++ Called (ClockAdvance clock_id (current + 1)) ok
                  :: trace (called (ClockRetrieve clock_id) true w))
     /\ (forall e w',
           advance_test_clock env clock_id requested w = (Raise e, w') ->
           e = RuntimeError clock_id max_advance_attempts
           \/ e = TimeoutError clock_id poll_timeout (Some (current + 1)) None)
     /\ forall tc2 w',
          advance_test_clock env clock_id requested w = (Ok tc2, w') ->
          In (Called (ClockAdvance clock_id (current + 1)) true) (trace w')
          /\ status_is (clk_status tc2) "ready" = true
          /\ (forall f, clk_frozen_time tc2 = Some f ->
                        current < f \/ (f = 0 /\ clk_has_get tc2 = false))
          /\ forall f, observed_frozen_time tc2 = Some f -> current < f)
  /\ (clk_frozen_time tc = Some current ->
      let warned := printed (WarnNotIncreasing requested current (current + 1))
                            (called (ClockRetrieve clock_id) true w) in
      let sent := clock_advance env (trace (announced clock_id current (current + 1) warned))
                                clock_id (current + 1) in
      (dt current = Val tt -> dt (current + 1) = Val tt ->
         advance_clock env clock_id requested w
         = (TestClock_advance env clock_id (current + 1) ;; confirm_advance env clock_id)
             (announced clock_id current (current + 1) warned)
         /\ (exists l,
               trace (snd (advance_clock env clock_id requested w))
               = l ++ Called (ClockAdvance clock_id (current + 1)) (replied sent)
                      :: trace (announced clock_id current (current + 1) warned)
               /\ Forall no_advance l)
         /\ forall e,
              sent = Error e ->
              advance_clock env clock_id requested w
              = (Raise e, called (ClockAdvance clock_id (current + 1)) false
                            (announced clock_id current (current + 1) warned)))
      /\ forall e,
           dt current = Exc e \/ (dt current = Val tt /\ dt (current + 1) = Exc e) ->
           fst (advance_clock env clock_id requested w) = Raise e
           /\ exists l,
                trace (snd (advance_clock env clock_id requested w)) = l ++ trace w
                /\ Forall no_advance l).
Proof.
  intros Hr Hle. split; intros Hc.
  - assert (Hrun : advance_test_clock env clock_id requested w
                   = advance_and_poll env clock_id (current + 1)
                       (called (ClockRetrieve clock_id) true w)).
    { rewrite advance_test_clock_run, Hr, Hc. cbn [effective_target replied].
      destruct (requested <=? current) eqn:E; [reflexivity | lia]. }
    destruct (advance_and_poll_requests env clock_id (current + 1)
                (called (ClockRetrieve clock_id) true w)) as [Hsent Haccepted].
    split; [exact Hrun|]. split; [apply em_advance_and_poll|].
    split; [now rewrite Hrun|].
    split.
    { intros e w' Hraise. rewrite Hrun in Hraise.
      now apply advance_and_poll_raises in Hraise. }
    intros tc2 w' Hok. rewrite Hrun in Hok.
    split; [now apply Haccepted with (tc2 := tc2)|].
    apply advance_and_poll_accepts in Hok.
    pose proof (proj1 (poll_accepts_fields tc2 (current + 1)) Hok) as [Hs Hf].
    pose proof (proj1 (poll_accepts_spec tc2 (current + 1)) Hok) as [_ Ho].
    split; [exact Hs|]. split.
    + intros f Hfield. destruct (Hf f Hfield) as [H | H]; [left; lia | now right].
    + intros f Hobs. specialize (Ho f Hobs). lia.
  - cbv zeta.
    assert (Hadj : adjusted_target current requested = current + 1).
    { unfold adjusted_target. destruct (requested <=? current) eqn:E; [reflexivity | lia]. }
    assert (Hlook : looked_at clock_id requested current w
                    = printed (WarnNotIncreasing requested current (current + 1))
                              (called (ClockRetrieve clock_id) true w)).
    { unfold looked_at. destruct (requested <=? current) eqn:E; [reflexivity | lia]. }
    pose proof (@advance_clock_run env clock_id requested current tc w Hr Hc) as Hrun.
    rewrite Hadj, Hlook in Hrun. rewrite Hrun. split.
    + intros Hd1 Hd2.
      split; [now apply request_and_wait_run|].
      destruct (@request_and_wait_sends env clock_id current (current + 1)
                  (printed (WarnNotIncreasing requested current (current + 1))
                           (called (ClockRetrieve clock_id) true w)) Hd1 Hd2)
        as (l & Hl & Pl & Hrefused).
      split; [now exists l | exact Hrefused].
    + intros e Hd.
      destruct (@request_and_wait_undated env clock_id current (current + 1)
                  (printed (WarnNotIncreasing requested current (current + 1))
                           (called (ClockRetrieve clock_id) true w)) e Hd)
        as (Hraise & l & Hl & Pl).
      split; [exact Hraise|].
      exists (l ++ [Printed (WarnNotIncreasing requested current (current + 1));
                    Called (ClockRetrieve clock_id) true]).
      split; [rewrite Hl; now rewrite <- app_assoc|].
      apply Forall_app. split; [exact Pl | repeat constructor].
Qed.

Lemma non_increasing_request_bumped_witness :
  clock_retrieve (obedient 100) (trace world0) "clock_1" = Reply (ready_clock "clock_1" 100)
  /\ 50 <= 100
  /\ (exists w', advance_test_clock (obedient 100) "clock_1" 50 world0
                 = (Ok (ready_clock "clock_1" 101), w'))
  /\ (forall f, observed_frozen_time (ready_clock "clock_1" 101) = Some f -> 100 < f)
  /\ (exists l,
        trace (snd (advance_clock (obedient 100) "clock_1" 50 world0))
        = l ++ Called (ClockAdvance "clock_1" 101) true
               :: trace (announced "clock_1" 100 101
                           (printed (WarnNotIncreasing 50 100 101)
                                    (called (ClockRetrieve "clock_1") true world0)))
        /\ Forall no_advance l)
  /\ fst (advance_clock (stale dt_max) "clock_1" 50 world0) = Raise ValueError.
Proof.
  split; [reflexivity|]. split; [lia|].
  assert (Hrun : exists w', advance_test_clock (obedient 100) "clock_1" 50 world0
                            = (Ok (ready_clock "clock_1" 101), w')).
  { eexists. vm_compute. reflexivity. }
  split; [exact Hrun|]. destruct Hrun as [w' Hrun].
  destruct (@non_increasing_request_bumped (obedient 100) "clock_1" 50 100
              (ready_clock "clock_1" 100) world0 eq_refl ltac:(lia)) as [Hdate Hpast].
  destruct (Hdate eq_refl) as (_ & _ & _ & _ & Hpost).
  split; [exact (proj2 (proj2 (proj2 (Hpost _ _ Hrun))))|].
  destruct (Hpast eq_refl) as [Hdated _].
  split; [exact (proj1 (proj2 (Hdated eq_refl eq_refl)))|].
  destruct (@non_increasing_request_bumped (stale dt_max) "clock_1" 50 dt_max
              (ready_clock "clock_1" dt_max) world0 eq_refl ltac:(unfold dt_max; lia))
    as [_ Hlast].
  destruct (Hlast eq_refl) as [_ Hundated].
  exact (proj1 (Hundated ValueError (or_intror (conj eq_refl eq_refl)))).
Defined.

(** C2 as stated fails: on a platform that accepts an advance to 200 and
    reports the clock ready at 100, [wait_until_testclock_ready] returns
    that clock and [advance_clock] ends normally; and line 107 of
    [advance_test_clock] lets a ready clock through when the script
    observes no frozen time: the field is missing, or it is 0 on a reply
    without [.get]. *)
Lemma poll_exits_before_target :
  (exists w1 w2,
      TestClock_advance (stale 100) "clock_1" 200 world0 = (Ok tt, w1)
      /\ wait_until_testclock_ready (stale 100) "clock_1" 240 w1
         = (Ok (ready_clock "clock_1" 100), w2))
  /\ clk_frozen_time (ready_clock "clock_1" 100) = Some 100
  /\ 100 < 200
  /\ fst (advance_clock (stale 100) "clock_1" 200 world0) = Ok tt
  /\ In (Printed (MsgAdvanceDone 100 "ready"))
        (trace (snd (advance_clock (stale 100) "clock_1" 200 world0)))
  /\ poll_accepts (mkClock "clock_1" true None (Some "ready")) 200 = true
  /\ poll_accepts (plain_clock "clock_1" 0) 200 = true.
Proof.
  split; [do 2 eexists; split; vm_compute; reflexivity|].
  repeat split. vm_compute. auto.
Qed.

(** C2, amended: a clock that [advance_test_clock] returns is ready and
    its frozen time is at or past the effective target whenever the
    script observes one: the field is there, and it is not 0 on a reply
    without [.get].  That test (line 107) is the exit of its poll, and a
    ready clock whose frozen time is missing, or is 0 on a reply without
    [.get], goes through it whatever the target.  The wait of
    [generate_past_due_new.py] ends as soon as the status is ready and
    compares no frozen time. *)
Theorem poll_exit_conditions (env : Env) (clock_id : string) (requested : Z) (w : World) :
  let observed := match clock_retrieve env (trace w) clock_id with
                  | Reply tc => observed_frozen_time tc
                  | Error _ => None
                  end in
  (forall tc2 w',
     advance_test_clock env clock_id requested w = (Ok tc2, w') ->
     (status_is (clk_status tc2) "ready" = true
      /\ forall f, clk_frozen_time tc2 = Some f ->
                   effective_target observed requested <= f
                   \/ (f = 0 /\ clk_has_get tc2 = false))
     /\ status_is (observed_status tc2) "ready" = true
     /\ forall f, observed_frozen_time tc2 = Some f ->
                  effective_target observed requested <= f)
  /\ (forall tc2 target,
        poll_accepts tc2 target = true <->
        status_is (clk_status tc2) "ready" = true
        /\ forall f, clk_frozen_time tc2 = Some f ->
                     target <= f \/ (f = 0 /\ clk_has_get tc2 = false))
  /\ (forall n target start tc2,
        clock_retrieve env (trace w) clock_id = Reply tc2 ->
        poll_ready env (S n) clock_id target start w
        = if poll_accepts tc2 target
          then (Ok tc2, called (ClockRetrieve clock_id) true w)
          else (t <- time_time ;;
                if Qltb (inject_Z poll_timeout) (t - start)
                then raise (TimeoutError clock_id poll_timeout (Some target) None)
                else sleep 1 ;; poll_ready env n clock_id target start)
                 (called (ClockRetrieve clock_id) true w))
  /\ (forall timeout_sec tc w',
        wait_until_testclock_ready env clock_id timeout_sec w = (Ok tc, w') ->
        status_is (clk_status tc) "ready" = true)
  /\ (forall n timeout_sec start tc,
        clock_retrieve env (trace w) clock_id = Reply tc ->
        clk_has_get tc = true ->
        status_is (clk_status tc) "ready" = true ->
        wait_loop env (S n) clock_id timeout_sec start w
        = (Ok tc, called (ClockRetrieve clock_id) true w)).
Proof.
  intros observed. split; [|split; [|split; [|split]]].
  - intros tc2 w' H. rewrite advance_test_clock_run in H.
    apply advance_and_poll_accepts in H.
    split; [now apply poll_accepts_fields|]. now apply poll_accepts_spec.
  - intros tc2 target. apply poll_accepts_fields.
  - intros n target start tc2 Hr. cbn [poll_ready]. unfold TestClock_retrieve.
    erewrite bind_ok by apply attempt_remote. cbv beta.
    rewrite Hr. cbn [reply_result replied].
    now destruct (poll_accepts tc2 target).
  - intros timeout_sec tc w'. unfold wait_until_testclock_ready. step.
    intros H. now apply wait_loop_ready in H.
  - intros n timeout_sec start tc Hr Hg Hs. cbn [wait_loop]. unfold TestClock_retrieve.
    erewrite bind_ok by (apply remote_reply; exact Hr).
    unfold dict_get. rewrite Hg. cbn [lift]. step. now rewrite Hs.
Qed.

Lemma poll_exit_conditions_witness :
  exists w' w'',
    advance_test_clock (obedient 100) "clock_1" 200 world0
    = (Ok (ready_clock "clock_1" 200), w')
    /\ status_is (clk_status (ready_clock "clock_1" 200)) "ready" = true
    /\ poll_ready (obedient 100) 1 "clock_1" 100 0 world0
       = (Ok (ready_clock "clock_1" 100), called (ClockRetrieve "clock_1") true world0)
    /\ wait_until_testclock_ready (stale 100) "clock_1" 240 world0
       = (Ok (ready_clock "clock_1" 100), w'')
    /\ status_is (clk_status (ready_clock "clock_1" 100)) "ready" = true
    /\ wait_loop (stale 100) 1 "clock_1" 240 0 world0
       = (Ok (ready_clock "clock_1" 100), called (ClockRetrieve "clock_1") true world0).
Proof.
  do 2 eexists. split; [vm_compute; reflexivity|].
  destruct (@poll_exit_conditions (obedient 100) "clock_1" 200 world0)
    as (Hpost & _ & Hpoll & _ & _).
  destruct (@poll_exit_conditions (stale 100) "clock_1" 200 world0)
    as (_ & _ & _ & Hready & Hwait).
  split.
  { refine (proj1 (proj1 (Hpost (ready_clock "clock_1" 200) _ _))).
    vm_compute. reflexivity. }
  split.
  { rewrite (Hpoll 0%nat 100 0%Q (ready_clock "clock_1" 100) eq_refl). reflexivity. }
  assert (Hrun : wait_until_testclock_ready (stale 100) "clock_1" 240 world0
                 = (Ok (ready_clock "clock_1" 100),
                    called (ClockRetrieve "clock_1") true world0))
    by (vm_compute; reflexivity).
  split; [exact Hrun|].
  split; [exact (Hready _ _ _ Hrun)|].
  apply Hwait; reflexivity.
Defined.

(** C7 as stated fails for [advance_clock]: a throttled request is sent
    once, nothing is slept, the error leaves the function. *)
Lemma advance_clock_gives_up_at_once :
  fst (advance_clock (throttled 100) "clock_1" 200 world0) = Raise RateLimitError
  /\ count_events is_advance_call
       (trace (snd (advance_clock (throttled 100) "clock_1" 200 world0))) = 1%nat
  /\ count_events is_sleep
       (trace (snd (advance_clock (throttled 100) "clock_1" 200 world0))) = 0%nat.
Proof. repeat split. Qed.

(** C7, amended: [advance_test_clock] sends its request at most 8 times;
    the refusal number [n] (from 0), whatever the error, is followed by a
    sleep of [backoff_at n], which is [min(0.5 * 1.5^n, 5)]; when all 8
    are refused it raises the RuntimeError that names the clock.
    [advance_clock] of [generate_past_due_new.py] sends its request at
    most once: when the two times it prints have a date the request goes
    out after the three lines of lines 71-73, and a refusal leaves the
    function at once, with the error of the platform and nothing slept;
    when one of them has no date, [dt] raises and no request is sent. *)
Theorem advance_retry_discipline (env : Env) (clock_id : string) (target : Z) (w : World) :
  (exists k : nat,
      (k <= 8)%nat
      /\ fst (advance_attempts env clock_id target 8 initial_backoff w) = Ok (k <? 8)%nat
      /\ trace (snd (advance_attempts env clock_id target 8 initial_backoff w))
         = (if (k <? 8)%nat then [Called (ClockAdvance clock_id target) true] else [])
           ++ failed_attempts clock_id target 0 k ++ trace w
      /\ (k = 8%nat ->
          fst (advance_and_poll env clock_id target w) = Raise (RuntimeError clock_id 8)))
  /\ (forall n, (backoff_at n == backoff_formula n)%Q)
  /\ costs is_advance_call 8 (advance_test_clock env clock_id target)
  /\ costs is_advance_call 1 (advance_clock env clock_id target)
  /\ (forall cur e,
        dt cur = Val tt -> dt target = Val tt ->
        clock_advance env (trace (announced clock_id cur target w)) clock_id target
        = Error e ->
        request_and_wait env clock_id cur target w
        = (Raise e, called (ClockAdvance clock_id target) false
                      (announced clock_id cur target w)))
  /\ (forall cur e,
        dt cur = Exc e \/ (dt cur = Val tt /\ dt target = Exc e) ->
        fst (request_and_wait env clock_id cur target w) = Raise e
        /\ exists l,
             trace (snd (request_and_wait env clock_id cur target w)) = l ++ trace w
             /\ Forall no_advance l)
  /\ (forall requested cur tc,
        clock_retrieve env (trace w) clock_id = Reply tc ->
        clk_frozen_time tc = Some cur ->
        advance_clock env clock_id requested w
        = request_and_wait env clock_id cur (adjusted_target cur requested)
            (looked_at clock_id requested cur w)).
Proof.
  split; [|split; [|split; [|split; [|split; [|split]]]]].
  - destruct (advance_attempts_shape env clock_id target 8 0 w) as (k & Hk & Ho & Ht).
    exists k. repeat split; try assumption.
    intros ->. apply advance_and_poll_exhausted. exact Ho.
  - apply backoff_closed_form.
  - apply costs_advance_test_clock.
  - apply costs_advance_clock.
  - intros cur e Hc Ht He.
    destruct (@request_and_wait_sends env clock_id cur target w Hc Ht) as (l & _ & _ & H).
    now apply H.
  - intros cur e. apply request_and_wait_undated.
  - intros requested cur tc. apply advance_clock_run.
Qed.

Lemma advance_retry_discipline_witness :
  fst (advance_and_poll (throttled 100) "clock_1" 200 world0)
  = Raise (RuntimeError "clock_1" 8)
  /\ request_and_wait (throttled 100) "clock_1" 100 200 world0
     = (Raise RateLimitError,
        called (ClockAdvance "clock_1" 200) false (announced "clock_1" 100 200 world0))
  /\ fst (request_and_wait (throttled 100) "clock_1" 100 (dt_max + 1) world0)
     = Raise ValueError.
Proof.
  destruct (@advance_retry_discipline (throttled 100) "clock_1" 200 world0)
    as ((k & Hk & Ho & Ht & Hfail) & _ & _ & _ & Hone & _).
  destruct (@advance_retry_discipline (throttled 100) "clock_1" (dt_max + 1) world0)
    as (_ & _ & _ & _ & _ & Hdate & _).
  split; [|split].
  - apply Hfail.
    assert (E : fst (advance_attempts (throttled 100) "clock_1" 200 8 initial_backoff world0)
                = Ok false) by (vm_compute; reflexivity).
    rewrite E in Ho. injection Ho as Ho. symmetry in Ho.
    apply Nat.ltb_ge in Ho. lia.
  - apply Hone; reflexivity.
  - apply (Hdate 100 ValueError). right. split; reflexivity.
Defined.

(** C10 as stated fails: a clock frozen at the epoch whose reply offers
    [.get] is observed at 0, and a request for 0 goes out as 1. *)
Lemma epoch_clock_is_bumped :
  observed_frozen_time (ready_clock "clock_1" 0) = Some 0
  /\ clock_retrieve (obedient 0) (trace world0) "clock_1" = Reply (ready_clock "clock_1" 0)
  /\ advance_test_clock (obedient 0) "clock_1" 0 world0
     = advance_and_poll (obedient 0) "clock_1" 1
         (called (ClockRetrieve "clock_1") true world0)
  /\ In (Called (ClockAdvance "clock_1" 1) true)
        (trace (snd (advance_test_clock (obedient 0) "clock_1" 0 world0)))
  /\ ~ In (Called (ClockAdvance "clock_1" 0) true)
          (trace (snd (advance_test_clock (obedient 0) "clock_1" 0 world0))).
Proof.
  split; [reflexivity|]. split; [reflexivity|]. split; [reflexivity|].
  split; vm_compute.
  - auto 10.
  - intros H. repeat (destruct H as [H | H]; [discriminate H|]). exact H.
Qed.

(** C10, amended: the monotonicity check is skipped, and the request goes
    out as it came, when the retrieve raises or when the script observes
    no frozen time: the field is missing, or it is 0 and the reply offers
    no [.get] to fall back on.  A reply that offers [.get] and is frozen
    at 0 is observed at 0, and a request at or before 0 goes out as 1. *)
Theorem monotonicity_check_skipped (env : Env) (clock_id : string) (requested : Z)
    (w : World) :
  (forall e,
     clock_retrieve env (trace w) clock_id = Error e ->
     advance_test_clock env clock_id requested w
     = advance_and_poll env clock_id requested (called (ClockRetrieve clock_id) false w))
  /\ (forall tc,
        clock_retrieve env (trace w) clock_id = Reply tc ->
        observed_frozen_time tc = None ->
        advance_test_clock env clock_id requested w
        = advance_and_poll env clock_id requested (called (ClockRetrieve clock_id) true w))
  /\ (forall tc,
        observed_frozen_time tc = None <->
        clk_frozen_time tc = None
        \/ (clk_frozen_time tc = Some 0 /\ clk_has_get tc = false))
  /\ (forall tc,
        clock_retrieve env (trace w) clock_id = Reply tc ->
        clk_has_get tc = true ->
        clk_frozen_time tc = Some 0 ->
        advance_test_clock env clock_id requested w
        = advance_and_poll env clock_id (if requested <=? 0 then 1 else requested)
            (called (ClockRetrieve clock_id) true w)).
Proof.
  split; [|split; [|split]].
  - intros e He. now rewrite advance_test_clock_run, He.
  - intros tc Hr Ho. now rewrite advance_test_clock_run, Hr, Ho.
  - intros tc. unfold observed_frozen_time, attr_or_get, py_or, truthy_int.
    destruct (clk_frozen_time tc) as [f |];
      [|destruct (clk_has_get tc); split; auto].
    destruct (Z.eqb_spec f 0) as [-> | Hf]; cbn [negb].
    + destruct (clk_has_get tc); split; intros H; try discriminate; auto.
      destruct H as [H | [_ H]]; discriminate.
    + split; [discriminate|]. intros [H | [[= H] _]]; [discriminate | contradiction].
  - intros tc Hr Hg Hf. rewrite advance_test_clock_run, Hr.
    unfold observed_frozen_time. rewrite Hg, Hf. reflexivity.
Qed.

Lemma monotonicity_check_skipped_witness :
  advance_test_clock silent "clock_1" 0 world0
  = advance_and_poll silent "clock_1" 0 (called (ClockRetrieve "clock_1") false world0)
  /\ advance_test_clock timeless "clock_1" (-5) world0
     = advance_and_poll timeless "clock_1" (-5)
         (called (ClockRetrieve "clock_1") true world0)
  /\ advance_test_clock (obedient 0) "clock_1" (-5) world0
     = advance_and_poll (obedient 0) "clock_1" 1
         (called (ClockRetrieve "clock_1") true world0).
Proof.
  destruct (@monotonicity_check_skipped silent "clock_1" 0 world0) as (Hraise & _).
  destruct (@monotonicity_check_skipped timeless "clock_1" (-5) world0)
    as (_ & Hnone & _).
  destruct (@monotonicity_check_skipped (obedient 0) "clock_1" (-5) world0)
    as (_ & _ & _ & Hepoch).
  split; [|split].
  - apply (Hraise StripeError). reflexivity.
  - apply (Hnone (mkClock "clock_1" true None (Some "ready"))); reflexivity.
  - apply (Hepoch (ready_clock "clock_1" 0)); reflexivity.
Defined.

(* ------------------------------------------------------------------ *)
(** ** DunningAdvancer *)

Section Returns.

Context {A B : Type}.

Lemma returns_ret (Q : A -> Prop) (a : A) : Q a -> returns Q (ret a).
Proof. intros H w. now exists a, w. Qed.

Lemma returns_bind (Q : A -> Prop) (R : B -> Prop) (c : M A) (k : A -> M B) :
  returns Q c -> (forall a, Q a -> returns R (k a)) -> returns R (bind c k).
Proof.
  intros Hc Hk w. destruct (Hc w) as (a & w1 & E & Ha).
  destruct (Hk a Ha w1) as (b & w2 & E' & Hb).
  exists b, w2. split; [|exact Hb]. erewrite bind_ok by exact E. exact E'.
Qed.

Lemma returns_weaken (Q Q' : A -> Prop) (c : M A) :
  (forall a, Q a -> Q' a) -> returns Q c -> returns Q' c.
Proof.
  intros H Hc w. destruct (Hc w) as (a & w' & E & Ha). exists a, w'. auto.
Qed.

Lemma returns_remote (Q : A -> Prop) (req : Request) (answer : History -> reply A) :
  (forall h, exists a, answer h = Reply a /\ Q a) -> returns Q (remote req answer).
Proof.
  intros H w. destruct (H (trace w)) as (a & E & Ha).
  exists a, (called req true w). split; [now apply remote_reply | exact Ha].
Qed.

End Returns.

Lemma returns_emit (ev : Event) : returns (fun _ => True) (emit ev).
Proof. intros w. now exists tt, (mkWorld (now w) (ev :: trace w) (summary w)). Qed.

Lemma returns_for_range_all (body : Z -> M loop_ctl) (count : nat) :
  (forall i, returns (fun c => c = Continue) (body i)) ->
  forall first, returns (fun k => k = count) (for_range body first count).
Proof.
  intros Hb. induction count as [|n IH]; intros first; cbn [for_range].
  - now apply returns_ret.
  - eapply returns_bind; [apply Hb|]. intros c ->.
    eapply returns_bind; [apply IH|]. intros k ->. now apply returns_ret.
Qed.

Lemma returns_for_range (body : Z -> M loop_ctl) (count : nat) :
  (forall i, returns (fun _ => True) (body i)) ->
  forall first, returns (fun k => (k <= count)%nat) (for_range body first count).
Proof.
  intros Hb. induction count as [|n IH]; intros first; cbn [for_range].
  - now apply returns_ret.
  - eapply returns_bind; [apply Hb|]. intros [|] _.
    + eapply returns_bind; [apply IH|]. intros k Hk. apply returns_ret. cbv beta in *. lia.
    + apply returns_ret. cbv beta. lia.
Qed.

Section Dunning.

Variable env : Env.
Variables tc_id sub_id : string.

Lemma nd_retrieve_triplet (id : string) : never_diverges (retrieve_triplet env id).
Proof.
  unfold retrieve_triplet, print_invoice_line, print_intent_line, Subscription_retrieve.
  nd_script.
Qed.

Lemma nd_current_frozen_time (id : string) : never_diverges (current_frozen_time env id).
Proof. unfold current_frozen_time, TestClock_retrieve. nd_script. Qed.

Lemma nd_retry_round (buffer_seconds round_idx : Z) :
  never_diverges (retry_round env tc_id sub_id buffer_seconds round_idx).
Proof.
  pose proof nd_retrieve_triplet. pose proof nd_current_frozen_time.
  unfold retry_round, Subscription_retrieve. nd_script.
Qed.

Lemma nd_advance_through_retries (buffer_seconds max_rounds : Z) :
  never_diverges (advance_through_retries env tc_id sub_id buffer_seconds max_rounds).
Proof.
  unfold advance_through_retries, retry_rounds.
  apply nd_bind; [|intros _; apply nd_emit].
  apply nd_for_range. intros i. apply nd_retry_round.
Qed.

(** What a round costs in advance requests and in round lines. *)
Lemma costs_wait_until_zero (p : Event -> bool) (id : string) (timeout_sec : Z) :
  (forall ok, p (Called (ClockRetrieve id) ok) = false) ->
  (forall d, p (Slept d) = false) ->
  costs p 0 (wait_until_testclock_ready env id timeout_sec).
Proof.
  intros Hr Hs. unfold wait_until_testclock_ready.
  apply costs_bind_l; [apply costs_time_time|]. intros start.
  now apply costs_wait_loop.
Qed.

Lemma round_lines_advance_clock (id : string) (t : Z) :
  costs is_round_print 0 (advance_clock env id t).
Proof.
  pose proof (@costs_wait_until_zero is_round_print id default_wait_timeout
                ltac:(reflexivity) ltac:(reflexivity)) as Hw.
  unfold advance_clock, request_and_wait, announce_advance, confirm_advance,
    TestClock_retrieve, TestClock_advance.
  costs_script.
Qed.

Lemma costs_retrieve_triplet (p : Event -> bool) (id : string) :
  (forall ok, p (Called (SubscriptionRetrieve id) ok) = false) ->
  (forall m, p (Printed (MsgText m)) = false) ->
  p (Printed (MsgRetrieved id)) = false ->
  costs p 0 (retrieve_triplet env id).
Proof.
  intros Hr Ht Hm.
  assert (Hp : forall m, costs p 0 (print (MsgText m))) by (intros m; apply costs_emit, Ht).
  assert (Hq : costs p 0 (print (MsgRetrieved id))) by (apply costs_emit, Hm).
  assert (Hs : costs p 0 (Subscription_retrieve env id))
    by (apply costs_remote_zero, Hr).
  unfold retrieve_triplet, print_invoice_line, print_intent_line.
  costs_script.
Qed.

Lemma costs_current_frozen_time (p : Event -> bool) (id : string) :
  (forall ok, p (Called (ClockRetrieve id) ok) = false) ->
  costs p 0 (current_frozen_time env id).
Proof.
  intros Hr. unfold current_frozen_time, TestClock_retrieve.
  apply costs_bind_l; [apply costs_remote_zero, Hr | intros tc; apply costs_lift].
Qed.

Lemma advances_retry_round (buffer_seconds round_idx : Z) :
  costs is_advance_call 1 (retry_round env tc_id sub_id buffer_seconds round_idx).
Proof.
  pose proof (@costs_retrieve_triplet is_advance_call sub_id
                ltac:(reflexivity) ltac:(reflexivity) ltac:(reflexivity)) as Ht.
  pose proof (@costs_current_frozen_time is_advance_call tc_id ltac:(reflexivity)) as Hc.
  pose proof (costs_advance_clock env tc_id) as Ha.
  unfold retry_round, Subscription_retrieve. costs_script.
Qed.

Lemma round_lines_retry_round (buffer_seconds round_idx : Z) :
  costs is_round_print 1 (retry_round env tc_id sub_id buffer_seconds round_idx).
Proof.
  pose proof (@costs_retrieve_triplet is_round_print sub_id
                ltac:(reflexivity) ltac:(reflexivity) ltac:(reflexivity)) as Ht.
  pose proof (@costs_current_frozen_time is_round_print tc_id ltac:(reflexivity)) as Hc.
  pose proof (round_lines_advance_clock tc_id) as Ha.
  unfold retry_round, Subscription_retrieve.
  apply costs_bind_l; [costs_script|]. intros sub.
  destruct (sub_latest_invoice sub) as [li |].
  - apply costs_bind_r; [apply costs_weaken with (n := 1%nat); [lia|]|].
    + intros w. unfold print, emit, count_events. simpl. lia.
    + intros _. costs_script.
  - apply costs_bind_r.
    + intros w. unfold print, emit, count_events. simpl. lia.
    + intros _. apply costs_ret.
Qed.

End Dunning.

Lemma returns_print (m : Msg) : returns (fun _ => True) (print m).
Proof. apply returns_emit. Qed.

Lemma is_some_inv {A : Type} (o : option A) : is_some o = true -> exists a, o = Some a.
Proof. destruct o as [a |]; [now exists a | discriminate]. Qed.

Lemma returns_lift {A : Type} (r : result A) (a : A) :
  r = Val a -> returns (fun x => x = a) (lift r).
Proof. intros ->. now apply returns_ret. Qed.

Lemma in_window_inv (f : Z) :
  in_window f = true -> dt_min <= f /\ f + 24 * 3600 <= dt_max.
Proof. unfold in_window. rewrite andb_true_iff, !Z.leb_le. auto. Qed.

Lemma dated_inv (x : option Z) :
  dated x = true -> exists v, x = Some v /\ dt v = Val tt.
Proof.
  destruct x as [v |]; [|discriminate]. cbn [dated]. intros H.
  exists v. split; [reflexivity|]. unfold dt. now rewrite H.
Qed.

Lemma dated_if_set_inv (x : option Z) : dated_if_set x = true -> dt_if_set x = Val tt.
Proof. unfold dated_if_set. now destruct (dt_if_set x) as [[] | e]. Qed.

Section CooperativePlatform.

Variable env : Env.
Variables tc_id sub_id : string.
Variable buffer_seconds : Z.
Hypothesis coop : cooperative env tc_id sub_id buffer_seconds.

Let any {A : Type} : A -> Prop := fun _ => True.
Let windowed (f : Z) : Prop := dt_min <= f /\ f + 24 * 3600 <= dt_max.

Lemma coop_clock_retrieve :
  returns (fun tc => sound_clock tc = true) (TestClock_retrieve env tc_id).
Proof. apply returns_remote. apply coop. Qed.

Lemma sound_clock_inv (tc : ClockObj) :
  sound_clock tc = true ->
  clk_has_get tc = true
  /\ (exists f, clk_frozen_time tc = Some f /\ windowed f)
  /\ status_is (clk_status tc) "ready" = true.
Proof.
  unfold sound_clock. rewrite !andb_true_iff. intros [[Hg Hs] Hf].
  repeat split; try assumption.
  destruct (clk_frozen_time tc) as [f |]; [|discriminate].
  exists f. split; [reflexivity | now apply in_window_inv].
Qed.

Lemma windowed_dated (f : Z) : windowed f -> dt f = Val tt /\ dt (f + 1) = Val tt.
Proof. intros [H1 H2]. split; apply dt_dated; lia. Qed.

Lemma coop_wait (timeout_sec : Z) :
  returns any (wait_until_testclock_ready env tc_id timeout_sec).
Proof.
  intros w. destruct (coop_clock_retrieve w) as (tc & w1 & E & Hs).
  apply sound_clock_inv in Hs. destruct Hs as (Hg & _ & Hr).
  exists tc, w1. split; [|exact I].
  unfold wait_until_testclock_ready. step. unfold poll_budget.
  replace (Z.to_nat timeout_sec + 2)%nat with (S (Z.to_nat timeout_sec + 1)) by lia.
  cbn [wait_loop]. erewrite bind_ok by exact E.
  unfold dict_get. rewrite Hg. cbn [lift]. step. now rewrite Hr.
Qed.

Lemma coop_current_frozen_time : returns windowed (current_frozen_time env tc_id).
Proof.
  unfold current_frozen_time. eapply returns_bind; [apply coop_clock_retrieve|].
  intros tc Hs. apply sound_clock_inv in Hs. destruct Hs as (_ & (f & Hf & Hw) & _).
  rewrite Hf. now apply returns_ret.
Qed.

Lemma coop_confirm_advance : returns any (confirm_advance env tc_id).
Proof.
  unfold confirm_advance.
  eapply returns_bind; [apply coop_wait|]. intros _ _.
  eapply returns_bind; [apply coop_clock_retrieve|]. intros tc2 Hs.
  apply sound_clock_inv in Hs. destruct Hs as (_ & (f & Hf & Hw) & Hr).
  rewrite Hf. destruct (clk_status tc2) as [st |]; [|discriminate].
  cbn [subscript lift].
  eapply returns_bind; [now apply returns_ret with (Q := fun f2 => f2 = f)|]. intros f2 ->.
  eapply returns_bind; [apply returns_lift, (windowed_dated Hw)|]. intros _ _.
  eapply returns_bind; [now apply returns_ret with (Q := any)|]. intros s2 _.
  apply returns_print.
Qed.

Lemma coop_request_and_wait (cur target : Z) :
  dt cur = Val tt -> dt target = Val tt ->
  returns any (request_and_wait env tc_id cur target).
Proof.
  intros Hc Ht. unfold request_and_wait.
  eapply returns_bind with (Q := any).
  { intros w. exists tt, (announced tc_id cur target w).
    split; [now apply announce_advance_run | exact I]. }
  intros _ _. eapply returns_bind.
  { apply returns_remote with (Q := any). intros h.
    destruct (proj1 (proj2 coop) h target) as [u Hu]. now exists u. }
  intros _ _. apply coop_confirm_advance.
Qed.

(** An advance to a time that is not past the last date goes through. *)
Lemma coop_advance_clock (target : Z) :
  target <= dt_max -> returns any (advance_clock env tc_id target).
Proof.
  intros Hmax. unfold advance_clock.
  eapply returns_bind; [apply coop_clock_retrieve|]. intros tc Hs.
  apply sound_clock_inv in Hs. destruct Hs as (_ & (f & Hf & Hw) & _).
  rewrite Hf. cbn [subscript lift].
  eapply returns_bind; [now apply returns_ret with (Q := fun cur => cur = f)|].
  intros cur ->.
  eapply returns_bind with (Q := any).
  { destruct (target <=? f); [apply returns_print | now apply returns_ret]. }
  intros _ _. apply coop_request_and_wait; [apply (windowed_dated Hw)|].
  unfold adjusted_target. destruct (target <=? f) eqn:E.
  - apply (windowed_dated Hw).
  - apply Z.leb_gt in E. destruct Hw as [Hw _]. apply dt_dated. lia.
Qed.

Lemma coop_subscription_retrieve :
  returns (fun s => sound_subscription buffer_seconds s = true)
          (Subscription_retrieve env sub_id).
Proof. apply returns_remote. apply coop. Qed.

Lemma coop_print_invoice_line (li : InvoiceObj) :
  sound_invoice buffer_seconds li = true -> returns any (print_invoice_line li).
Proof.
  unfold sound_invoice. rewrite !andb_true_iff. intros [[[[Hg Hs] Hc] _] _].
  apply is_some_inv in Hs. destruct Hs as [s1 Hs1].
  apply dated_inv in Hc. destruct Hc as (c & Hc & Hd).
  unfold print_invoice_line, dict_get. rewrite Hs1, Hc, Hg. cbn [subscript lift].
  eapply returns_bind; [now apply returns_ret with (Q := any)|]. intros _ _.
  eapply returns_bind; [now apply returns_ret with (Q := fun x => x = c)|]. intros x ->.
  eapply returns_bind; [apply returns_lift, Hd|]. intros _ _.
  eapply returns_bind; [now apply returns_ret with (Q := any)|]. intros _ _.
  apply returns_print.
Qed.

Lemma coop_print_intent_line (pi : PaymentIntent) :
  sound_intent pi = true -> returns any (print_intent_line pi).
Proof.
  unfold sound_intent. rewrite !andb_true_iff. intros [[Hg Hi] Hp].
  apply is_some_inv in Hi, Hp. destruct Hi as [i Hi]. destruct Hp as [q Hp].
  unfold print_intent_line, dict_get. rewrite Hi, Hp, Hg. cbn [subscript lift].
  eapply returns_bind; [now apply returns_ret with (Q := any)|]. intros _ _.
  eapply returns_bind; [now apply returns_ret with (Q := any)|]. intros _ _.
  eapply returns_bind; [now apply returns_ret with (Q := any)|]. intros _ _.
  apply returns_print.
Qed.

Lemma coop_retrieve_triplet : returns any (retrieve_triplet env sub_id).
Proof.
  unfold retrieve_triplet.
  eapply returns_bind; [apply coop_subscription_retrieve|]. intros s Hs.
  unfold sound_subscription in Hs. rewrite !andb_true_iff in Hs.
  destruct Hs as [[[[Hg Hst] Hcps] Hcpe] Hli].
  apply is_some_inv in Hst. destruct Hst as [st Hst].
  apply dated_if_set_inv in Hcps, Hcpe.
  assert (Hpi : returns (fun pi => forall p, pi = Some p -> sound_intent p = true)
                  match sub_latest_invoice s with
                  | Some i => lift (dict_get (inv_has_get i) (inv_payment_intent i))
                  | None => ret None
                  end).
  { destruct (sub_latest_invoice s) as [li |]; [|now apply returns_ret].
    unfold sound_invoice in Hli. rewrite !andb_true_iff in Hli.
    destruct Hli as [[[[Hgi _] _] _] Hpi].
    unfold dict_get. rewrite Hgi. cbn [lift]. apply returns_ret.
    intros p Hp. now rewrite Hp in Hpi. }
  eapply returns_bind; [exact Hpi|]. intros pi Hsound.
  eapply returns_bind; [apply returns_print|]. intros _ _.
  unfold dict_get. rewrite Hg, Hst. cbn [lift attribute].
  eapply returns_bind;
    [now apply returns_ret with (Q := fun x => x = sub_current_period_end s)|].
  intros cpe ->.
  eapply returns_bind;
    [now apply returns_ret with (Q := fun x => x = sub_current_period_start s)|].
  intros cps ->.
  eapply returns_bind; [now apply returns_ret with (Q := any)|]. intros _ _.
  eapply returns_bind; [apply returns_lift, Hcps|]. intros _ _.
  eapply returns_bind; [apply returns_lift, Hcpe|]. intros _ _.
  eapply returns_bind; [apply returns_print|]. intros _ _.
  eapply returns_bind with (Q := any).
  { destruct (sub_latest_invoice s) as [li |];
      [now apply coop_print_invoice_line | apply returns_print]. }
  intros _ _.
  eapply returns_bind with (Q := any); [|intros _ _; now apply returns_ret].
  destruct pi as [p |]; [|apply returns_print].
  apply coop_print_intent_line. now apply Hsound.
Qed.

Lemma coop_advance_then_triplet (target : Z) :
  target <= dt_max ->
  returns (fun c => c = Continue)
          (advance_clock env tc_id target ;; retrieve_triplet env sub_id ;; ret Continue).
Proof.
  intros Hmax.
  eapply returns_bind; [now apply coop_advance_clock|]. intros _ _.
  eapply returns_bind; [apply coop_retrieve_triplet|]. intros _ _.
  now apply returns_ret.
Qed.

(** The part of a round that comes after the test for a paid invoice. *)
Lemma coop_round_advance (li : InvoiceObj) :
  sound_invoice buffer_seconds li = true ->
  returns (fun c => c = Continue)
    (if option_truthy (inv_next_payment_attempt li)
     then
       cur <- current_frozen_time env tc_id ;;
       let target :=
         adjusted_target cur (match inv_next_payment_attempt li with
                              | Some na => na
                              | None => 0
                              end + buffer_seconds) in
       _ <- lift (dt target) ;;
       print (MsgAdvancingToAttempt tc_id target) ;;
       advance_clock env tc_id target ;;
       retrieve_triplet env sub_id ;;
       ret Continue
     else
       print MsgFallbackOneDay ;;
       cur <- current_frozen_time env tc_id ;;
       advance_clock env tc_id (cur + 24 * 3600) ;;
       retrieve_triplet env sub_id ;;
       ret Continue).
Proof.
  intros Hli. unfold sound_invoice in Hli. rewrite !andb_true_iff in Hli.
  destruct Hli as [[_ Hna] _].
  destruct (option_truthy (inv_next_payment_attempt li)) eqn:Et.
  - eapply returns_bind; [apply coop_current_frozen_time|]. intros cur Hw.
    destruct (inv_next_payment_attempt li) as [na |]; [|discriminate].
    cbn [option_truthy] in Et. rewrite Et in Hna. cbn [negb orb] in Hna.
    apply Z.leb_le in Hna.
    assert (Hmax : adjusted_target cur (na + buffer_seconds) <= dt_max).
    { unfold adjusted_target. destruct Hw as [_ Hw].
      destruct (na + buffer_seconds <=? cur); lia. }
    assert (Hd : dt (adjusted_target cur (na + buffer_seconds)) = Val tt).
    { apply dt_dated. split; [|exact Hmax]. unfold adjusted_target.
      destruct Hw as [Hw _].
      destruct (na + buffer_seconds <=? cur) eqn:E; [|apply Z.leb_gt in E]; lia. }
    cbv zeta.
    eapply returns_bind; [apply returns_lift, Hd|]. intros _ _.
    eapply returns_bind; [apply returns_print|]. intros _ _.
    now apply coop_advance_then_triplet.
  - eapply returns_bind; [apply returns_print|]. intros _ _.
    eapply returns_bind; [apply coop_current_frozen_time|]. intros cur [_ Hw].
    apply coop_advance_then_triplet. exact Hw.
Qed.

Lemma sound_latest_invoice (s : SubscriptionObj) (li : InvoiceObj) :
  sound_subscription buffer_seconds s = true ->
  sub_latest_invoice s = Some li ->
  sound_invoice buffer_seconds li = true.
Proof.
  unfold sound_subscription. rewrite !andb_true_iff. intros [_ H] Hli.
  now rewrite Hli in H.
Qed.

(** A round either stops the loop or goes on; it goes on when the invoice
    is there and unpaid. *)
Lemma coop_retry_round (round_idx : Z) :
  returns any (retry_round env tc_id sub_id buffer_seconds round_idx).
Proof.
  unfold retry_round.
  eapply returns_bind; [apply coop_subscription_retrieve|]. intros s Hs.
  destruct (sub_latest_invoice s) as [li |] eqn:Hli.
  - eapply returns_bind; [apply returns_print|]. intros _ _.
    destruct (status_is (inv_status li) "paid").
    + eapply returns_bind; [apply returns_print | intros _ _; now apply returns_ret].
    + eapply returns_weaken; [|apply coop_round_advance]; [now intros|].
      now apply sound_latest_invoice with (s := s).
  - eapply returns_bind; [apply returns_print | intros _ _; now apply returns_ret].
Qed.

Lemma owing_retry_round (round_idx : Z) :
  never_recovers env sub_id ->
  returns (fun c => c = Continue) (retry_round env tc_id sub_id buffer_seconds round_idx).
Proof.
  intros Hnever. unfold retry_round.
  eapply returns_bind
    with (Q := fun s => owing s = true /\ sound_subscription buffer_seconds s = true).
  { intros w. destruct (coop_subscription_retrieve w) as (s & w1 & E & Hs).
    exists s, w1. split; [exact E|]. split; [|exact Hs].
    apply (Hnever (trace w)). unfold Subscription_retrieve, remote in E.
    destruct (subscription_retrieve env (trace w) sub_id); congruence. }
  intros s [Ho Hs]. unfold owing in Ho.
  destruct (sub_latest_invoice s) as [li |] eqn:Hli; [|discriminate].
  apply negb_true_iff in Ho. rewrite Ho.
  eapply returns_bind; [apply returns_print|]. intros _ _.
  apply coop_round_advance. now apply sound_latest_invoice with (s := s).
Qed.

End CooperativePlatform.

(** *** Where the loop stops *)

Section EarlyStop.

Variable env : Env.
Variables tc_id sub_id : string.
Variable buffer_seconds : Z.

Let body := retry_round env tc_id sub_id buffer_seconds.

Lemma round_without_invoice (i : Z) (w : World) (s : SubscriptionObj) :
  subscription_retrieve env (trace w) sub_id = Reply s ->
  sub_latest_invoice s = None ->
  body i w = (Ok Break, printed (MsgNoLatestInvoice sub_id)
                          (called (SubscriptionRetrieve sub_id) true w)).
Proof.
  intros Hr Hnone. unfold body, retry_round, Subscription_retrieve.
  erewrite bind_ok by (apply remote_reply; exact Hr).
  rewrite Hnone. step. reflexivity.
Qed.

Lemma round_with_paid_invoice (i : Z) (w : World) (s : SubscriptionObj) (li : InvoiceObj) :
  subscription_retrieve env (trace w) sub_id = Reply s ->
  sub_latest_invoice s = Some li ->
  status_is (inv_status li) "paid" = true ->
  body i w = (Ok Break,
              printed MsgAlreadyPaid
                (printed (MsgRound i (inv_status li) (inv_next_payment_attempt li))
                         (called (SubscriptionRetrieve sub_id) true w))).
Proof.
  intros Hr Hli Hpaid. unfold body, retry_round, Subscription_retrieve.
  erewrite bind_ok by (apply remote_reply; exact Hr).
  rewrite Hli. step. rewrite Hpaid. step. reflexivity.
Qed.

(** The loop is over with the round that hits [break], whatever rounds
    went before and however many were left. *)
Lemma for_range_break (b : Z -> M loop_ctl) :
  forall j first n w0 w w',
    (j < n)%nat ->
    after_rounds b first j w0 w ->
    b (first + Z.of_nat j) w = (Ok Break, w') ->
    for_range b first n w0 = (Ok (S j), w').
Proof.
  induction j as [|j IH]; intros first n w0 w w' Hlt Hafter Hbreak.
  - cbn [after_rounds] in Hafter. subst w.
    destruct n as [|n]; [lia|]. cbn [for_range].
    replace (first + Z.of_nat 0) with first in Hbreak by lia.
    erewrite bind_ok by exact Hbreak. reflexivity.
  - destruct Hafter as (w1 & Hround & Hafter).
    destruct n as [|n]; [lia|]. cbn [for_range].
    erewrite bind_ok by exact Hround. cbv iota.
    erewrite bind_ok; [reflexivity|].
    apply IH with (w := w); [lia | exact Hafter|].
    replace (first + 1 + Z.of_nat j) with (first + Z.of_nat (S j)) by lia.
    exact Hbreak.
Qed.

(** A loop whose rounds all ran to their end has run them all. *)
Lemma for_range_exhausted (b : Z -> M loop_ctl) :
  forall n first w0 w,
    after_rounds b first n w0 w -> for_range b first n w0 = (Ok n, w).
Proof.
  induction n as [|n IH]; intros first w0 w Hafter; cbn [for_range].
  - cbn [after_rounds] in Hafter. now subst w.
  - destruct Hafter as (w1 & Hround & Hafter).
    erewrite bind_ok by exact Hround. cbv iota.
    erewrite bind_ok by (apply IH; exact Hafter). reflexivity.
Qed.

(** Only the two [break]s stop a round short. *)
Lemma round_break_reason (i : Z) (w w' : World) :
  body i w = (Ok Break, w') ->
  exists h,
    trace w' = Printed (MsgNoLatestInvoice sub_id) :: h
    \/ trace w' = Printed MsgAlreadyPaid :: h.
Proof.
  assert (Hgoes : forall (A : Type) (c : M A) (w0 w1 : World),
            (c ;; ret Continue) w0 = (Ok Break, w1) -> False).
  { intros A c w0 w1. unfold bind, ret.
    destruct (c w0) as [[a | e |] w2]; discriminate. }
  assert (Hthen : forall (A : Type) (c : M A) (k : A -> M loop_ctl) (w0 w1 : World),
            (forall a w2, k a w2 = (Ok Break, w1) -> False) ->
            bind c k w0 = (Ok Break, w1) -> False).
  { intros A c k w0 w1 Hk. unfold bind.
    destruct (c w0) as [[a | e |] w2]; try discriminate. apply Hk. }
  unfold body, retry_round, Subscription_retrieve. unfold bind at 1.
  destruct (remote _ _ w) as [[s | e |] w1]; try discriminate.
  destruct (sub_latest_invoice s) as [li |].
  - step. destruct (status_is (inv_status li) "paid").
    + step. unfold ret. intros [= <-]. eexists. right. reflexivity.
    + intros H. exfalso. revert H.
      destruct (option_truthy (inv_next_payment_attempt li)).
      * apply Hthen. intros cur w2. apply Hthen. intros _ w3.
        apply Hthen. intros _ w4. apply Hthen. intros _ w5. apply Hgoes.
      * apply Hthen. intros _ w2. apply Hthen. intros cur w3.
        apply Hthen. intros _ w4. apply Hgoes.
  - step. unfold ret. intros [= <-]. eexists. left. reflexivity.
Qed.

Lemma for_range_stops_short :
  forall n first w k w',
    for_range body first n w = (Ok k, w') ->
    (k < n)%nat ->
    exists h,
      trace w' = Printed (MsgNoLatestInvoice sub_id) :: h
      \/ trace w' = Printed MsgAlreadyPaid :: h.
Proof.
  induction n as [|n IH]; intros first w k w'; cbn [for_range].
  - unfold ret. intros [= <- _]. lia.
  - unfold bind at 1. destruct (body first w) as [[[|] | e |] w1] eqn:Hb; try discriminate.
    + unfold bind. destruct (for_range body (first + 1) n w1) as [[k1 | e |] w2] eqn:E;
        try discriminate.
      unfold ret. intros [= <- <-] Hlt. apply IH in E; [exact E | lia].
    + unfold ret. intros [= <- <-] _. now apply round_break_reason in Hb.
Qed.

End EarlyStop.

(** C5: [advance_through_retries] always ends, after at most
    [max_rounds] rounds of its loop (so at most that many round lines and
    clock advances, and that many rounds counted), whether or not the
    invoice is ever paid.  It stops early when a round, the first or a
    later one, finds no latest invoice or a paid one: after [j] rounds
    that ran to their end, a round that starts on such a subscription is
    the last, the loop has then started [j + 1] rounds and the function
    returns after its closing line; and the loop stops short of
    [max_rounds] for these two reasons only.  When all [max_rounds]
    rounds have run to their end the function returns normally after its
    closing line, whatever the status of the invoice; and on a platform
    that answers every call, with times that have a date, the function
    returns normally, after exactly [max_rounds] rounds when the invoice
    stays unpaid. *)
Theorem advance_through_retries_bounded (env : Env) (tc_id sub_id : string)
    (buffer_seconds max_rounds : Z) :
  never_diverges (advance_through_retries env tc_id sub_id buffer_seconds max_rounds)
  /\ costs is_round_print (Z.to_nat max_rounds)
           (advance_through_retries env tc_id sub_id buffer_seconds max_rounds)
  /\ costs is_advance_call (Z.to_nat max_rounds)
           (advance_through_retries env tc_id sub_id buffer_seconds max_rounds)
  /\ (forall w k w',
        retry_rounds env tc_id sub_id buffer_seconds max_rounds w = (Ok k, w') ->
        (k <= Z.to_nat max_rounds)%nat)
  /\ (forall w0 j w s,
        (j < Z.to_nat max_rounds)%nat ->
        after_rounds (retry_round env tc_id sub_id buffer_seconds) 0 j w0 w ->
        subscription_retrieve env (trace w) sub_id = Reply s ->
        sub_latest_invoice s = None ->
        let stopped := printed (MsgNoLatestInvoice sub_id)
                               (called (SubscriptionRetrieve sub_id) true w) in
        retry_rounds env tc_id sub_id buffer_seconds max_rounds w0 = (Ok (S j), stopped)
        /\ advance_through_retries env tc_id sub_id buffer_seconds max_rounds w0
           = (Ok tt, printed MsgRetriesFinished stopped))
  /\ (forall w0 j w s li,
        (j < Z.to_nat max_rounds)%nat ->
        after_rounds (retry_round env tc_id sub_id buffer_seconds) 0 j w0 w ->
        subscription_retrieve env (trace w) sub_id = Reply s ->
        sub_latest_invoice s = Some li ->
        status_is (inv_status li) "paid" = true ->
        let stopped := printed MsgAlreadyPaid
                         (printed (MsgRound (Z.of_nat j) (inv_status li)
                                            (inv_next_payment_attempt li))
                                  (called (SubscriptionRetrieve sub_id) true w)) in
        retry_rounds env tc_id sub_id buffer_seconds max_rounds w0 = (Ok (S j), stopped)
        /\ advance_through_retries env tc_id sub_id buffer_seconds max_rounds w0
           = (Ok tt, printed MsgRetriesFinished stopped))
  /\ (forall w k w',
        retry_rounds env tc_id sub_id buffer_seconds max_rounds w = (Ok k, w') ->
        (k < Z.to_nat max_rounds)%nat ->
        exists h,
          trace w' = Printed (MsgNoLatestInvoice sub_id) :: h
          \/ trace w' = Printed MsgAlreadyPaid :: h)
  /\ (forall w0 w,
        after_rounds (retry_round env tc_id sub_id buffer_seconds) 0
                     (Z.to_nat max_rounds) w0 w ->
        retry_rounds env tc_id sub_id buffer_seconds max_rounds w0
        = (Ok (Z.to_nat max_rounds), w)
        /\ advance_through_retries env tc_id sub_id buffer_seconds max_rounds w0
           = (Ok tt, printed MsgRetriesFinished w))
  /\ (cooperative env tc_id sub_id buffer_seconds ->
      returns (fun _ => True)
              (advance_through_retries env tc_id sub_id buffer_seconds max_rounds)
      /\ (never_recovers env sub_id ->
          returns (fun k => k = Z.to_nat max_rounds)
                  (retry_rounds env tc_id sub_id buffer_seconds max_rounds))).
Proof.
  split; [apply nd_advance_through_retries|].
  split.
  { unfold advance_through_retries, retry_rounds.
    apply costs_bind_r; [|intros _; apply costs_emit; reflexivity].
    apply costs_weaken with (n := (Z.to_nat max_rounds * 1)%nat); [lia|].
    apply costs_for_range. intros i. apply round_lines_retry_round. }
  split.
  { unfold advance_through_retries, retry_rounds.
    apply costs_bind_r; [|intros _; apply costs_emit; reflexivity].
    apply costs_weaken with (n := (Z.to_nat max_rounds * 1)%nat); [lia|].
    apply costs_for_range. intros i. apply advances_retry_round. }
  split.
  { intros w k w' H. unfold retry_rounds in H. now apply for_range_rounds in H. }
  split.
  { intros w0 j w s Hj Hafter Hr Hnone stopped.
    assert (Hloop : retry_rounds env tc_id sub_id buffer_seconds max_rounds w0
                    = (Ok (S j), stopped)).
    { unfold retry_rounds.
      apply for_range_break with (w := w); [exact Hj | exact Hafter|].
      now apply round_without_invoice with (s := s). }
    split; [exact Hloop|]. unfold advance_through_retries.
    erewrite bind_ok by exact Hloop. reflexivity. }
  split.
  { intros w0 j w s li Hj Hafter Hr Hli Hpaid stopped.
    assert (Hloop : retry_rounds env tc_id sub_id buffer_seconds max_rounds w0
                    = (Ok (S j), stopped)).
    { unfold retry_rounds.
      apply for_range_break with (w := w); [exact Hj | exact Hafter|].
      now apply round_with_paid_invoice with (s := s). }
    split; [exact Hloop|]. unfold advance_through_retries.
    erewrite bind_ok by exact Hloop. reflexivity. }
  split.
  { intros w k w' Hrun Hk. unfold retry_rounds in Hrun.
    now apply for_range_stops_short in Hrun. }
  split.
  { intros w0 w Hafter.
    assert (Hloop : retry_rounds env tc_id sub_id buffer_seconds max_rounds w0
                    = (Ok (Z.to_nat max_rounds), w))
      by (unfold retry_rounds; now apply for_range_exhausted).
    split; [exact Hloop|]. unfold advance_through_retries.
    erewrite bind_ok by exact Hloop. reflexivity. }
  intros Hcoop. split.
  - unfold advance_through_retries.
    eapply returns_bind; [|intros _ _; apply returns_print].
    unfold retry_rounds. apply returns_for_range. intros i.
    now apply coop_retry_round.
  - intros Hnever. unfold retry_rounds. apply returns_for_range_all. intros i.
    now apply owing_retry_round.
Qed.

Lemma within_ten_years_window (t : Z) : in_window (within_ten_years t) = true.
Proof.
  unfold in_window, within_ten_years, start_ts, dt_min, dt_max.
  apply andb_true_iff. rewrite !Z.leb_le. lia.
Qed.

Lemma dunning_forever_cooperative : cooperative dunning_forever "clock_1" "sub_1" 60.
Proof.
  repeat split.
  - intros h. eexists. split; [reflexivity|].
    cbn. apply within_ten_years_window.
  - intros h t. now exists tt.
  - intros h. eexists. split; [reflexivity|].
    unfold sound_subscription, sound_invoice, past_due_subscription, open_invoice.
    cbn -[within_ten_years Z.add Z.leb].
    rewrite !andb_true_iff. repeat split.
    apply orb_true_iff. right. apply Z.leb_le.
    unfold within_ten_years, start_ts, dt_max. lia.
Qed.

Lemma dunning_forever_never_recovers : never_recovers dunning_forever "sub_1".
Proof. intros h s [= <-]. reflexivity. Qed.

Lemma advance_through_retries_bounded_witness :
  cooperative dunning_forever "clock_1" "sub_1" 60
  /\ never_recovers dunning_forever "sub_1"
  /\ returns (fun k => k = 10%nat) (retry_rounds dunning_forever "clock_1" "sub_1" 60 10)
  /\ fst (retry_rounds nothing_to_dun "clock_1" "sub_1" 60 10 world0) = Ok 1%nat
  /\ fst (retry_rounds already_paid "clock_1" "sub_1" 60 10 world0) = Ok 1%nat
  /\ fst (retry_rounds recovering "clock_1" "sub_1" 60 10 world0) = Ok 3%nat
  /\ fst (advance_through_retries recovering "clock_1" "sub_1" 60 10 world0) = Ok tt.
Proof.
  split; [exact dunning_forever_cooperative|].
  split; [exact dunning_forever_never_recovers|].
  destruct (@advance_through_retries_bounded dunning_forever "clock_1" "sub_1" 60 10)
    as (_ & _ & _ & _ & _ & _ & _ & _ & Hcoop).
  destruct (@advance_through_retries_bounded nothing_to_dun "clock_1" "sub_1" 60 10)
    as (_ & _ & _ & _ & Hnone & _).
  destruct (@advance_through_retries_bounded already_paid "clock_1" "sub_1" 60 10)
    as (_ & _ & _ & _ & _ & Hpaid & _).
  destruct (@advance_through_retries_bounded recovering "clock_1" "sub_1" 60 10)
    as (_ & _ & _ & _ & _ & Hlater & _).
  split; [|split; [|split]].
  - exact (proj2 (Hcoop dunning_forever_cooperative) dunning_forever_never_recovers).
  - destruct (Hnone world0 O world0 (mkSub "sub_1" true (Some "active") None None None None))
      as [Hloop _]; [vm_compute; lia | reflexivity | reflexivity | reflexivity|].
    now rewrite Hloop.
  - destruct (Hpaid world0 O world0
                (mkSub "sub_1" true (Some "active") (Some (paid_invoice "in_1"))
                       None None None) (paid_invoice "in_1"))
      as [Hloop _];
      [vm_compute; lia | reflexivity | reflexivity | reflexivity | reflexivity|].
    now rewrite Hloop.
  - set (w1 := snd (retry_round recovering "clock_1" "sub_1" 60 0 world0)).
    set (w2 := snd (retry_round recovering "clock_1" "sub_1" 60 1 w1)).
    destruct (Hlater world0 2%nat w2
                (mkSub "sub_1" true (Some "active") (Some (paid_invoice "in_1"))
                       None None None) (paid_invoice "in_1"))
      as [Hloop Hall].
    + vm_compute. lia.
    + exists w1. split; [vm_compute; reflexivity|].
      exists w2. split; [vm_compute; reflexivity | reflexivity].
    + vm_compute. reflexivity.
    + reflexivity.
    + reflexivity.
    + rewrite Hloop, Hall. split; reflexivity.
Defined.

(* ------------------------------------------------------------------ *)
(** ** InvoiceReconciler *)

Lemma extends_refl (h : History) : extends h h.
Proof. now exists []. Qed.

Lemma extends_app (l h h0 : History) : extends h h0 -> extends (l ++ h) h0.
Proof. intros [l' ->]. exists (l ++ l'). now rewrite app_assoc. Qed.

Section Yields.

Context {A B : Type}.
Variable h0 : History.
Variable P : Event -> Prop.

Lemma yields_ret (Q : A -> Prop) (a : A) : Q a -> yields h0 P Q (ret a).
Proof. intros H w _. exists []. repeat split; [constructor|]. now intros a' [= <-]. Qed.

Lemma yields_bind (Q : A -> Prop) (R : B -> Prop) (c : M A) (k : A -> M B) :
  yields h0 P Q c -> (forall a, Q a -> yields h0 P R (k a)) -> yields h0 P R (bind c k).
Proof.
  intros Hc Hk w Hw. unfold bind. destruct (Hc w Hw) as (l & Hl & Pl & Ha).
  destruct (c w) as [[a | e |] w']; cbn [fst snd] in *.
  - assert (Hw' : extends (trace w') h0) by (rewrite Hl; now apply extends_app).
    destruct (Hk a (Ha a eq_refl) w' Hw') as (l' & Hl' & Pl' & Hb).
    exists (l' ++ l). split; [now rewrite Hl', Hl, app_assoc|].
    split; [apply Forall_app; now split | exact Hb].
  - exists l. repeat split; try assumption. discriminate.
  - exists l. repeat split; try assumption. discriminate.
Qed.

Lemma yields_try_except (Q : A -> Prop) (c : M A) (h : exn -> M A) :
  yields h0 P Q c -> (forall e, yields h0 P Q (h e)) -> yields h0 P Q (try_except c h).
Proof.
  intros Hc Hh w Hw. unfold try_except. destruct (Hc w Hw) as (l & Hl & Pl & Ha).
  destruct (c w) as [[a | e |] w']; cbn [fst snd] in *.
  - exists l. now repeat split.
  - assert (Hw' : extends (trace w') h0) by (rewrite Hl; now apply extends_app).
    destruct (Hh e w' Hw') as (l' & Hl' & Pl' & Hb).
    exists (l' ++ l). split; [now rewrite Hl', Hl, app_assoc|].
    split; [apply Forall_app; now split | exact Hb].
  - exists l. now repeat split.
Qed.

Lemma yields_remote (req : Request) (answer : History -> reply A) :
  P (Called req true) -> P (Called req false) ->
  yields h0 P (fun a => exists h, extends h h0 /\ answer h = Reply a) (remote req answer).
Proof.
  intros Ht Hf w Hw. unfold remote.
  destruct (answer (trace w)) as [a | e] eqn:E; cbn [fst snd trace].
  - exists [Called req true]. split; [reflexivity|]. split; [now constructor|].
    intros a' [= <-]. now exists (trace w).
  - exists [Called req false]. split; [reflexivity|]. split; [now constructor|].
    discriminate.
Qed.

Lemma emits_yields (c : M A) : emits P c -> yields h0 P (fun _ => True) c.
Proof. intros H w _. destruct (H w) as (l & Hl & Pl). now exists l. Qed.

End Yields.

Lemma yields_for_each {A S : Type} (h0 : History) (P : Event -> Prop)
    (body : A -> S -> M S) (xs : list A) :
  (forall x acc, In x xs -> yields h0 P (fun _ => True) (body x acc)) ->
  forall acc, yields h0 P (fun _ => True) (for_each body xs acc).
Proof.
  induction xs as [|x rest IH]; intros Hb acc; cbn [for_each].
  - now apply yields_ret.
  - eapply yields_bind; [apply Hb; now left|].
    intros acc' _. apply IH. intros y acc'' Hy. apply Hb. now right.
Qed.

Section Preserves.

Context {A B : Type}.
Variable f : World -> Z.

Lemma keep_ret (a : A) : preserves f (ret a).
Proof. now intros w. Qed.

Lemma keep_raise (e : exn) : preserves f (@raise A e).
Proof. now intros w. Qed.

Lemma keep_lift (r : result A) : preserves f (lift r).
Proof. destruct r; now intros w. Qed.

Lemma keep_bind (c : M A) (k : A -> M B) :
  preserves f c -> (forall a, preserves f (k a)) -> preserves f (bind c k).
Proof.
  intros Hc Hk w. unfold bind. specialize (Hc w).
  destruct (c w) as [[a | e |] w']; cbn [snd] in *; try assumption.
  now rewrite Hk.
Qed.

Lemma keep_try_except (c : M A) (h : exn -> M A) :
  preserves f c -> (forall e, preserves f (h e)) -> preserves f (try_except c h).
Proof.
  intros Hc Hh w. unfold try_except. specialize (Hc w).
  destruct (c w) as [[a | e |] w']; cbn [snd] in *; try assumption.
  now rewrite Hh.
Qed.

End Preserves.

Lemma keep_attempt {A : Type} (f : World -> Z) (c : M A) :
  preserves f c -> preserves f (attempt c).
Proof.
  intros Hc. unfold attempt. apply keep_try_except.
  - apply keep_bind; [exact Hc | intros a; apply keep_ret].
  - intros e. apply keep_ret.
Qed.

Lemma keep_for_each {A S : Type} (f : World -> Z) (body : A -> S -> M S) :
  (forall x acc, preserves f (body x acc)) ->
  forall xs acc, preserves f (for_each body xs acc).
Proof.
  intros Hb xs. induction xs as [|x rest IH]; intros acc; cbn [for_each].
  - apply keep_ret.
  - apply keep_bind; [apply Hb | intros acc'; apply IH].
Qed.

Section Ledgers.

Variable counter : Summary -> Z.
Variable p : Event -> bool.

Lemma keep_time_time : preserves (ledger counter p) time_time.
Proof. now intros w. Qed.

Lemma keep_emit (ev : Event) : p ev = false -> preserves (ledger counter p) (emit ev).
Proof. intros H w. unfold ledger, count_events. simpl. now rewrite H. Qed.

Lemma keep_sleep (d : Q) : p (Slept d) = false -> preserves (ledger counter p) (sleep d).
Proof. intros H w. unfold ledger, count_events. simpl. now rewrite H. Qed.

Lemma keep_remote {A : Type} (req : Request) (answer : History -> reply A) :
  p (Called req true) = false -> p (Called req false) = false ->
  preserves (ledger counter p) (remote req answer).
Proof.
  intros Ht Hf w. unfold remote, ledger, count_events.
  destruct (answer (trace w)); simpl; now rewrite ?Ht, ?Hf.
Qed.

End Ledgers.

#[local] Hint Resolve keep_ret keep_raise keep_lift keep_time_time keep_attempt : script.

Ltac keep_script :=
  first
    [ solve [auto with script]
    | lazymatch goal with
      | |- preserves _ (bind _ _) => apply keep_bind; [keep_script | intros ?; keep_script]
      | |- preserves _ (try_except _ _) =>
          apply keep_try_except; [keep_script | intros ?; keep_script]
      | |- preserves _ (attempt _) => apply keep_attempt; keep_script
      | |- preserves _ (if ?b then _ else _) => destruct b; keep_script
      | |- preserves _ (match ?x with _ => _ end) => destruct x; keep_script
      | |- preserves _ (print _) => apply keep_emit; reflexivity
      | |- preserves _ (emit _) => apply keep_emit; reflexivity
      | |- preserves _ (sleep _) => apply keep_sleep; reflexivity
      | |- preserves _ (remote _ _) => apply keep_remote; reflexivity
      end ].

Section Reconciler.

Variable env : Env.

(** A payment that goes through is counted once, on the spot. *)
Lemma pay_and_count_paid (id : string) (anything : bool) :
  preserves paid_ledger
    (try_except (Invoice_pay env id ;; paid_incr ;; ret true) (fun _ => ret anything)).
Proof.
  intros w. unfold try_except, bind, Invoice_pay, remote, paid_incr, ret.
  destruct (invoice_pay env (trace w) id);
    unfold paid_ledger, ledger, count_events; simpl; lia.
Qed.

Lemma pay_and_count_both (id : string) (f : World -> Z) :
  f = paid_ledger \/ f = unpaid_ledger ->
  preserves f (try_except (Invoice_pay env id ;; paid_incr) (fun _ => unpaid_incr)).
Proof.
  intros Hf w. unfold try_except, bind, Invoice_pay, remote, paid_incr, unpaid_incr.
  destruct Hf as [-> | ->]; destruct (invoice_pay env (trace w) id);
    unfold paid_ledger, unpaid_ledger, ledger, count_events; simpl; lia.
Qed.

Lemma pay_and_drop_failure (id : string) (f : World -> Z) :
  f = paid_ledger \/ f = unpaid_counter ->
  preserves f (try_except (Invoice_pay env id ;; paid_incr) (fun _ => ret tt)).
Proof.
  intros Hf w. unfold try_except, bind, Invoice_pay, remote, paid_incr, ret.
  destruct Hf as [-> | ->]; destruct (invoice_pay env (trace w) id);
    unfold paid_ledger, unpaid_counter, ledger, count_events; simpl; lia.
Qed.

Lemma keep_settle_invoice (inv : InvoiceObj) (anything : bool) :
  preserves paid_ledger (settle_invoice env inv anything).
Proof.
  pose proof pay_and_count_paid as Hpay.
  unfold settle_invoice, finalize_if_draft, recheck_status, pay_if_still_open,
    Invoice_finalize_invoice, Invoice_retrieve, paid_ledger in *.
  keep_script.
Qed.

Lemma keep_settle_passes (customer : string) :
  forall n, preserves paid_ledger (settle_passes env n customer).
Proof.
  induction n as [|n IH]; cbn [settle_passes]; [apply keep_ret|].
  pose proof keep_settle_invoice as Hinv.
  unfold Invoice_list, paid_ledger in *.
  apply keep_bind; [keep_script|]. intros [invoices | e]; [|apply keep_raise].
  apply keep_bind; [apply keep_for_each; exact Hinv|].
  intros anything. keep_script.
Qed.

Lemma keep_finalize_and_pay_pending (customer : string) :
  preserves paid_ledger (finalize_and_pay_pending env customer).
Proof.
  unfold finalize_and_pay_pending.
  apply keep_try_except; [apply keep_settle_passes | intros e; apply keep_ret].
Qed.

End Reconciler.

Section PaidInvoice.

Variable env : Env.
Variable id : string.
Variable h0 : History.
Hypothesis paid : reported_paid env id h0.

Let any {A : Type} : A -> Prop := fun _ => True.

Lemma recheck_paid (inv : InvoiceObj) :
  inv_id inv = id ->
  yields h0 (leaves_alone id) (fun st2 => st2 = Some "paid")
         (recheck_status env inv (Some "paid")).
Proof.
  intros Hid. unfold recheck_status, Invoice_retrieve. apply yields_try_except.
  - eapply yields_bind; [apply yields_remote; exact I|].
    intros inv2 (h & Hext & Hh). apply yields_ret.
    rewrite Hid in Hh. exact (proj2 paid h inv2 Hext Hh).
  - intros e. now apply yields_ret.
Qed.

Lemma settle_paid_invoice (inv : InvoiceObj) (anything : bool) :
  inv_id inv = id ->
  observed_invoice_status inv = Some "paid" ->
  yields h0 (leaves_alone id) any (settle_invoice env inv anything).
Proof.
  intros Hid Hst. unfold settle_invoice. rewrite Hst.
  eapply yields_bind with (Q := any).
  { unfold finalize_if_draft. cbn. now apply yields_ret. }
  intros a _. eapply yields_bind; [now apply recheck_paid|].
  intros st2 ->. unfold pay_if_still_open. cbn. now apply yields_ret.
Qed.

Lemma settle_other_invoice (inv : InvoiceObj) (anything : bool) :
  inv_id inv <> id ->
  emits (leaves_alone id) (settle_invoice env inv anything).
Proof.
  intros Hid.
  unfold settle_invoice, finalize_if_draft, recheck_status, pay_if_still_open,
    Invoice_finalize_invoice, Invoice_retrieve, Invoice_pay.
  em_script ltac:(cbn; auto).
Qed.

Lemma settle_listed_invoice (h : History) (customer : string)
    (invoices : list InvoiceObj) (inv : InvoiceObj) (anything : bool) :
  extends h h0 ->
  invoice_list env h customer = Reply invoices ->
  In inv invoices ->
  yields h0 (leaves_alone id) any (settle_invoice env inv anything).
Proof.
  intros Hext Hl Hin. destruct (string_dec (inv_id inv) id) as [Hid | Hid].
  - apply settle_paid_invoice; [exact Hid|].
    exact (proj1 paid h customer invoices inv Hext Hl Hin Hid).
  - now apply emits_yields, settle_other_invoice.
Qed.

Lemma settle_passes_leave_alone (customer : string) :
  forall n, yields h0 (leaves_alone id) any (settle_passes env n customer).
Proof.
  induction n as [|n IH]; cbn [settle_passes]; [now apply yields_ret|].
  eapply yields_bind
    with (Q := fun r => match r with
                        | Val invoices =>
                            exists h, extends h h0
                                      /\ invoice_list env h customer = Reply invoices
                        | Exc _ => True
                        end).
  { unfold attempt, Invoice_list. apply yields_try_except.
    - eapply yields_bind; [apply yields_remote; exact I|].
      intros invoices Hh. now apply yields_ret.
    - intros e. now apply yields_ret. }
  intros [invoices | e] Hr; [|apply emits_yields, em_raise].
  destruct Hr as (h & Hext & Hh).
  eapply yields_bind with (Q := any).
  - apply yields_for_each. intros inv acc Hin.
    eapply settle_listed_invoice; eassumption.
  - intros anything _. destruct (negb anything); [now apply yields_ret|].
    eapply yields_bind with (Q := any); [|intros _ _; exact IH].
    now apply emits_yields, em_sleep.
Qed.

Lemma finalize_and_pay_pending_leaves_alone (customer : string) (w : World) :
  extends (trace w) h0 ->
  exists l,
    trace (snd (finalize_and_pay_pending env customer w)) = l ++ trace w
    /\ Forall (leaves_alone id) l.
Proof.
  intros Hw.
  assert (H : yields h0 (leaves_alone id) any (finalize_and_pay_pending env customer)).
  { unfold finalize_and_pay_pending. apply yields_try_except.
    - apply settle_passes_leave_alone.
    - intros e. now apply yields_ret. }
  destruct (H w Hw) as (l & Hl & Pl & _). now exists l.
Qed.

End PaidInvoice.


Lemma was_paid_extends (id : string) (h h0 : History) :
  was_paid id h0 = true -> extends h h0 -> was_paid id h = true.
Proof.
  intros H [l ->]. unfold was_paid in *. rewrite existsb_app, H. apply orb_true_r.
Qed.

Lemma settling_reports_paid (h0 : History) :
  was_paid "in_2" h0 = true -> reported_paid settling "in_2" h0.
Proof.
  intros Hp. split.
  - intros h customer invoices inv Hext [= <-] [<- | [<- | []]] Hid.
    + discriminate Hid.
    + unfold invoice_now. rewrite (was_paid_extends "in_2" Hp Hext). reflexivity.
  - intros h inv2 Hext [= <-].
    unfold invoice_now. rewrite (was_paid_extends "in_2" Hp Hext). reflexivity.
Qed.


Section MonthlyPasses.

Variable env : Env.
Variable customer : string.

Lemma keep_monthly_active (f : World -> Z) :
  f = paid_ledger \/ f = unpaid_ledger ->
  preserves f (monthly_reconcile_active env customer).
Proof.
  intros Hf. pose proof (fun id => pay_and_count_both env id Hf) as Hpay.
  assert (Hbody : forall inv u, preserves f (pay_if_open_active env inv u)).
  { intros inv u. unfold pay_if_open_active.
    destruct Hf as [-> | ->]; unfold paid_ledger, unpaid_ledger in *; keep_script. }
  unfold monthly_reconcile_active, Invoice_list.
  apply keep_try_except; [|intros e; apply keep_ret].
  apply keep_bind; [|intros invoices; now apply keep_for_each].
  destruct Hf as [-> | ->]; apply keep_remote; reflexivity.
Qed.

Lemma keep_monthly_canceled (f : World -> Z) :
  f = paid_ledger \/ f = unpaid_counter ->
  preserves f (monthly_reconcile_canceled env customer).
Proof.
  intros Hf. pose proof (fun id => pay_and_drop_failure env id Hf) as Hpay.
  assert (Hbody : forall inv u, preserves f (pay_if_open_canceled env inv u)).
  { intros inv u. unfold pay_if_open_canceled.
    destruct Hf as [-> | ->]; unfold paid_ledger, unpaid_counter in *; keep_script. }
  unfold monthly_reconcile_canceled, Invoice_list.
  apply keep_try_except; [|intros e; apply keep_ret].
  apply keep_bind; [|intros invoices; now apply keep_for_each].
  destruct Hf as [-> | ->]; apply keep_remote; reflexivity.
Qed.

End MonthlyPasses.

(** C9 against the code: in both monthly passes a payment that goes
    through moves [invoices_paid] by one; a payment that raises moves
    [invoices_unpaid] by one in the pass of the active flow (lines
    514-524) and leaves it where it was in the pass of the canceled flow
    (lines 411-421).  With one open invoice and a declined card the
    canceled flow ends with [invoices_unpaid = 0] after one failed
    payment, the active flow with 1. *)
Theorem canceled_flow_drops_failed_payment :
  (forall env customer,
      preserves paid_ledger (monthly_reconcile_active env customer)
      /\ preserves unpaid_ledger (monthly_reconcile_active env customer)
      /\ preserves paid_ledger (monthly_reconcile_canceled env customer)
      /\ preserves unpaid_counter (monthly_reconcile_canceled env customer))
  /\ count_events is_failed_pay
       (trace (snd (monthly_reconcile_canceled declining "cus_1" (world_with 0 0)))) = 1%nat
  /\ invoices_unpaid
       (summary (snd (monthly_reconcile_canceled declining "cus_1" (world_with 0 0)))) = 0
  /\ invoices_unpaid
       (summary (snd (monthly_reconcile_active declining "cus_1" (world_with 0 0)))) = 1.
Proof.
  split; [|repeat split].
  intros env customer. repeat split.
  - apply keep_monthly_active. now left.
  - apply keep_monthly_active. now right.
  - apply keep_monthly_canceled. now left.
  - apply keep_monthly_canceled. now right.
Qed.

(* ------------------------------------------------------------------ *)
(** ** ScenarioOrchestrator: what a failed advance does to the run *)

Section MonthLoops.

Variable env : Env.

Lemma nd_monthly_active (customer : string) :
  never_diverges (monthly_reconcile_active env customer).
Proof.
  assert (Hbody : forall inv u, never_diverges (pay_if_open_active env inv u)).
  { intros inv u. unfold pay_if_open_active, Invoice_pay. nd_script. }
  pose proof (nd_for_each _ Hbody) as Hloop.
  unfold monthly_reconcile_active, Invoice_list. nd_script.
Qed.

Lemma nd_monthly_canceled (customer : string) :
  never_diverges (monthly_reconcile_canceled env customer).
Proof.
  assert (Hbody : forall inv u, never_diverges (pay_if_open_canceled env inv u)).
  { intros inv u. unfold pay_if_open_canceled, Invoice_pay. nd_script. }
  pose proof (nd_for_each _ Hbody) as Hloop.
  unfold monthly_reconcile_canceled, Invoice_list. nd_script.
Qed.

Lemma nd_settle_passes (customer : string) :
  forall n, never_diverges (settle_passes env n customer).
Proof.
  assert (Hbody : forall inv a, never_diverges (settle_invoice env inv a)).
  { intros inv a.
    unfold settle_invoice, finalize_if_draft, recheck_status, pay_if_still_open,
      Invoice_finalize_invoice, Invoice_retrieve, Invoice_pay.
    nd_script. }
  pose proof (nd_for_each _ Hbody) as Hloop.
  induction n as [|n IH]; cbn [settle_passes]; [apply nd_ret|].
  unfold Invoice_list. nd_script.
Qed.

Lemma nr_finalize_and_pay_pending (customer : string) :
  never_raises (finalize_and_pay_pending env customer).
Proof.
  unfold finalize_and_pay_pending.
  apply nr_try_except; [apply nd_settle_passes | intros e; apply nr_ret].
Qed.

Lemma nr_monthly_active (customer : string) :
  never_raises (monthly_reconcile_active env customer).
Proof.
  apply nr_try_except; [|intros e; apply nr_ret].
  pose proof (nd_monthly_active customer) as H.
  unfold monthly_reconcile_active in H.
  intros w. specialize (H w). unfold try_except in H.
  destruct (bind _ _ w) as [[a | e |] w']; cbn [fst] in *; congruence.
Qed.

Lemma nr_monthly_canceled (customer : string) :
  never_raises (monthly_reconcile_canceled env customer).
Proof.
  apply nr_try_except; [|intros e; apply nr_ret].
  pose proof (nd_monthly_canceled customer) as H.
  unfold monthly_reconcile_canceled in H.
  intros w. specialize (H w). unfold try_except in H.
  destruct (bind _ _ w) as [[a | e |] w']; cbn [fst] in *; congruence.
Qed.

Lemma nr_advance_or_warn (tc_id : string) (current_ts : Z) :
  never_raises (advance_or_warn env tc_id current_ts).
Proof.
  pose proof (nd_advance_test_clock env) as Ha.
  unfold advance_or_warn. nr_script.
Qed.

Lemma nr_auto_advance (tc_id : string) : never_raises (auto_advance env tc_id).
Proof.
  pose proof (nd_advance_test_clock env) as Ha.
  pose proof (nd_current_frozen_time env) as Hc.
  unfold auto_advance. nr_script.
Qed.

Lemma nr_cancel_attempts (sub_id : string) :
  forall n backoff, never_raises (cancel_attempts env sub_id n backoff).
Proof.
  induction n as [|n IH]; intros backoff; cbn [cancel_attempts]; [apply nr_ret|].
  unfold Subscription_delete, Subscription_cancel_at_period_end.
  apply nr_bind; [apply nr_attempt, nd_remote|].
  assert (Hretry : never_raises
            (sleep backoff ;;
             cancel_attempts env sub_id n (py_min (backoff * (3 # 2)) 2)))
    by (apply nr_bind; [apply nr_sleep | intros _; apply IH]).
  intros [u | e]; [apply nr_ret|].
  assert (Hother : never_raises
            (r2 <- attempt (remote (SubscriptionCancelAtPeriodEnd sub_id)
                              (fun h => subscription_cancel_at_period_end env h sub_id)) ;;
             match r2 with
             | Val _ => ret true
             | Exc _ => sleep backoff ;;
                        cancel_attempts env sub_id n (py_min (backoff * (3 # 2)) 2)
             end)).
  { apply nr_bind; [apply nr_attempt, nd_remote|].
    intros [u | e2]; [apply nr_ret | exact Hretry]. }
  destruct e; first [exact Hretry | exact Hother].
Qed.

Lemma nr_active_month (tc_id customer : string) (month m2 : Z) :
  returns (fun c => c = Continue) (active_month env tc_id customer month m2).
Proof.
  assert (H : never_raises
            (advance_or_warn env tc_id (month_ts (month + m2)) ;;
             sleep SLEEP_BETWEEN_CALLS ;; sleep (2 # 10) ;;
             monthly_reconcile_active env customer)).
  { pose proof nr_advance_or_warn. pose proof nr_monthly_active. nr_script. }
  intros w. destruct (H w) as [u Hu]. unfold active_month.
  unfold bind in *.
  destruct (advance_or_warn env tc_id (month_ts (month + m2)) w) as [[[] | e |] w1];
    try discriminate.
  destruct (sleep SLEEP_BETWEEN_CALLS w1) as [[[] | e |] w2]; try discriminate.
  destruct (sleep (2 # 10) w2) as [[[] | e |] w3]; try discriminate.
  destruct (monthly_reconcile_active env customer w3) as [[[] | e |] w4];
    try discriminate.
  now exists Continue, w4.
Qed.

Lemma nr_canceled_month (tc_id customer sub_id : string) (month cancel_after m2 : Z) :
  never_raises (canceled_month env tc_id customer sub_id month cancel_after m2).
Proof.
  pose proof nr_advance_or_warn. pose proof nr_monthly_canceled.
  pose proof nr_cancel_attempts.
  unfold canceled_month, cancel_subscription_retry. nr_script.
Qed.

Lemma nr_simulate_active (tc_id customer : string) (months month : Z) :
  never_raises (simulate_active env tc_id customer months month).
Proof.
  unfold simulate_active.
  apply nr_bind.
  { apply nr_for_range. intros i w.
    destruct (nr_active_month tc_id customer month i w) as (c & w' & E & _).
    exists c. now rewrite E. }
  intros _. apply nr_bind; [apply nr_auto_advance|].
  intros _. apply nr_finalize_and_pay_pending.
Qed.

Lemma nr_simulate_canceled (tc_id customer sub_id : string) (months month : Z) :
  never_raises (simulate_canceled env tc_id customer sub_id months month).
Proof.
  unfold simulate_canceled.
  apply nr_bind.
  { intros w. unfold random_randint.
    destruct (Z.max 1 (months - month) <? 1) eqn:E; [lia|]. now eexists. }
  intros cancel_after. apply nr_bind.
  { apply nr_for_range. intros i. apply nr_canceled_month. }
  intros _. apply nr_bind; [apply nr_emit|].
  intros _. apply nr_bind; [apply nr_auto_advance|].
  intros _. apply nr_finalize_and_pay_pending.
Qed.

(** A raise in a round of a loop leaves the loop. *)
Lemma for_range_raise (body : Z -> M loop_ctl) (first : Z) (n : nat)
    (w w' : World) (e : exn) :
  body first w = (Raise e, w') -> for_range body first (S n) w = (Raise e, w').
Proof. intros H. cbn [for_range]. now apply bind_raise. Qed.

(** The first advance of a scenario has no handler around it. *)
Lemma first_advance_leaves_setup (email price_id : string) (w w1 w2 : World)
    (s : Setup) (e : exn) :
  scenario_create env email price_id w = (Ok s, w1) ->
  advance_clock env (setup_clock s) (setup_anchor s + 60) w1 = (Raise e, w2) ->
  scenario_setup env email price_id w = (Raise e, w2).
Proof.
  intros Hc Ha. unfold scenario_setup.
  erewrite bind_ok by exact Hc. now apply bind_raise.
Qed.

End MonthLoops.

Lemma random_randint_run (env : Env) (lo hi : Z) (w : World) :
  lo <= hi ->
  random_randint env lo hi w
  = (Ok (randint env (trace w) lo hi), drew lo hi (randint env (trace w) lo hi) w).
Proof.
  intros H. unfold random_randint. destruct (hi <? lo) eqn:E; [lia | reflexivity].
Qed.

Lemma failed_setup_leaves_linger (env : Env) (email price_id : string)
    (paid_months total_months : Z) (auto_adv : bool) (w w' : World) (e : exn) :
  scenario_setup env email price_id (printed (MsgText "SCENARIO: LINGER") w)
  = (Raise e, w') ->
  run_linger env email price_id paid_months total_months auto_adv w = (Raise e, w').
Proof. intros H. unfold run_linger. step. now apply bind_raise. Qed.

Lemma failed_setup_leaves_recover (env : Env) (email price_id : string)
    (paid_months past_due_months total_months : Z) (auto_adv : bool)
    (w w' : World) (e : exn) :
  scenario_setup env email price_id (printed (MsgText "SCENARIO: RECOVER") w)
  = (Raise e, w') ->
  run_recover env email price_id paid_months past_due_months total_months auto_adv w
  = (Raise e, w').
Proof. intros H. unfold run_recover. step. now apply bind_raise. Qed.

(* ------------------------------------------------------------------ *)
(** ** Every loop of the scenarios ends *)

Section ScenariosEnd.

Variable env : Env.

Lemma nd_attach_and_set_default_pm (customer_id pm_id0 : string) :
  never_diverges (attach_and_set_default_pm env customer_id pm_id0).
Proof.
  unfold attach_and_set_default_pm, PaymentMethod_attach, PaymentMethod_retrieve,
    Customer_modify.
  nd_script.
Qed.

Lemma nd_create_payment_method (card : string) :
  never_diverges (create_payment_method env card).
Proof. unfold create_payment_method, PaymentMethod_retrieve. nd_script. Qed.

Lemma nd_scenario_setup (email price_id : string) :
  never_diverges (scenario_setup env email price_id).
Proof.
  pose proof nd_attach_and_set_default_pm. pose proof nd_create_payment_method.
  pose proof (nd_retrieve_triplet env). pose proof (nd_advance_clock env).
  unfold scenario_setup, scenario_create, create_testclock, create_customer,
    create_subscription_monthly, TestClock_create.
  nd_script.
Qed.

Lemma nd_advance_to_cycle (tc_id : string) (billing_anchor cycle_index : Z) :
  never_diverges (advance_to_cycle env tc_id billing_anchor cycle_index).
Proof.
  pose proof (nd_current_frozen_time env). pose proof (nd_advance_clock env).
  unfold advance_to_cycle. nd_script.
Qed.

Lemma nd_pay_historical_invoices (cust : string) :
  never_diverges (pay_historical_invoices env cust).
Proof.
  unfold pay_historical_invoices, pay_historical_invoice, Invoice_list,
    Invoice_finalize_invoice, Invoice_retrieve, Invoice_pay.
  nd_script.
Qed.

Lemma nd_scenario_auto_advance (tc_id : string) :
  never_diverges (scenario_auto_advance env tc_id).
Proof.
  pose proof (nd_current_frozen_time env). pose proof (nd_advance_clock env).
  unfold scenario_auto_advance. nd_script.
Qed.

Lemma nd_run_linger (email price_id : string) (paid_months total_months : Z)
    (auto_adv : bool) :
  never_diverges (run_linger env email price_id paid_months total_months auto_adv).
Proof.
  pose proof nd_scenario_setup. pose proof nd_advance_to_cycle.
  pose proof nd_attach_and_set_default_pm. pose proof nd_create_payment_method.
  pose proof (nd_retrieve_triplet env). pose proof (nd_advance_through_retries env).
  pose proof nd_scenario_auto_advance.
  unfold run_linger, paid_month, lingering_month, switch_to_failing. nd_script.
Qed.

Lemma nd_run_recover (email price_id : string)
    (paid_months past_due_months total_months : Z) (auto_adv : bool) :
  never_diverges
    (run_recover env email price_id paid_months past_due_months total_months auto_adv).
Proof.
  pose proof nd_scenario_setup. pose proof nd_advance_to_cycle.
  pose proof nd_attach_and_set_default_pm. pose proof nd_create_payment_method.
  pose proof (nd_retrieve_triplet env). pose proof (nd_advance_through_retries env).
  pose proof nd_scenario_auto_advance. pose proof nd_pay_historical_invoices.
  pose proof (nd_current_frozen_time env). pose proof (nd_advance_clock env).
  unfold run_recover, paid_month, lingering_month, switch_to_failing. nd_script.
Qed.

Lemma nd_random_randint (lo hi : Z) : never_diverges (random_randint env lo hi).
Proof.
  intros w. unfold random_randint. destruct (hi <? lo); discriminate.
Qed.

Lemma nd_main_scenarios (args : Args) (price_id : string) :
  never_diverges (main_scenarios env args price_id).
Proof.
  pose proof nd_run_linger. pose proof nd_run_recover. pose proof nd_random_randint.
  unfold main_scenarios, main_batch, batch_entity. nd_script.
Qed.

End ScenariosEnd.

(** *** What the scenarios add to the trace *)

Lemma em_for_range (P : Event -> Prop) (body : Z -> M loop_ctl) :
  (forall i, emits P (body i)) ->
  forall count first, emits P (for_range body first count).
Proof.
  intros Hb. induction count as [|n IH]; intros first; cbn [for_range].
  - apply em_ret.
  - apply em_bind; [apply Hb|]. intros [|]; [|apply em_ret].
    apply em_bind; [apply IH | intros k; apply em_ret].
Qed.

Lemma em_for_each {A S : Type} (P : Event -> Prop) (body : A -> S -> M S) :
  (forall x acc, emits P (body x acc)) ->
  forall xs acc, emits P (for_each body xs acc).
Proof.
  intros Hb xs. induction xs as [|x rest IH]; intros acc; cbn [for_each].
  - apply em_ret.
  - apply em_bind; [apply Hb | intros acc'; apply IH].
Qed.

Section ScenarioRequests.

Variable env : Env.
Variable P : Event -> Prop.
Variable emails : string -> Prop.
Hypothesis clock_creates :
  forall t ok,
    P (Called (ClockCreate t ("learn_tc_" ++ NilZero.string_of_int (Z.to_int t))) ok).
Hypothesis clock_retrieves : forall id ok, P (Called (ClockRetrieve id) ok).
Hypothesis clock_advances : forall id t ok, P (Called (ClockAdvance id t) ok).
Hypothesis customer_creates :
  forall e c ok, emails e -> P (Called (CustomerCreate e c) ok).
Hypothesis customer_modifies : forall c pm ok, P (Called (CustomerModify c pm) ok).
Hypothesis method_creates : forall t ok, P (Called (PaymentMethodCreate t) ok).
Hypothesis method_retrieves : forall id ok, P (Called (PaymentMethodRetrieve id) ok).
Hypothesis method_attaches : forall id c ok, P (Called (PaymentMethodAttach id c) ok).
Hypothesis subscription_creates :
  forall c pr a ok, P (Called (SubscriptionCreate c pr a) ok).
Hypothesis subscription_retrieves : forall id ok, P (Called (SubscriptionRetrieve id) ok).
Hypothesis sleeps : forall d, P (Slept d).
Hypothesis prints : forall m, P (Printed m).
Hypothesis draws : forall lo hi v, P (Drew lo hi v).

Lemma em_wait_until (id : string) (timeout_sec : Z) :
  emits P (wait_until_testclock_ready env id timeout_sec).
Proof.
  unfold wait_until_testclock_ready.
  apply em_bind; [apply em_time_time|]. intros start. apply em_wait_loop; auto.
Qed.

Lemma em_advance_clock (id : string) (t : Z) : emits P (advance_clock env id t).
Proof.
  pose proof em_wait_until as Hw.
  unfold advance_clock, request_and_wait, announce_advance, confirm_advance,
    TestClock_retrieve, TestClock_advance.
  em_script ltac:(auto).
Qed.

Lemma em_retrieve_triplet (id : string) : emits P (retrieve_triplet env id).
Proof.
  unfold retrieve_triplet, print_invoice_line, print_intent_line, Subscription_retrieve.
  em_script ltac:(auto).
Qed.

Lemma em_current_frozen_time (id : string) : emits P (current_frozen_time env id).
Proof. unfold current_frozen_time, TestClock_retrieve. em_script ltac:(auto). Qed.

Lemma em_advance_to_cycle (id : string) (anchor index : Z) :
  emits P (advance_to_cycle env id anchor index).
Proof.
  pose proof em_current_frozen_time. pose proof em_advance_clock.
  unfold advance_to_cycle. em_script ltac:(auto).
Qed.

Lemma em_advance_through_retries (tc_id sub_id : string) (buffer_seconds max_rounds : Z) :
  emits P (advance_through_retries env tc_id sub_id buffer_seconds max_rounds).
Proof.
  pose proof em_current_frozen_time. pose proof em_advance_clock.
  pose proof em_retrieve_triplet.
  unfold advance_through_retries, retry_rounds.
  apply em_bind; [|intros _; apply em_emit; auto].
  apply em_for_range. intros i. unfold retry_round, Subscription_retrieve.
  em_script ltac:(auto).
Qed.

Lemma em_create_payment_method (card : string) :
  emits P (create_payment_method env card).
Proof.
  unfold create_payment_method, PaymentMethod_retrieve. em_script ltac:(auto).
Qed.

Lemma em_attach (customer_id pm_id0 : string) :
  emits P (attach_and_set_default_pm env customer_id pm_id0).
Proof.
  unfold attach_and_set_default_pm, PaymentMethod_attach, PaymentMethod_retrieve,
    Customer_modify.
  em_script ltac:(auto).
Qed.

Lemma em_switch_to_failing (cust : string) : emits P (switch_to_failing env cust).
Proof.
  pose proof em_create_payment_method. pose proof em_attach.
  unfold switch_to_failing. em_script ltac:(auto).
Qed.

Lemma em_scenario_auto_advance (tc_id : string) :
  emits P (scenario_auto_advance env tc_id).
Proof.
  pose proof em_current_frozen_time. pose proof em_advance_clock.
  unfold scenario_auto_advance. em_script ltac:(auto).
Qed.

Lemma em_scenario_setup (email price_id : string) :
  emails email -> emits P (scenario_setup env email price_id).
Proof.
  intros Hemail.
  pose proof em_create_payment_method. pose proof em_attach.
  pose proof em_advance_clock. pose proof em_retrieve_triplet.
  unfold scenario_setup, scenario_create, create_testclock, create_customer,
    create_subscription_monthly, TestClock_create.
  em_script ltac:(auto).
Qed.

Lemma em_paid_months (tc_id sub_id : string) (anchor first : Z) (count : nat) :
  emits P (for_range (paid_month env tc_id sub_id anchor) first count).
Proof.
  pose proof em_advance_to_cycle. pose proof em_retrieve_triplet.
  apply em_for_range. intros i. unfold paid_month. em_script ltac:(auto).
Qed.

Lemma em_lingering_months (tc_id sub_id : string) (anchor first : Z) (count : nat) :
  emits P (for_range (lingering_month env tc_id sub_id anchor) first count).
Proof.
  pose proof em_advance_to_cycle. pose proof em_advance_through_retries.
  apply em_for_range. intros i. unfold lingering_month. em_script ltac:(auto).
Qed.

Lemma em_run_linger (email price_id : string) (paid_months total_months : Z)
    (auto_adv : bool) :
  emails email ->
  emits P (run_linger env email price_id paid_months total_months auto_adv).
Proof.
  intros Hemail. pose proof (em_scenario_setup price_id Hemail). pose proof em_paid_months.
  pose proof em_lingering_months. pose proof em_switch_to_failing.
  pose proof em_advance_to_cycle. pose proof em_retrieve_triplet.
  pose proof em_advance_through_retries. pose proof em_scenario_auto_advance.
  unfold run_linger. em_script ltac:(auto).
Qed.

Section WithInvoices.

Hypothesis invoice_lists : forall c ok, P (Called (InvoiceList c) ok).
Hypothesis invoice_retrieves : forall id ok, P (Called (InvoiceRetrieve id) ok).
Hypothesis invoice_finalizes : forall id ok, P (Called (InvoiceFinalize id) ok).
Hypothesis invoice_pays : forall id ok, P (Called (InvoicePay id) ok).

Lemma em_pay_historical_invoices (cust : string) :
  emits P (pay_historical_invoices env cust).
Proof.
  assert (Hbody : forall inv u, emits P (pay_historical_invoice env inv u)).
  { intros inv u.
    unfold pay_historical_invoice, Invoice_finalize_invoice, Invoice_retrieve,
      Invoice_pay.
    em_script ltac:(auto). }
  pose proof (@em_for_each _ _ P _ Hbody) as Hloop.
  unfold pay_historical_invoices, Invoice_list. em_script ltac:(auto).
Qed.

Lemma em_run_recover (email price_id : string)
    (paid_months past_due_months total_months : Z) (auto_adv : bool) :
  emails email ->
  emits P (run_recover env email price_id paid_months past_due_months total_months
                       auto_adv).
Proof.
  intros Hemail. pose proof (em_scenario_setup price_id Hemail). pose proof em_paid_months.
  pose proof em_lingering_months. pose proof em_switch_to_failing.
  pose proof em_advance_to_cycle. pose proof em_retrieve_triplet.
  pose proof em_advance_through_retries. pose proof em_scenario_auto_advance.
  pose proof em_current_frozen_time. pose proof em_attach.
  pose proof em_advance_clock. pose proof em_pay_historical_invoices.
  unfold run_recover. em_script ltac:(auto).
Qed.

Lemma em_batch_entity (args : Args) (price_id : string) (i : Z) :
  emails (batch_email (arg_email_prefix args) i) ->
  emits P (batch_entity env args price_id i).
Proof.
  intros Hemail.
  assert (Hdraw : forall lo hi, emits P (random_randint env lo hi)).
  { intros lo hi w. unfold random_randint. destruct (hi <? lo).
    - now exists [].
    - eexists [_]. split; [reflexivity | constructor; [apply draws | constructor]]. }
  pose proof (fun paid total => em_run_linger price_id paid total true Hemail).
  pose proof (fun paid past total => em_run_recover price_id paid past total true Hemail).
  unfold batch_entity. em_script ltac:(auto).
Qed.

Lemma em_main_batch (args : Args) (price_id : string) :
  (forall i, emails (batch_email (arg_email_prefix args) i)) ->
  emits P (main_batch env args price_id).
Proof.
  intros Hemails. unfold main_batch.
  apply em_bind; [apply em_emit; auto|]. intros _.
  apply em_for_range. intros i. now apply em_batch_entity.
Qed.

End WithInvoices.

End ScenarioRequests.

(* ------------------------------------------------------------------ *)
(** ** What becomes of an advance request in a scenario *)

Section AdvanceOrder.

Variable catching : bool.

Lemma standing_from_app (p : Standing) (l1 l2 : History) :
  standing_from catching p (l2 ++ l1)
  = match standing_from catching p l1 with
    | Some q => standing_from catching q l2
    | None => None
    end.
Proof.
  induction l2 as [|ev l2 IH]; cbn [app standing_from].
  - now destruct (standing_from catching p l1).
  - rewrite IH. now destruct (standing_from catching p l1).
Qed.

Lemma settled_from (l : History) :
  Forall no_advance l -> standing_from catching Settled l = Some Settled.
Proof.
  induction 1 as [|ev l Hev _ IH]; cbn [standing_from]; [reflexivity|].
  rewrite IH. unfold no_advance in Hev.
  destruct ev as [[] [|] | | |]; try reflexivity; discriminate.
Qed.

Lemma waiting_from (l : History) :
  Forall is_wait l -> standing_from catching Waiting l = Some Waiting.
Proof.
  induction 1 as [|ev l Hev _ IH]; cbn [standing_from]; [reflexivity|].
  rewrite IH. destruct ev as [[] ok | | |]; try contradiction; reflexivity.
Qed.

Section Pieces.

Context {A B : Type}.

Lemma ko_ret (p : Standing) (a : A) : keeps_order catching p p (ret a).
Proof. intros w. exists [], p. repeat split. Qed.

Lemma ko_raise (p q : Standing) (e : exn) : keeps_order catching p q (@raise A e).
Proof. intros w. exists [], p. repeat split. discriminate. Qed.

Lemma ko_lift (p : Standing) (r : result A) : keeps_order catching p p (lift r).
Proof. destruct r; [apply ko_ret | apply ko_raise]. Qed.

Lemma ko_bind (p q r : Standing) (c : M A) (k : A -> M B) :
  keeps_order catching p q c ->
  (forall a, keeps_order catching q r (k a)) ->
  keeps_order catching p r (bind c k).
Proof.
  intros Hc Hk w. unfold bind. destruct (Hc w) as (l & s & Hl & Hs & Hq).
  destruct (c w) as [[a | e |] w1]; cbn [fst snd] in *.
  - specialize (Hq a eq_refl). subst s.
    destruct (Hk a w1) as (l' & s' & Hl' & Hs' & Hr).
    exists (l' ++ l), s'. split; [now rewrite Hl', Hl, app_assoc|].
    split; [|exact Hr]. now rewrite standing_from_app, Hs.
  - exists l, s. repeat split; try assumption. discriminate.
  - exists l, s. repeat split; try assumption. discriminate.
Qed.

(** A handler runs from where the failure left the request. *)
Lemma ko_try_except (p q : Standing) (c : M A) (h : exn -> M A) :
  keeps_order catching p q c ->
  (forall s e, keeps_order catching s q (h e)) ->
  keeps_order catching p q (try_except c h).
Proof.
  intros Hc Hh w. unfold try_except. destruct (Hc w) as (l & s & Hl & Hs & Hq).
  destruct (c w) as [[a | e |] w1]; cbn [fst snd] in *.
  - exists l, s. repeat split; assumption.
  - destruct (Hh s e w1) as (l' & s' & Hl' & Hs' & Hr).
    exists (l' ++ l), s'. split; [now rewrite Hl', Hl, app_assoc|].
    split; [|exact Hr]. now rewrite standing_from_app, Hs.
  - exists l, s. repeat split; try assumption.
Qed.

(** A piece of script that requests no advance leaves things settled. *)
Lemma ko_quiet (c : M A) :
  emits no_advance c -> keeps_order catching Settled Settled (c).
Proof.
  intros Hc w. destruct (Hc w) as (l & Hl & Pl).
  exists l, Settled. split; [exact Hl|]. split; [now apply settled_from | reflexivity].
Qed.

Lemma ko_waits (c : M A) :
  emits is_wait c -> keeps_order catching Waiting Waiting c.
Proof.
  intros Hc w. destruct (Hc w) as (l & Hl & Pl).
  exists l, Waiting. split; [exact Hl|]. split; [now apply waiting_from | reflexivity].
Qed.

End Pieces.

Lemma ko_emit (p q : Standing) (ev : Event) :
  standing_after catching p ev = Some q -> keeps_order catching p q (emit ev).
Proof.
  intros H w. exists [ev], q. split; [reflexivity|]. split; [exact H | reflexivity].
Qed.

Lemma ko_for_range (body : Z -> M loop_ctl) :
  (forall i, keeps_order catching Settled Settled (body i)) ->
  forall count first, keeps_order catching Settled Settled (for_range body first count).
Proof.
  intros Hb. induction count as [|n IH]; intros first; cbn [for_range].
  - apply ko_ret.
  - apply ko_bind with (q := Settled); [apply Hb|]. intros [|]; [|apply ko_ret].
    apply ko_bind with (q := Settled); [apply IH | intros k; apply ko_ret].
Qed.

Variable env : Env.

Lemma ko_request (id : string) (t : Z) :
  keeps_order catching Settled Waiting (TestClock_advance env id t).
Proof.
  intros w. unfold TestClock_advance, remote.
  destruct (clock_advance env (trace w) id t) as [u | e]; cbn [fst snd trace].
  - exists [Called (ClockAdvance id t) true], Waiting. repeat split.
  - exists [Called (ClockAdvance id t) false], Refused. repeat split. discriminate.
Qed.

Lemma ko_confirm_advance (id : string) :
  keeps_order catching Waiting Settled (confirm_advance env id).
Proof.
  unfold confirm_advance.
  apply ko_bind with (q := Waiting).
  { apply ko_waits. apply em_wait_until; intros; exact I. }
  intros _. apply ko_bind with (q := Waiting).
  { apply ko_waits. unfold TestClock_retrieve. apply em_remote; exact I. }
  intros tc2. apply ko_bind with (q := Waiting); [apply ko_lift|]. intros f2.
  apply ko_bind with (q := Waiting); [apply ko_lift|]. intros _.
  apply ko_bind with (q := Waiting); [apply ko_lift|]. intros s2.
  now apply ko_emit.
Qed.

Lemma ko_advance_clock (id : string) (t : Z) :
  keeps_order catching Settled Settled (advance_clock env id t).
Proof.
  unfold advance_clock.
  apply ko_bind with (q := Settled).
  { apply ko_quiet. unfold TestClock_retrieve. apply em_remote; reflexivity. }
  intros tc. apply ko_bind with (q := Settled); [apply ko_lift|]. intros cur.
  apply ko_bind with (q := Settled).
  { apply ko_quiet. destruct (t <=? cur); [apply em_emit; reflexivity | apply em_ret]. }
  intros _. unfold request_and_wait.
  apply ko_bind with (q := Settled).
  { apply ko_quiet. unfold announce_advance. em_script ltac:(reflexivity). }
  intros _. apply ko_bind with (q := Waiting); [apply ko_request|].
  intros _. apply ko_confirm_advance.
Qed.

Create HintDb order discriminated.
Create HintDb quiet discriminated.

(** The pieces of a scenario that request no advance. *)
Ltac quiet_side := first [reflexivity | intros; reflexivity].

Lemma quiet_retrieve_triplet (id : string) : emits no_advance (retrieve_triplet env id).
Proof. apply em_retrieve_triplet; quiet_side. Qed.

Lemma quiet_current_frozen_time (id : string) :
  emits no_advance (current_frozen_time env id).
Proof. apply em_current_frozen_time; quiet_side. Qed.

Lemma quiet_attach (customer_id pm_id0 : string) :
  emits no_advance (attach_and_set_default_pm env customer_id pm_id0).
Proof. apply em_attach; quiet_side. Qed.

Lemma quiet_switch_to_failing (cust : string) :
  emits no_advance (switch_to_failing env cust).
Proof. apply em_switch_to_failing; quiet_side. Qed.

Lemma quiet_pay_historical_invoices (cust : string) :
  emits no_advance (pay_historical_invoices env cust).
Proof. apply em_pay_historical_invoices; quiet_side. Qed.

Lemma quiet_scenario_create (email price_id : string) :
  emits no_advance (scenario_create env email price_id).
Proof.
  pose proof (@em_create_payment_method env no_advance
                ltac:(quiet_side) ltac:(quiet_side) ltac:(quiet_side)).
  pose proof quiet_attach.
  unfold scenario_create, create_testclock, create_customer,
    create_subscription_monthly, TestClock_create.
  em_script ltac:(reflexivity).
Qed.

Lemma quiet_random_randint (lo hi : Z) : emits no_advance (random_randint env lo hi).
Proof.
  intros w. unfold random_randint. destruct (hi <? lo).
  - now exists [].
  - eexists [_]. split; [reflexivity | repeat constructor].
Qed.

#[local] Hint Resolve ko_advance_clock : order.
#[local] Hint Resolve quiet_retrieve_triplet quiet_current_frozen_time quiet_attach
  quiet_switch_to_failing quiet_pay_historical_invoices quiet_scenario_create
  quiet_random_randint : quiet.

(** Structural proofs of [keeps_order] between two settled standings. *)
Ltac ko_script :=
  lazymatch goal with
  | |- keeps_order _ Settled Settled (bind _ _) =>
      apply ko_bind with (q := Settled); [ko_script | intros ?; ko_script]
  | |- keeps_order _ _ _ (if ?b then _ else _) => destruct b; ko_script
  | |- keeps_order _ _ _ (match ?x with _ => _ end) => destruct x; ko_script
  | |- keeps_order _ _ _ (for_range _ _ _) => apply ko_for_range; intros ?; ko_script
  | |- _ =>
      first [ solve [auto with order]
            | apply ko_quiet;
              first [ solve [auto with quiet] | em_script ltac:(reflexivity) ] ]
  end.

Lemma ko_advance_to_cycle (id : string) (anchor index : Z) :
  keeps_order catching Settled Settled (advance_to_cycle env id anchor index).
Proof. unfold advance_to_cycle. ko_script. Qed.

Lemma ko_advance_through_retries (tc_id sub_id : string) (buffer_seconds max_rounds : Z) :
  keeps_order catching Settled Settled
    (advance_through_retries env tc_id sub_id buffer_seconds max_rounds).
Proof.
  unfold advance_through_retries, retry_rounds, retry_round, Subscription_retrieve.
  ko_script.
Qed.

Lemma ko_scenario_setup (email price_id : string) :
  keeps_order catching Settled Settled (scenario_setup env email price_id).
Proof. unfold scenario_setup. ko_script. Qed.

(** The closing auto-advance catches what its advance raises. *)
Lemma ko_scenario_auto_advance (tc_id : string) :
  catching = true ->
  keeps_order catching Settled Settled (scenario_auto_advance env tc_id).
Proof.
  intros Hc. unfold scenario_auto_advance. apply ko_try_except.
  - ko_script.
  - intros s e. apply ko_emit. rewrite Hc. now destruct s.
Qed.

#[local] Hint Resolve ko_advance_to_cycle ko_advance_through_retries ko_scenario_setup
  : order.

Lemma ko_closing (auto_adv : bool) (tc_id : string) :
  catching = auto_adv ->
  keeps_order catching Settled Settled
    (if auto_adv then scenario_auto_advance env tc_id else ret tt).
Proof.
  intros Hc. destruct auto_adv; [now apply ko_scenario_auto_advance | apply ko_ret].
Qed.

Lemma ko_run_linger (email price_id : string) (paid_months total_months : Z)
    (auto_adv : bool) :
  catching = auto_adv ->
  keeps_order catching Settled Settled
    (run_linger env email price_id paid_months total_months auto_adv).
Proof.
  intros Hc. pose proof (fun tc_id => ko_closing tc_id Hc) as Hclosing.
  unfold run_linger, paid_month, lingering_month.
  apply ko_bind with (q := Settled); [ko_script|]. intros _.
  apply ko_bind with (q := Settled); [ko_script|]. intros s.
  apply ko_bind with (q := Settled); [ko_script|]. intros _.
  apply ko_bind with (q := Settled); [ko_script|]. intros _.
  apply ko_bind with (q := Settled); [ko_script|]. intros _.
  apply ko_bind with (q := Settled); [ko_script|]. intros _.
  apply ko_bind with (q := Settled); [ko_script|]. intros _.
  apply ko_bind with (q := Settled); [ko_script|]. intros _.
  apply ko_bind with (q := Settled); [ko_script|]. intros _.
  apply ko_bind with (q := Settled); [apply Hclosing|]. intros _.
  apply ko_ret.
Qed.

Lemma ko_run_recover (email price_id : string)
    (paid_months past_due_months total_months : Z) (auto_adv : bool) :
  catching = auto_adv ->
  keeps_order catching Settled Settled
    (run_recover env email price_id paid_months past_due_months total_months auto_adv).
Proof.
  intros Hc. pose proof (fun tc_id => ko_closing tc_id Hc) as Hclosing.
  unfold run_recover, paid_month, lingering_month.
  apply ko_bind with (q := Settled); [ko_script|]. intros _.
  apply ko_bind with (q := Settled); [ko_script|]. intros s.
  apply ko_bind with (q := Settled); [ko_script|]. intros _.
  cbv zeta.
  apply ko_bind with (q := Settled); [ko_script|]. intros _.
  apply ko_bind with (q := Settled); [ko_script|]. intros _.
  apply ko_bind with (q := Settled); [ko_script|]. intros _.
  apply ko_bind with (q := Settled); [ko_script|]. intros _.
  apply ko_bind with (q := Settled); [ko_script|]. intros _.
  apply ko_bind with (q := Settled); [ko_script|]. intros _.
  apply ko_bind with (q := Settled); [ko_script|]. intros cur.
  apply ko_bind with (q := Settled); [ko_script|]. intros next_cycle.
  apply ko_bind with (q := Settled); [ko_script|]. intros _.
  apply ko_bind with (q := Settled); [ko_script|]. intros _.
  apply ko_bind with (q := Settled); [ko_script|]. intros _.
  apply ko_bind with (q := Settled); [ko_script|]. intros _.
  apply ko_bind with (q := Settled); [ko_script|]. intros _.
  apply ko_bind with (q := Settled); [ko_script|]. intros _.
  apply ko_bind with (q := Settled); [ko_script|]. intros _.
  apply ko_bind with (q := Settled); [apply Hclosing|]. intros _.
  apply ko_ret.
Qed.

End AdvanceOrder.

Lemma ko_main_scenarios (env : Env) (args : Args) (price_id : string) :
  keeps_order true Settled Settled (main_scenarios env args price_id).
Proof.
  pose proof (fun e p pm tm => @ko_run_linger true env e p pm tm true eq_refl) as Hl.
  pose proof (fun e p pm pd tm => @ko_run_recover true env e p pm pd tm true eq_refl) as Hr.
  pose proof (@quiet_random_randint env) as Hd.
  assert (Hentity : forall i, keeps_order true Settled Settled
                                (batch_entity env args price_id i)).
  { intros i. unfold batch_entity.
    apply ko_bind with (q := Settled); [now apply ko_quiet|]. intros paid.
    apply ko_bind with (q := Settled).
    { destruct (arg_scenario args).
      - apply ko_bind with (q := Settled); [now apply ko_quiet|]. intros pd.
        apply ko_bind with (q := Settled); [apply ko_quiet, em_emit; reflexivity|].
        intros _. apply ko_bind with (q := Settled); [apply Hr|]. intros _. apply ko_ret.
      - apply ko_bind with (q := Settled); [apply ko_quiet, em_emit; reflexivity|].
        intros _. apply ko_bind with (q := Settled); [apply Hl|]. intros _. apply ko_ret. }
    intros _. apply ko_bind with (q := Settled); [apply ko_quiet, em_sleep; reflexivity|].
    intros _. apply ko_ret. }
  unfold main_scenarios, main_batch. destruct (0 <? arg_count args).
  - apply ko_bind with (q := Settled); [|intros _; apply ko_ret].
    apply ko_bind with (q := Settled); [apply ko_quiet, em_emit; reflexivity|].
    intros _. now apply ko_for_range.
  - destruct (arg_scenario args).
    + apply ko_bind with (q := Settled); [apply Hr | intros _; apply ko_ret].
    + apply ko_bind with (q := Settled); [apply Hl | intros _; apply ko_ret].
Qed.

(** A piece of script that keeps to the order and always ends accounts
    for its advances. *)
Lemma accounts_of_order {A : Type} (catching : bool) (c : M A) :
  keeps_order catching Settled Settled c -> never_diverges c ->
  accounts_for_advances catching c.
Proof.
  intros Hc Hnd w. destruct (Hc w) as (l & r & Hl & Hr & Hq). specialize (Hnd w).
  exists l, r. split; [exact Hl|]. split; [exact Hr|].
  destruct (fst (c w)) as [a | e |]; [left; now apply (Hq a) | right; now exists e|].
  contradiction.
Qed.

(** A refused request is the last effect of a script that accounts for
    its advances, or the warning of the auto-advance comes next. *)
Lemma refused_request_is_last {A : Type} (catching : bool) (c : M A) :
  accounts_for_advances catching c ->
  forall w l1 l2 id t,
    trace (snd (c w)) = l2 ++ Called (ClockAdvance id t) false :: l1 ++ trace w ->
    (l2 = [] /\ exists e, fst (c w) = Raise e)
    \/ (catching = true
        /\ exists l3 id' e, l2 = l3 ++ [Printed (WarnAutoAdvance id' e)]).
Proof.
  intros Hc w l1 l2 id t Ht. destruct (Hc w) as (l & r & Hl & Hr & Hend).
  assert (El : l = l2 ++ Called (ClockAdvance id t) false :: l1).
  { apply app_inv_tail with (l := trace w). rewrite <- Hl, Ht.
    now rewrite <- app_assoc. }
  subst l. rewrite standing_from_app in Hr. cbn [standing_from] in Hr.
  destruct (standing_from catching Settled l1) as [[| |] |]; try discriminate.
  cbn [standing_after] in Hr.
  destruct l2 as [|ev l2] using rev_ind.
  - left. split; [reflexivity|]. cbn [standing_from] in Hr.
    destruct Hend as [-> | Hend]; [discriminate | exact Hend].
  - right. rewrite standing_from_app in Hr. cbn [standing_from standing_after] in Hr.
    destruct ev as [? ? | | | []]; try discriminate.
    destruct catching; [|discriminate]. split; [reflexivity|]. now eexists _, _, _.
Qed.

(** *** The closing auto-advance *)

Lemma nr_scenario_auto_advance (env : Env) (tc_id : string) :
  never_raises (scenario_auto_advance env tc_id).
Proof.
  pose proof (nd_current_frozen_time env). pose proof (nd_advance_clock env).
  unfold scenario_auto_advance. apply nr_try_except; [nd_script|].
  intros e. apply nr_emit.
Qed.

(** An advance that fails in the auto-advance is logged, and the block
    returns. *)
Lemma auto_advance_catches (env : Env) (tc_id : string) (w w1 : World)
    (tc : ClockObj) (cur : Z) (e : exn) :
  clock_retrieve env (trace w) tc_id = Reply tc ->
  clk_frozen_time tc = Some cur ->
  advance_clock env tc_id (cur + 2 * 24 * 3600)
                (printed (MsgText "[Auto Advance]") (called (ClockRetrieve tc_id) true w))
  = (Raise e, w1) ->
  scenario_auto_advance env tc_id w = (Ok tt, printed (WarnAutoAdvance tc_id e) w1).
Proof.
  intros Hr Hf Ha. unfold scenario_auto_advance, try_except.
  assert (Hbody : (cur0 <- current_frozen_time env tc_id ;;
                   print (MsgText "[Auto Advance]") ;;
                   advance_clock env tc_id (cur0 + 2 * 24 * 3600)) w = (Raise e, w1)).
  { unfold current_frozen_time, TestClock_retrieve.
    erewrite bind_ok.
    2:{ erewrite bind_ok by (apply remote_reply; exact Hr). rewrite Hf. reflexivity. }
    step. exact Ha. }
  cbv zeta. rewrite Hbody. reflexivity.
Qed.

Lemma bind_with_closing {A : Type} (env : Env) (c : M A)
    (k1 k2 : A -> M ScenarioResult) (w : World) :
  (forall a w1, k1 a w1 = with_closing env (k2 a w1)) ->
  bind c k1 w = with_closing env (bind c k2 w).
Proof.
  intros H. unfold bind. destruct (c w) as [[a | e |] w1]; [apply H | reflexivity..].
Qed.

Lemma closing_runs (env : Env) (r : ScenarioResult) (w : World) :
  (scenario_auto_advance env (res_test_clock r) ;; ret r) w
  = with_closing env ((ret tt ;; ret r) w).
Proof.
  destruct (nr_scenario_auto_advance env (res_test_clock r) w) as [[] Hu].
  unfold bind, ret, with_closing.
  destruct (scenario_auto_advance env (res_test_clock r) w) as [o w1].
  cbn [fst snd] in *. now subst o.
Qed.

(** With the auto-advance a scenario does what it does without, and
    then, if it has not raised, the auto-advance. *)
Lemma run_linger_closing (env : Env) (email price_id : string)
    (paid_months total_months : Z) (w : World) :
  run_linger env email price_id paid_months total_months true w
  = with_closing env (run_linger env email price_id paid_months total_months false w).
Proof.
  unfold run_linger. cbv zeta.
  repeat (apply bind_with_closing; intros).
  apply (closing_runs env (mkResult _ _ _)).
Qed.

Lemma run_recover_closing (env : Env) (email price_id : string)
    (paid_months past_due_months total_months : Z) (w : World) :
  run_recover env email price_id paid_months past_due_months total_months true w
  = with_closing env
      (run_recover env email price_id paid_months past_due_months total_months false w).
Proof.
  unfold run_recover. cbv zeta.
  repeat (apply bind_with_closing; intros).
  apply (closing_runs env (mkResult _ _ _)).
Qed.

(** A raise in a later round leaves the loop as well. *)
Lemma for_range_raise_later (body : Z -> M loop_ctl) :
  forall j first n w0 w w' e,
    (j < n)%nat ->
    after_rounds body first j w0 w ->
    body (first + Z.of_nat j) w = (Raise e, w') ->
    for_range body first n w0 = (Raise e, w').
Proof.
  induction j as [|j IH]; intros first n w0 w w' e Hlt Hafter Hraise.
  - cbn [after_rounds] in Hafter. subst w.
    destruct n as [|n]; [lia|].
    replace (first + Z.of_nat 0) with first in Hraise by lia.
    now apply for_range_raise.
  - destruct Hafter as (w1 & Hround & Hafter).
    destruct n as [|n]; [lia|]. cbn [for_range].
    erewrite bind_ok by exact Hround. cbv iota.
    apply bind_raise.
    apply IH with (w := w); [lia | exact Hafter|].
    replace (first + 1 + Z.of_nat j) with (first + Z.of_nat (S j)) by lia.
    exact Hraise.
Qed.





(* ------------------------------------------------------------------ *)
(** ** ClockAdvancer: how an advance fails and how long it waits *)

Section Takes.

Context {A B : Type}.

Lemma takes_ret (a : A) : takes 0 (ret a).
Proof. intros w. cbn [ret snd]. lra. Qed.

Lemma takes_raise (e : exn) : takes 0 (@raise A e).
Proof. intros w. cbn [raise snd]. lra. Qed.

Lemma takes_lift (r : result A) : takes 0 (lift r).
Proof. destruct r; [apply takes_ret | apply takes_raise]. Qed.

Lemma takes_remote (req : Request) (answer : History -> reply A) :
  takes 0 (remote req answer).
Proof.
  intros w. unfold remote. destruct (answer (trace w)); cbn [snd now]; lra.
Qed.

Lemma takes_weaken (d d' : Q) (c : M A) : (d <= d')%Q -> takes d c -> takes d' c.
Proof. intros Hd Hc w. specialize (Hc w). lra. Qed.

Lemma takes_bind (d1 d2 : Q) (c : M A) (k : A -> M B) :
  (0 <= d2)%Q -> takes d1 c -> (forall a, takes d2 (k a)) -> takes (d1 + d2) (bind c k).
Proof.
  intros Hd Hc Hk w. unfold bind. specialize (Hc w).
  destruct (c w) as [[a | e |] w1]; cbn [snd] in *; try lra.
  specialize (Hk a w1). lra.
Qed.

Lemma takes_try_except (d1 d2 : Q) (c : M A) (h : exn -> M A) :
  (0 <= d2)%Q -> takes d1 c -> (forall e, takes d2 (h e)) ->
  takes (d1 + d2) (try_except c h).
Proof.
  intros Hd Hc Hh w. unfold try_except. specialize (Hc w).
  destruct (c w) as [[a | e |] w1]; cbn [snd] in *; try lra.
  specialize (Hh e w1). lra.
Qed.

End Takes.

Lemma takes_emit (ev : Event) : takes 0 (emit ev).
Proof. intros w. cbn [emit snd now]. lra. Qed.

Lemma takes_time_time : takes 0 time_time.
Proof. intros w. cbn [time_time snd]. lra. Qed.

Lemma takes_sleep (d : Q) : (0 <= d)%Q -> takes d (sleep d).
Proof. intros Hd w. cbn [sleep snd now]. lra. Qed.

Lemma takes_attempt {A : Type} (d : Q) (c : M A) : takes d c -> takes d (attempt c).
Proof.
  intros Hc w. unfold attempt, try_except, bind, ret. specialize (Hc w).
  destruct (c w) as [[a | e |] w1]; cbn [snd] in *; lra.
Qed.

Lemma effective_target_ge (cur : option Z) (frozen_time : Z) :
  frozen_time <= effective_target cur frozen_time.
Proof.
  unfold effective_target. destruct cur as [c |]; [|lia].
  destruct (frozen_time <=? c) eqn:E; lia.
Qed.

Lemma backoff_at_positive (n : nat) : (0 < backoff_at n)%Q.
Proof.
  induction n as [|n IH]; cbn [backoff_at]; [reflexivity|].
  unfold next_backoff, py_min. destruct (Qltb _ _); lra.
Qed.

Lemma backoff_sum_nonneg : forall n i, (0 <= backoff_sum i n)%Q.
Proof.
  induction n as [|n IH]; intros i; cbn [backoff_sum]; [lra|].
  pose proof (backoff_at_positive i). specialize (IH (S i)). lra.
Qed.

Section Waiting.

Variable env : Env.

Lemma read_current_time (clock_id : string) : takes 0 (read_current env clock_id).
Proof.
  intros w. rewrite read_current_run. cbn [snd called now]. lra.
Qed.

Lemma advance_attempts_time (clock_id : string) (frozen_time : Z) :
  forall n i w,
    (now w <= now (snd (advance_attempts env clock_id frozen_time n (backoff_at i) w)))%Q
    /\ (now (snd (advance_attempts env clock_id frozen_time n (backoff_at i) w))
         <= now w + backoff_sum i n)%Q
    /\ (fst (advance_attempts env clock_id frozen_time n (backoff_at i) w) = Ok true ->
         (now (snd (advance_attempts env clock_id frozen_time n (backoff_at i) w))
          <= now w + backoff_sum i (pred n))%Q).
Proof.
  induction n as [|n IH]; intros i w.
  - cbn [advance_attempts ret fst snd backoff_sum pred].
    repeat split; first [lra | discriminate].
  - pose proof (backoff_sum_nonneg (S n) i) as Hall.
    pose proof (backoff_sum_nonneg n i) as Hbut.
    cbn [advance_attempts pred]. unfold TestClock_advance.
    erewrite bind_ok by apply attempt_remote.
    destruct (clock_advance env (trace w) clock_id frozen_time) as [u | e];
      cbn [reply_result replied].
    + cbn [ret fst snd called now]. repeat split; lra.
    + step. change (next_backoff (backoff_at i)) with (backoff_at (S i)).
      set (w1 := mkWorld _ _ _).
      destruct (IH (S i) w1) as (Hlo & Hhi & Hok).
      assert (Hw1 : now w1 = (now w + backoff_at i)%Q) by reflexivity.
      pose proof (backoff_at_positive i) as Hpos.
      rewrite Hw1 in *. cbn [backoff_sum].
      split; [lra|]. split; [lra|].
      intros Htrue. specialize (Hok Htrue).
      destruct n as [|m]; [discriminate Htrue|].
      cbn [pred backoff_sum] in *. lra.
Qed.

Lemma poll_ready_time (clock_id : string) (frozen_time : Z) (start : Q) :
  forall n w,
    (now w <= now (snd (poll_ready env n clock_id frozen_time start w)))%Q
    /\ ((now w <= start + 61)%Q ->
         (now (snd (poll_ready env n clock_id frozen_time start w)) <= start + 61)%Q).
Proof.
  induction n as [|n IH]; intros w; [cbn [poll_ready diverge snd]; split; [lra | auto]|].
  cbn [poll_ready]. unfold TestClock_retrieve.
  erewrite bind_ok by apply attempt_remote.
  assert (Hagain : forall ok,
    let r := (t <- time_time ;;
              if Qltb (inject_Z poll_timeout) (t - start)
              then raise (TimeoutError clock_id poll_timeout (Some frozen_time) None)
              else sleep 1 ;; poll_ready env n clock_id frozen_time start)
               (called (ClockRetrieve clock_id) ok w) in
    (now w <= now (snd r))%Q
    /\ ((now w <= start + 61)%Q -> (now (snd r) <= start + 61)%Q)).
  { intros ok r. subst r. step. cbn [now called].
    destruct (Qltb (inject_Z poll_timeout) (now w - start)) eqn:Et.
    - cbn [raise snd called now]. split; [lra | auto].
    - step. apply Qltb_false in Et. change (inject_Z poll_timeout) with 60%Q in Et.
      set (w1 := mkWorld _ _ _).
      destruct (IH w1) as [Hlo Hhi].
      assert (Hw1 : now w1 = (now w + 1)%Q) by reflexivity.
      rewrite Hw1 in *. split; [lra|]. intros _. apply Hhi. lra. }
  destruct (clock_retrieve env (trace w) clock_id) as [tc2 | e];
    cbn [reply_result replied]; [|apply Hagain].
  destruct (poll_accepts tc2 frozen_time); [|apply Hagain].
  cbn [ret snd called now]. split; [lra | auto].
Qed.

Lemma advance_and_poll_time (clock_id : string) (frozen_time : Z) :
  takes (61 + backoff_sum 0 7) (advance_and_poll env clock_id frozen_time).
Proof.
  intros w. unfold advance_and_poll.
  change (Z.to_nat max_advance_attempts) with 8%nat.
  change initial_backoff with (backoff_at 0).
  destruct (advance_attempts_time clock_id frozen_time 8 0 w) as (Hlo & Hhi & Hok).
  destruct (advance_attempts_returns env clock_id frozen_time 8 (backoff_at 0) w)
    as [a Ha].
  destruct (advance_attempts env clock_id frozen_time 8 (backoff_at 0) w)
    as [o w1] eqn:E.
  cbn [fst snd] in *. subst o. erewrite bind_ok by exact E.
  destruct a; cbn [negb].
  - specialize (Hok eq_refl). cbn [pred] in Hok. step.
    destruct (poll_ready_time clock_id frozen_time (now w1)
                (poll_budget poll_timeout) w1) as [Hlo' Hhi'].
    split; [lra|]. assert (H : (now w1 <= now w1 + 61)%Q) by lra.
    specialize (Hhi' H). lra.
  - cbn [raise snd].
    assert (H : (backoff_sum 0 8 <= 61 + backoff_sum 0 7)%Q)
      by (apply Qle_bool_iff; vm_compute; reflexivity).
    lra.
Qed.

Lemma advance_test_clock_time (clock_id : string) (frozen_time : Z) :
  takes (61 + backoff_sum 0 7) (advance_test_clock env clock_id frozen_time).
Proof.
  unfold advance_test_clock.
  apply takes_weaken with (d := (0 + (61 + backoff_sum 0 7))%Q); [lra|].
  pose proof (backoff_sum_nonneg 7 0).
  apply takes_bind; [lra | apply read_current_time|].
  intros cur. apply advance_and_poll_time.
Qed.

Lemma wait_loop_time (test_clock_id : string) (timeout_sec : Z) (start : Q) :
  forall n w o w',
    wait_loop env n test_clock_id timeout_sec start w = (o, w') ->
    (now w <= now w')%Q
    /\ ((now w <= start + inject_Z (Z.max 0 (timeout_sec + 1)))%Q ->
         (now w' <= start + inject_Z (Z.max 0 (timeout_sec + 1)))%Q).
Proof.
  assert (Hb : (inject_Z timeout_sec + 1 <= inject_Z (Z.max 0 (timeout_sec + 1)))%Q).
  { change 1%Q with (inject_Z 1). rewrite <- inject_Z_plus, <- Zle_Qle. lia. }
  induction n as [|n IH]; intros w o w'.
  { cbn [wait_loop diverge]. intros [= <- <-]. split; [lra | auto]. }
  cbn [wait_loop]. unfold TestClock_retrieve, bind at 1, remote.
  destruct (clock_retrieve env (trace w) test_clock_id) as [tc | e];
    [|intros [= <- <-]; cbn [now]; split; [lra | auto]].
  fold (called (ClockRetrieve test_clock_id) true w).
  unfold bind at 1, dict_get.
  destruct (clk_has_get tc);
    [|cbn [lift raise]; intros [= <- <-]; cbn [called now]; split; [lra | auto]].
  cbn [lift ret].
  destruct (status_is (clk_status tc) "ready");
    [intros [= <- <-]; cbn [called now]; split; [lra | auto]|].
  step. cbn [now called].
  destruct (Qltb (inject_Z timeout_sec) (now w - start)) eqn:Et.
  - cbn [raise]. intros [= <- <-]. cbn [called now]. split; [lra | auto].
  - step. apply Qltb_false in Et. intros Hrun. apply IH in Hrun.
    cbn [now called] in Hrun. destruct Hrun as [Hlo Hhi].
    split; [lra|]. intros _. apply Hhi. lra.
Qed.

Lemma wait_until_time (test_clock_id : string) (timeout_sec : Z) :
  takes (inject_Z (Z.max 0 (timeout_sec + 1)))
        (wait_until_testclock_ready env test_clock_id timeout_sec).
Proof.
  intros w. unfold wait_until_testclock_ready. step.
  destruct (wait_loop env (poll_budget timeout_sec) test_clock_id timeout_sec (now w) w)
    as [o w'] eqn:E.
  apply wait_loop_time in E. destruct E as [Hlo Hhi]. cbn [snd].
  split; [exact Hlo|]. apply Hhi.
  assert (H : (0 <= inject_Z (Z.max 0 (timeout_sec + 1)))%Q).
  { change 0%Q with (inject_Z 0). rewrite <- Zle_Qle. lia. }
  lra.
Qed.

End Waiting.

Lemma takes_bind_l {A B : Type} (d : Q) (c : M A) (k : A -> M B) :
  (0 <= d)%Q -> takes 0 c -> (forall a, takes d (k a)) -> takes d (bind c k).
Proof.
  intros Hd Hc Hk. apply takes_weaken with (d := (0 + d)%Q); [lra|].
  now apply takes_bind.
Qed.

Lemma takes_bind_r {A B : Type} (d : Q) (c : M A) (k : A -> M B) :
  takes d c -> (forall a, takes 0 (k a)) -> takes d (bind c k).
Proof.
  intros Hc Hk. apply takes_weaken with (d := (d + 0)%Q); [lra|].
  apply takes_bind; [lra | exact Hc | exact Hk].
Qed.

Lemma advance_clock_time (env : Env) (test_clock_id : string) (new_frozen_time : Z) :
  takes 241 (advance_clock env test_clock_id new_frozen_time).
Proof.
  assert (Hpos : (0 <= 241)%Q) by lra.
  assert (Hwait : takes 241 (wait_until_testclock_ready env test_clock_id
                               default_wait_timeout)) by apply wait_until_time.
  unfold advance_clock, request_and_wait, announce_advance, confirm_advance,
    TestClock_retrieve, TestClock_advance.
  apply takes_bind_l; [exact Hpos | apply takes_remote|]. intros tc.
  apply takes_bind_l; [exact Hpos | apply takes_lift|]. intros cur.
  apply takes_bind_l; [exact Hpos | destruct (_ <=? _); [apply takes_emit | apply takes_ret]|].
  intros _.
  apply takes_bind_l; [exact Hpos| |].
  { apply takes_bind_l; [lra | apply takes_emit|]. intros _.
    apply takes_bind_l; [lra | apply takes_lift|]. intros _.
    apply takes_bind_l; [lra | apply takes_emit|]. intros _.
    apply takes_bind_l; [lra | apply takes_lift|]. intros _.
    apply takes_emit. }
  intros _.
  apply takes_bind_l; [exact Hpos | apply takes_remote|]. intros _.
  apply takes_bind_r; [exact Hwait|]. intros _.
  apply takes_bind_l; [lra | apply takes_remote|]. intros tc2.
  apply takes_bind_l; [lra | apply takes_lift|]. intros f2.
  apply takes_bind_l; [lra | apply takes_lift|]. intros _.
  apply takes_bind_l; [lra | apply takes_lift|]. intros s2.
  apply takes_emit.
Qed.

(** X1: whatever the platform does, [advance_test_clock] ends, and the
    only exceptions that leave it are its own: the RuntimeError of eight
    refused requests and the TimeoutError of the poll, which names a
    target at or after the requested time.  No error of the platform
    (a rate limit, a failed retrieve) gets out. *)
Theorem advance_test_clock_failures (env : Env) (clock_id : string) (frozen_time : Z) :
  never_diverges (advance_test_clock env clock_id frozen_time)
  /\ raises_only
       (fun e =>
          e = RuntimeError clock_id max_advance_attempts
          \/ exists target,
               frozen_time <= target
               /\ e = TimeoutError clock_id poll_timeout (Some target) None)
       (advance_test_clock env clock_id frozen_time).
Proof.
  split; [apply nd_advance_test_clock|].
  intros w e w' Hraise. rewrite advance_test_clock_run in Hraise.
  apply advance_and_poll_raises in Hraise. destruct Hraise as [-> | ->]; [now left|].
  right. eexists. split; [apply effective_target_ge | reflexivity].
Qed.

(** On a platform that throttles every advance the RuntimeError comes
    out; on one that never moves the clock, the TimeoutError. *)
Lemma advance_test_clock_failures_witness :
  fst (advance_test_clock (throttled 100) "clock_1" 200 world0)
  = Raise (RuntimeError "clock_1" 8)
  /\ fst (advance_test_clock (stale 100) "clock_1" 200 world0)
     = Raise (TimeoutError "clock_1" 60 (Some 200) None)
  /\ (RuntimeError "clock_1" 8 = RuntimeError "clock_1" max_advance_attempts
      \/ exists target,
           200 <= target
           /\ RuntimeError "clock_1" 8
              = TimeoutError "clock_1" poll_timeout (Some target) None).
Proof.
  split; [vm_compute; reflexivity|]. split; [vm_compute; reflexivity|].
  refine (proj2 (@advance_test_clock_failures (throttled 100) "clock_1" 200)
                world0 _ (snd (advance_test_clock (throttled 100) "clock_1" 200 world0)) _).
  vm_compute. reflexivity.
Defined.

(** X2: [advance_test_clock] sleeps for at most 61 seconds of polling on
    top of the backoffs of seven refused requests, 76.390625 seconds in
    all, whatever the platform does. *)
Theorem advance_test_clock_waiting_time (env : Env) (clock_id : string) (frozen_time : Z) :
  takes (61 + backoff_sum 0 7) (advance_test_clock env clock_id frozen_time)
  /\ (61 + backoff_sum 0 7 == 4889 # 64)%Q.
Proof.
  split; [apply advance_test_clock_time|].
  apply Qeq_bool_iff. vm_compute. reflexivity.
Qed.

(** X3: [wait_until_testclock_ready] sleeps for at most [timeout_sec + 1]
    seconds (not at all when the timeout is negative), so an
    [advance_clock], which waits with the default of 240, sleeps for at
    most 241 seconds. *)
Theorem wait_until_ready_waiting_time (env : Env) (test_clock_id : string)
    (timeout_sec new_frozen_time : Z) :
  takes (inject_Z (Z.max 0 (timeout_sec + 1)))
        (wait_until_testclock_ready env test_clock_id timeout_sec)
  /\ takes 241 (advance_clock env test_clock_id new_frozen_time).
Proof. split; [apply wait_until_time | apply advance_clock_time]. Qed.

(** X4: [advance_clock] reads the frozen time with [tc["frozen_time"]]: a
    clock reply without that field raises KeyError, and a retrieve that
    fails raises its error, in both cases before any advance is
    requested. *)
Theorem advance_clock_needs_frozen_time (env : Env) (test_clock_id : string)
    (new_frozen_time : Z) (w : World) :
  (forall tc,
      clock_retrieve env (trace w) test_clock_id = Reply tc ->
      clk_frozen_time tc = None ->
      advance_clock env test_clock_id new_frozen_time w
      = (Raise (KeyError "frozen_time"), called (ClockRetrieve test_clock_id) true w))
  /\ (forall e,
        clock_retrieve env (trace w) test_clock_id = Error e ->
        advance_clock env test_clock_id new_frozen_time w
        = (Raise e, called (ClockRetrieve test_clock_id) false w)).
Proof.
  split.
  - intros tc Hr Hf. unfold advance_clock, TestClock_retrieve.
    erewrite bind_ok by (apply remote_reply; exact Hr).
    rewrite Hf. reflexivity.
  - intros e Hr. unfold advance_clock, TestClock_retrieve.
    apply bind_raise. now apply remote_error.
Qed.

Lemma advance_clock_needs_frozen_time_witness :
  advance_clock timeless "clock_1" 200 world0
  = (Raise (KeyError "frozen_time"), called (ClockRetrieve "clock_1") true world0)
  /\ advance_clock silent "clock_1" 200 world0
     = (Raise StripeError, called (ClockRetrieve "clock_1") false world0).
Proof.
  destruct (@advance_clock_needs_frozen_time timeless "clock_1" 200 world0) as [Hkey _].
  destruct (@advance_clock_needs_frozen_time silent "clock_1" 200 world0) as [_ Herr].
  split.
  - apply (Hkey (mkClock "clock_1" true None (Some "ready"))); reflexivity.
  - apply Herr. reflexivity.
Defined.

(* ------------------------------------------------------------------ *)
(** ** [cancel_subscription_retry] *)

Lemma count_events_app (p : Event -> bool) (l1 l2 : History) :
  count_events p (l1 ++ l2) = (count_events p l1 + count_events p l2)%nat.
Proof. unfold count_events. now rewrite filter_app, length_app. Qed.

Section Cancelling.

Variable env : Env.
Variable sub_id : string.

Lemma cancel_attempts_outcome :
  forall n backoff w,
  exists b w' l,
    cancel_attempts env sub_id n backoff w = (Ok b, w')
    /\ trace w' = l ++ trace w
    /\ (count_events is_delete_request l <= n)%nat
    /\ (count_events is_period_end_request l <= count_events is_delete_request l)%nat
    /\ (b = true ->
        exists r l', l = Called r true :: l' /\ cancels sub_id r /\ Forall refused l')
    /\ (b = false ->
        Forall refused l /\ count_events is_delete_request l = n).
Proof.
  induction n as [|n IH]; intros backoff w.
  { exists false, w, []. repeat split; try reflexivity; try constructor; discriminate. }
  cbn [cancel_attempts]. unfold Subscription_delete.
  erewrite bind_ok by apply attempt_remote.
  assert (Hretry : forall pre : History,
    Forall refused pre ->
    (count_events is_period_end_request pre <= 1)%nat ->
    (count_events is_delete_request pre = 0)%nat ->
    forall w1, trace w1 = pre ++ Called (SubscriptionDelete sub_id) false :: trace w ->
    exists b w' l,
      (sleep backoff ;; cancel_attempts env sub_id n (py_min (backoff * (3 # 2)) 2)) w1
      = (Ok b, w')
      /\ trace w' = l ++ trace w
      /\ (count_events is_delete_request l <= S n)%nat
      /\ (count_events is_period_end_request l <= count_events is_delete_request l)%nat
      /\ (b = true ->
          exists r l', l = Called r true :: l' /\ cancels sub_id r /\ Forall refused l')
      /\ (b = false ->
          Forall refused l /\ count_events is_delete_request l = S n)).
  { intros pre Hpre Hpe Hdel w1 Hw1. step.
    set (w2 := mkWorld _ _ _).
    destruct (IH (py_min (backoff * (3 # 2)) 2) w2) as (b & w' & l & Hrun & Ht & Hd & Hp & Hyes & Hno).
    set (tail := Slept backoff :: pre ++ [Called (SubscriptionDelete sub_id) false]).
    assert (Htail : Forall refused tail).
    { constructor; [exact I|]. apply Forall_app. split; [exact Hpre|].
      now constructor. }
    assert (Hdt : count_events is_delete_request tail = 1%nat).
    { unfold tail. change (Slept backoff :: ?x) with ([Slept backoff] ++ x).
      rewrite !count_events_app, Hdel. reflexivity. }
    assert (Hpt : (count_events is_period_end_request tail <= 1)%nat).
    { unfold tail. change (Slept backoff :: ?x) with ([Slept backoff] ++ x).
      rewrite !count_events_app. cbn. cbn in Hpe. lia. }
    exists b, w', (l ++ tail). split; [exact Hrun|]. split.
    { rewrite Ht. subst w2 tail. cbn [trace]. rewrite Hw1.
      rewrite <- !app_assoc. cbn [app]. now rewrite <- app_assoc. }
    rewrite !count_events_app, Hdt.
    split; [lia|]. split; [lia|]. split.
    - intros Hb. destruct (Hyes Hb) as (r & l' & -> & Hr & Hl').
      exists r, (l' ++ tail). split; [reflexivity|]. split; [exact Hr|].
      apply Forall_app. now split.
    - intros Hb. destruct (Hno Hb) as [Hl Hn]. split; [|lia].
      apply Forall_app. now split. }
  destruct (subscription_delete env (trace w) sub_id) as [u | e];
    cbn [reply_result replied].
  { exists true, (called (SubscriptionDelete sub_id) true w),
      [Called (SubscriptionDelete sub_id) true].
    split; [reflexivity|]. split; [reflexivity|]. split; [cbn; lia|].
    split; [cbn; lia|]. split; [|discriminate].
    intros _. exists (SubscriptionDelete sub_id), []. repeat split.
    - now left.
    - constructor. }
  assert (Hthrottled :
    exists b w' l,
      (sleep backoff ;; cancel_attempts env sub_id n (py_min (backoff * (3 # 2)) 2))
        (called (SubscriptionDelete sub_id) false w) = (Ok b, w')
      /\ trace w' = l ++ trace w
      /\ (count_events is_delete_request l <= S n)%nat
      /\ (count_events is_period_end_request l <= count_events is_delete_request l)%nat
      /\ (b = true ->
          exists r l', l = Called r true :: l' /\ cancels sub_id r /\ Forall refused l')
      /\ (b = false ->
          Forall refused l /\ count_events is_delete_request l = S n)).
  { apply (Hretry []); [constructor | cbn; lia | reflexivity | reflexivity]. }
  assert (Hother :
    exists b w' l,
      (r2 <- attempt (Subscription_cancel_at_period_end env sub_id) ;;
       match r2 with
       | Val _ => ret true
       | Exc _ => sleep backoff ;;
                  cancel_attempts env sub_id n (py_min (backoff * (3 # 2)) 2)
       end) (called (SubscriptionDelete sub_id) false w) = (Ok b, w')
      /\ trace w' = l ++ trace w
      /\ (count_events is_delete_request l <= S n)%nat
      /\ (count_events is_period_end_request l <= count_events is_delete_request l)%nat
      /\ (b = true ->
          exists r l', l = Called r true :: l' /\ cancels sub_id r /\ Forall refused l')
      /\ (b = false ->
          Forall refused l /\ count_events is_delete_request l = S n)).
  { unfold Subscription_cancel_at_period_end.
    erewrite bind_ok by apply attempt_remote.
    destruct (subscription_cancel_at_period_end env
                (trace (called (SubscriptionDelete sub_id) false w)) sub_id) as [u | e2];
      cbn [reply_result replied].
    - eexists true, _, [Called (SubscriptionCancelAtPeriodEnd sub_id) true;
                        Called (SubscriptionDelete sub_id) false].
      split; [reflexivity|]. split; [reflexivity|]. split; [cbn; lia|].
      split; [cbn; lia|]. split; [|discriminate].
      intros _. exists (SubscriptionCancelAtPeriodEnd sub_id),
                  [Called (SubscriptionDelete sub_id) false].
      repeat split; [now right | now repeat constructor].
    - apply (Hretry [Called (SubscriptionCancelAtPeriodEnd sub_id) false]);
        [now repeat constructor | cbn; lia | reflexivity | reflexivity]. }
  destruct e; first [exact Hthrottled | exact Hother].
Qed.

Lemma cancel_attempts_time :
  forall n backoff,
    (0 <= backoff)%Q -> (backoff <= 2)%Q ->
    takes (2 * inject_Z (Z.of_nat n)) (cancel_attempts env sub_id n backoff).
Proof.
  induction n as [|n IH]; intros backoff Hlo Hhi; [apply takes_ret|].
  pose proof (inject_Z_succ n) as Hs.
  assert (Hn : (0 <= inject_Z (Z.of_nat n))%Q).
  { change 0%Q with (inject_Z 0). rewrite <- Zle_Qle. lia. }
  assert (Hnext : (0 <= py_min (backoff * (3 # 2)) 2)%Q
                  /\ (py_min (backoff * (3 # 2)) 2 <= 2)%Q).
  { unfold py_min. destruct (Qltb 2 (backoff * (3 # 2))) eqn:E; [lra|].
    apply Qltb_false in E. lra. }
  assert (Hretry : takes (2 * inject_Z (Z.of_nat (S n)))
            (sleep backoff ;;
             cancel_attempts env sub_id n (py_min (backoff * (3 # 2)) 2))).
  { apply takes_weaken with (d := (backoff + 2 * inject_Z (Z.of_nat n))%Q); [lra|].
    apply takes_bind; [lra | now apply takes_sleep|].
    intros _. now apply IH. }
  cbn [cancel_attempts]. unfold Subscription_delete, Subscription_cancel_at_period_end.
  apply takes_bind_l; [lra | apply takes_attempt, takes_remote|].
  intros [u | e]; [apply takes_weaken with (d := 0%Q); [lra | apply takes_ret]|].
  assert (Hother : takes (2 * inject_Z (Z.of_nat (S n)))
            (r2 <- attempt (remote (SubscriptionCancelAtPeriodEnd sub_id)
                              (fun h => subscription_cancel_at_period_end env h sub_id)) ;;
             match r2 with
             | Val _ => ret true
             | Exc _ => sleep backoff ;;
                        cancel_attempts env sub_id n (py_min (backoff * (3 # 2)) 2)
             end)).
  { apply takes_bind_l; [lra | apply takes_attempt, takes_remote|].
    intros [u | e2]; [apply takes_weaken with (d := 0%Q); [lra | apply takes_ret]|].
    exact Hretry. }
  destruct e; first [exact Hretry | exact Hother].
Qed.

Lemma cancel_attempts_throttled :
  (forall h e, subscription_delete env h sub_id = Error e -> e = RateLimitError) ->
  forall n backoff,
    emits (fun ev => is_period_end_request ev = false)
          (cancel_attempts env sub_id n backoff).
Proof.
  intros Hthrottle. induction n as [|n IH]; intros backoff; [apply em_ret|].
  intros w. cbn [cancel_attempts]. unfold Subscription_delete.
  erewrite bind_ok by apply attempt_remote.
  destruct (subscription_delete env (trace w) sub_id) as [u | e] eqn:Ed;
    cbn [reply_result replied].
  - exists [Called (SubscriptionDelete sub_id) true].
    split; [reflexivity | now constructor].
  - apply Hthrottle in Ed. subst e. step.
    set (w2 := mkWorld _ _ _).
    destruct (IH (py_min (backoff * (3 # 2)) 2) w2) as (l & Hl & Pl).
    exists (l ++ [Slept backoff; Called (SubscriptionDelete sub_id) false]).
    split; [rewrite Hl; subst w2; cbn [trace called]; now rewrite <- app_assoc|].
    apply Forall_app. split; [exact Pl | now repeat constructor].
Qed.

End Cancelling.

(** X5: [cancel_subscription_retry] never raises.  It returns True
    exactly when its last request, a delete or a cancellation at the end
    of the period, was accepted, every request before it having been
    refused; it returns False after [max_retries] refused deletes (none
    when [max_retries <= 0]) with nothing accepted.  It sends at most
    [max_retries] deletes, and a cancellation at the end of the period
    only after a refused delete. *)
Theorem cancel_subscription_retry_outcome (env : Env) (sub_id : string)
    (max_retries : Z) (w : World) :
  exists b w' l,
    cancel_subscription_retry env sub_id max_retries w = (Ok b, w')
    /\ trace w' = l ++ trace w
    /\ (count_events is_delete_request l <= Z.to_nat max_retries)%nat
    /\ (count_events is_period_end_request l <= count_events is_delete_request l)%nat
    /\ (b = true ->
        exists r l', l = Called r true :: l' /\ cancels sub_id r /\ Forall refused l')
    /\ (b = false ->
        Forall refused l
        /\ count_events is_delete_request l = Z.to_nat max_retries).
Proof. apply cancel_attempts_outcome. Qed.

(** The two ways to True, and the way to False. *)
Lemma cancel_subscription_retry_outcome_witness :
  fst (cancel_subscription_retry undeletable "sub_1" 20 world0) = Ok true
  /\ trace (snd (cancel_subscription_retry undeletable "sub_1" 20 world0))
     = [Called (SubscriptionCancelAtPeriodEnd "sub_1") true;
        Called (SubscriptionDelete "sub_1") false]
  /\ fst (cancel_subscription_retry silent "sub_1" 3 world0) = Ok false
  /\ exists b w' l,
       cancel_subscription_retry silent "sub_1" 3 world0 = (Ok b, w')
       /\ trace w' = l ++ trace world0
       /\ (count_events is_delete_request l <= 3)%nat
       /\ (count_events is_period_end_request l <= count_events is_delete_request l)%nat
       /\ (b = true ->
           exists r l', l = Called r true :: l' /\ cancels "sub_1" r /\ Forall refused l')
       /\ (b = false -> Forall refused l /\ count_events is_delete_request l = 3%nat).
Proof.
  split; [reflexivity|]. split; [reflexivity|]. split; [reflexivity|].
  exact (@cancel_subscription_retry_outcome silent "sub_1" 3 world0).
Defined.

(** X6: [cancel_subscription_retry] sleeps at most 2 seconds after a
    refused attempt, so at most [2 * max_retries] seconds in all; and a
    throttled delete is retried as a delete: on a platform whose delete
    fails with RateLimitError only, the cancellation at the end of the
    period is never requested. *)
Theorem cancel_subscription_retry_waits (env : Env) (sub_id : string) (max_retries : Z) :
  takes (2 * inject_Z (Z.of_nat (Z.to_nat max_retries)))
        (cancel_subscription_retry env sub_id max_retries)
  /\ ((forall h e, subscription_delete env h sub_id = Error e -> e = RateLimitError) ->
      emits (fun ev => is_period_end_request ev = false)
            (cancel_subscription_retry env sub_id max_retries)).
Proof.
  split.
  - apply cancel_attempts_time; lra.
  - intros H. now apply cancel_attempts_throttled.
Qed.

Lemma cancel_subscription_retry_waits_witness :
  (forall h e, subscription_delete rate_limited h "sub_1" = Error e -> e = RateLimitError)
  /\ emits (fun ev => is_period_end_request ev = false)
           (cancel_subscription_retry rate_limited "sub_1" 20)
  /\ fst (cancel_subscription_retry rate_limited "sub_1" 20 world0) = Ok false
  /\ count_events is_delete_request
       (trace (snd (cancel_subscription_retry rate_limited "sub_1" 20 world0))) = 20%nat.
Proof.
  assert (H : forall h e,
             subscription_delete rate_limited h "sub_1" = Error e -> e = RateLimitError)
    by (intros h e [= <-]; reflexivity).
  split; [exact H|].
  split; [exact (proj2 (@cancel_subscription_retry_waits rate_limited "sub_1" 20) H)|].
  split; vm_compute; reflexivity.
Defined.

(* ------------------------------------------------------------------ *)
(** ** InvoiceReconciler: the passes *)

Lemma costs_for_each {A S : Type} (p : Event -> bool) (body : A -> S -> M S) :
  (forall x acc, costs p 0 (body x acc)) ->
  forall xs acc, costs p 0 (for_each body xs acc).
Proof.
  intros Hb xs. induction xs as [|x rest IH]; intros acc; cbn [for_each].
  - apply costs_ret.
  - apply costs_bind_l; [apply Hb | intros acc'; apply IH].
Qed.

Section Passes.

Variable env : Env.
Variable customer : string.

Lemma lists_settle_invoice (inv : InvoiceObj) (anything : bool) :
  costs is_invoice_list 0 (settle_invoice env inv anything).
Proof.
  unfold settle_invoice, finalize_if_draft, recheck_status, pay_if_still_open,
    Invoice_finalize_invoice, Invoice_retrieve, Invoice_pay.
  costs_script.
Qed.

Lemma lists_settle_passes :
  forall n, costs is_invoice_list n (settle_passes env n customer).
Proof.
  induction n as [|n IH]; cbn [settle_passes]; [apply costs_ret|].
  change (S n) with (1 + n)%nat. unfold Invoice_list.
  apply costs_bind; [apply costs_attempt, costs_remote_one|].
  intros [invoices | e]; [|apply costs_zero, costs_raise].
  apply costs_bind_l; [apply costs_for_each, lists_settle_invoice|].
  intros anything. destruct (negb anything); [apply costs_zero, costs_ret|].
  apply costs_bind_l; [apply costs_sleep; reflexivity | intros _; exact IH].
Qed.

Lemma failed_list_ends_passes (n : nat) (w : World) (e : exn) :
  invoice_list env (trace w) customer = Error e ->
  try_except (settle_passes env (S n) customer) (fun _ => ret tt) w
  = (Ok tt, called (InvoiceList customer) false w).
Proof.
  intros Hl. unfold try_except. cbn [settle_passes]. unfold Invoice_list.
  erewrite bind_ok by apply attempt_remote. cbv beta. now rewrite Hl.
Qed.

Lemma empty_list_ends_passes (n : nat) (w : World) :
  invoice_list env (trace w) customer = Reply [] ->
  try_except (settle_passes env (S n) customer) (fun _ => ret tt) w
  = (Ok tt, called (InvoiceList customer) true w).
Proof.
  intros Hl. unfold try_except. cbn [settle_passes]. unfold Invoice_list.
  erewrite bind_ok by apply attempt_remote. cbv beta. now rewrite Hl.
Qed.

Section NothingGoesThrough.

Hypothesis no_finalize : forall h id, replied (invoice_finalize env h id) = false.
Hypothesis no_pay : forall h id, replied (invoice_pay env h id) = false.

Lemma settle_invoice_refused (inv : InvoiceObj) (anything : bool) :
  returns (fun b => b = anything) (settle_invoice env inv anything).
Proof.
  unfold settle_invoice.
  eapply returns_bind with (Q := fun b => b = anything).
  { unfold finalize_if_draft. destruct (status_is _ "draft"); [|now apply returns_ret].
    intros w. unfold try_except, bind, Invoice_finalize_invoice, remote.
    pose proof (no_finalize (trace w) (inv_id inv)) as H.
    destruct (invoice_finalize env (trace w) (inv_id inv)); [discriminate H|].
    now eexists _, _. }
  intros b ->.
  eapply returns_bind with (Q := fun _ => True).
  { intros w. unfold recheck_status, try_except, bind, Invoice_retrieve, remote.
    destruct (invoice_retrieve env (trace w) (inv_id inv)); now eexists _, _. }
  intros st2 _. unfold pay_if_still_open.
  destruct (open_or_draft st2); [|now apply returns_ret].
  intros w. unfold try_except, bind, Invoice_pay, remote.
  pose proof (no_pay (trace w) (inv_id inv)) as H.
  destruct (invoice_pay env (trace w) (inv_id inv)); [discriminate H|].
  now eexists _, _.
Qed.

Lemma settle_all_refused (invoices : list InvoiceObj) :
  forall anything,
    returns (fun b => b = anything) (for_each (settle_invoice env) invoices anything).
Proof.
  induction invoices as [|inv rest IH]; intros anything; cbn [for_each].
  - now apply returns_ret.
  - eapply returns_bind; [apply settle_invoice_refused|]. intros b ->. apply IH.
Qed.

Lemma one_pass_if_refused (n : nat) :
  costs is_invoice_list 1 (settle_passes env (S n) customer).
Proof.
  intros w. cbn [settle_passes]. unfold Invoice_list.
  erewrite bind_ok by apply attempt_remote.
  destruct (invoice_list env (trace w) customer) as [invoices | e];
    cbv beta iota delta [reply_result replied].
  2: { cbn [raise snd called trace]. unfold count_events. cbn. lia. }
  destruct (settle_all_refused invoices false (called (InvoiceList customer) true w))
    as (b & w' & E & ->).
  pose proof (@costs_for_each _ _ is_invoice_list (settle_invoice env)
                lists_settle_invoice invoices false
                (called (InvoiceList customer) true w)) as Hc.
  rewrite E in Hc. cbn [snd] in Hc.
  erewrite bind_ok by exact E. cbn [negb ret snd].
  change (count_events is_invoice_list (trace (called (InvoiceList customer) true w)))
    with (S (count_events is_invoice_list (trace w))) in Hc.
  lia.
Qed.

End NothingGoesThrough.

End Passes.

(** X7: the finalize-and-pay reconciliation lists the customer's
    invoices at most three times; when the listing fails it ends at once,
    without a further pass and without raising (the fallback
    [invoices = []] cannot be iterated, and the error of that is
    swallowed); an empty listing ends it after one pass. *)
Theorem reconciliation_passes_bounded (env : Env) (customer : string) :
  costs is_invoice_list 3 (finalize_and_pay_pending env customer)
  /\ (forall w e,
        invoice_list env (trace w) customer = Error e ->
        finalize_and_pay_pending env customer w
        = (Ok tt, called (InvoiceList customer) false w))
  /\ (forall w,
        invoice_list env (trace w) customer = Reply [] ->
        finalize_and_pay_pending env customer w
        = (Ok tt, called (InvoiceList customer) true w)).
Proof.
  split; [|split].
  - unfold finalize_and_pay_pending.
    apply costs_try_r; [apply lists_settle_passes | intros e; apply costs_ret].
  - intros w e H. now apply failed_list_ends_passes with (e := e).
  - intros w H. now apply empty_list_ends_passes.
Qed.

Lemma reconciliation_passes_bounded_witness :
  finalize_and_pay_pending silent "cus_1" world0
  = (Ok tt, called (InvoiceList "cus_1") false world0)
  /\ count_events is_invoice_list
       (trace (snd (finalize_and_pay_pending settling "cus_1" world0))) = 2%nat.
Proof.
  split; [|vm_compute; reflexivity].
  apply (proj1 (proj2 (@reconciliation_passes_bounded silent "cus_1")) world0 StripeError).
  reflexivity.
Defined.

(** X8: a pass in which nothing is finalized and nothing is paid is the
    last one: on a platform that refuses every finalize and every payment
    the reconciliation lists the invoices once and stops. *)
Theorem reconciliation_stops_when_nothing_goes_through (env : Env) (customer : string) :
  (forall h id, replied (invoice_finalize env h id) = false) ->
  (forall h id, replied (invoice_pay env h id) = false) ->
  costs is_invoice_list 1 (finalize_and_pay_pending env customer)
  /\ forall invoices,
       returns (fun anything => anything = false)
               (for_each (settle_invoice env) invoices false).
Proof.
  intros Hf Hp. split.
  - unfold finalize_and_pay_pending.
    apply costs_try_r; [now apply one_pass_if_refused | intros e; apply costs_ret].
  - intros invoices. now apply settle_all_refused.
Qed.

Lemma reconciliation_stops_when_nothing_goes_through_witness :
  (forall h id, replied (invoice_finalize refusing h id) = false)
  /\ (forall h id, replied (invoice_pay refusing h id) = false)
  /\ costs is_invoice_list 1 (finalize_and_pay_pending refusing "cus_1")
  /\ count_events is_invoice_list
       (trace (snd (finalize_and_pay_pending refusing "cus_1" world0))) = 1%nat
  /\ pay_requests (trace (snd (finalize_and_pay_pending refusing "cus_1" world0)))
     = ["in_1"; "in_2"].
Proof.
  split; [reflexivity|]. split; [reflexivity|].
  split; [|split; vm_compute; reflexivity].
  apply (@reconciliation_stops_when_nothing_goes_through refusing "cus_1"); reflexivity.
Defined.

Section MonthlyPayments.

Variable env : Env.

Lemma pay_requests_pay (id : string) (ok : bool) (w : World) :
  pay_requests (trace (called (InvoicePay id) ok w)) = pay_requests (trace w) ++ [id].
Proof. reflexivity. Qed.

Lemma monthly_active_pays (invoices : list InvoiceObj) :
  Forall (fun inv => is_some (inv_status inv) = true) invoices ->
  forall w, exists w',
    for_each (pay_if_open_active env) invoices tt w = (Ok tt, w')
    /\ pay_requests (trace w')
       = pay_requests (trace w) ++ map inv_id (filter due invoices).
Proof.
  induction 1 as [|inv rest Hst _ IH]; intros w; cbn [for_each filter map].
  - exists w. now rewrite app_nil_r.
  - apply is_some_inv in Hst. destruct Hst as [st Hst].
    assert (Hstep : exists w1,
              pay_if_open_active env inv tt w = (Ok tt, w1)
              /\ pay_requests (trace w1)
                 = pay_requests (trace w) ++ (if due inv then [inv_id inv] else [])).
    { unfold pay_if_open_active, due. rewrite Hst. cbn [attribute lift]. step.
      destruct (open_or_draft (Some st)); [|exists w; now rewrite app_nil_r].
      unfold try_except, bind, Invoice_pay, remote.
      destruct (invoice_pay env (trace w) (inv_id inv)); eexists; split;
        reflexivity. }
    destruct Hstep as (w1 & E1 & H1). destruct (IH w1) as (w' & E' & H').
    exists w'. split; [erewrite bind_ok by exact E1; exact E'|].
    rewrite H', H1, <- app_assoc. now destruct (due inv).
Qed.

Lemma monthly_canceled_pays (invoices : list InvoiceObj) :
  Forall (fun inv => is_some (inv_status inv) = true) invoices ->
  forall w, exists w',
    for_each (pay_if_open_canceled env) invoices tt w = (Ok tt, w')
    /\ pay_requests (trace w')
       = pay_requests (trace w) ++ map inv_id (filter due invoices).
Proof.
  induction 1 as [|inv rest Hst _ IH]; intros w; cbn [for_each filter map].
  - exists w. now rewrite app_nil_r.
  - apply is_some_inv in Hst. destruct Hst as [st Hst].
    assert (Hstep : exists w1,
              pay_if_open_canceled env inv tt w = (Ok tt, w1)
              /\ pay_requests (trace w1)
                 = pay_requests (trace w) ++ (if due inv then [inv_id inv] else [])).
    { unfold pay_if_open_canceled, due. rewrite Hst. cbn [attribute lift]. step.
      destruct (open_or_draft (Some st)); [|exists w; now rewrite app_nil_r].
      unfold try_except, bind, Invoice_pay, remote.
      destruct (invoice_pay env (trace w) (inv_id inv)); eexists; split;
        reflexivity. }
    destruct Hstep as (w1 & E1 & H1). destruct (IH w1) as (w' & E' & H').
    exists w'. split; [erewrite bind_ok by exact E1; exact E'|].
    rewrite H', H1, <- app_assoc. now destruct (due inv).
Qed.

End MonthlyPayments.

(** X9: a monthly pass of [generate_date.main] asks the platform to pay
    each listed invoice whose status is open or draft, once, in the order
    of the listing, and no other invoice; this holds for the pass of the
    active flow and for the pass of the canceled flow, whether the
    payments go through or not. *)
Theorem monthly_pass_pays_due_invoices (env : Env) (customer : string)
    (invoices : list InvoiceObj) (w : World) :
  invoice_list env (trace w) customer = Reply invoices ->
  Forall (fun inv => is_some (inv_status inv) = true) invoices ->
  pay_requests (trace (snd (monthly_reconcile_active env customer w)))
  = pay_requests (trace w) ++ map inv_id (filter due invoices)
  /\ pay_requests (trace (snd (monthly_reconcile_canceled env customer w)))
     = pay_requests (trace w) ++ map inv_id (filter due invoices).
Proof.
  intros Hl Hst. split.
  - unfold monthly_reconcile_active, try_except, Invoice_list.
    erewrite bind_ok by (apply remote_reply; exact Hl).
    destruct (monthly_active_pays env Hst (called (InvoiceList customer) true w))
      as (w' & E & H).
    rewrite E. exact H.
  - unfold monthly_reconcile_canceled, try_except, Invoice_list.
    erewrite bind_ok by (apply remote_reply; exact Hl).
    destruct (monthly_canceled_pays env Hst (called (InvoiceList customer) true w))
      as (w' & E & H).
    rewrite E. exact H.
Qed.

Lemma monthly_pass_pays_due_invoices_witness :
  invoice_list settling (trace world0) "cus_1"
  = Reply [paid_invoice "in_1"; open_invoice "in_2" None]
  /\ Forall (fun inv => is_some (inv_status inv) = true)
            [paid_invoice "in_1"; open_invoice "in_2" None]
  /\ pay_requests (trace (snd (monthly_reconcile_active settling "cus_1" world0)))
     = ["in_2"]
  /\ pay_requests (trace (snd (monthly_reconcile_canceled settling "cus_1" world0)))
     = ["in_2"].
Proof.
  assert (Hl : invoice_list settling (trace world0) "cus_1"
               = Reply [paid_invoice "in_1"; open_invoice "in_2" None]) by reflexivity.
  assert (Hst : Forall (fun inv => is_some (inv_status inv) = true)
                  [paid_invoice "in_1"; open_invoice "in_2" None])
    by (repeat constructor).
  split; [exact Hl|]. split; [exact Hst|].
  exact (@monthly_pass_pays_due_invoices settling "cus_1" _ world0 Hl Hst).
Defined.

(* ------------------------------------------------------------------ *)
(** ** The customer flows of [generate_date.main] *)

Lemma never_raises_returns {A : Type} (c : M A) :
  never_raises c -> returns (fun _ => True) c.
Proof.
  intros H w. destruct (H w) as [a Ha].
  destruct (c w) as [o w'] eqn:E. cbn [fst] in Ha. subst o. now exists a, w'.
Qed.

Lemma emits_costs_zero {A : Type} (p : Event -> bool) (c : M A) :
  emits (fun ev => p ev = false) c -> costs p 0 c.
Proof.
  intros H w. destruct (H w) as (l & Hl & Pl). rewrite Hl, count_events_app.
  assert (E : count_events p l = 0%nat).
  { clear Hl. unfold count_events. induction Pl as [|ev l Hev _ IH]; [reflexivity|].
    cbn [filter]. now rewrite Hev. }
  lia.
Qed.

Lemma rounds_until_cancel (cancel_after : Z) :
  forall count first,
    0 <= first < cancel_after ->
    rounds_until (cancels_in cancel_after) first count
    = Nat.min (Z.to_nat (cancel_after - first)) count.
Proof.
  induction count as [|n IH]; intros first Hf; cbn [rounds_until]; [lia|].
  unfold cancels_in at 1. destruct (first + 1 >=? cancel_after) eqn:E.
  - replace (cancel_after - first) with 1 by lia. reflexivity.
  - rewrite IH by lia.
    replace (Z.to_nat (cancel_after - first))
      with (S (Z.to_nat (cancel_after - (first + 1)))) by lia.
    reflexivity.
Qed.

Section LoopUntil.

Variable body : Z -> M loop_ctl.
Variable stop : Z -> bool.
Hypothesis control :
  forall i, returns (fun c => c = if stop i then Break else Continue) (body i).

Lemma for_range_until :
  forall count first,
    returns (fun k => k = rounds_until stop first count) (for_range body first count).
Proof.
  induction count as [|n IH]; intros first; cbn [for_range rounds_until].
  - now apply returns_ret.
  - eapply returns_bind; [apply control|]. intros c ->.
    destruct (stop first); [now apply returns_ret|].
    eapply returns_bind; [apply IH|]. intros k ->. now apply returns_ret.
Qed.

(** What only the last round does is done once. *)
Lemma costs_for_range_until (p : Event -> bool) (n : nat) :
  (forall i, stop i = false -> costs p 0 (body i)) ->
  (forall i, costs p n (body i)) ->
  forall count first, costs p n (for_range body first count).
Proof.
  intros Hquiet Hlast. induction count as [|m IH]; intros first; cbn [for_range].
  - apply costs_zero, costs_ret.
  - intros w. destruct (control first w) as (c & w1 & E & ->).
    erewrite bind_ok by exact E.
    pose proof (Hlast first w) as Hn. rewrite E in Hn. cbn [snd] in Hn.
    destruct (stop first) eqn:Es; [exact Hn|].
    pose proof (Hquiet first Es w) as H0. rewrite E in H0. cbn [snd] in H0.
    pose proof (IH (first + 1) w1) as Hrest. unfold bind.
    destruct (for_range body (first + 1) m w1) as [[k | e |] w2];
      cbn [ret snd] in *; lia.
Qed.

End LoopUntil.

Section QuietAdvance.

Variable env : Env.
Variable P : Event -> Prop.
Hypothesis retrieves : forall id ok, P (Called (ClockRetrieve id) ok).
Hypothesis advances : forall id t ok, P (Called (ClockAdvance id t) ok).
Hypothesis sleeps : forall d, P (Slept d).
Hypothesis prints : forall m, P (Printed m).

Lemma em_advance_test_clock (clock_id : string) (frozen_time : Z) :
  emits P (advance_test_clock env clock_id frozen_time).
Proof.
  unfold advance_test_clock, read_current, TestClock_retrieve, advance_and_poll.
  apply em_bind; [em_script ltac:(auto)|]. intros cur.
  apply em_bind; [apply em_advance_attempts; auto|].
  intros [|]; cbn [negb]; [|apply em_raise].
  apply em_bind; [apply em_time_time|]. intros start.
  apply em_poll_ready; auto.
Qed.

Lemma em_advance_or_warn (tc_id : string) (current_ts : Z) :
  emits P (advance_or_warn env tc_id current_ts).
Proof.
  pose proof em_advance_test_clock as Ha.
  unfold advance_or_warn. em_script ltac:(auto).
Qed.

Lemma em_auto_advance (tc_id : string) : emits P (auto_advance env tc_id).
Proof.
  pose proof em_advance_test_clock as Ha.
  unfold auto_advance, current_frozen_time, TestClock_retrieve.
  em_script ltac:(auto).
Qed.

End QuietAdvance.

Section CanceledMonths.

Variable env : Env.
Variables tc_id customer sub_id : string.
Variables month cancel_after : Z.

Lemma canceled_month_control (m2 : Z) :
  returns (fun c => c = if cancels_in cancel_after m2 then Break else Continue)
          (canceled_month env tc_id customer sub_id month cancel_after m2).
Proof.
  unfold canceled_month, cancels_in.
  eapply returns_bind; [apply never_raises_returns, nr_advance_or_warn|]. intros _ _.
  eapply returns_bind; [apply never_raises_returns, nr_sleep|]. intros _ _.
  eapply returns_bind; [apply never_raises_returns, nr_sleep|]. intros _ _.
  eapply returns_bind; [apply never_raises_returns, nr_monthly_canceled|]. intros _ _.
  destruct (m2 + 1 >=? cancel_after); [|now apply returns_ret].
  eapply returns_bind; [apply never_raises_returns, nr_cancel_attempts|]. intros _ _.
  now apply returns_ret.
Qed.

Lemma deletes_monthly_canceled :
  costs is_delete_request 0 (monthly_reconcile_canceled env customer).
Proof.
  assert (Hbody : forall inv u, costs is_delete_request 0 (pay_if_open_canceled env inv u)).
  { intros inv u. unfold pay_if_open_canceled, Invoice_pay. costs_script. }
  pose proof (@costs_for_each _ _ is_delete_request _ Hbody) as Hloop.
  unfold monthly_reconcile_canceled, Invoice_list. costs_script.
Qed.

Lemma deletes_cancel_attempts :
  forall n backoff, costs is_delete_request n (cancel_attempts env sub_id n backoff).
Proof.
  intros n backoff w.
  destruct (cancel_attempts_outcome env sub_id n backoff w)
    as (b & w' & l & E & Ht & Hd & _).
  rewrite E. cbn [snd]. rewrite Ht, count_events_app. lia.
Qed.

Lemma deletes_canceled_month (m2 : Z) :
  costs is_delete_request 20
        (canceled_month env tc_id customer sub_id month cancel_after m2)
  /\ (cancels_in cancel_after m2 = false ->
      costs is_delete_request 0
            (canceled_month env tc_id customer sub_id month cancel_after m2)).
Proof.
  assert (Ha : forall t, costs is_delete_request 0 (advance_or_warn env tc_id t)).
  { intros t. apply emits_costs_zero. apply em_advance_or_warn; reflexivity. }
  pose proof deletes_monthly_canceled as Hm.
  pose proof (deletes_cancel_attempts 20 (1 # 2)) as Hc.
  unfold canceled_month, cancels_in, cancel_subscription_retry. split.
  - apply costs_bind_l; [apply Ha|]. intros _.
    apply costs_bind_l; [apply costs_sleep; reflexivity|]. intros _.
    apply costs_bind_l; [apply costs_sleep; reflexivity|]. intros _.
    apply costs_bind_l; [apply Hm|]. intros _.
    destruct (m2 + 1 >=? cancel_after); [|apply costs_zero, costs_ret].
    apply costs_bind_r; [exact Hc | intros _; apply costs_ret].
  - intros ->.
    apply costs_bind_l; [apply Ha|]. intros _.
    apply costs_bind_l; [apply costs_sleep; reflexivity|]. intros _.
    apply costs_bind_l; [apply costs_sleep; reflexivity|]. intros _.
    apply costs_bind_l; [apply Hm|]. intros _. apply costs_ret.
Qed.

End CanceledMonths.



Lemma keep_for_range (f : World -> Z) (body : Z -> M loop_ctl) :
  (forall i, preserves f (body i)) ->
  forall count first, preserves f (for_range body first count).
Proof.
  intros Hb. induction count as [|n IH]; intros first; cbn [for_range].
  - apply keep_ret.
  - apply keep_bind; [apply Hb|]. intros [|]; [|apply keep_ret].
    apply keep_bind; [apply IH | intros k; apply keep_ret].
Qed.

Section PaidLedger.

Variable env : Env.

Lemma keep_advance_attempts (clock_id : string) (frozen_time : Z) :
  forall n backoff,
    preserves paid_ledger (advance_attempts env clock_id frozen_time n backoff).
Proof.
  unfold paid_ledger.
  induction n as [|n IH]; intros backoff; cbn [advance_attempts]; [apply keep_ret|].
  unfold TestClock_advance. apply keep_bind; [keep_script|].
  intros [u | e]; [apply keep_ret|].
  apply keep_bind; [apply keep_sleep; reflexivity | intros _; apply IH].
Qed.

Lemma keep_poll_ready (clock_id : string) (frozen_time : Z) (start : Q) :
  forall n, preserves paid_ledger (poll_ready env n clock_id frozen_time start).
Proof.
  unfold paid_ledger.
  induction n as [|n IH]; cbn [poll_ready]; [now intros w|].
  unfold TestClock_retrieve. apply keep_bind; [keep_script|].
  assert (Hagain : preserves (ledger invoices_paid is_paid_call)
    (t <- time_time ;;
     if Qltb (inject_Z poll_timeout) (t - start)
     then raise (TimeoutError clock_id poll_timeout (Some frozen_time) None)
     else sleep 1 ;; poll_ready env n clock_id frozen_time start)).
  { apply keep_bind; [apply keep_time_time|]. intros t.
    destruct (Qltb _ _); [apply keep_raise|].
    apply keep_bind; [apply keep_sleep; reflexivity | intros _; apply IH]. }
  intros [tc2 | e]; [|exact Hagain].
  destruct (poll_accepts tc2 frozen_time); [apply keep_ret | exact Hagain].
Qed.

Lemma keep_advance_test_clock (clock_id : string) (frozen_time : Z) :
  preserves paid_ledger (advance_test_clock env clock_id frozen_time).
Proof.
  pose proof keep_advance_attempts as Ha. pose proof keep_poll_ready as Hp.
  unfold advance_test_clock, read_current, advance_and_poll, TestClock_retrieve,
    paid_ledger in *.
  keep_script.
Qed.

Lemma keep_advance_or_warn (tc_id : string) (current_ts : Z) :
  preserves paid_ledger (advance_or_warn env tc_id current_ts).
Proof.
  pose proof keep_advance_test_clock as Ha.
  unfold advance_or_warn, paid_ledger in *. keep_script.
Qed.

Lemma keep_auto_advance (tc_id : string) :
  preserves paid_ledger (auto_advance env tc_id).
Proof.
  pose proof keep_advance_test_clock as Ha.
  unfold auto_advance, current_frozen_time, TestClock_retrieve, paid_ledger in *.
  keep_script.
Qed.

Lemma keep_cancel_attempts (sub_id : string) :
  forall n backoff, preserves paid_ledger (cancel_attempts env sub_id n backoff).
Proof.
  unfold paid_ledger.
  induction n as [|n IH]; intros backoff; cbn [cancel_attempts]; [apply keep_ret|].
  unfold Subscription_delete, Subscription_cancel_at_period_end.
  apply keep_bind; [keep_script|].
  assert (Hretry : preserves (ledger invoices_paid is_paid_call)
            (sleep backoff ;;
             cancel_attempts env sub_id n (py_min (backoff * (3 # 2)) 2)))
    by (apply keep_bind; [apply keep_sleep; reflexivity | intros _; apply IH]).
  intros [u | e]; [apply keep_ret|].
  assert (Hother : preserves (ledger invoices_paid is_paid_call)
            (r2 <- attempt (remote (SubscriptionCancelAtPeriodEnd sub_id)
                              (fun h => subscription_cancel_at_period_end env h sub_id)) ;;
             match r2 with
             | Val _ => ret true
             | Exc _ => sleep backoff ;;
                        cancel_attempts env sub_id n (py_min (backoff * (3 # 2)) 2)
             end)).
  { apply keep_bind; [keep_script|].
    intros [u | e2]; [apply keep_ret | exact Hretry]. }
  destruct e; first [exact Hretry | exact Hother].
Qed.

Lemma keep_random_randint (lo hi : Z) :
  preserves paid_ledger (random_randint env lo hi).
Proof.
  intros w. unfold random_randint. destruct (hi <? lo); reflexivity.
Qed.

Lemma keep_simulate_active (tc_id customer : string) (months month : Z) :
  preserves paid_ledger (simulate_active env tc_id customer months month).
Proof.
  pose proof keep_advance_or_warn as Ha. pose proof keep_auto_advance as Hauto.
  pose proof (keep_finalize_and_pay_pending env) as Hfin.
  assert (Hm : forall c, preserves paid_ledger (monthly_reconcile_active env c))
    by (intros c; apply keep_monthly_active; now left).
  unfold simulate_active.
  apply keep_bind; [|intros _; apply keep_bind; [apply Hauto | intros _; apply Hfin]].
  apply keep_for_range. intros i. unfold active_month, paid_ledger in *. keep_script.
Qed.

Lemma keep_simulate_canceled (tc_id customer sub_id : string) (months month : Z) :
  preserves paid_ledger (simulate_canceled env tc_id customer sub_id months month).
Proof.
  pose proof keep_advance_or_warn as Ha. pose proof keep_auto_advance as Hauto.
  pose proof (keep_finalize_and_pay_pending env) as Hfin.
  pose proof keep_cancel_attempts as Hc.
  assert (Hm : forall c, preserves paid_ledger (monthly_reconcile_canceled env c))
    by (intros c; apply keep_monthly_canceled; now left).
  unfold simulate_canceled.
  apply keep_bind; [apply keep_random_randint|]. intros cancel_after.
  apply keep_bind.
  { apply keep_for_range. intros i.
    unfold canceled_month, cancel_subscription_retry, paid_ledger in *. keep_script. }
  intros _. apply keep_bind; [apply keep_emit; reflexivity|].
  intros _. apply keep_bind; [apply Hauto | intros _; apply Hfin].
Qed.

End PaidLedger.

(** X11: over the whole simulation of a customer of [generate_date.main],
    in the active flow and in the canceled flow alike (month loop,
    cancellation, auto-advance, finalize-and-pay passes),
    [summary['invoices_paid']] grows by exactly the number of
    [Invoice.pay] calls that returned, whatever the platform does. *)
Theorem paid_counter_tracks_payments (env : Env) (tc_id customer sub_id : string)
    (months month : Z) :
  preserves paid_ledger (simulate_active env tc_id customer months month)
  /\ preserves paid_ledger (simulate_canceled env tc_id customer sub_id months month).
Proof. split; [apply keep_simulate_active | apply keep_simulate_canceled]. Qed.

Lemma paid_counter_tracks_payments_witness :
  paid_ledger (snd (simulate_active settling "clock_1" "cus_1" 2 0 world0))
  = paid_ledger world0
  /\ invoices_paid (summary (snd (simulate_active settling "clock_1" "cus_1" 2 0 world0)))
     = 1
  /\ count_events is_paid_call
       (trace (snd (simulate_active settling "clock_1" "cus_1" 2 0 world0))) = 1%nat.
Proof.
  split; [|split; vm_compute; reflexivity].
  apply (proj1 (@paid_counter_tracks_payments settling "clock_1" "cus_1" "sub_1" 2 0)).
Defined.

(* ------------------------------------------------------------------ *)
(** ** [attach_and_set_default_pm] *)

Section DefaultPaymentMethod.

Variable env : Env.
Variables customer_id pm_id0 : string.

Lemma nr_attach_and_set_default_pm :
  never_raises (attach_and_set_default_pm env customer_id pm_id0).
Proof.
  unfold attach_and_set_default_pm, PaymentMethod_attach, PaymentMethod_retrieve,
    Customer_modify.
  nr_script.
Qed.

Lemma em_attach_and_set_default_pm :
  emits (serves customer_id) (attach_and_set_default_pm env customer_id pm_id0).
Proof.
  unfold attach_and_set_default_pm, PaymentMethod_attach, PaymentMethod_retrieve,
    Customer_modify.
  em_script ltac:(cbn; auto).
Qed.

Lemma attaches_attach_and_set_default_pm :
  costs is_attach_request 3 (attach_and_set_default_pm env customer_id pm_id0).
Proof.
  assert (H1 : forall A req (answer : History -> reply A),
             costs is_attach_request 1 (remote req answer))
    by (intros; apply costs_remote_one).
  unfold attach_and_set_default_pm, PaymentMethod_attach, PaymentMethod_retrieve,
    Customer_modify.
  change 3%nat with (2 + 1)%nat. apply costs_bind.
  - apply costs_try_r; [|intros e; apply costs_ret].
    change 2%nat with (1 + 1)%nat. apply costs_bind; [apply H1|]. intros attached.
    costs_script.
  - intros pm_to_use. costs_script.
Qed.

Lemma modifies_attach_and_set_default_pm :
  costs is_modify_request 2 (attach_and_set_default_pm env customer_id pm_id0).
Proof.
  assert (H1 : forall A req (answer : History -> reply A),
             costs is_modify_request 1 (remote req answer))
    by (intros; apply costs_remote_one).
  unfold attach_and_set_default_pm, PaymentMethod_attach, PaymentMethod_retrieve,
    Customer_modify.
  apply costs_bind_l; [costs_script|]. intros pm_to_use.
  change 2%nat with (1 + 1)%nat.
  apply costs_try_except; [costs_script | intros e; costs_script].
Qed.

Lemma lookups_attach_and_set_default_pm :
  costs is_lookup_request 2 (attach_and_set_default_pm env customer_id pm_id0).
Proof.
  assert (H1 : forall A req (answer : History -> reply A),
             costs is_lookup_request 1 (remote req answer))
    by (intros; apply costs_remote_one).
  unfold attach_and_set_default_pm, PaymentMethod_attach, PaymentMethod_retrieve,
    Customer_modify.
  apply costs_bind_r; [|intros pm_to_use; costs_script].
  apply costs_try_r; [|intros e; apply costs_ret].
  apply costs_bind_l; [costs_script|]. intros attached.
  change 2%nat with (1 + 1)%nat. apply costs_bind; [costs_script|]. intros pm_obj.
  costs_script.
Qed.

End DefaultPaymentMethod.

(** X12: [attach_and_set_default_pm] never raises, whatever the platform
    answers (when nothing works it prints an error line and returns).  It
    talks about this customer only: it attaches to it, modifies it and
    looks payment methods up; and it sends at most three attach
    requests, two modify requests and two look-ups. *)
Theorem attach_and_set_default_pm_contained (env : Env) (customer_id pm_id0 : string) :
  never_raises (attach_and_set_default_pm env customer_id pm_id0)
  /\ emits (serves customer_id) (attach_and_set_default_pm env customer_id pm_id0)
  /\ costs is_attach_request 3 (attach_and_set_default_pm env customer_id pm_id0)
  /\ costs is_modify_request 2 (attach_and_set_default_pm env customer_id pm_id0)
  /\ costs is_lookup_request 2 (attach_and_set_default_pm env customer_id pm_id0).
Proof.
  split; [apply nr_attach_and_set_default_pm|].
  split; [apply em_attach_and_set_default_pm|].
  split; [apply attaches_attach_and_set_default_pm|].
  split; [apply modifies_attach_and_set_default_pm|].
  apply lookups_attach_and_set_default_pm.
Qed.

(** On a platform that refuses everything: two attach requests, one
    modify, the error line, a normal return. *)
Lemma attach_and_set_default_pm_contained_witness :
  never_raises (attach_and_set_default_pm silent "cus_1" "pm_1")
  /\ attach_and_set_default_pm silent "cus_1" "pm_1" world0
     = (Ok tt,
        printed (MsgText "[Error] Could not set default payment method")
          (called (PaymentMethodAttach "pm_1" "cus_1") false
             (called (CustomerModify "cus_1" "pm_1") false
                (called (PaymentMethodAttach "pm_1" "cus_1") false world0)))).
Proof.
  split; [|reflexivity].
  apply (@attach_and_set_default_pm_contained silent "cus_1" "pm_1").
Defined.

(* ------------------------------------------------------------------ *)
(** ** The batch mode of [generate_past_due_new.main] *)

(** X13: in batch mode the bounds of the draws are not checked before
    the first entity.  With [--min-paid] above [--max-paid] the first
    draw raises ValueError; in a recover batch with [--min-past-due]
    above both 1 and [--max-past-due] the second draw does.  Either way
    the run ends there, before any request is sent. *)
Theorem batch_bounds_checked_by_draw (env : Env) (args : Args) (price_id : string)
    (w : World) :
  0 < arg_count args ->
  (arg_max_paid args < arg_min_paid args ->
   main_scenarios env args price_id w
   = (Raise ValueError, printed (MsgText "Batch mode") w))
  /\ (arg_scenario args = Recover ->
      arg_min_paid args <= arg_max_paid args ->
      Z.max 1 (arg_max_past_due args) < Z.max 1 (arg_min_past_due args) ->
      let w1 := printed (MsgText "Batch mode") w in
      main_scenarios env args price_id w
      = (Raise ValueError,
         drew (arg_min_paid args) (arg_max_paid args)
              (randint env (trace w1) (arg_min_paid args) (arg_max_paid args)) w1)).
Proof.
  intros Hcount.
  assert (Hbatch : forall e w',
    batch_entity env args price_id 1 (printed (MsgText "Batch mode") w) = (Raise e, w') ->
    main_scenarios env args price_id w = (Raise e, w')).
  { intros e w' H. unfold main_scenarios.
    destruct (0 <? arg_count args) eqn:E; [|lia].
    apply bind_raise. unfold main_batch. step.
    destruct (Z.to_nat (arg_count args)) as [|n] eqn:En; [lia|].
    now apply for_range_raise. }
  split.
  - intros Hpaid. apply Hbatch. unfold batch_entity.
    apply bind_raise. unfold random_randint.
    destruct (arg_max_paid args <? arg_min_paid args) eqn:E; [reflexivity | lia].
  - intros Hsc Hpaid Hpd w1. apply Hbatch. unfold batch_entity.
    erewrite bind_ok by (now apply random_randint_run).
    rewrite Hsc. apply bind_raise. apply bind_raise. unfold random_randint.
    destruct (Z.max 1 (arg_max_past_due args) <? Z.max 1 (arg_min_past_due args)) eqn:E;
      [reflexivity | lia].
Qed.

Lemma batch_bounds_checked_by_draw_witness :
  0 < arg_count batch_paid_reversed
  /\ arg_max_paid batch_paid_reversed < arg_min_paid batch_paid_reversed
  /\ main_scenarios throttled_platform batch_paid_reversed "price_1" world0
     = (Raise ValueError, printed (MsgText "Batch mode") world0)
  /\ fst (main_scenarios throttled_platform batch_past_due_reversed "price_1" world0)
     = Raise ValueError.
Proof.
  split; [reflexivity|]. split; [reflexivity|]. split.
  - apply (@batch_bounds_checked_by_draw throttled_platform batch_paid_reversed
             "price_1" world0); reflexivity.
  - rewrite (proj2 (@batch_bounds_checked_by_draw throttled_platform
                      batch_past_due_reversed "price_1" world0 eq_refl));
      [reflexivity | reflexivity | vm_compute; discriminate | reflexivity].
Defined.

(* ------------------------------------------------------------------ *)
(** ** CycleScheduler: the least cycle, and the cycle after it *)

Lemma next_cycle_after_max (anchor index current interval : Z) :
  0 <= index -> 0 < interval ->
  next_cycle_after anchor index current interval
  = Val (anchor + Z.max index ((current - anchor - 60) / interval + 1) * interval + 60).
Proof.
  intros index_nonneg interval_pos.
  destruct (Z_lt_le_dec current (anchor + index * interval + 60)) as [Hfresh | Hstale].
  - rewrite next_cycle_after_fresh by exact Hfresh.
    assert (H : (current - anchor - 60) / interval < index).
    { apply Z.div_lt_upper_bound; [exact interval_pos | lia]. }
    rewrite Z.max_l by lia. reflexivity.
  - rewrite next_cycle_after_stale by assumption.
    pose proof (@stale_cycle_quotient anchor index current interval interval_pos Hstale)
      as Hq.
    rewrite Z.max_r by lia. reflexivity.
Qed.

Lemma cycle_of_boundary (anchor interval k : Z) :
  0 < interval -> (anchor + k * interval + 60 - anchor - 60) / interval = k.
Proof.
  intros H. replace (anchor + k * interval + 60 - anchor - 60) with (k * interval) by lia.
  apply Z.div_mul. lia.
Qed.

(** X14: for [index >= 0] and [interval > 0] the cycle that
    [next_cycle_after] returns is the least one: no cycle [k >= index]
    whose time [anchor + k * interval + 60] is after [current] comes
    before it.  And it is monotone: a later clock or a larger index never
    gives an earlier time. *)
Theorem next_cycle_after_least (anchor index current interval : Z) :
  0 <= index -> 0 < interval ->
  exists r,
    next_cycle_after anchor index current interval = Val r
    /\ (forall k,
          index <= k -> current < anchor + k * interval + 60 ->
          r <= anchor + k * interval + 60)
    /\ (forall index' current' r',
          index <= index' -> current <= current' ->
          next_cycle_after anchor index' current' interval = Val r' ->
          r <= r').
Proof.
  intros Hi Hp. eexists. split; [now apply next_cycle_after_max|]. split.
  - intros k Hk Hafter.
    assert (H : (current - anchor - 60) / interval < k).
    { apply Z.div_lt_upper_bound; [exact Hp | lia]. }
    nia.
  - intros index' current' r' Hindex Hcurrent.
    rewrite next_cycle_after_max by lia. intros [= <-].
    assert (Hd : (current - anchor - 60) / interval <= (current' - anchor - 60) / interval)
      by (apply Z.div_le_mono; lia).
    nia.
Qed.

Lemma next_cycle_after_least_witness :
  0 <= 3 /\ 0 < MONTH
  /\ exists r,
       next_cycle_after start_ts 3 (start_ts + 3 * MONTH + 60 + 864000) MONTH = Val r
       /\ (forall k,
             3 <= k -> start_ts + 3 * MONTH + 60 + 864000 < start_ts + k * MONTH + 60 ->
             r <= start_ts + k * MONTH + 60)
       /\ (forall index' current' r',
             3 <= index' -> start_ts + 3 * MONTH + 60 + 864000 <= current' ->
             next_cycle_after start_ts index' current' MONTH = Val r' ->
             r <= r').
Proof.
  split; [lia|]. split; [reflexivity|].
  apply (@next_cycle_after_least start_ts 3 (start_ts + 3 * MONTH + 60 + 864000) MONTH);
    [lia | reflexivity].
Defined.

(** X15: how successive calls compose, for [index >= 0] and
    [interval > 0].  While the clock has not reached the returned time
    the answer stays the same; once the clock stands at the returned
    time, a call with any index up to the next cycle returns exactly one
    interval later.  So a loop that advances the clock to the returned
    time and asks for the next index walks through consecutive cycles. *)
Theorem next_cycle_after_steps (anchor index current interval : Z) :
  0 <= index -> 0 < interval ->
  exists r,
    next_cycle_after anchor index current interval = Val r
    /\ (forall current',
          current <= current' < r ->
          next_cycle_after anchor index current' interval = Val r)
    /\ (forall index',
          0 <= index' <= implied_index anchor interval r + 1 ->
          next_cycle_after anchor index' r interval = Val (r + interval)).
Proof.
  intros Hi Hp.
  set (k := Z.max index ((current - anchor - 60) / interval + 1)).
  exists (anchor + k * interval + 60).
  split; [now apply next_cycle_after_max|]. split.
  - intros current' [Hlo Hhi]. rewrite next_cycle_after_max by assumption.
    fold k in Hhi.
    assert (Hd : (current - anchor - 60) / interval <= (current' - anchor - 60) / interval)
      by (apply Z.div_le_mono; lia).
    assert (Hu : (current' - anchor - 60) / interval < k)
      by (apply Z.div_lt_upper_bound; [exact Hp | lia]).
    replace (Z.max index ((current' - anchor - 60) / interval + 1)) with k by lia.
    reflexivity.
  - intros index' Hindex. unfold implied_index, epsilon in Hindex.
    rewrite cycle_of_boundary in Hindex by exact Hp.
    rewrite next_cycle_after_max by lia.
    rewrite cycle_of_boundary by exact Hp.
    rewrite Z.max_r by lia. f_equal. lia.
Qed.

(** Ten days into cycle 3 the scheduler answers cycle 4; asked again at
    that time for index 5 or less, it answers cycle 5. *)
Lemma next_cycle_after_steps_witness :
  0 <= 3 /\ 0 < MONTH
  /\ next_cycle_after start_ts 3 (start_ts + 3 * MONTH + 60 + 864000) MONTH
     = Val (start_ts + 4 * MONTH + 60)
  /\ next_cycle_after start_ts 4 (start_ts + 4 * MONTH + 60) MONTH
     = Val (start_ts + 5 * MONTH + 60)
  /\ exists r,
       next_cycle_after start_ts 3 (start_ts + 3 * MONTH + 60 + 864000) MONTH = Val r
       /\ (forall current',
             start_ts + 3 * MONTH + 60 + 864000 <= current' < r ->
             next_cycle_after start_ts 3 current' MONTH = Val r)
       /\ (forall index',
             0 <= index' <= implied_index start_ts MONTH r + 1 ->
             next_cycle_after start_ts index' r MONTH = Val (r + MONTH)).
Proof.
  split; [lia|]. split; [reflexivity|]. split; [reflexivity|]. split; [reflexivity|].
  apply (@next_cycle_after_steps start_ts 3 (start_ts + 3 * MONTH + 60 + 864000) MONTH);
    [lia | reflexivity].
Defined.

(* ------------------------------------------------------------------ *)
(** ** The scenarios of [generate_past_due_new.py] *)

(** X16: in the scenarios an advance goes to the scheduled cycle as it
    is.  When the clock shows the same frozen time to the scheduler's
    look and to the look of [advance_clock], the time computed by
    [next_cycle_after] (for an index [>= 0]) is after it, so no warning
    is printed and [advance_clock] goes on with that time unchanged: when
    the frozen time and the scheduled time have a date, the three lines
    of lines 71-73 are printed and the request for the scheduled time is
    sent, the only advance request of the call; when one of them has no
    date, [dt] raises and nothing is requested. *)
Theorem scheduled_advance_goes_out_unchanged (env : Env) (tc_id : string)
    (billing_anchor cycle_index frozen : Z) (c1 c2 : ClockObj) (w : World) :
  0 <= cycle_index ->
  clock_retrieve env (trace w) tc_id = Reply c1 ->
  clk_frozen_time c1 = Some frozen ->
  clock_retrieve env (trace (called (ClockRetrieve tc_id) true w)) tc_id = Reply c2 ->
  clk_frozen_time c2 = Some frozen ->
  let looked := called (ClockRetrieve tc_id) true (called (ClockRetrieve tc_id) true w) in
  exists r,
    next_cycle_after billing_anchor cycle_index frozen MONTH = Val r
    /\ frozen < r
    /\ advance_to_cycle env tc_id billing_anchor cycle_index w
       = request_and_wait env tc_id frozen r looked
    /\ (dt frozen = Val tt -> dt r = Val tt ->
        advance_to_cycle env tc_id billing_anchor cycle_index w
        = (TestClock_advance env tc_id r ;; confirm_advance env tc_id)
            (announced tc_id frozen r looked)
        /\ exists l,
             trace (snd (advance_to_cycle env tc_id billing_anchor cycle_index w))
             = l ++ Called (ClockAdvance tc_id r)
                           (replied (clock_advance env
                                       (trace (announced tc_id frozen r looked)) tc_id r))
                    :: trace (announced tc_id frozen r looked)
             /\ Forall no_advance l)
    /\ forall e,
         dt frozen = Exc e \/ (dt frozen = Val tt /\ dt r = Exc e) ->
         fst (advance_to_cycle env tc_id billing_anchor cycle_index w) = Raise e
         /\ exists l,
              trace (snd (advance_to_cycle env tc_id billing_anchor cycle_index w))
              = l ++ trace w
              /\ Forall no_advance l.
Proof.
  intros Hi Hr1 Hf1 Hr2 Hf2 looked.
  assert (Hm : 0 < MONTH) by reflexivity.
  set (r := billing_anchor
            + Z.max cycle_index ((frozen - billing_anchor - 60) / MONTH + 1) * MONTH + 60).
  assert (Hnext : next_cycle_after billing_anchor cycle_index frozen MONTH = Val r)
    by (now apply next_cycle_after_max).
  assert (Hafter : frozen < r).
  { pose proof (@next_multiple_after billing_anchor cycle_index frozen MONTH Hm) as H.
    subst r. nia. }
  exists r. split; [exact Hnext|]. split; [exact Hafter|].
  assert (Hcur : current_frozen_time env tc_id w
                 = (Ok frozen, called (ClockRetrieve tc_id) true w)).
  { unfold current_frozen_time, TestClock_retrieve.
    erewrite bind_ok by (apply remote_reply; exact Hr1). now rewrite Hf1. }
  assert (Hrun : advance_to_cycle env tc_id billing_anchor cycle_index w
                 = request_and_wait env tc_id frozen r looked).
  { unfold advance_to_cycle. erewrite bind_ok by exact Hcur.
    rewrite Hnext. cbn [lift]. step.
    rewrite (@advance_clock_run env tc_id r frozen c2 _ Hr2 Hf2).
    unfold adjusted_target, looked_at.
    destruct (r <=? frozen) eqn:E; [lia | reflexivity]. }
  split; [exact Hrun|]. rewrite Hrun. split.
  - intros Hd1 Hd2. split; [now apply request_and_wait_run|].
    destruct (@request_and_wait_sends env tc_id frozen r looked Hd1 Hd2)
      as (l & Hl & Pl & _).
    now exists l.
  - intros e Hd.
    destruct (@request_and_wait_undated env tc_id frozen r looked e Hd)
      as (Hraise & l & Hl & Pl).
    split; [exact Hraise|].
    exists (l ++ [Called (ClockRetrieve tc_id) true; Called (ClockRetrieve tc_id) true]).
    split; [rewrite Hl; now rewrite <- app_assoc|].
    apply Forall_app. split; [exact Pl | repeat constructor].
Qed.

Lemma scheduled_advance_goes_out_unchanged_witness :
  exists r,
    next_cycle_after 0 1 100 MONTH = Val r
    /\ 100 < r
    /\ advance_to_cycle (stale 100) "clock_1" 0 1 world0
       = request_and_wait (stale 100) "clock_1" 100 r
           (called (ClockRetrieve "clock_1") true
              (called (ClockRetrieve "clock_1") true world0))
    /\ exists l,
         trace (snd (advance_to_cycle (stale 100) "clock_1" 0 1 world0))
         = l ++ Called (ClockAdvance "clock_1" r) true
                :: trace (announced "clock_1" 100 r
                            (called (ClockRetrieve "clock_1") true
                               (called (ClockRetrieve "clock_1") true world0)))
         /\ Forall no_advance l.
Proof.
  destruct (@scheduled_advance_goes_out_unchanged (stale 100) "clock_1" 0 1 100
              (ready_clock "clock_1" 100) (ready_clock "clock_1" 100) world0
              ltac:(lia) eq_refl eq_refl eq_refl eq_refl)
    as (r & Hnext & Hafter & Hrun & Hsent & _).
  exists r. split; [exact Hnext|]. split; [exact Hafter|]. split; [exact Hrun|].
  assert (Hr : r = 2592060) by (vm_compute in Hnext; congruence).
  subst r. exact (proj2 (Hsent eq_refl eq_refl)).
Defined.

(** X17: the linger scenario leaves the invoices to the platform: it
    never lists, retrieves, finalizes or pays one; and neither scenario
    ever deletes a subscription or cancels it at the end of the period. *)
Theorem scenarios_keep_their_hands_off (env : Env) (email price_id : string)
    (paid_months past_due_months total_months : Z) (auto_adv : bool) :
  emits hands_off (run_linger env email price_id paid_months total_months auto_adv)
  /\ emits keeps_subscription
           (run_recover env email price_id paid_months past_due_months total_months
                        auto_adv).
Proof.
  split.
  - apply em_run_linger with (emails := fun _ => True); intros; exact I.
  - apply em_run_recover with (emails := fun _ => True); intros; exact I.
Qed.

Section Creations.

Variable env : Env.
Variable p : Event -> bool.
Hypothesis creation :
  p = is_clock_create \/ p = is_customer_create \/ p = is_subscription_create.

Ltac creation_cases := destruct creation as [-> | [-> | ->]].

(** The pieces of a scenario that create nothing. *)
Ltac creates_nothing :=
  apply emits_costs_zero;
  first [ apply em_advance_clock | apply em_retrieve_triplet
        | apply em_current_frozen_time | apply em_advance_to_cycle
        | apply em_advance_through_retries | apply em_create_payment_method
        | apply em_attach | apply em_switch_to_failing
        | apply em_scenario_auto_advance | apply em_paid_months
        | apply em_lingering_months | apply em_pay_historical_invoices ];
  intros; reflexivity.

Lemma creates_scenario_create (email price_id : string) :
  costs p 1 (scenario_create env email price_id).
Proof.
  assert (Hpm : forall card, costs p 0 (create_payment_method env card))
    by (intros; creation_cases; creates_nothing).
  assert (Hat : forall c pm, costs p 0 (attach_and_set_default_pm env c pm))
    by (intros; creation_cases; creates_nothing).
  assert (H1 : forall A req (answer : History -> reply A), costs p 1 (remote req answer))
    by (intros; apply costs_remote_one).
  unfold scenario_create, create_testclock, create_customer,
    create_subscription_monthly, TestClock_create.
  creation_cases; costs_script.
Qed.

Lemma creates_scenario_setup (email price_id : string) :
  costs p 1 (scenario_setup env email price_id).
Proof.
  pose proof creates_scenario_create as Hc.
  assert (Ha : forall id t, costs p 0 (advance_clock env id t))
    by (intros; creation_cases; creates_nothing).
  assert (Ht : forall id, costs p 0 (retrieve_triplet env id))
    by (intros; creation_cases; creates_nothing).
  unfold scenario_setup.
  apply costs_bind_r; [apply Hc|]. intros s.
  apply costs_bind_l; [apply Ha|]. intros _.
  apply costs_bind_l; [apply Ht | intros _; apply costs_ret].
Qed.

Lemma creates_run_linger (email price_id : string) (paid_months total_months : Z)
    (auto_adv : bool) :
  costs p 1 (run_linger env email price_id paid_months total_months auto_adv).
Proof.
  pose proof creates_scenario_setup as Hs.
  assert (Hp : forall tc sub a first count,
             costs p 0 (for_range (paid_month env tc sub a) first count))
    by (intros; creation_cases; creates_nothing).
  assert (Hl : forall tc sub a first count,
             costs p 0 (for_range (lingering_month env tc sub a) first count))
    by (intros; creation_cases; creates_nothing).
  assert (Hf : forall c, costs p 0 (switch_to_failing env c))
    by (intros; creation_cases; creates_nothing).
  assert (Hc : forall id a i, costs p 0 (advance_to_cycle env id a i))
    by (intros; creation_cases; creates_nothing).
  assert (Ht : forall id, costs p 0 (retrieve_triplet env id))
    by (intros; creation_cases; creates_nothing).
  assert (Hr : forall tc sub b m, costs p 0 (advance_through_retries env tc sub b m))
    by (intros; creation_cases; creates_nothing).
  assert (Ha : forall id, costs p 0 (scenario_auto_advance env id))
    by (intros; creation_cases; creates_nothing).
  assert (Hprint : forall m, costs p 0 (print m))
    by (intros; creation_cases; apply costs_emit; reflexivity).
  unfold run_linger.
  apply costs_bind_l; [apply Hprint|]. intros _.
  apply costs_bind_r; [apply Hs|]. intros s.
  repeat (apply costs_bind_l; [solve [auto]|]; intros ?).
  apply costs_bind_l; [destruct auto_adv; [apply Ha | apply costs_ret]|].
  intros _. apply costs_ret.
Qed.

Lemma creates_run_recover (email price_id : string)
    (paid_months past_due_months total_months : Z) (auto_adv : bool) :
  costs p 1 (run_recover env email price_id paid_months past_due_months total_months
                         auto_adv).
Proof.
  pose proof creates_scenario_setup as Hs.
  assert (Hp : forall tc sub a first count,
             costs p 0 (for_range (paid_month env tc sub a) first count))
    by (intros; creation_cases; creates_nothing).
  assert (Hl : forall tc sub a first count,
             costs p 0 (for_range (lingering_month env tc sub a) first count))
    by (intros; creation_cases; creates_nothing).
  assert (Hf : forall c, costs p 0 (switch_to_failing env c))
    by (intros; creation_cases; creates_nothing).
  assert (Hc : forall id a i, costs p 0 (advance_to_cycle env id a i))
    by (intros; creation_cases; creates_nothing).
  assert (Ht : forall id, costs p 0 (retrieve_triplet env id))
    by (intros; creation_cases; creates_nothing).
  assert (Hr : forall tc sub b m, costs p 0 (advance_through_retries env tc sub b m))
    by (intros; creation_cases; creates_nothing).
  assert (Ha : forall id, costs p 0 (scenario_auto_advance env id))
    by (intros; creation_cases; creates_nothing).
  assert (Hcur : forall id, costs p 0 (current_frozen_time env id))
    by (intros; creation_cases; creates_nothing).
  assert (Hat : forall c pm, costs p 0 (attach_and_set_default_pm env c pm))
    by (intros; creation_cases; creates_nothing).
  assert (Hh : forall c, costs p 0 (pay_historical_invoices env c))
    by (intros; creation_cases; creates_nothing).
  assert (Hadv : forall id t, costs p 0 (advance_clock env id t))
    by (intros; creation_cases; creates_nothing).
  assert (Hprint : forall m, costs p 0 (print m))
    by (intros; creation_cases; apply costs_emit; reflexivity).
  assert (Hlift : forall r : result Z, costs p 0 (lift r))
    by (intros; apply costs_lift).
  unfold run_recover.
  apply costs_bind_l; [apply Hprint|]. intros _.
  apply costs_bind_r; [apply Hs|]. intros s.
  repeat (apply costs_bind_l; [solve [auto]|]; intros ?).
  apply costs_bind_l; [destruct auto_adv; [apply Ha | apply costs_ret]|].
  intros _. apply costs_ret.
Qed.

Lemma creates_random_randint (lo hi : Z) : costs p 0 (random_randint env lo hi).
Proof.
  intros w. unfold random_randint, count_events.
  destruct (hi <? lo); cbn [raise snd trace filter]; [lia|].
  creation_cases; cbn; lia.
Qed.

Lemma creates_batch_entity (args : Args) (price_id : string) (i : Z) :
  costs p 1 (batch_entity env args price_id i).
Proof.
  pose proof creates_run_linger as Hl. pose proof creates_run_recover as Hr.
  pose proof creates_random_randint as Hd.
  assert (Hprint : forall m, costs p 0 (print m))
    by (intros; creation_cases; apply costs_emit; reflexivity).
  assert (Hsleep : forall d, costs p 0 (sleep d))
    by (intros; creation_cases; apply costs_sleep; reflexivity).
  unfold batch_entity.
  apply costs_bind_l; [apply Hd|]. intros paid.
  apply costs_bind_r; [|intros _; apply costs_bind_l; [apply Hsleep|];
                        intros _; apply costs_ret].
  destruct (arg_scenario args).
  - apply costs_bind_l; [apply Hd|]. intros past_due.
    apply costs_bind_l; [apply Hprint|]. intros _.
    apply costs_bind_r; [apply Hr | intros _; apply costs_ret].
  - apply costs_bind_l; [apply Hprint|]. intros _.
    apply costs_bind_r; [apply Hl | intros _; apply costs_ret].
Qed.

Lemma creates_main_batch (args : Args) (price_id : string) :
  costs p (Z.to_nat (arg_count args)) (main_batch env args price_id).
Proof.
  assert (Hprint : forall m, costs p 0 (print m))
    by (intros; creation_cases; apply costs_emit; reflexivity).
  unfold main_batch. apply costs_bind_l; [apply Hprint|]. intros _.
  apply costs_weaken with (n := (Z.to_nat (arg_count args) * 1)%nat); [lia|].
  apply costs_for_range. intros i. apply creates_batch_entity.
Qed.

End Creations.

(** X18: a scenario creates at most one test clock, one customer and one
    subscription, and a batch of [--count] entities at most that many of
    each: no entity is ever given a second clock, customer or
    subscription, whatever fails on the way. *)
Theorem one_of_each_per_entity (env : Env) (p : Event -> bool) :
  p = is_clock_create \/ p = is_customer_create \/ p = is_subscription_create ->
  (forall email price_id paid_months total_months auto_adv,
      costs p 1 (run_linger env email price_id paid_months total_months auto_adv))
  /\ (forall email price_id paid_months past_due_months total_months auto_adv,
        costs p 1 (run_recover env email price_id paid_months past_due_months
                               total_months auto_adv))
  /\ (forall args price_id,
        costs p (Z.to_nat (arg_count args)) (main_batch env args price_id)).
Proof.
  intros Hp. split; [|split]; intros.
  - now apply creates_run_linger.
  - now apply creates_run_recover.
  - now apply creates_main_batch.
Qed.

Lemma one_of_each_per_entity_witness :
  costs is_customer_create 3 (main_batch throttled_platform batch_of_three "price_1")
  /\ count_events is_customer_create
       (trace (snd (main_batch throttled_platform batch_of_three "price_1" world0)))
     = 1%nat.
Proof.
  split; [|vm_compute; reflexivity].
  apply (proj2 (proj2 (@one_of_each_per_entity throttled_platform is_customer_create
                         (or_intror (or_introl eq_refl))))
           batch_of_three "price_1").
Defined.

(** ** Text *)

Lemma list_ascii_of_string_app (a b : string) :
  list_ascii_of_string (a ++ b) = (list_ascii_of_string a ++ list_ascii_of_string b)%list.
Proof. induction a as [|c a IH]; cbn; [reflexivity | now rewrite IH]. Qed.

Lemma string_of_list_ascii_app (a b : list ascii) :
  string_of_list_ascii (a ++ b) = (string_of_list_ascii a ++ string_of_list_ascii b)%string.
Proof. induction a as [|c a IH]; cbn; [reflexivity | now rewrite IH]. Qed.

Lemma reversed_app (a b : string) : reversed (a ++ b) = (reversed b ++ reversed a)%string.
Proof.
  unfold reversed.
  now rewrite list_ascii_of_string_app, rev_app_distr, string_of_list_ascii_app.
Qed.

Lemma string_app_assoc (a b c : string) : ((a ++ b) ++ c = a ++ b ++ c)%string.
Proof. induction a as [|x a IH]; cbn; [reflexivity | now rewrite IH]. Qed.

Lemma string_app_empty (a : string) : (a ++ "")%string = a.
Proof. induction a as [|x a IH]; cbn; [reflexivity | now rewrite IH]. Qed.

Lemma prefix_app (p s : string) : String.prefix p (p ++ s) = true.
Proof.
  induction p as [|c p IH]; cbn; [now destruct s|].
  destruct (ascii_dec c c); [exact IH | congruence].
Qed.

Lemma startswith_app (p s : string) : startswith (p ++ s) p = true.
Proof. apply prefix_app. Qed.

Lemma endswith_app (s suffix : string) : endswith (s ++ suffix) suffix = true.
Proof. unfold endswith. rewrite reversed_app. apply prefix_app. Qed.

Lemma truthy_str_app_r (a b : string) : truthy_str b = true -> truthy_str (a ++ b) = true.
Proof.
  unfold truthy_str. destruct a as [|c a]; cbn; [trivial | reflexivity].
Qed.

(** ** Names given and names looked for *)

Lemma wants_scenario_clock (t : string) :
  cleanup_wants_clock (Some ("learn_tc_" ++ t)%string) = true.
Proof.
  unfold cleanup_wants_clock, and_then.
  now rewrite (startswith_app "learn_tc_" t).
Qed.

Lemma misses_batch_email (prefix : string) (i : Z) :
  cleanup_wants_customer (Some (batch_email prefix i)) = false.
Proof.
  unfold cleanup_wants_customer, and_then, batch_email, endswith.
  rewrite <- string_app_assoc, reversed_app. cbn.
  now rewrite andb_false_r.
Qed.

(** X19: what the cleanup of [generate_past_due_new.py] finds of the
    script's own work.  Every test clock a scenario creates has a name
    the cleanup looks for; no customer that the batch mode creates has an
    email it looks for, whatever [--email-prefix] is, since the batch
    emails end in [@actual.com] and the cleanup wants [@example.com]. *)
Theorem cleanup_finds_clocks_not_batch_customers (env : Env) :
  (forall args price_id,
      emits (fun ev => names_clock_for_cleanup ev /\ names_customer_past_cleanup ev)
            (main_batch env args price_id))
  /\ (forall email price_id paid_months total_months auto_adv,
        emits names_clock_for_cleanup
              (run_linger env email price_id paid_months total_months auto_adv))
  /\ (forall email price_id paid_months past_due_months total_months auto_adv,
        emits names_clock_for_cleanup
              (run_recover env email price_id paid_months past_due_months total_months
                           auto_adv)).
Proof.
  split; [|split]; intros.
  - apply em_main_batch
      with (emails := fun e => cleanup_wants_customer (Some e) = false);
      try (intros; split; exact I).
    + intros t ok. split; [apply wants_scenario_clock | exact I].
    + intros e c ok He. split; [exact I | exact He].
    + intros i. apply misses_batch_email.
  - apply em_run_linger with (emails := fun _ => True);
      try (intros; exact I). intros t ok. apply wants_scenario_clock.
  - apply em_run_recover with (emails := fun _ => True);
      try (intros; exact I). intros t ok. apply wants_scenario_clock.
Qed.

(** X20: the cleanup of [generate_date.py] looks for exactly the names
    the script gives: every customer email and every clock name it makes
    is wanted.  The clocks of [generate_upgrade.py], named alike, are
    wanted too, by this cleanup and by that of
    [generate_past_due_new.py], while the customers of
    [generate_upgrade.py] are not. *)
Theorem main_cleanup_wants_what_main_names (i now_ts : Z) :
  (forall canceled,
      main_cleanup_wants_customer (Some (customer_email canceled i)) = true)
  /\ main_cleanup_wants_clock (Some (clock_name i now_ts)) = true
  /\ cleanup_wants_clock (Some (clock_name i now_ts)) = true
  /\ main_cleanup_wants_customer (Some (upgrade_email i)) = false.
Proof.
  split; [|split; [|split]].
  - intros canceled. unfold main_cleanup_wants_customer, and_then, customer_email.
    rewrite <- string_app_assoc, endswith_app.
    destruct canceled; rewrite string_app_assoc.
    + now rewrite (startswith_app "cancel"), orb_true_r.
    + now rewrite (startswith_app "active").
  - unfold main_cleanup_wants_clock, and_then, clock_name.
    now rewrite (startswith_app "clock_").
  - unfold cleanup_wants_clock, and_then, clock_name.
    now rewrite (startswith_app "clock_"), orb_true_r.
  - unfold main_cleanup_wants_customer, and_then, upgrade_email.
    cbn. now rewrite andb_false_r.
Qed.

(** ** [_load_dotenv] *)

Section Strip.

Variable drop : ascii -> bool.

Lemma lstrip_length (s : string) :
  (String.length (lstrip drop s) <= String.length s)%nat.
Proof.
  induction s as [|c s IH]; cbn; [lia|]. destruct (drop c); cbn; lia.
Qed.

Lemma rstrip_length (s : string) :
  (String.length (rstrip drop s) <= String.length s)%nat.
Proof.
  induction s as [|c s IH]; cbn; [lia|].
  destruct (rstrip drop s); [destruct (drop c)|]; cbn in *; lia.
Qed.

Lemma lstrip_shorter (s : string) :
  lstrip drop s = s \/ (String.length (lstrip drop s) < String.length s)%nat.
Proof.
  destruct s as [|c s]; cbn; [now left|].
  destruct (drop c); [right | now left].
  pose proof (lstrip_length s). lia.
Qed.

Lemma trimmed_ends (s : string) :
  trimmed drop s -> lstrip drop s = s /\ rstrip drop s = s.
Proof.
  unfold trimmed, strip. intros H.
  destruct (lstrip_shorter s) as [Hl | Hl].
  - rewrite Hl in H. now split.
  - pose proof (rstrip_length (lstrip drop s)) as Hr. rewrite H in Hr. lia.
Qed.

Lemma lstrip_all (a s : string) :
  all_of drop a = true -> lstrip drop (a ++ s) = lstrip drop s.
Proof.
  induction a as [|c a IH]; cbn; [reflexivity|].
  intros H. apply andb_prop in H as [Hc Ha]. now rewrite Hc, IH.
Qed.

Lemma rstrip_all_empty (d : string) : all_of drop d = true -> rstrip drop d = "".
Proof.
  induction d as [|c d IH]; cbn; [reflexivity|].
  intros H. apply andb_prop in H as [Hc Hd]. now rewrite IH, Hc.
Qed.

Lemma rstrip_all (s d : string) :
  all_of drop d = true -> rstrip drop (s ++ d) = rstrip drop s.
Proof.
  intros Hd. induction s as [|c s IH]; cbn.
  - now apply rstrip_all_empty.
  - now rewrite IH.
Qed.

Lemma rstrip_kept (c : ascii) (s : string) :
  drop c = false -> rstrip drop (String c s) = String c (rstrip drop s).
Proof. intros Hc. cbn. rewrite Hc. now destruct (rstrip drop s). Qed.

Lemma rstrip_after (s : string) (c : ascii) (rest : string) :
  drop c = false ->
  rstrip drop (s ++ String c rest) = (s ++ String c (rstrip drop rest))%string.
Proof.
  intros Hc. induction s as [|x s IH].
  - cbn [append]. now apply rstrip_kept.
  - cbn [append rstrip]. rewrite IH.
    destruct s; reflexivity.
Qed.

Lemma lstrip_head (c : ascii) (s : string) :
  lstrip drop (String c s) = String c s -> drop c = false.
Proof.
  cbn. destruct (drop c); [|reflexivity]. intros H.
  pose proof (lstrip_length s) as Hl. rewrite H in Hl. cbn in Hl. lia.
Qed.

(** [strip] undoes a padding with dropped characters. *)
Lemma strip_padding (a s d : string) :
  all_of drop a = true -> all_of drop d = true -> trimmed drop s ->
  strip drop (a ++ s ++ d) = s.
Proof.
  intros Ha Hd Hs. apply trimmed_ends in Hs as [Hl Hr].
  unfold strip. rewrite lstrip_all by exact Ha.
  destruct s as [|c s].
  - cbn [append]. rewrite <- (string_app_empty d), lstrip_all by exact Hd.
    reflexivity.
  - pose proof (@lstrip_head _ _ Hl) as Hc.
    cbn [append lstrip]. rewrite Hc.
    change (String c (s ++ d)%string) with (String c s ++ d)%string.
    now rewrite rstrip_all.
Qed.

Lemma rstrip_before (a : string) (c : ascii) (s : string) :
  rstrip drop (String c s) = String c s ->
  rstrip drop (a ++ String c s) = (a ++ String c s)%string.
Proof.
  intros H. induction a as [|x a IH]; [exact H|].
  cbn [append rstrip]. rewrite IH. now destruct a.
Qed.

Lemma trimmed_empty : trimmed drop "".
Proof. reflexivity. Qed.

Lemma rstrip_last (s : string) (c : ascii) :
  drop c = false -> rstrip drop (s ++ String c "") = (s ++ String c "")%string.
Proof. intros Hc. now rewrite rstrip_after. Qed.

(** A text between two kept characters is trimmed. *)
Lemma trimmed_between (c : ascii) (s : string) (c' : ascii) :
  drop c = false -> drop c' = false ->
  trimmed drop (String c (s ++ String c' "")).
Proof.
  intros Hc Hc'. unfold trimmed, strip. cbn [lstrip]. rewrite Hc.
  rewrite rstrip_kept by exact Hc. now rewrite rstrip_last.
Qed.

End Strip.

Lemma split_once_first (sep : ascii) (k v : string) :
  contains_char sep k = false ->
  split_once sep (k ++ String sep v) = Some (k, v).
Proof.
  induction k as [|c k IH]; cbn.
  - now rewrite Ascii.eqb_refl.
  - intros H. apply orb_false_elim in H as [Hc Hk].
    now rewrite Hc, IH.
Qed.

Lemma contains_char_app (c : ascii) (a b : string) :
  contains_char c (a ++ b) = contains_char c a || contains_char c b.
Proof.
  induction a as [|x a IH]; cbn; [reflexivity|]. now rewrite IH, orb_assoc.
Qed.

Lemma blank_has_no (c : ascii) (s : string) :
  is_space c = false -> blank s = true -> contains_char c s = false.
Proof.
  intros Hc. induction s as [|x s IH]; cbn; [reflexivity|].
  intros H. apply andb_prop in H as [Hx Hs]. rewrite (IH Hs), orb_false_r.
  destruct (Ascii.eqb_spec x c); [congruence | reflexivity].
Qed.

Lemma startswith_head (c : ascii) (s rest : string) (p : ascii) :
  startswith (String c s) (String p "") = false ->
  startswith (String c (s ++ rest)) (String p "") = false.
Proof.
  unfold startswith. cbn. destruct (ascii_dec p c); [|reflexivity].
  now destruct s.
Qed.

(** The line [name = value], with white space anywhere around the two
    and the value in quotes or not. *)
(** X21: a line [name = value] of the [.env] file gives back the name
    and the value: white space around the line, around the name and
    around the value is dropped, and so is one pair of double or single
    quotes around the value.  The name must be plain (not empty, no
    white space at its ends, no [=], no [#] in front) and the value must
    have neither white space nor quotes at its ends. *)
Theorem dotenv_entry_of_line (a k b c q v d : string) :
  blank a = true -> blank b = true -> blank c = true -> blank d = true ->
  plain_name k -> plain_value v -> quote_mark q ->
  dotenv_entry (a ++ k ++ b ++ "=" ++ c ++ q ++ v ++ q ++ d) = Some (k, v).
Proof.
  intros Ha Hb Hc Hd (Hk & Hkt & Hke & Hkh) (Hvs & Hvd & Hvq) Hq.
  destruct k as [|k0 k]; [discriminate|].
  pose proof (@lstrip_head is_space _ _ (proj1 (@trimmed_ends is_space _ Hkt))) as Hk0.
  set (value := (c ++ q ++ v ++ q ++ d)%string).
  assert (Hline : strip is_space (a ++ String k0 k ++ b ++ "=" ++ value)
                  = (String k0 k ++ b ++ String "="%char (rstrip is_space value))%string).
  { unfold strip. rewrite lstrip_all by exact Ha.
    cbn [append lstrip]. rewrite Hk0.
    change (String k0 (k ++ b ++ String "=" value)%string)
      with (String k0 k ++ b ++ String "="%char value)%string.
    rewrite <- string_app_assoc, rstrip_after by reflexivity.
    now rewrite string_app_assoc. }
  unfold dotenv_entry. fold value. rewrite Hline.
  cbn [append truthy_str String.eqb negb orb].
  rewrite (@startswith_head _ _ _ _ Hkh).
  change (String k0 (k ++ b ++ String "="%char (rstrip is_space value))%string)
    with (String k0 k ++ b ++ String "="%char (rstrip is_space value))%string.
  rewrite <- string_app_assoc, split_once_first.
  2: { rewrite contains_char_app, Hke. now rewrite blank_has_no. }
  change (String k0 k ++ b)%string with ("" ++ String k0 k ++ b)%string.
  rewrite strip_padding; [|reflexivity | exact Hb | exact Hkt].
  f_equal. f_equal.
  assert (Hquoted : trimmed is_space (q ++ v ++ q)
                    /\ strip (is_char single_quote)
                         (strip (is_char double_quote) (q ++ v ++ q)) = v).
  { destruct Hq as [-> | [-> | ->]].
    - cbn [append]. rewrite string_app_empty. split; [exact Hvs|].
      now rewrite Hvd, Hvq.
    - split; [now apply trimmed_between|].
      rewrite strip_padding; [exact Hvq | reflexivity | reflexivity | exact Hvd].
    - split; [now apply trimmed_between|].
      assert (Hd' : trimmed (is_char double_quote)
                      (String single_quote "" ++ v ++ String single_quote ""))
        by (now apply trimmed_between).
      rewrite Hd'.
      rewrite strip_padding; [reflexivity | reflexivity | reflexivity | exact Hvq]. }
  destruct Hquoted as [Hqs Hqv].
  assert (Hvalue : strip is_space (rstrip is_space value) = (q ++ v ++ q)%string).
  { subst value.
    destruct (q ++ v ++ q)%string as [|x0 rest] eqn:E.
    - assert (Hq' : q = "" /\ v = "").
      { destruct Hq as [-> | [-> | ->]]; [|discriminate..].
        cbn in E. rewrite string_app_empty in E. now split. }
      destruct Hq' as [-> ->]. cbn [append].
      rewrite rstrip_all_empty; [reflexivity|].
      clear - Hc Hd. induction c as [|x c IH]; cbn in *; [exact Hd|].
      apply andb_prop in Hc as [Hx Hc]. now rewrite Hx, IH.
    - replace (c ++ q ++ v ++ q ++ d)%string with (c ++ (q ++ v ++ q) ++ d)%string
        by (now rewrite !string_app_assoc).
      rewrite E.
      rewrite <- string_app_assoc, rstrip_all by exact Hd.
      pose proof (@trimmed_ends is_space _ Hqs) as [_ Hr].
      rewrite rstrip_before by exact Hr.
      transitivity (strip is_space (c ++ String x0 rest ++ "")).
      + now rewrite string_app_empty.
      + now apply strip_padding. }
  rewrite Hvalue. exact Hqv.
Qed.

Lemma dotenv_entry_of_line_witness :
  dotenv_entry ("  STRIPE_SECRET_KEY = "
                ++ String double_quote ("sk_test_1" ++ String double_quote newline))
  = Some ("STRIPE_SECRET_KEY", "sk_test_1")%string.
Proof.
  apply (@dotenv_entry_of_line "  " "STRIPE_SECRET_KEY" " " " "
           (String double_quote "") "sk_test_1" newline);
    try reflexivity.
  - repeat split; reflexivity.
  - repeat split; reflexivity.
  - right. left. reflexivity.
Defined.

Lemma setenv_lookup (environ environ' : Environ) (k v name : string) :
  setenv environ k v = Val environ' ->
  environ' name = if String.eqb name k then Some v else environ name.
Proof.
  unfold setenv. destruct (contains_char zero k || contains_char zero v); [discriminate|].
  intros H. injection H as <-. reflexivity.
Qed.

Lemma dotenv_line_assigns (environ environ' : Environ) (ln name : string) :
  dotenv_line environ ln = Val environ' ->
  environ' name = environ name
  \/ (environ name = None /\ exists v, dotenv_entry ln = Some (name, v)
                                      /\ environ' name = Some v).
Proof.
  unfold dotenv_line. destruct (dotenv_entry ln) as [[k v]|].
  2: { intros H. injection H as <-. now left. }
  destruct (truthy_str k && negb (in_environ environ k)) eqn:E.
  2: { intros H. injection H as <-. now left. }
  intros H. rewrite (@setenv_lookup _ _ _ _ name H).
  destruct (String.eqb_spec name k) as [-> | Hne]; [right | now left].
  apply andb_prop in E as [_ E]. unfold in_environ in E.
  destruct (environ k); [discriminate|]. split; [reflexivity|]. now exists v.
Qed.

Lemma dotenv_lines_assign (lines : list string) :
  forall (environ : Environ) (name : string),
    dotenv_lines environ lines name = environ name
    \/ (environ name = None
        /\ exists ln v, In ln lines /\ dotenv_entry ln = Some (name, v)
                        /\ dotenv_lines environ lines name = Some v).
Proof.
  induction lines as [|ln rest IH]; intros environ name; cbn [dotenv_lines].
  - now left.
  - destruct (dotenv_line environ ln) as [environ'|e] eqn:E; [|now left].
    destruct (@dotenv_line_assigns _ _ _ name E) as [Hsame | (Hnone & v & Hentry & Hv)].
    + destruct (IH environ' name) as [H | (Hn & ln' & v & Hin & Hentry & Hv)].
      * left. congruence.
      * right. split; [congruence|]. exists ln', v. now repeat split; [right|..].
    + right. split; [exact Hnone|]. exists ln, v. repeat split; [now left | exact Hentry|].
      destruct (IH environ' name) as [H | (Hn & _)]; congruence.
Qed.

(** X22: [_load_dotenv] never changes a variable the environment already
    has, and what it adds comes from a line of the file: the process
    environment wins over the [.env] file. *)
Theorem load_dotenv_never_overrides (file : option (list string)) (environ : Environ)
    (name : string) :
  (forall value, environ name = Some value ->
                 _load_dotenv file environ name = Some value)
  /\ (forall value, _load_dotenv file environ name = Some value ->
        environ name = Some value
        \/ exists lines ln, file = Some lines /\ In ln lines
                            /\ dotenv_entry ln = Some (name, value)).
Proof.
  destruct file as [lines|]; cbn [_load_dotenv]; [|now split; [|left]].
  destruct (dotenv_lines_assign lines environ name)
    as [H | (Hn & ln & v & Hin & Hentry & Hv)].
  - rewrite H. now split; [|left].
  - split; [congruence|]. intros value Hvalue. right. exists lines, ln.
    repeat split; [exact Hin|]. congruence.
Qed.

Lemma dotenv_lines_keep (lines : list string) (environ : Environ) (name value : string) :
  environ name = Some value -> dotenv_lines environ lines name = Some value.
Proof.
  intros H. destruct (dotenv_lines_assign lines environ name) as [E | (E & _)];
    congruence.
Qed.

Lemma setenv_no_null (environ : Environ) (k v : string) :
  no_null k = true -> no_null v = true ->
  setenv environ k v
  = Val (fun name => if String.eqb name k then Some v else environ name).
Proof.
  unfold no_null, setenv. intros Hk Hv.
  apply negb_true_iff in Hk, Hv. now rewrite Hk, Hv.
Qed.

(** X23: the first line that assigns a name wins.  If the environment
    does not have the name, the lines before assign other names (and
    none of them is refused for a null character), then the variable
    gets the value of that line, whatever the lines after it say. *)
Theorem load_dotenv_first_assignment_wins (environ : Environ)
    (before : list string) (ln : string) (after : list string) (k v : string) :
  environ k = None ->
  dotenv_entry ln = Some (k, v) ->
  truthy_str k = true -> no_null k = true -> no_null v = true ->
  (forall ln' k' v', In ln' before -> dotenv_entry ln' = Some (k', v') ->
                     k' <> k /\ no_null k' = true /\ no_null v' = true) ->
  _load_dotenv (Some (before ++ ln :: after)) environ k = Some v.
Proof.
  intros Hk Hentry Htruthy Hnk Hnv. cbn [_load_dotenv].
  revert environ Hk. induction before as [|ln' before IH]; intros environ Hk Hbefore.
  - cbn [app dotenv_lines]. unfold dotenv_line. rewrite Hentry, Htruthy.
    unfold in_environ. rewrite Hk. cbn [negb andb].
    rewrite setenv_no_null by assumption.
    apply dotenv_lines_keep. now rewrite String.eqb_refl.
  - cbn [app dotenv_lines].
    assert (Hrest : forall l k' v', In l before -> dotenv_entry l = Some (k', v') ->
                                    k' <> k /\ no_null k' = true /\ no_null v' = true)
      by (intros l k' v' Hin; apply Hbefore; now right).
    unfold dotenv_line. destruct (dotenv_entry ln') as [[k' v']|] eqn:E.
    2: { now apply IH. }
    destruct (Hbefore ln' k' v' (or_introl eq_refl) E) as (Hne & Hnk' & Hnv').
    destruct (truthy_str k' && negb (in_environ environ k')); [|now apply IH].
    rewrite setenv_no_null by assumption. apply IH; [|exact Hrest].
    destruct (String.eqb_spec k k'); [congruence | exact Hk].
Qed.

Lemma load_dotenv_first_assignment_wins_witness :
  _load_dotenv (Some dotenv_file) empty_environ "STRIPE_SECRET_KEY" = Some "sk_test_1"%string.
Proof.
  apply (@load_dotenv_first_assignment_wins empty_environ
           [("# keys" ++ newline)%string; ("PRICE_ID = price_1" ++ newline)%string]
           ("STRIPE_SECRET_KEY=sk_test_1" ++ newline)%string
           [("STRIPE_SECRET_KEY=sk_test_2" ++ newline)%string]
           "STRIPE_SECRET_KEY" "sk_test_1"); try reflexivity.
  intros ln' k' v' [<- | [<- | []]] H; vm_compute in H; [discriminate|].
  injection H as <- <-. repeat split; first [discriminate | reflexivity].
Defined.

(** X24: a line whose name or value holds a null character ends the
    loading silently: the assignment is refused, and no later line of
    the file is read. *)
Theorem load_dotenv_stops_at_null (environ : Environ)
    (before : list string) (ln : string) (after : list string) (k v : string) :
  dotenv_entry ln = Some (k, v) ->
  truthy_str k = true ->
  in_environ (_load_dotenv (Some before) environ) k = false ->
  no_null k && no_null v = false ->
  forall name,
    _load_dotenv (Some (before ++ ln :: after)) environ name
    = _load_dotenv (Some before) environ name.
Proof.
  intros Hentry Htruthy Hnew Hnull name. cbn [_load_dotenv] in *.
  revert environ Hnew. induction before as [|ln' before IH]; intros environ Hnew.
  - cbn [app dotenv_lines] in *. unfold dotenv_line.
    rewrite Hentry, Htruthy, Hnew. cbn [negb andb]. unfold setenv.
    unfold no_null in Hnull. rewrite <- negb_orb in Hnull.
    apply negb_false_iff in Hnull. now rewrite Hnull.
  - cbn [app dotenv_lines] in *.
    destruct (dotenv_line environ ln'); [now apply IH | reflexivity].
Qed.

Lemma load_dotenv_stops_at_null_witness :
  _load_dotenv (Some (null_line :: dotenv_file)) empty_environ "STRIPE_SECRET_KEY" = None.
Proof.
  apply (@load_dotenv_stops_at_null empty_environ [] null_line dotenv_file
           "BAD" (String zero "") eq_refl eq_refl eq_refl eq_refl "STRIPE_SECRET_KEY").
Defined.

(** ** Housekeeping *)

Section Housework.

Context {A B : Type}.

Lemma contained_ret (a : A) : contained (kret a).
Proof. intros d. now exists a. Qed.

Lemma contained_bind (c : K A) (k : A -> K B) :
  contained c -> (forall a, contained (k a)) -> contained (kbind c k).
Proof.
  intros Hc Hk d. unfold kbind. destruct (Hc d) as (a & Ha).
  destruct (c d) as [[a' | e] d']; cbn in Ha; [|discriminate]. apply Hk.
Qed.

Lemma contained_try (c : K A) (h : exn -> K A) :
  (forall e, contained (h e)) -> contained (ktry c h).
Proof.
  intros Hh d. unfold ktry. destruct (c d) as [[a | e] d']; [now exists a | apply Hh].
Qed.

Variable P : Step -> Prop.

Lemma records_ret (a : A) : records P (kret a).
Proof. intros d. now exists []. Qed.

Lemma records_raise (e : exn) : records P (@kraise A e).
Proof. intros d. now exists []. Qed.

Lemma records_noted (s : Step) (r : result A) :
  P s -> records P (fun d => (r, noted s d)).
Proof. intros Hs d. exists [s]. split; [reflexivity | now constructor]. Qed.

Lemma records_call (c : Call) (answer : Book -> reply A) :
  (forall ok, P (Did c ok)) -> records P (call c answer).
Proof.
  intros Hc d. unfold call.
  destruct (answer (book d)); (eexists [_]; split; [reflexivity | now constructor]).
Qed.

Lemma records_bind (c : K A) (k : A -> K B) :
  records P c -> (forall a, records P (k a)) -> records P (kbind c k).
Proof.
  intros Hc Hk d. unfold kbind. destruct (Hc d) as (l & Hl & Pl).
  destruct (c d) as [[a | e] d']; cbn in *; [|now exists l].
  destruct (Hk a d') as (l' & Hl' & Pl').
  exists (l' ++ l). split; [now rewrite Hl', Hl, app_assoc | now apply Forall_app].
Qed.

Lemma records_try (c : K A) (h : exn -> K A) :
  records P c -> (forall e, records P (h e)) -> records P (ktry c h).
Proof.
  intros Hc Hh d. unfold ktry. destruct (Hc d) as (l & Hl & Pl).
  destruct (c d) as [[a | e] d']; cbn in *; [now exists l|].
  destruct (Hh e d') as (l' & Hl' & Pl').
  exists (l' ++ l). split; [now rewrite Hl', Hl, app_assoc | now apply Forall_app].
Qed.

(** What comes after a piece that always raises is never run. *)
Lemma records_cut (c : K A) (k : A -> K B) :
  records P c -> (forall d, exists e, fst (c d) = Exc e) -> records P (kbind c k).
Proof.
  intros Hc He d. unfold kbind. destruct (Hc d) as (l & Hl & Pl).
  destruct (He d) as (e & E).
  destruct (c d) as [[a | e'] d']; cbn in *; [discriminate | now exists l].
Qed.

End Housework.

Lemma contained_nap (d : Q) : contained (nap d).
Proof. intros desk. now exists tt. Qed.

Lemma contained_say (text : string) : contained (say text).
Proof. intros d. now exists tt. Qed.

Lemma contained_pass (e : exn) : contained (pass e).
Proof. apply contained_ret. Qed.

Lemma records_nap (P : Step -> Prop) (d : Q) : P (Napped d) -> records P (nap d).
Proof. intros H. now apply records_noted. Qed.

Lemma records_say (P : Step -> Prop) (text : string) : P (Said text) -> records P (say text).
Proof. intros H. now apply records_noted. Qed.

Lemma records_pass (P : Step -> Prop) (e : exn) : records P (pass e).
Proof. apply records_ret. Qed.

Lemma records_for_items {A : Type} (P : Step -> Prop) (body : A -> K unit) (xs : list A) :
  (forall x, In x xs -> records P (body x)) -> records P (for_items body xs).
Proof.
  induction xs as [|x rest IH]; intros Hb; cbn [for_items].
  - apply records_ret.
  - apply records_bind; [apply Hb; now left|]. intros _. apply IH.
    intros y Hy. apply Hb. now right.
Qed.

Lemma records_for_listing {A : Type} (P : Step -> Prop) (c : Call)
    (answer : Book -> Listing A) (body : A -> K unit) :
  (forall ok, P (Did c ok)) ->
  (forall h x, In x (yielded (answer h)) -> records P (body x)) ->
  records P (for_listing c answer body).
Proof.
  intros Hc Hb d. unfold for_listing.
  set (page := answer (book d)).
  set (d1 := noted _ d).
  assert (H : records P (kbind (for_items body (yielded page))
                               (fun _ => match broke page with
                                         | None => kret tt
                                         | Some e => kraise e
                                         end))).
  { apply records_bind; [apply records_for_items; intros x Hx; now apply (Hb (book d))|].
    intros _. destruct (broke page); [apply records_raise | apply records_ret]. }
  destruct (H d1) as (l & Hl & Pl).
  exists (l ++ [Did c (match broke page with None => true | Some _ => false end)]).
  split.
  - rewrite Hl. subst d1. cbn [noted book]. now rewrite <- app_assoc.
  - apply Forall_app. split; [exact Pl | constructor; [apply Hc | constructor]].
Qed.

Lemma contained_for_items {A : Type} (body : A -> K unit) (xs : list A) :
  (forall x, contained (body x)) -> contained (for_items body xs).
Proof.
  intros Hb. induction xs as [|x rest IH]; cbn [for_items].
  - apply contained_ret.
  - apply contained_bind; [apply Hb | intros _; exact IH].
Qed.

(** A listing that breaks off makes the loop raise, once the objects it
    did yield are through. *)
Lemma broken_listing_raises {A : Type} (c : Call) (answer : Book -> Listing A)
    (body : A -> K unit) :
  (forall x, contained (body x)) ->
  (forall h, broke (answer h) <> None) ->
  forall d, exists e, fst (for_listing c answer body d) = Exc e.
Proof.
  intros Hb Hbroke d. unfold for_listing, kbind.
  set (d1 := noted _ d).
  destruct (contained_for_items body (yielded (answer (book d))) Hb d1) as ([] & Hrun).
  destruct (for_items body (yielded (answer (book d))) d1) as [[[]|e] d2];
    cbn in Hrun; [|discriminate].
  specialize (Hbroke (book d)).
  destruct (broke (answer (book d))) as [e|]; [now exists e | congruence].
Qed.

(** A piece that is contained and records only [P] gets to a call it
    makes at its very start; what comes before or after it keeps that. *)
Lemma reaches_call {A : Type} (c : Call) (answer : Book -> reply A) :
  reaches c (call c answer).
Proof.
  intros d. unfold call.
  destruct (answer (book d)); (eexists [_], _; split; [reflexivity | now left]).
Qed.

Lemma reaches_for_listing {A : Type} (c : Call) (answer : Book -> Listing A)
    (body : A -> K unit) :
  (forall x, records (fun _ => True) (body x)) ->
  reaches c (for_listing c answer body).
Proof.
  intros Hb d.
  assert (H : records (fun _ => True) (for_listing c answer body)).
  { apply records_for_listing; [trivial | intros; apply Hb]. }
  unfold for_listing in *.
  set (page := answer (book d)).
  set (d1 := noted _ d).
  assert (H1 : records (fun _ => True)
                 (kbind (for_items body (yielded page))
                        (fun _ => match broke page with
                                  | None => kret tt
                                  | Some e => kraise e
                                  end))).
  { apply records_bind; [apply records_for_items; intros; apply Hb|].
    intros _. destruct (broke page); [apply records_raise | apply records_ret]. }
  destruct (H1 d1) as (l & Hl & _).
  eexists (l ++ [_]), _. split.
  - rewrite Hl. subst d1. cbn [noted book]. now rewrite <- app_assoc.
  - apply in_or_app. right. now left.
Qed.

Lemma reaches_try {A : Type} (c : Call) (k : K A) (h : exn -> K A) :
  reaches c k -> (forall e, records (fun _ => True) (h e)) -> reaches c (ktry k h).
Proof.
  intros Hk Hh d. unfold ktry. destruct (Hk d) as (l & ok & Hl & Hin).
  destruct (k d) as [[a | e] d']; cbn in *; [now exists l, ok|].
  destruct (Hh e d') as (l' & Hl' & _).
  exists (l' ++ l), ok. split; [now rewrite Hl', Hl, app_assoc|].
  apply in_or_app. now right.
Qed.

Lemma reaches_after {A B : Type} (c : Call) (k1 : K A) (k2 : A -> K B) :
  contained k1 -> records (fun _ => True) k1 -> (forall a, reaches c (k2 a)) ->
  reaches c (kbind k1 k2).
Proof.
  intros Hc Hr Hk d. unfold kbind. destruct (Hc d) as (a & Ha).
  destruct (Hr d) as (l & Hl & _).
  destruct (k1 d) as [[a' | e] d']; cbn in *; [|discriminate].
  destruct (Hk a' d') as (l' & ok & Hl' & Hin).
  exists (l' ++ l), ok. split; [now rewrite Hl', Hl, app_assoc|].
  apply in_or_app. now left.
Qed.

Lemma reaches_before {A B : Type} (c : Call) (k1 : K A) (k2 : A -> K B) :
  reaches c k1 -> (forall a, records (fun _ => True) (k2 a)) ->
  reaches c (kbind k1 k2).
Proof.
  intros Hk Hr d. unfold kbind. destruct (Hk d) as (l & ok & Hl & Hin).
  destruct (k1 d) as [[a | e] d']; cbn in *; [|now exists l, ok].
  destruct (Hr a d') as (l' & Hl' & _).
  exists (l' ++ l), ok. split; [now rewrite Hl', Hl, app_assoc|].
  apply in_or_app. now right.
Qed.

(** Scripts of housekeeping, piece by piece. *)
Ltac housework tac :=
  lazymatch goal with
  | |- records _ (kbind _ _) => apply records_bind; [|intros ?]; housework tac
  | |- records _ (ktry _ _) => apply records_try; [|intros ?]; housework tac
  | |- records _ (kret _) => apply records_ret
  | |- records _ (kraise _) => apply records_raise
  | |- records _ (pass _) => apply records_pass
  | |- records _ (nap _) => apply records_nap; tac
  | |- records _ (say _) => apply records_say; tac
  | |- records _ (call _ _) => apply records_call; intros ?; tac
  | |- records _ (if ?b then _ else _) => destruct b eqn:?; housework tac
  | |- contained (kbind _ _) => apply contained_bind; [|intros ?]; housework tac
  | |- contained (ktry _ _) => apply contained_try; intros ?; housework tac
  | |- contained (kret _) => apply contained_ret
  | |- contained (pass _) => apply contained_pass
  | |- contained (nap _) => apply contained_nap
  | |- contained (say _) => apply contained_say
  | |- contained (if ?b then _ else _) => destruct b; housework tac
  | |- _ => tac
  end.

Section Cleanup.

Variable office : Office.

Lemma contained_do_cleanup (delete : bool) : contained (do_cleanup office delete).
Proof. unfold do_cleanup. housework idtac. Qed.

Lemma contained_main_do_cleanup : contained (main_do_cleanup office).
Proof. unfold main_do_cleanup. housework idtac. Qed.

Lemma contained_cleanup_subscription (delete : bool) (sub : string) :
  contained (cleanup_subscription office delete sub).
Proof. unfold cleanup_subscription. housework idtac. Qed.

Lemma contained_main_cleanup_subscription (sub : string) :
  contained (main_cleanup_subscription office sub).
Proof. unfold main_cleanup_subscription. housework idtac. Qed.

(** What the steps of [do_cleanup] have to satisfy for the whole of it
    to record only [P]: a deletion is looked at only for what was listed
    and wanted. *)
Section Wanted.

Variable P : Step -> Prop.
Hypothesis naps : forall d, P (Napped d).
Hypothesis says : forall t, P (Said t).
Hypothesis customers_listed : forall ok, P (Did ListCustomers ok).
Hypothesis subscriptions_listed : forall c ok, P (Did (ListSubscriptions c) ok).
Hypothesis clocks_listed : forall ok, P (Did ListClocks ok).
Hypothesis customer_deleted :
  forall c ok, listed_customer office cleanup_wants_customer c ->
               P (Did (DeleteCustomer (row_id c)) ok).
Hypothesis subscription_deleted :
  forall c h sub ok,
    listed_customer office cleanup_wants_customer c ->
    In sub (yielded (list_subscriptions office h (row_id c))) ->
    P (Did (DeleteSubscription sub) ok).
Hypothesis clock_deleted :
  forall r ok, listed_named (list_clocks office) cleanup_wants_clock r ->
               P (Did (DeleteClock (named_id r)) ok).

Lemma records_cleanup_customer (delete : bool) (h : Book) (cust : CustomerRow) :
  In cust (yielded (list_customers office h)) ->
  records P (cleanup_customer office delete cust).
Proof.
  intros Hin. unfold cleanup_customer.
  apply records_try; [|intros; apply records_pass].
  destruct (cleanup_wants_customer (row_email cust)) eqn:W; [|apply records_ret].
  assert (Hl : listed_customer office cleanup_wants_customer cust)
    by (split; [now exists h | exact W]).
  apply records_bind; [now apply records_say|]. intros _.
  apply records_bind.
  - apply records_for_listing; [auto|]. intros h' sub Hsub.
    unfold cleanup_subscription. housework ltac:(eauto).
  - intros _. housework ltac:(eauto).
Qed.

Lemma records_cleanup_clock (delete : bool) (h : Book) (tc : NamedRow) :
  In tc (yielded (list_clocks office h)) ->
  records P (cleanup_clock office delete tc).
Proof.
  intros Hin. unfold cleanup_clock.
  apply records_try; [|intros; apply records_pass].
  destruct (cleanup_wants_clock (named_name tc)) eqn:W; [|apply records_ret].
  assert (Hl : listed_named (list_clocks office) cleanup_wants_clock tc)
    by (split; [now exists h | exact W]).
  housework ltac:(eauto).
Qed.

Lemma records_do_cleanup (delete : bool) : records P (do_cleanup office delete).
Proof.
  unfold do_cleanup.
  apply records_bind; [now apply records_say|]. intros _.
  apply records_bind.
  { apply records_try; [|intros; apply records_pass].
    apply records_for_listing; [auto|]. intros h cust. apply records_cleanup_customer. }
  intros _. apply records_bind.
  { apply records_try; [|intros; apply records_pass].
    apply records_for_listing; [auto|]. intros h tc. apply records_cleanup_clock. }
  intros _. now apply records_say.
Qed.

End Wanted.

(** The same for the [do_cleanup] of [generate_date.main]. *)
Section WantedByMain.

Variable P : Step -> Prop.
Hypothesis naps : forall d, P (Napped d).
Hypothesis says : forall t, P (Said t).
Hypothesis customers_listed : forall ok, P (Did ListCustomers ok).
Hypothesis subscriptions_listed : forall c ok, P (Did (ListSubscriptions c) ok).
Hypothesis clocks_listed : forall ok, P (Did ListClocks ok).
Hypothesis products_listed : forall ok, P (Did ListProducts ok).
Hypothesis prices_listed : forall p ok, P (Did (ListPrices p) ok).
Hypothesis customer_deleted :
  forall c ok, listed_customer office main_cleanup_wants_customer c ->
               P (Did (DeleteCustomer (row_id c)) ok).
Hypothesis subscription_deleted :
  forall c h sub ok,
    listed_customer office main_cleanup_wants_customer c ->
    In sub (yielded (list_subscriptions office h (row_id c))) ->
    P (Did (DeleteSubscription sub) ok).
Hypothesis clock_deleted :
  forall r ok, listed_named (list_clocks office) main_cleanup_wants_clock r ->
               P (Did (DeleteClock (named_id r)) ok).
Hypothesis product_deleted :
  forall r ok, listed_named (list_products office) main_cleanup_wants_product r ->
               P (Did (DeleteProduct (named_id r)) ok).
Hypothesis price_deleted :
  forall r h price ok,
    listed_named (list_products office) main_cleanup_wants_product r ->
    In price (yielded (list_prices office h (named_id r))) ->
    P (Did (DeletePrice price) ok).

Lemma records_main_cleanup_customer (h : Book) (cust : CustomerRow) :
  In cust (yielded (list_customers office h)) ->
  records P (main_cleanup_customer office cust).
Proof.
  intros Hin. unfold main_cleanup_customer.
  apply records_try; [|intros; apply records_pass].
  destruct (main_cleanup_wants_customer (row_email cust)) eqn:W; [|apply records_ret].
  assert (Hl : listed_customer office main_cleanup_wants_customer cust)
    by (split; [now exists h | exact W]).
  apply records_bind.
  - apply records_for_listing; [auto|]. intros h' sub Hsub.
    unfold main_cleanup_subscription. housework ltac:(eauto).
  - intros _. housework ltac:(eauto).
Qed.

Lemma records_main_cleanup_clock (h : Book) (tc : NamedRow) :
  In tc (yielded (list_clocks office h)) ->
  records P (main_cleanup_clock office tc).
Proof.
  intros Hin. unfold main_cleanup_clock.
  apply records_try; [|intros; apply records_pass].
  destruct (main_cleanup_wants_clock (named_name tc)) eqn:W; [|apply records_ret].
  assert (Hl : listed_named (list_clocks office) main_cleanup_wants_clock tc)
    by (split; [now exists h | exact W]).
  housework ltac:(eauto).
Qed.

Lemma records_main_cleanup_product (h : Book) (prod : NamedRow) :
  In prod (yielded (list_products office h)) ->
  records P (main_cleanup_product office prod).
Proof.
  intros Hin. unfold main_cleanup_product.
  apply records_try; [|intros; apply records_pass].
  destruct (main_cleanup_wants_product (named_name prod)) eqn:W; [|apply records_ret].
  assert (Hl : listed_named (list_products office) main_cleanup_wants_product prod)
    by (split; [now exists h | exact W]).
  apply records_bind.
  - apply records_for_listing; [auto|]. intros h' pr Hpr.
    unfold main_cleanup_price. housework ltac:(eauto).
  - intros _. housework ltac:(eauto).
Qed.

Lemma records_main_do_cleanup : records P (main_do_cleanup office).
Proof.
  unfold main_do_cleanup.
  apply records_bind; [now apply records_say|]. intros _.
  apply records_bind.
  { apply records_try; [|intros; apply records_pass].
    apply records_for_listing; [auto|]. intros h cust.
    apply records_main_cleanup_customer. }
  intros _. apply records_bind.
  { apply records_try; [|intros; apply records_pass].
    apply records_for_listing; [auto|]. intros h tc. apply records_main_cleanup_clock. }
  intros _. apply records_bind.
  { apply records_try; [|intros; apply records_pass].
    apply records_for_listing; [auto|]. intros h prod.
    apply records_main_cleanup_product. }
  intros _. now apply records_say.
Qed.

End WantedByMain.

Lemma do_cleanup_dry_run : records (fun s => is_deletion s = false) (do_cleanup office false).
Proof.
  unfold do_cleanup.
  apply records_bind; [now apply records_say|]. intros _.
  apply records_bind.
  { apply records_try; [|intros; apply records_pass].
    apply records_for_listing; [reflexivity|]. intros h cust _.
    unfold cleanup_customer. apply records_try; [|intros; apply records_pass].
    destruct (cleanup_wants_customer (row_email cust)); [|apply records_ret].
    apply records_bind; [now apply records_say|]. intros _.
    apply records_bind; [|intros _; apply records_ret].
    apply records_for_listing; [reflexivity|]. intros h' sub _.
    unfold cleanup_subscription. housework ltac:(reflexivity). }
  intros _. apply records_bind; [|intros _; now apply records_say].
  apply records_try; [|intros; apply records_pass].
  apply records_for_listing; [reflexivity|]. intros h tc _.
  unfold cleanup_clock. housework ltac:(reflexivity).
Qed.

Lemma anything_do_cleanup (delete : bool) :
  records (fun _ => True) (do_cleanup office delete).
Proof. apply records_do_cleanup; intros; exact I. Qed.

Lemma reaches_clocks_do_cleanup (delete : bool) :
  reaches ListClocks (do_cleanup office delete).
Proof.
  unfold do_cleanup.
  apply reaches_after; [apply contained_say | now apply records_say|]. intros _.
  apply reaches_after.
  - apply contained_try. intros e. apply contained_pass.
  - apply records_try; [|intros; apply records_pass].
    apply records_for_listing; [trivial|]. intros h cust.
    apply records_cleanup_customer; intros; exact I.
  - intros _. apply reaches_before; [|intros _; now apply records_say].
    apply reaches_try; [|intros; apply records_pass].
    apply reaches_for_listing. intros tc.
    unfold cleanup_clock. housework ltac:(exact I).
Qed.

Lemma reaches_main_do_cleanup :
  reaches ListClocks (main_do_cleanup office)
  /\ reaches ListProducts (main_do_cleanup office).
Proof.
  assert (Hcust : records (fun _ => True)
                    (ktry (for_listing ListCustomers (list_customers office)
                                       (main_cleanup_customer office)) pass)).
  { apply records_try; [|intros; apply records_pass].
    apply records_for_listing; [trivial|]. intros h cust.
    apply records_main_cleanup_customer; intros; exact I. }
  assert (Hclock : records (fun _ => True)
                     (ktry (for_listing ListClocks (list_clocks office)
                                        (main_cleanup_clock office)) pass)).
  { apply records_try; [|intros; apply records_pass].
    apply records_for_listing; [trivial|]. intros h tc.
    apply records_main_cleanup_clock; intros; exact I. }
  assert (Hprod : records (fun _ => True)
                    (ktry (for_listing ListProducts (list_products office)
                                       (main_cleanup_product office)) pass)).
  { apply records_try; [|intros; apply records_pass].
    apply records_for_listing; [trivial|]. intros h prod.
    apply records_main_cleanup_product; intros; exact I. }
  assert (Hpass : forall c : K unit, contained (ktry c pass))
    by (intros c; apply contained_try; intros e; apply contained_pass).
  unfold main_do_cleanup. split.
  - apply reaches_after; [apply contained_say | now apply records_say|]. intros _.
    apply reaches_after; [apply Hpass | exact Hcust|]. intros _.
    apply reaches_before.
    + apply reaches_try; [|intros; apply records_pass].
      apply reaches_for_listing. intros tc.
      unfold main_cleanup_clock. housework ltac:(exact I).
    + intros _. apply records_bind; [exact Hprod | intros _; now apply records_say].
  - apply reaches_after; [apply contained_say | now apply records_say|]. intros _.
    apply reaches_after; [apply Hpass | exact Hcust|]. intros _.
    apply reaches_after; [apply Hpass | exact Hclock|]. intros _.
    apply reaches_before; [|intros _; now apply records_say].
    apply reaches_try; [|intros; apply records_pass].
    apply reaches_for_listing. intros prod.
    unfold main_cleanup_product.
    apply records_try; [|intros; apply records_pass].
    destruct (main_cleanup_wants_product (named_name prod)); [|apply records_ret].
    apply records_bind.
    + apply records_for_listing; [trivial|]. intros h pr _.
      unfold main_cleanup_price. housework ltac:(exact I).
    + intros _. housework ltac:(exact I).
Qed.

(** A customer whose subscriptions cannot be listed to the end. *)
Section Unlistable.

Variable id : string.
Hypothesis breaks : forall h, broke (list_subscriptions office h id) <> None.

Lemma kept_cleanup_customer (delete : bool) (cust : CustomerRow) :
  records (keeps_customer id) (cleanup_customer office delete cust).
Proof.
  unfold cleanup_customer. apply records_try; [|intros; apply records_pass].
  destruct (cleanup_wants_customer (row_email cust)); [|apply records_ret].
  apply records_bind; [now apply records_say|]. intros _.
  assert (Hsubs : records (keeps_customer id)
                    (for_listing (ListSubscriptions (row_id cust))
                       (fun h => list_subscriptions office h (row_id cust))
                       (cleanup_subscription office delete))).
  { apply records_for_listing; [reflexivity|]. intros h sub _.
    unfold cleanup_subscription. housework ltac:(reflexivity). }
  destruct (String.eqb_spec (row_id cust) id) as [E | Hne].
  - apply records_cut; [exact Hsubs|].
    apply broken_listing_raises; [apply contained_cleanup_subscription|].
    intros h. rewrite E. apply breaks.
  - apply records_bind; [exact Hsubs|]. intros _.
    housework ltac:(try reflexivity).
    unfold keeps_customer. cbn. now apply String.eqb_neq.
Qed.

Lemma kept_main_cleanup_customer (cust : CustomerRow) :
  records (keeps_customer id) (main_cleanup_customer office cust).
Proof.
  unfold main_cleanup_customer. apply records_try; [|intros; apply records_pass].
  destruct (main_cleanup_wants_customer (row_email cust)); [|apply records_ret].
  assert (Hsubs : records (keeps_customer id)
                    (for_listing (ListSubscriptions (row_id cust))
                       (fun h => list_subscriptions office h (row_id cust))
                       (main_cleanup_subscription office))).
  { apply records_for_listing; [reflexivity|]. intros h sub _.
    unfold main_cleanup_subscription. housework ltac:(reflexivity). }
  destruct (String.eqb_spec (row_id cust) id) as [E | Hne].
  - apply records_cut; [exact Hsubs|].
    apply broken_listing_raises; [apply contained_main_cleanup_subscription|].
    intros h. rewrite E. apply breaks.
  - apply records_bind; [exact Hsubs|]. intros _.
    housework ltac:(try reflexivity).
    unfold keeps_customer. cbn. now apply String.eqb_neq.
Qed.

Lemma kept_do_cleanup (delete : bool) : records (keeps_customer id) (do_cleanup office delete).
Proof.
  unfold do_cleanup.
  apply records_bind; [now apply records_say|]. intros _.
  apply records_bind.
  { apply records_try; [|intros; apply records_pass].
    apply records_for_listing; [reflexivity|]. intros h cust _.
    apply kept_cleanup_customer. }
  intros _. apply records_bind; [|intros _; now apply records_say].
  apply records_try; [|intros; apply records_pass].
  apply records_for_listing; [reflexivity|]. intros h tc _.
  unfold cleanup_clock. housework ltac:(reflexivity).
Qed.

Lemma kept_main_do_cleanup : records (keeps_customer id) (main_do_cleanup office).
Proof.
  unfold main_do_cleanup.
  apply records_bind; [now apply records_say|]. intros _.
  apply records_bind.
  { apply records_try; [|intros; apply records_pass].
    apply records_for_listing; [reflexivity|]. intros h cust _.
    apply kept_main_cleanup_customer. }
  intros _. apply records_bind.
  { apply records_try; [|intros; apply records_pass].
    apply records_for_listing; [reflexivity|]. intros h tc _.
    unfold main_cleanup_clock. housework ltac:(reflexivity). }
  intros _. apply records_bind; [|intros _; now apply records_say].
  apply records_try; [|intros; apply records_pass].
  apply records_for_listing; [reflexivity|]. intros h prod _.
  unfold main_cleanup_product. apply records_try; [|intros; apply records_pass].
  destruct (main_cleanup_wants_product (named_name prod)); [|apply records_ret].
  apply records_bind.
  - apply records_for_listing; [reflexivity|]. intros h' pr _.
    unfold main_cleanup_price. housework ltac:(reflexivity).
  - intros _. housework ltac:(reflexivity).
Qed.

End Unlistable.

End Cleanup.

(** X25: [do_cleanup] of [generate_past_due_new.py] lets no exception
    out; it deletes only customers that a listing yielded with an email
    it wants, subscriptions listed for such a customer, and test clocks
    listed with a name it wants; with [delete=False] it deletes nothing;
    and it always gets to the test clocks, whatever the customers' part
    met. *)
Theorem do_cleanup_deletes_only_wanted (office : Office) (delete : bool) :
  contained (do_cleanup office delete)
  /\ records (deletes_only_wanted office cleanup_wants_customer cleanup_wants_clock
                                  (fun _ => false))
             (do_cleanup office delete)
  /\ records (fun s => is_deletion s = false) (do_cleanup office false)
  /\ reaches ListClocks (do_cleanup office delete).
Proof.
  split; [apply contained_do_cleanup|].
  split; [|split; [apply do_cleanup_dry_run | apply reaches_clocks_do_cleanup]].
  apply records_do_cleanup; intros; cbn; eauto.
Qed.

(** X26: [do_cleanup] of [generate_date.main] lets no exception out; it
    deletes only customers, test clocks and products that a listing
    yielded with an email or a name it wants, and the subscriptions and
    prices listed for them; and it always gets to the test clocks and to
    the products. *)
Theorem main_do_cleanup_deletes_only_wanted (office : Office) :
  contained (main_do_cleanup office)
  /\ records (deletes_only_wanted office main_cleanup_wants_customer
                                  main_cleanup_wants_clock main_cleanup_wants_product)
             (main_do_cleanup office)
  /\ reaches ListClocks (main_do_cleanup office)
  /\ reaches ListProducts (main_do_cleanup office).
Proof.
  split; [apply contained_main_do_cleanup|].
  split; [|apply reaches_main_do_cleanup].
  apply records_main_do_cleanup; intros; cbn; eauto.
Qed.

(** X27: a customer whose subscriptions cannot be listed to the end is
    not deleted, by either cleanup: the failure of the listing skips the
    rest of the customer's round. *)
Theorem unlistable_customer_is_kept (office : Office) (id : string) (delete : bool) :
  (forall h, broke (list_subscriptions office h id) <> None) ->
  records (keeps_customer id) (do_cleanup office delete)
  /\ records (keeps_customer id) (main_do_cleanup office).
Proof.
  intros H. split; [now apply kept_do_cleanup | now apply kept_main_do_cleanup].
Qed.

Lemma unlistable_customer_is_kept_witness :
  records (keeps_customer "cus_1") (do_cleanup deaf_office true)
  /\ records (keeps_customer "cus_1") (main_do_cleanup deaf_office)
  /\ existsb (deletes_customer "cus_1")
             (book (snd (do_cleanup tidy_office true desk0))) = true.
Proof.
  split; [|split; [|reflexivity]];
    apply (@unlistable_customer_is_kept deaf_office "cus_1" true); discriminate.
Defined.

(** ** The upgrade of [generate_upgrade.py] *)

(** Every answer the platform can give to the calls of an upgrade. *)
Ltac platform_answers :=
  repeat match goal with
         | |- context [match ?answer with Reply _ => _ | Error _ => _ end] =>
             destruct answer as [[]|?]; cbn [fst snd book upgrades noted]
         end.

Ltac steps_before l tail :=
  lazymatch l with
  | tail => constr:(@nil Step)
  | ?s :: ?rest => let p := steps_before rest tail in constr:(s :: p)
  end.

Ltac run_upgrade :=
  unfold upgrade_subscription, retire_subscription, create_upgraded, count_upgrade,
    say, pass, ktry, kbind, kret, call;
  cbn [fst snd book upgrades noted].

(** X28: an upgrade that is due is always counted.  Whatever the
    platform answers, even if every call is refused, no exception and no
    warning comes out: after one to five calls the script prints that the
    customer was upgraded and adds one to [summary['upgrades']]. *)
Theorem upgrade_is_counted_whatever_happens (office : Office) (price : string)
    (rec : UpgradeRec) (d : Desk) :
  exists steps,
    upgrade_subscription office price rec d
    = (Val tt, mkDesk (Said "  Upgraded" :: steps ++ book d) (upgrades d + 1))
    /\ (1 <= List.length steps <= 5)%nat
    /\ forallb is_call steps = true.
Proof.
  run_upgrade.
  destruct (rec_sub_item_id rec) as [item|]; [destruct (truthy_str item)|];
    platform_answers; unfold noted; cbn [book upgrades];
    lazymatch goal with
    | |- exists steps, (_, {| book := _ :: ?l; upgrades := _ |}) = _ /\ _ =>
        let p := steps_before l (book d) in exists p
    end;
    (split; [reflexivity | split; [cbn; lia | reflexivity]]).
Qed.

(** X29: the fallback of an upgrade.  The old subscription is asked to be
    deleted, and a new subscription at the upgrade price is asked for,
    exactly when no update of the subscription item went through (or the
    entry has no item id); the new one is asked for whether or not the
    old one could be deleted or set to end with its period. *)
Theorem upgrade_falls_back_to_a_new_subscription (office : Office) (price : string)
    (rec : UpgradeRec) (d : Desk) :
  exists steps,
    book (snd (upgrade_subscription office price rec d)) = steps ++ book d
    /\ existsb (subscribes (rec_customer_id rec) price) steps
       = negb (existsb updates_item steps)
    /\ existsb retires steps = negb (existsb updates_item steps).
Proof.
  run_upgrade.
  destruct (rec_sub_item_id rec) as [item|]; [destruct (truthy_str item)|];
    platform_answers; unfold noted; cbn [book upgrades snd];
    lazymatch goal with
    | |- exists steps, ?l = _ /\ _ =>
        let p := steps_before l (book d) in exists p
    end;
    (split; [reflexivity|]; cbn; now rewrite ?String.eqb_refl).
Qed.
